(** * The PDF report generators of tmp/pdfs, embedded and verified

    Two scripts are covered:
    - [generate_app_summary_pdf.py]  (module [Summary]): a one-page writer
      that fails when the content does not fit;
    - [generate_technical_walkthrough_pdf.py] (module [Walkthrough]): a
      multi-page writer that starts a new page when a line does not fit.

    Both share [pdf_escape], Python's [textwrap.wrap] and the layout of the
    emitted file (header, objects, cross-reference table, trailer).

    [Summary] and [Walkthrough] are the two scripts as functions of their
    input texts, with numbers kept as exact hundredths.  [SummaryFloat] and
    [WalkthroughFloat] are the layouts on Python's [int] and [float];
    [SummaryObject], [WalkthroughObject], [SummaryProcess] and
    [WalkthroughProcess] are the builders and the scripts as they run, with
    the builder an object reached through references, a clock and a file
    system. *)

From Stdlib Require Import ZArith NArith List Ascii String Lia Bool.
From Stdlib Require Import Decimal DecimalN DecimalFacts.
From Stdlib Require Import SpecFloat.
From stdpp Require Import base option list list_numbers gmap.

Import ListNotations.
Local Open Scope list_scope.

(** ** Python values *)

(** A Python [str] is a sequence of Unicode code points; a [bytes] value is a
    sequence of octets. *)
Abbreviation str := (list N) (only parsing).
Abbreviation bytes := (list Byte.byte) (only parsing).

(** ASCII literals of the source. *)
Definition lit (s : string) : str :=
  map N_of_ascii (list_ascii_of_string s).

Arguments lit : simpl never.

(** The line feed of the source's ["\n"]. *)
Definition nl : str := [10%N].

Definition byte_of_cp (c : N) : Byte.byte := byte_of_ascii (ascii_of_N c).

(** A bytes literal [b"..."] spelled with ASCII characters. *)
Definition blit (s : string) : bytes := map byte_of_cp (lit s).

(** Python's [len], an [int]. *)
Definition len {A} (l : list A) : Z := Z.of_nat (length l).

(** Exceptions that the modelled code can raise. [FuelExhausted] and
    [Dangling] are not Python exceptions: the first marks a bounded loop of
    the model that ran out of steps, the second the use of a reference to
    no object; neither occurs. *)
Inductive exn : Type :=
  | RuntimeError (msg : list N)
  | ValueError (msg : list N)
  | IndexError
  | UnicodeEncodeError
  | OverflowError
  | FuelExhausted
  | Dangling.

Inductive result (A : Type) : Type :=
  | Ok (a : A)
  | Raise (e : exn).
Arguments Ok {A} a.
Arguments Raise {A} e.

Definition rbind {A B} (m : result A) (k : A -> result B) : result B :=
  match m with
  | Ok a => k a
  | Raise e => Raise e
  end.

Notation "'let*' x ':=' m 'in' k" := (rbind m (fun x => k))
  (at level 10, x pattern, m at level 100, k at level 200).

(** A [for] loop whose body may raise. *)
Fixpoint for_each {A S} (body : S -> A -> result S) (xs : list A) (s : S)
  : result S :=
  match xs with
  | [] => Ok s
  | x :: xs' => let* s' := body s x in for_each body xs' s'
  end.

(** *** Encoding *)

(** [s.encode('latin-1', errors='replace')]: a code point outside Latin-1
    becomes a question mark. *)
Definition encode_latin1_replace (s : str) : bytes :=
  map (fun c => if (c <? 256)%N then byte_of_cp c else byte_of_cp 63) s.

Definition is_ascii (s : str) : bool := forallb (fun c => (c <? 128)%N) s.

(** [s.encode('ascii')], strict. *)
Definition encode_ascii (s : str) : result bytes :=
  if is_ascii s then Ok (map byte_of_cp s) else Raise UnicodeEncodeError.

(** *** Numbers to text *)

Fixpoint digits_of_uint (d : Decimal.uint) : str :=
  match d with
  | Nil => []
  | D0 d => 48%N :: digits_of_uint d
  | D1 d => 49%N :: digits_of_uint d
  | D2 d => 50%N :: digits_of_uint d
  | D3 d => 51%N :: digits_of_uint d
  | D4 d => 52%N :: digits_of_uint d
  | D5 d => 53%N :: digits_of_uint d
  | D6 d => 54%N :: digits_of_uint d
  | D7 d => 55%N :: digits_of_uint d
  | D8 d => 56%N :: digits_of_uint d
  | D9 d => 57%N :: digits_of_uint d
  end.

(** [str(n)] for a non-negative [int]. *)
Definition str_of_N (n : N) : str := digits_of_uint (N.to_uint n).

(** [str(n)], also the [{n}] of an f-string. *)
Definition str_of_int (n : Z) : str :=
  match n with
  | Zneg p => 45%N :: str_of_N (Npos p)
  | _ => str_of_N (Z.to_N n)
  end.

Definition str_of_nat (n : nat) : str := str_of_N (N.of_nat n).

(** [{n:010d}] for a non-negative [int]: padded with zeros on the left to
    ten characters, longer numbers are printed in full. *)
Definition fmt_010d (n : nat) : str :=
  let ds := str_of_nat n in
  replicate (10 - length ds) 48%N ++ ds.

(** Coordinates, font sizes and gaps are Python numbers that the source
    prints with [:.2f].  In [Summary] and [Walkthrough] a number is an
    integer count of hundredths of a point, and additions, subtractions
    and comparisons are exact.  That is the arithmetic of the source on the
    numbers of the two scripts (integers, but for the font sizes 9.4, 9.5
    and 11.5, which are only printed) and on every gap that is a whole
    number of quarter points; on other gaps the [float]s of Python round.
    [SummaryFloat] and [WalkthroughFloat] further down are the same methods
    on Python's [int] and [float], and they are shown to do the same as
    [Summary] and [Walkthrough] on whole quarter points. *)
Abbreviation num := Z (only parsing).

(** An [int] literal. *)
Definition pt (n : Z) : num := (100 * n)%Z.
(** A literal [i.ff] with two decimals, [i >= 0]. *)
Definition dec (i ff : Z) : num := (100 * i + ff)%Z.

Arguments pt : simpl never.
Arguments dec : simpl never.

(** [{v:.2f}]. *)
Definition fmt_2f (v : num) : str :=
  let a := Z.abs v in
  let frac := str_of_int (a mod 100) in
  (if (v <? 0)%Z then [45%N] else [])
    ++ str_of_int (a / 100) ++ [46%N]
    ++ replicate (2 - length frac) 48%N ++ frac.

(** ["sep".join(parts)]. *)
Fixpoint join (sep : str) (parts : list str) : str :=
  match parts with
  | [] => []
  | [p] => p
  | p :: rest => p ++ sep ++ join sep rest
  end.

(** ** The text escaper *)

(** [s.replace(old, new)] for a pattern [old] of one character: every
    occurrence is replaced, scanning left to right. *)
Definition replace1 (old : N) (new : str) (s : str) : str :=
  flat_map (fun c => if (c =? old)%N then new else [c]) s.

Definition BACKSLASH : N := 92.
Definition LPAREN : N := 40.
Definition RPAREN : N := 41.

(** [text.replace('\\', '\\\\').replace('(', '\\(').replace(')', '\\)')] *)
Definition pdf_escape (text : str) : str :=
  replace1 RPAREN [BACKSLASH; RPAREN]
    (replace1 LPAREN [BACKSLASH; LPAREN]
      (replace1 BACKSLASH [BACKSLASH; BACKSLASH] text)).

(** ** Python's [textwrap.wrap]

    The source calls [textwrap.wrap(text, width=w)], so every other option of
    [TextWrapper] has its default: [expand_tabs], [replace_whitespace],
    [drop_whitespace], [break_long_words] and [break_on_hyphens] are on,
    [fix_sentence_endings] is off, both indents are empty, [tabsize] is 8 and
    [max_lines] is [None].  The definitions follow [Lib/textwrap.py]
    specialised to these values. *)

(** The regular expression classes [\w] and [\d] consult the Unicode
    character database, which is taken as a parameter.  The hyphen is not
    alphanumeric in it: with that, a run of hyphens followed by a word
    character can only be matched whole by [-{2,}\w]. *)
Class UnicodeDB := {
  isalnum : N -> bool;     (* Py_UNICODE_ISALNUM *)
  isdecimal : N -> bool;   (* Py_UNICODE_ISDECIMAL *)
  hyphen_not_alnum : isalnum 45 = false
}.

(** The database restricted to ASCII: letters and digits below 128, nothing
    above.  It agrees with Python on every ASCII text. *)
Definition ascii_isdecimal (c : N) : bool := ((48 <=? c) && (c <=? 57))%N.
Definition ascii_isalnum (c : N) : bool :=
  (ascii_isdecimal c || ((65 <=? c) && (c <=? 90)) || ((97 <=? c) && (c <=? 122)))%N.
Definition ascii_tables : UnicodeDB :=
  {| isalnum := ascii_isalnum; isdecimal := ascii_isdecimal;
     hyphen_not_alnum := eq_refl |}.

Definition HYPHEN : N := 45.
Definition SPACE : N := 32.

(** [_whitespace = '\t\n\x0b\x0c\r '] *)
Definition _whitespace : str := [9; 10; 11; 12; 13; 32]%N.
Definition is_ws (c : N) : bool := existsb (N.eqb c) _whitespace.

(** [str.isspace] on one character, which is what [str.strip()] removes. *)
Definition is_space (c : N) : bool :=
  (((9 <=? c) && (c <=? 13)) || ((28 <=? c) && (c <=? 32))
   || (c =? 133) || (c =? 160) || (c =? 5760)
   || ((8192 <=? c) && (c <=? 8202)) || (c =? 8232) || (c =? 8233)
   || (c =? 8239) || (c =? 8287) || (c =? 12288))%N.

(** [s.strip() == ''] *)
Definition strip_is_empty (s : str) : bool := forallb is_space s.

(** [text.expandtabs(tabsize)], with the column counted from [col]. *)
Fixpoint expandtabs_from (tabsize col : nat) (text : str) : str :=
  match text with
  | [] => []
  | c :: rest =>
      if (c =? 9)%N then
        if (0 <? tabsize)%nat then
          let incr := (tabsize - col mod tabsize)%nat in
          replicate incr SPACE ++ expandtabs_from tabsize (col + incr) rest
        else expandtabs_from tabsize col rest
      else
        c :: expandtabs_from tabsize
               (if ((c =? 10) || (c =? 13))%N then 0%nat else S col) rest
  end.

Definition expandtabs (tabsize : nat) (text : str) : str :=
  expandtabs_from tabsize 0 text.

(** [text.translate(unicode_whitespace_trans)] *)
Definition translate_whitespace (text : str) : str :=
  map (fun c => if is_ws c then SPACE else c) text.

Definition _munge_whitespace (text : str) : str :=
  translate_whitespace (expandtabs 8 text).

Section Wordsep.
Context {U : UnicodeDB}.

(** [\w], [letter = [^\d\W]] and [word_punct]: a word character or one
    of the seven marks ! (33), double quote (34), ' (39), & (38), . (46),
    comma (44), ? (63). *)
Definition re_word (c : N) : bool := (isalnum c || (c =? 95))%N.
Definition re_letter (c : N) : bool := re_word c && negb (isdecimal c).
Definition re_word_punct (c : N) : bool :=
  (re_word c || (c =? 33) || (c =? 34) || (c =? 39) || (c =? 38)
   || (c =? 46) || (c =? 44) || (c =? 63))%N.

(** Number of leading characters of [s] that satisfy [p]. *)
Fixpoint run_length (p : N -> bool) (s : str) : nat :=
  match s with
  | c :: rest => if p c then S (run_length p rest) else 0
  | [] => 0
  end.

Definition is_hyphen (c : N) : bool := (c =? HYPHEN)%N.

(** [-{2,}\w] matches at the head of [rest]. *)
Definition emdash_ahead (rest : str) : bool :=
  let k := run_length is_hyphen rest in
  (2 <=? k)%nat &&
  match drop k rest with
  | c :: _ => re_word c
  | [] => false
  end.

(** In the functions below [back] holds the characters before the current
    position, nearest first, and [rest] the characters from the position
    on. *)

(** [(?<=wp)] *)
Definition behind_word_punct (back : str) : bool :=
  match back with
  | c :: _ => re_word_punct c
  | [] => false
  end.

(** Second alternative, [(?<=wp) -{2,} (?=\w)]: its length when it
    matches. *)
Definition match_emdash (back rest : str) : option nat :=
  if behind_word_punct back && emdash_ahead rest
  then Some (run_length is_hyphen rest) else None.

(** [(?= lt -? lt)] *)
Definition letters_ahead (rest : str) : bool :=
  match rest with
  | a :: rest' =>
      re_letter a &&
      match rest' with
      | h :: b :: _ =>
          (is_hyphen h && re_letter b) || re_letter h
      | [h] => re_letter h
      | [] => false
      end
  | [] => false
  end.

(** [-(?: (?<=lt{2}-) | (?<=lt-lt-)) (?= lt -? lt)] at a position whose
    next character is the hyphen. *)
Definition hyphen_break (back rest : str) : bool :=
  match rest with
  | h :: rest' =>
      is_hyphen h &&
      (match back with
       | a :: b :: back' =>
           (re_letter a && re_letter b)
           || (re_letter a && is_hyphen b &&
               match back' with
               | c :: _ => re_letter c
               | [] => false
               end)
       | _ => false
       end) &&
      letters_ahead rest'
  | [] => false
  end.

(** [(?=ws|\Z)] *)
Definition end_of_word (rest : str) : bool :=
  match rest with
  | c :: _ => is_ws c
  | [] => true
  end.

(** Third alternative, [nws+? (?: hyphen | end | em-dash )], after the
    characters consumed so far (at least one): how many more characters
    the lazy repetition and the closing group consume. *)
Fixpoint match_word_tail (back rest : str) : nat :=
  if hyphen_break back rest then 1
  else if end_of_word rest then 0
  else if behind_word_punct back && emdash_ahead rest then 0
  else
    match rest with
    | c :: rest' => S (match_word_tail (c :: back) rest')
    | [] => 0
    end.

(** Length of the match of [wordsep_re] at a position; the alternatives
    are tried in order, and one of them matches wherever a character
    is left. *)
Definition wordsep_match (back rest : str) : nat :=
  match rest with
  | [] => 0
  | c :: rest' =>
      if is_ws c then run_length is_ws rest
      else
        match match_emdash back rest with
        | Some k => k
        | None => S (match_word_tail (c :: back) rest')
        end
  end.

(** [[c for c in wordsep_re.split(text) if c]]: the successive matches;
    [todo] counts the characters the current match still has to take and
    [cur] holds those it has taken. *)
Fixpoint split_scan (back rest cur : str) (todo : nat) : list str :=
  match rest with
  | [] => match cur with [] => [] | _ => [cur] end
  | c :: rest' =>
      match todo with
      | S todo' => split_scan (c :: back) rest' (cur ++ [c]) todo'
      | O =>
          (match cur with [] => [] | _ => [cur] end)
            ++ split_scan (c :: back) rest' [c]
                 (wordsep_match back rest - 1)
      end
  end.

Definition _split (text : str) : list str := split_scan [] text [] 0.

Definition _split_chunks (text : str) : list str :=
  _split (_munge_whitespace text).
End Wordsep.

(** [s.rfind('-', 0, stop)] for [0 <= stop]: the highest index below [stop]
    holding a hyphen, or -1. *)
Definition rfind_hyphen (s : str) (stop : Z) : Z :=
  let window := take (Z.to_nat stop) s in
  match list_find is_hyphen (rev window) with
  | Some (i, _) => len window - 1 - Z.of_nat i
  | None => (-1)%Z
  end.

(** [s[:stop]] and [s[stop:]]; a negative [stop] counts from the end. *)
Definition slice_index {A} (s : list A) (i : Z) : nat :=
  if (i <? 0)%Z then Z.to_nat (len s + i) else Z.to_nat i.
Definition slice_to {A} (s : list A) (stop : Z) : list A :=
  take (slice_index s stop) s.
Definition slice_from {A} (s : list A) (start : Z) : list A :=
  drop (slice_index s start) s.

(** [_handle_long_word]: [chunks] is the stack of the source with its top
    (the source's [reversed_chunks[-1]]) at the head.  Returns the stack and
    the line after the call. *)
Definition _handle_long_word (chunks cur_line : list str) (cur_len width : Z)
  : list str * list str :=
  let space_left := if (width <? 1)%Z then 1%Z else (width - cur_len)%Z in
  match chunks with
  | [] => (chunks, cur_line)
  | chunk :: below =>
      let stop :=
        if (space_left <? len chunk)%Z then
          let hyphen := rfind_hyphen chunk space_left in
          if (0 <? hyphen)%Z
             && existsb (fun c => negb (is_hyphen c)) (slice_to chunk hyphen)
          then (hyphen + 1)%Z else space_left
        else space_left in
      (slice_from chunk stop :: below, cur_line ++ [slice_to chunk stop])
  end.

(** The inner [while chunks:] loop: chunks are moved to the line while they
    fit. *)
Fixpoint fill_line (chunks cur_line : list str) (cur_len width : Z)
  : list str * list str * Z :=
  match chunks with
  | [] => ([], cur_line, cur_len)
  | chunk :: below =>
      let l := len chunk in
      if (cur_len + l <=? width)%Z
      then fill_line below (cur_line ++ [chunk]) (cur_len + l)%Z width
      else (chunks, cur_line, cur_len)
  end.

(** One pass of the outer [while chunks:] loop, for a non-empty stack. *)
Definition wrap_line (chunks lines : list str) (width : Z)
  : list str * list str :=
  let chunks :=
    match chunks, lines with
    | top :: below, _ :: _ => if strip_is_empty top then below else chunks
    | _, _ => chunks
    end in
  let '(chunks, cur_line, cur_len) := fill_line chunks [] 0 width in
  let '(chunks, cur_line) :=
    match chunks with
    | top :: _ =>
        if (width <? len top)%Z
        then _handle_long_word chunks cur_line cur_len width
        else (chunks, cur_line)
    | [] => (chunks, cur_line)
    end in
  let cur_line :=
    match last cur_line with
    | Some c => if strip_is_empty c then removelast cur_line else cur_line
    | None => cur_line
    end in
  match cur_line with
  | [] => (chunks, lines)
  | _ => (chunks, lines ++ [concat cur_line])
  end.

Fixpoint wrap_loop (fuel : nat) (chunks lines : list str) (width : Z)
  : option (list str) :=
  match chunks with
  | [] => Some lines
  | _ =>
      match fuel with
      | O => None
      | S fuel' =>
          let '(chunks', lines') := wrap_line chunks lines width in
          wrap_loop fuel' chunks' lines' width
      end
  end.

(** Every pass removes a chunk or shortens the top one, so the number of
    chunks plus the number of their characters bounds the passes. *)
Definition chunks_size (chunks : list str) : nat :=
  length chunks + length (concat chunks).

(** ["invalid width %r (must be > 0)" % self.width] *)
Definition invalid_width (width : Z) : str :=
  lit "invalid width " ++ str_of_int width ++ lit " (must be > 0)".

Definition _wrap_chunks (chunks : list str) (width : Z) : result (list str) :=
  if (width <=? 0)%Z then Raise (ValueError (invalid_width width))
  else
    match wrap_loop (S (chunks_size chunks)) chunks [] width with
    | Some lines => Ok lines
    | None => Raise FuelExhausted
    end.

(** [textwrap.wrap(text, width=width)] *)
Definition wrap {U : UnicodeDB} (text : str) (width : Z) : result (list str) :=
  _wrap_chunks (_split_chunks text) width.

(** ** Output to storage *)

(** A [pathlib.Path] by its components; [parent] drops the last one. *)
Definition Path := list string.
Definition parent (p : Path) : Path := removelast p.

(** The two calls the scripts make on the file system, in the order they are
    made.  Failures of the operating system are outside the model. *)
Inductive IOAction : Type :=
  | Mkdir (dir : Path)                     (* mkdir(parents=True, exist_ok=True) *)
  | WriteBytes (file : Path) (data : bytes).

Definition bnl : bytes := [byte_of_cp 10].

(** [b"%PDF-1.4\n%\xe2\xe3\xcf\xd3\n"] *)
Definition pdf_header : bytes :=
  blit "%PDF-1.4" ++ bnl ++ blit "%" ++ map byte_of_cp [226; 227; 207; 211]%N ++ bnl.

(** [b"0000000000 65535 f \n"] *)
Definition free_entry : bytes := blit "0000000000 65535 f " ++ bnl.

(** The text-show instruction that both builders record:
    [f"BT /{font} {size:.2f} Tf {x:.2f} {y:.2f} Td ({safe}) Tj ET"]. *)
Definition show_text (font : str) (size x y : num) (safe : str) : str :=
  lit "BT /" ++ font ++ lit " " ++ fmt_2f size ++ lit " Tf " ++ fmt_2f x
    ++ lit " " ++ fmt_2f y ++ lit " Td (" ++ safe ++ lit ") Tj ET".

Definition overflow_message : str :=
  lit "Content overflow: one-page constraint exceeded.".

(** ** generate_app_summary_pdf.py *)
Module Summary.

Definition PAGE_WIDTH : Z := 612.
Definition PAGE_HEIGHT : Z := 792.
Definition LEFT : num := pt 50.
Definition RIGHT : num := pt 50.
Definition TOP : num := pt 760.
Definition BOTTOM : num := pt 42.

Record PDFBuilder := { commands : list str }.

Definition PDFBuilder_init : PDFBuilder := {| commands := [] |}.

Definition text (self : PDFBuilder) (x y : num) (text : str)
    (font : str) (size : num) : PDFBuilder :=
  let safe := pdf_escape text in
  {| commands := commands self ++ [show_text font size x y safe] |}.

Definition prolog : list str :=
  [ lit "q 1 1 1 rg 0 0 " ++ str_of_int PAGE_WIDTH ++ lit " "
      ++ str_of_int PAGE_HEIGHT ++ lit " re f Q";
    lit "0 0 0 rg" ].

Definition content_stream (self : PDFBuilder) : bytes :=
  encode_latin1_replace (join nl (prolog ++ commands self)).

(** The list [objects] of [build]. *)
Definition build_objects (self : PDFBuilder) : result (list bytes) :=
  let stream := content_stream self in
  let objects := [] in
  let objects := objects ++
    [blit "1 0 obj << /Type /Catalog /Pages 2 0 R >> endobj" ++ bnl] in
  let objects := objects ++
    [blit "2 0 obj << /Type /Pages /Count 1 /Kids [3 0 R] >> endobj" ++ bnl] in
  let* page_obj :=
    encode_ascii
      (lit "3 0 obj << /Type /Page /Parent 2 0 R /MediaBox [0 0 "
         ++ str_of_int PAGE_WIDTH ++ lit " " ++ str_of_int PAGE_HEIGHT ++ lit "] "
         ++ lit "/Resources << /Font << /F1 4 0 R /F2 5 0 R /F3 6 0 R >> >> /Contents 7 0 R >> endobj"
         ++ nl) in
  let objects := objects ++ [page_obj] in
  let objects := objects ++
    [blit "4 0 obj << /Type /Font /Subtype /Type1 /BaseFont /Helvetica >> endobj" ++ bnl] in
  let objects := objects ++
    [blit "5 0 obj << /Type /Font /Subtype /Type1 /BaseFont /Helvetica-Bold >> endobj" ++ bnl] in
  let objects := objects ++
    [blit "6 0 obj << /Type /Font /Subtype /Type1 /BaseFont /Helvetica-Oblique >> endobj" ++ bnl] in
  let* length_text := encode_ascii (str_of_int (len stream)) in
  let objects := objects ++
    [blit "7 0 obj << /Length " ++ length_text ++ blit " >> stream" ++ bnl
       ++ stream ++ bnl ++ blit "endstream endobj" ++ bnl] in
  Ok objects.

(** The loop [for obj in objects] over the pair ([pdf], [xref_offsets]). *)
Definition place_object (st : bytes * list nat) (obj : bytes)
  : bytes * list nat :=
  let '(pdf, xref_offsets) := st in
  (pdf ++ obj, xref_offsets ++ [length pdf]).

(** The body of [for off in xref_offsets[1:]]. *)
Definition write_entry (pdf : bytes) (off : nat) : result bytes :=
  let* entry := encode_ascii (fmt_010d off ++ lit " 00000 n " ++ nl) in
  Ok (pdf ++ entry).

(** [build] up to the bytes handed to [write_bytes]. *)
Definition assemble (self : PDFBuilder) : result bytes :=
  let* objects := build_objects self in
  let pdf := pdf_header in
  let xref_offsets := [0%nat] in
  let '(pdf, xref_offsets) :=
    fold_left place_object objects (pdf, xref_offsets) in
  let xref_start := length pdf in
  let* head :=
    encode_ascii
      (lit "xref" ++ nl ++ lit "0 " ++ str_of_nat (length xref_offsets) ++ nl) in
  let pdf := pdf ++ head in
  let pdf := pdf ++ free_entry in
  let* pdf := for_each write_entry (tail xref_offsets) pdf in
  let* trailer :=
    encode_ascii
      (lit "trailer << /Size " ++ str_of_nat (length xref_offsets)
         ++ lit " /Root 1 0 R >>" ++ nl ++ lit "startxref" ++ nl
         ++ str_of_nat xref_start ++ nl ++ lit "%%EOF" ++ nl) in
  Ok (pdf ++ trailer).

Definition build (self : PDFBuilder) (output_path : Path)
  : list IOAction * result unit :=
  match assemble self with
  | Ok pdf =>
      ([Mkdir (parent output_path); WriteBytes output_path pdf], Ok tt)
  | Raise e => ([Mkdir (parent output_path)], Raise e)
  end.

Record Layout := { builder : PDFBuilder; y : num }.

Definition Layout_init (builder : PDFBuilder) : Layout :=
  {| builder := builder; y := TOP |}.

Definition _ensure_room (self : Layout) (min_y : num) : result unit :=
  if (y self <? min_y)%Z then Raise (RuntimeError overflow_message)
  else Ok tt.

Definition title (self : Layout) (t : str) : Layout :=
  {| builder := text (builder self) LEFT (y self) t (lit "F2") (pt 18);
     y := (y self - pt 22)%Z |}.

Definition subtitle (self : Layout) (t : str) : Layout :=
  {| builder := text (builder self) LEFT (y self) t (lit "F3") (dec 9 50);
     y := (y self - pt 16)%Z |}.

Definition section (self : Layout) (heading : str) : Layout :=
  {| builder := text (builder self) LEFT (y self) heading (lit "F2") (dec 11 50);
     y := (y self - pt 14)%Z |}.

(** The body of the loop of [paragraph]. *)
Definition paragraph_line (self : Layout) (line : str) : result Layout :=
  let* _ := _ensure_room self BOTTOM in
  Ok {| builder := text (builder self) LEFT (y self) line (lit "F1") (dec 9 50);
        y := (y self - pt 12)%Z |}.

Definition paragraph {U : UnicodeDB} (self : Layout) (t : str)
    (width_chars : Z) : result Layout :=
  let* lines := wrap t width_chars in
  for_each paragraph_line lines self.

(** The first line of [bullet] and the body of its loop. *)
Definition bullet_first (self : Layout) (line : str) : result Layout :=
  let* _ := _ensure_room self BOTTOM in
  Ok {| builder := text (builder self) (LEFT + pt 2)%Z (y self)
                     (lit "- " ++ line) (lit "F1") (dec 9 50);
        y := (y self - pt 12)%Z |}.

Definition bullet_line (self : Layout) (line : str) : result Layout :=
  let* _ := _ensure_room self BOTTOM in
  Ok {| builder := text (builder self) (LEFT + pt 14)%Z (y self) line
                     (lit "F1") (dec 9 50);
        y := (y self - pt 12)%Z |}.

Definition bullet {U : UnicodeDB} (self : Layout) (t : str)
    (width_chars : Z) : result Layout :=
  let* wrapped := wrap t width_chars in
  match wrapped with
  | [] => Ok self
  | first :: others =>
      let* self := bullet_first self first in
      for_each bullet_line others self
  end.

(** [self.y -= pts], exact on hundredths; [SummaryFloat.gap] is the
    subtraction of Python's numbers. *)
Definition gap (self : Layout) (pts : num) : Layout :=
  {| builder := builder self; y := (y self - pts)%Z |}.

(** The default arguments of [paragraph], [bullet] and [gap]. *)
Definition paragraph_width : Z := 102.
Definition bullet_width : Z := 96.
Definition gap_default : num := pt 7.

(** [build_summary_pdf] is a fixed sequence of calls on one [Layout]; a
    call is kept as data so that the function can be run on any such
    sequence. *)
Inductive Call : Type :=
  | Title (t : str)
  | Subtitle (t : str)
  | SectionHead (t : str)
  | Paragraph (t : str) (width_chars : Z)
  | Bullet (t : str) (width_chars : Z)
  | Gap (pts : num).

Definition perform {U : UnicodeDB} (l : Layout) (c : Call) : result Layout :=
  match c with
  | Title t => Ok (title l t)
  | Subtitle t => Ok (subtitle l t)
  | SectionHead t => Ok (section l t)
  | Paragraph t w => paragraph l t w
  | Bullet t w => bullet l t w
  | Gap pts => Ok (gap l pts)
  end.

(** [build_summary_pdf] with the calls between the creation of the layout
    and the final check given by [script]. *)
Definition build_summary_pdf_from {U : UnicodeDB} (script : list Call)
    (output_path : Path) : list IOAction * result unit :=
  let b := PDFBuilder_init in
  let l := Layout_init b in
  match for_each perform script l with
  | Raise e => ([], Raise e)
  | Ok l =>
      if (y l <? BOTTOM)%Z then ([], Raise (RuntimeError overflow_message))
      else build (builder l) output_path
  end.

(** The calls of [build_summary_pdf]; [today] is the text of
    [date.today().isoformat()]. *)
Definition summary_calls (today : str) : list Call :=
  [ Title (lit "Productivity App - Repo Summary");
    Subtitle (lit "Generated on " ++ today ++ lit " from repository evidence only");
    SectionHead (lit "What it is");
    Paragraph (lit "Produktivitetsplanerare is a local-first web app for weekly planning, built with React, TypeScript, and Vite.") paragraph_width;
    Paragraph (lit "It schedules activity goals into free time around existing bookings and tracks completion status and weekly outcomes.") paragraph_width;
    Gap gap_default;
    SectionHead (lit "Who it's for");
    Bullet (lit "Primary user/persona (explicit): Not found in repo.") bullet_width;
    Bullet (lit "Inferred from README and UI flows: people planning weekly activity goals around calendar commitments.") bullet_width;
    Gap gap_default;
    SectionHead (lit "What it does");
    Bullet (lit "Adds manual calendar bookings and supports recurring events in the weekly calendar.") bullet_width;
    Bullet (lit "Creates activity goals with target minutes, session length, allowed days, and priority.") bullet_width;
    Bullet (lit "Auto-plans weekly sessions using free slots, sleep/work constraints, and conflict reporting.") bullet_width;
    Bullet (lit "Offers " ++ [34%N] ++ lit "Minimum viable day" ++ [34%N] ++ lit " fallback with 10-minute mini sessions when weeks are full.") bullet_width;
    Bullet (lit "Imports busy events from iCal (.ics) and deduplicates overlapping duplicates by key.") bullet_width;
    Bullet (lit "Integrates Google Calendar through OAuth and a local backend proxy for secure import.") bullet_width;
    Bullet (lit "Persists state in localStorage and supports JSON export/import backups.") bullet_width;
    Gap gap_default;
    SectionHead (lit "How it works (repo-backed architecture)");
    Bullet (lit "Frontend: React SPA (src/App.tsx) with CalendarGrid, SidePanel, settings/report/detail modals.") bullet_width;
    Bullet (lit "State: useStore (src/store/useStore.ts) centralizes CRUD, planning triggers, and week navigation.") bullet_width;
    Bullet (lit "Planner: planWeek (src/utils/planWeek.ts) computes blocked intervals and places sessions by score.") bullet_width;
    Bullet (lit "Storage: src/utils/storage.ts saves/loads versioned app state in browser localStorage.") bullet_width;
    Bullet (lit "Imports: src/utils/icsImport.ts parses .ics; server/googleCalendarProxy.mjs handles OAuth/API proxy.") bullet_width;
    Bullet (lit "Data flow: UI actions -> useStore -> planner/import helpers -> state -> localStorage -> rendered calendar.") bullet_width;
    Gap gap_default;
    SectionHead (lit "How to run (minimal)");
    Bullet (lit "Install and start frontend: `npm install` then `npm run dev`.") bullet_width;
    Bullet (lit "Open the printed Vite URL (example: http://localhost:5173).") bullet_width;
    Bullet (lit "Optional Google sync: configure `.env.server`, run `npm run dev:server`, keep frontend running.") bullet_width ].

Definition build_summary_pdf {U : UnicodeDB} (today : str) (output_path : Path)
  : list IOAction * result unit :=
  build_summary_pdf_from (summary_calls today) output_path.

End Summary.

(** [l[i]] with Python's indexing: a negative index counts from the end;
    the position and the element, or nothing where Python raises
    [IndexError]. *)
Definition py_index {A} (l : list A) (i : Z) : option (nat * A) :=
  let j := if (i <? 0)%Z then (len l + i)%Z else i in
  if (j <? 0)%Z then None
  else match l !! Z.to_nat j with
       | Some a => Some (Z.to_nat j, a)
       | None => None
       end.

(** [enumerate(l, start)] *)
Fixpoint enumerate {A} (start : nat) (l : list A) : list (nat * A) :=
  match l with
  | [] => []
  | a :: l' => (start, a) :: enumerate (S start) l'
  end.

(** ** generate_technical_walkthrough_pdf.py *)
Module Walkthrough.

Definition PAGE_WIDTH : Z := 612.
Definition PAGE_HEIGHT : Z := 792.
Definition LEFT : num := pt 48.
Definition RIGHT : num := pt 48.
Definition TOP : num := pt 760.
Definition BOTTOM : num := pt 46.

Record PDFBuilder := { pages : list (list str) }.

Definition PDFBuilder_init : PDFBuilder := {| pages := [[]] |}.

Definition page_index (self : PDFBuilder) : Z := (len (pages self) - 1)%Z.

Definition new_page (self : PDFBuilder) : PDFBuilder :=
  {| pages := pages self ++ [[]] |}.

Definition text (self : PDFBuilder) (x y : num) (text : str)
    (font : str) (size : num) : result PDFBuilder :=
  let safe := pdf_escape text in
  match py_index (pages self) (page_index self) with
  | None => Raise IndexError
  | Some (i, page) =>
      Ok {| pages := <[i := page ++ [show_text font size x y safe]]> (pages self) |}
  end.

Definition prolog : list str :=
  [ lit "q 1 1 1 rg 0 0 " ++ str_of_int PAGE_WIDTH ++ lit " "
      ++ str_of_int PAGE_HEIGHT ++ lit " re f Q";
    lit "0 0 0 rg" ].

(** [f"BT /F1 9 Tf {LEFT:.2f} 26.00 Td (Page {idx} of {len(self.pages)}) Tj ET"] *)
Definition footer (idx n_pages : nat) : list str :=
  [ lit "BT /F1 9 Tf " ++ fmt_2f LEFT ++ lit " 26.00 Td (Page "
      ++ str_of_nat idx ++ lit " of " ++ str_of_nat n_pages ++ lit ") Tj ET" ].

Definition content_stream (idx n_pages : nat) (commands : list str) : bytes :=
  encode_latin1_replace (join nl (prolog ++ commands ++ footer idx n_pages)).

(** The state of the loop over the pages: [objects], [page_kids] and
    [next_obj]. *)
Abbreviation page_state := (gmap nat bytes * list str * nat)%type (only parsing).

(** The body of [for idx, commands in enumerate(self.pages, start=1)]. *)
Definition add_page (n_pages : nat) (st : page_state)
    (entry : nat * list str) : result page_state :=
  let '(objects, page_kids, next_obj) := st in
  let '(idx, commands) := entry in
  let page_obj := next_obj in
  let content_obj := (next_obj + 1)%nat in
  let next_obj := (next_obj + 2)%nat in
  let page_kids := page_kids ++ [str_of_nat page_obj ++ lit " 0 R"] in
  let stream := content_stream idx n_pages commands in
  let* page_bytes :=
    encode_ascii
      (str_of_nat page_obj ++ lit " 0 obj << /Type /Page /Parent 2 0 R "
         ++ lit "/MediaBox [0 0 " ++ str_of_int PAGE_WIDTH ++ lit " "
         ++ str_of_int PAGE_HEIGHT ++ lit "] "
         ++ lit "/Resources << /Font << /F1 3 0 R /F2 4 0 R /F3 5 0 R /F4 6 0 R >> >> "
         ++ lit "/Contents " ++ str_of_nat content_obj ++ lit " 0 R >> endobj" ++ nl) in
  let objects := <[page_obj := page_bytes]> objects in
  let* content_head :=
    encode_ascii
      (str_of_nat content_obj ++ lit " 0 obj << /Length "
         ++ str_of_int (len stream) ++ lit " >> stream" ++ nl) in
  let objects :=
    <[content_obj := content_head ++ stream ++ bnl ++ blit "endstream endobj" ++ bnl]>
      objects in
  Ok (objects, page_kids, next_obj).

(** The dictionary [objects] of [build] when the serialisation starts. *)
Definition build_objects (self : PDFBuilder) : result (gmap nat bytes) :=
  let objects : gmap nat bytes := ∅ in
  let objects := <[1%nat :=
    blit "1 0 obj << /Type /Catalog /Pages 2 0 R >> endobj" ++ bnl]> objects in
  let objects := <[3%nat :=
    blit "3 0 obj << /Type /Font /Subtype /Type1 /BaseFont /Helvetica >> endobj" ++ bnl]> objects in
  let objects := <[4%nat :=
    blit "4 0 obj << /Type /Font /Subtype /Type1 /BaseFont /Helvetica-Bold >> endobj" ++ bnl]> objects in
  let objects := <[5%nat :=
    blit "5 0 obj << /Type /Font /Subtype /Type1 /BaseFont /Helvetica-Oblique >> endobj" ++ bnl]> objects in
  let objects := <[6%nat :=
    blit "6 0 obj << /Type /Font /Subtype /Type1 /BaseFont /Courier >> endobj" ++ bnl]> objects in
  let page_kids : list str := [] in
  let next_obj := 7%nat in
  let* st :=
    for_each (add_page (length (pages self))) (enumerate 1 (pages self))
      (objects, page_kids, next_obj) in
  let '(objects, page_kids, next_obj) := st in
  let* tree :=
    encode_ascii
      (lit "2 0 obj << /Type /Pages /Count " ++ str_of_nat (length page_kids)
         ++ lit " /Kids [" ++ join (lit " ") page_kids ++ lit "] >> endobj" ++ nl) in
  Ok (<[2%nat := tree]> objects).

(** [max(objects.keys())]; the dictionary is never empty here. *)
Definition max_key (objects : gmap nat bytes) : nat :=
  max_list (map fst (map_to_list objects)).

(** The body of the first [for obj_num in range(1, max_obj + 1)], over the
    pair ([pdf], [xref_offsets]). *)
Definition place_object (objects : gmap nat bytes) (st : bytes * list nat)
    (obj_num : nat) : bytes * list nat :=
  let '(pdf, xref_offsets) := st in
  match objects !! obj_num with
  | None => st
  | Some obj => (pdf ++ obj, <[obj_num := length pdf]> xref_offsets)
  end.

(** The body of the second loop over the object numbers. *)
Definition write_entry (xref_offsets : list nat) (pdf : bytes)
    (obj_num : nat) : result bytes :=
  match xref_offsets !! obj_num with
  | None => Raise IndexError
  | Some off =>
      if (off =? 0)%nat then Ok (pdf ++ free_entry)
      else
        let* entry := encode_ascii (fmt_010d off ++ lit " 00000 n " ++ nl) in
        Ok (pdf ++ entry)
  end.

Definition serialize (objects : gmap nat bytes) : result bytes :=
  let max_obj := max_key objects in
  let pdf := pdf_header in
  let xref_offsets := replicate (max_obj + 1) 0%nat in
  let '(pdf, xref_offsets) :=
    fold_left (place_object objects) (seq 1 max_obj) (pdf, xref_offsets) in
  let xref_start := length pdf in
  let* head :=
    encode_ascii (lit "xref" ++ nl ++ lit "0 " ++ str_of_nat (max_obj + 1) ++ nl) in
  let pdf := pdf ++ head in
  let pdf := pdf ++ free_entry in
  let* pdf := for_each (write_entry xref_offsets) (seq 1 max_obj) pdf in
  let* trailer :=
    encode_ascii
      (lit "trailer << /Size " ++ str_of_nat (max_obj + 1)
         ++ lit " /Root 1 0 R >>" ++ nl ++ lit "startxref" ++ nl
         ++ str_of_nat xref_start ++ nl ++ lit "%%EOF" ++ nl) in
  Ok (pdf ++ trailer).

(** [build] up to the bytes handed to [write_bytes]. *)
Definition assemble (self : PDFBuilder) : result bytes :=
  let* objects := build_objects self in
  serialize objects.

Definition build (self : PDFBuilder) (output_path : Path)
  : list IOAction * result unit :=
  match assemble self with
  | Ok pdf =>
      ([Mkdir (parent output_path); WriteBytes output_path pdf], Ok tt)
  | Raise e => ([Mkdir (parent output_path)], Raise e)
  end.

Record Layout := { builder : PDFBuilder; y : num }.

Definition Layout_init (builder : PDFBuilder) : Layout :=
  {| builder := builder; y := TOP |}.

Definition _next_page_if_needed (self : Layout) (required_height : num)
  : Layout :=
  if (y self - required_height <? BOTTOM)%Z
  then {| builder := new_page (builder self); y := TOP |}
  else self.

Definition title (self : Layout) (t : str) : result Layout :=
  let self := _next_page_if_needed self (pt 26) in
  let* b := text (builder self) LEFT (y self) t (lit "F2") (pt 19) in
  Ok {| builder := b; y := (y self - pt 24)%Z |}.

Definition subtitle (self : Layout) (t : str) : result Layout :=
  let self := _next_page_if_needed self (pt 15) in
  let* b := text (builder self) LEFT (y self) t (lit "F3") (pt 10) in
  Ok {| builder := b; y := (y self - pt 15)%Z |}.

Definition section (self : Layout) (t : str) : result Layout :=
  let self := _next_page_if_needed self (pt 18) in
  let* b := text (builder self) LEFT (y self) t (lit "F2") (pt 13) in
  Ok {| builder := b; y := (y self - pt 16)%Z |}.

Definition subsection (self : Layout) (t : str) : result Layout :=
  let self := _next_page_if_needed self (pt 15) in
  let* b := text (builder self) LEFT (y self) t (lit "F2") (pt 11) in
  Ok {| builder := b; y := (y self - pt 14)%Z |}.

(** The body of the loop of [paragraph]. *)
Definition paragraph_line (self : Layout) (line : str) : result Layout :=
  let self := _next_page_if_needed self (pt 12) in
  let* b := text (builder self) LEFT (y self) line (lit "F1") (pt 10) in
  Ok {| builder := b; y := (y self - pt 12)%Z |}.

Definition paragraph {U : UnicodeDB} (self : Layout) (t : str)
    (width_chars : Z) : result Layout :=
  let* lines := wrap t width_chars in
  for_each paragraph_line lines self.

(** The first line of [bullet] and the body of its loop. *)
Definition bullet_first (self : Layout) (line : str) : result Layout :=
  let self := _next_page_if_needed self (pt 12) in
  let* b := text (builder self) (LEFT + pt 2)%Z (y self) (lit "- " ++ line)
              (lit "F1") (pt 10) in
  Ok {| builder := b; y := (y self - pt 12)%Z |}.

Definition bullet_line (self : Layout) (line : str) : result Layout :=
  let self := _next_page_if_needed self (pt 12) in
  let* b := text (builder self) (LEFT + pt 16)%Z (y self) line
              (lit "F1") (pt 10) in
  Ok {| builder := b; y := (y self - pt 12)%Z |}.

Definition bullet {U : UnicodeDB} (self : Layout) (t : str)
    (width_chars : Z) : result Layout :=
  let* wrapped := wrap t width_chars in
  match wrapped with
  | [] => Ok self
  | first :: others =>
      let* self := bullet_first self first in
      for_each bullet_line others self
  end.

Definition code_line (self : Layout) (t : str) : result Layout :=
  let self := _next_page_if_needed self (pt 12) in
  let* b := text (builder self) (LEFT + pt 8)%Z (y self) t (lit "F4")
              (dec 9 40) in
  Ok {| builder := b; y := (y self - pt 12)%Z |}.

(** [self.y -= pts], exact on hundredths; [WalkthroughFloat.gap] is the
    subtraction of Python's numbers. *)
Definition gap (self : Layout) (pts : num) : Layout :=
  {| builder := builder self; y := (y self - pts)%Z |}.

Definition paragraph_width : Z := 104.
Definition bullet_width : Z := 98.
Definition gap_default : num := pt 8.

(** [write_walkthrough] is a fixed sequence of calls on one [Layout]
    followed by [build]; a call is kept as data so that the function can
    be run on any such sequence. *)
Inductive Call : Type :=
  | Title (t : str)
  | Subtitle (t : str)
  | SectionHead (t : str)
  | Subsection (t : str)
  | Paragraph (t : str) (width_chars : Z)
  | Bullet (t : str) (width_chars : Z)
  | CodeLine (t : str)
  | Gap (pts : num).

Definition perform {U : UnicodeDB} (l : Layout) (c : Call) : result Layout :=
  match c with
  | Title t => title l t
  | Subtitle t => subtitle l t
  | SectionHead t => section l t
  | Subsection t => subsection l t
  | Paragraph t w => paragraph l t w
  | Bullet t w => bullet l t w
  | CodeLine t => code_line l t
  | Gap pts => Ok (gap l pts)
  end.

(** The layout after the calls of [script] on a fresh builder. *)
Definition lay_out {U : UnicodeDB} (script : list Call) : result Layout :=
  for_each perform script (Layout_init PDFBuilder_init).

(** [write_walkthrough] with the calls given by [script]. *)
Definition write_walkthrough_from {U : UnicodeDB} (script : list Call)
    (output_path : Path) : list IOAction * result unit :=
  match lay_out script with
  | Raise e => ([], Raise e)
  | Ok l => build (builder l) output_path
  end.

(** The calls of [write_walkthrough]; [head] is the result of [git_head()]
    and [generated_at] the text of
    [datetime.now().strftime("%Y-%m-%d %H:%M")]. *)
Definition walkthrough_calls (head generated_at : str) : list Call :=
  [ Title (lit "Productivity App - Technical Walkthrough");
    Subtitle (lit "Repository: addes4/productivity | Commit: " ++ head ++ lit " | Generated: " ++ generated_at);
    Gap (pt 4);
    SectionHead (lit "1. What Was Built");
    Paragraph (lit "This project is a local-first weekly planning application that combines goal planning, calendar booking management, recurrence support, drag-and-drop editing, overlap visualization, and secure Google Calendar import.") paragraph_width;
    Paragraph (lit "The app is designed to help a user translate weekly goals (for example study, exercise, or work sessions) into concrete time blocks while respecting existing commitments and user-defined constraints.") paragraph_width;
    Bullet (lit "Frontend stack: React 18 + TypeScript + Vite + Tailwind CSS + date-fns + dnd-kit.") bullet_width;
    Bullet (lit "Backend helper: a dedicated Node server for OAuth and Google Calendar API proxying.") bullet_width;
    Bullet (lit "Persistence model: browser localStorage for app state, encrypted token file for Google refresh tokens.") bullet_width;
    Gap gap_default;
    SectionHead (lit "2. High-Level Architecture");
    Subsection (lit "2.1 Frontend Application Shell");
    Paragraph (lit "The frontend is orchestrated from src/App.tsx. It composes the calendar grid, side panel, settings modal, event modal, and report modal. App.tsx also wires UI actions to store operations and import/sync flows.") paragraph_width;
    Bullet (lit "Main route and interaction hub: src/App.tsx.") bullet_width;
    Bullet (lit "Central state and mutators: src/store/useStore.ts.") bullet_width;
    Bullet (lit "View components: src/components/*.tsx.") bullet_width;
    Gap (pt 5);
    Subsection (lit "2.2 Data and Domain Model");
    Paragraph (lit "The data model in src/types.ts separates three core concepts: CalendarEvent (bookings), ActivityGoal (intent), and PlannedBlock (scheduled output). This separation keeps planning logic deterministic and UI rendering predictable.") paragraph_width;
    Bullet (lit "CalendarEvent supports source tags (manual/import/google), all-day flags, and recurrence metadata.") bullet_width;
    Bullet (lit "ActivityGoal supports weekly targets, sessions-per-week mode, day/time preferences, travel buffer, and color.") bullet_width;
    Bullet (lit "PlannedBlock stores status (planned/done/missed/partial), lock state, and mini-session markers.") bullet_width;
    Gap gap_default;
    SectionHead (lit "3. Scheduling Engine (How Planning Actually Works)");
    Subsection (lit "3.1 Entry Point and Scope");
    Paragraph (lit "Planning runs through planWeek(...) in src/utils/planWeek.ts, triggered by runPlanWeek(...) in useStore. The week start is normalized to Monday to keep day indexing consistent across all calculations.") paragraph_width;
    Bullet (lit "Locked blocks in the active week are preserved.") bullet_width;
    Bullet (lit "Unlocked blocks in the active week are regenerated.") bullet_width;
    Bullet (lit "Blocks outside the active week are kept unchanged.") bullet_width;
    Gap (pt 5);
    Subsection (lit "3.2 Constraint Synthesis");
    Paragraph (lit "For each day, the planner builds blocked intervals from existing calendar events, locked planned blocks, travel buffers after locked blocks, and sleep windows (including cross-midnight handling).") paragraph_width;
    Bullet (lit "Work-hour framing can limit scheduling to a configured daily interval.") bullet_width;
    Bullet (lit "Allowed days, earliest start, and latest end are enforced per goal.") bullet_width;
    Bullet (lit "Minimum break minutes are applied when selecting and reserving slots.") bullet_width;
    Gap (pt 5);
    Subsection (lit "3.3 Goal Ordering and Slot Scoring");
    Paragraph (lit "Goals are sorted by priority (high to low), then by shorter session duration first. Candidate slots are scored by preferred time of day (morning/lunch/evening/any) and basic duration fit.") paragraph_width;
    Bullet (lit "This strategy increases success for high-priority and tighter-fit goals.") bullet_width;
    Bullet (lit "The algorithm greedily places one session at a time in the best available slot.") bullet_width;
    Gap (pt 5);
    Subsection (lit "3.4 Session Count Logic and Fallback");
    Paragraph (lit "Each goal computes intended session count using sessionsPerWeek when provided, otherwise via weeklyTargetMinutes/sessionMinutes. If the week is full and Minimum Viable Day is enabled, the planner attempts 10-minute mini sessions.") paragraph_width;
    Bullet (lit "Unschedulable remainder generates a ConflictReport with actionable suggestion text.") bullet_width;
    Bullet (lit "Mini sessions are labeled (isMini=true) for transparent UX.") bullet_width;
    Gap (pt 5);
    Subsection (lit "3.5 Key Behavioral Rule: Gym Distribution");
    Paragraph (lit "A dedicated daily cap ensures gym goals are not scheduled multiple times on the same day. The implementation tracks gym sessions per day globally and also per goal where sessionsPerWeek is explicit.") paragraph_width;
    Bullet (lit "Outcome: selecting 3 gym sessions per week spreads sessions across different days when possible.") bullet_width;
    Gap gap_default;
    SectionHead (lit "4. Calendar Rendering and Interaction Model");
    Subsection (lit "4.1 Week Grid and All-Day Lane");
    Paragraph (lit "src/components/CalendarGrid.tsx renders a fixed header, a dedicated all-day row, and an hourly timeline. Week-number pseudo-events are filtered out from normal event rendering.") paragraph_width;
    Bullet (lit "Timed events and planned blocks are rendered in day columns.") bullet_width;
    Bullet (lit "All-day events are shown in compact chips at the top day lane.") bullet_width;
    Gap (pt 5);
    Subsection (lit "4.2 Overlap Visualization (1/2, 1/3, 1/4 Splits)");
    Paragraph (lit "The utility src/utils/overlapLayout.ts computes overlap groups and assigns per-item columns. CalendarGrid applies this to both bookings and planned blocks so collisions remain visible.") paragraph_width;
    Bullet (lit "Two overlaps: each item gets roughly half width.") bullet_width;
    Bullet (lit "Three overlaps: each item gets roughly one third.") bullet_width;
    Bullet (lit "Four overlaps: each item gets roughly one fourth.") bullet_width;
    Bullet (lit "A hard guard rejects operations that would create more than 4 concurrent items.") bullet_width;
    Gap (pt 5);
    Subsection (lit "4.3 Drag-and-Drop Editing");
    Paragraph (lit "Drag-and-drop is unified for planned blocks and calendar events. Drop targets are hour cells encoded as day+hour identifiers. On drop, new ranges are validated before persistence.") paragraph_width;
    Bullet (lit "Planned block move validates sleep-window overlap and 4-way concurrency limit.") bullet_width;
    Bullet (lit "Calendar event move also respects the global 4-way concurrency limit.") bullet_width;
    Bullet (lit "Dragging across days is supported by target-cell interpretation, not just vertical delta.") bullet_width;
    Gap (pt 5);
    Subsection (lit "4.4 Compact Rendering for Short Blocks");
    Paragraph (lit "Very short visual blocks now prioritize activity/event name instead of time text. This avoids clipped or unreadable labels and preserves semantic clarity in dense schedules.") paragraph_width;
    Gap gap_default;
    SectionHead (lit "5. Booking Lifecycle: Manual, Recurring, Import, Google");
    Subsection (lit "5.1 Manual and Recurring Bookings");
    Paragraph (lit "AddEventModal supports weekly recurrence by weekday selection. Recurring templates store recurrenceDays and optional recurrenceExDates (date exceptions).") paragraph_width;
    Bullet (lit "When recurrence is enabled, at least one weekday is required.") bullet_width;
    Bullet (lit "Single-instance deletion writes an exception date instead of deleting the whole series.") bullet_width;
    Bullet (lit "When a single recurring instance is dragged, the parent series receives an exception and a detached one-off event is created.") bullet_width;
    Gap (pt 5);
    Subsection (lit "5.2 Weekly Expansion of Recurrence");
    Paragraph (lit "src/utils/recurringEvents.ts expands recurrence templates into concrete instances for the visible week. Each instance carries recurrenceParentId and recurrenceInstanceDate for targeted edits.") paragraph_width;
    Gap (pt 5);
    Subsection (lit "5.3 iCal Import");
    Paragraph (lit "ICS import parses incoming events and deduplicates against existing entries using a normalized key based on lowercase title + start + end. Imported events are marked source='import'.") paragraph_width;
    Gap (pt 5);
    Subsection (lit "5.4 Google Calendar Import");
    Paragraph (lit "Google events are fetched for the active week through the backend proxy, normalized into the app schema, categorized by source calendar, deduplicated, and merged into state as source='google'.") paragraph_width;
    Bullet (lit "Auto-sync is attempted once per week navigation while connected.") bullet_width;
    Bullet (lit "Manual sync remains available for explicit refresh.") bullet_width;
    Gap gap_default;
    SectionHead (lit "6. Security and Backend Design for Google OAuth");
    Paragraph (lit "server/googleCalendarProxy.mjs exists to avoid exposing secrets in the frontend. OAuth client secret and token encryption key remain server-side. The frontend only uses /api/* endpoints.") paragraph_width;
    Bullet (lit "OAuth session state uses short-lived server memory + HttpOnly cookie.") bullet_width;
    Bullet (lit "Return URL is sanitized to frontend origin to prevent open redirects.") bullet_width;
    Bullet (lit "Refresh tokens are encrypted at rest using AES-256-GCM with key material derived from env secret.") bullet_width;
    Bullet (lit "Connections are persisted in server/data/google-connections.json via atomic write.") bullet_width;
    Bullet (lit "Disconnect revokes token (best effort), removes stored connection, and clears cookie.") bullet_width;
    Bullet (lit "CORS is restricted to configured frontend origin.") bullet_width;
    Gap gap_default;
    SectionHead (lit "7. User-Configurable Behavior");
    Paragraph (lit "Settings allow work-hour boundaries, sleep windows, minimum break, max activities per day, office days, and distinct color themes per booking source (manual/import/google).") paragraph_width;
    Bullet (lit "Color values are validated to strict #RRGGBB format before storage.") bullet_width;
    Bullet (lit "Goal forms support location, priority, allowed days, and time-of-day preference tuning.") bullet_width;
    Gap gap_default;
    SectionHead (lit "8. Reliability Guards and Edge Cases");
    Bullet (lit "Concurrency guard prevents creating or moving into >4 overlapping items.") bullet_width;
    Bullet (lit "Invalid ranges (end <= start) are filtered during processing and rendering.") bullet_width;
    Bullet (lit "Week-number helper events are excluded from normal booking logic.") bullet_width;
    Bullet (lit "Cross-midnight sleep windows are treated as true blocked ranges.") bullet_width;
    Bullet (lit "Google invalid_grant clears stale connection and prompts reconnect flow.") bullet_width;
    Gap gap_default;
    SectionHead (lit "9. File-Level Map for Key Responsibilities");
    CodeLine (lit "src/App.tsx                              -> top-level orchestration and import/sync wiring");
    CodeLine (lit "src/store/useStore.ts                    -> state CRUD, persistence, planner trigger");
    CodeLine (lit "src/utils/planWeek.ts                    -> scheduling algorithm and conflict reporting");
    CodeLine (lit "src/utils/overlapLayout.ts               -> overlap math, column layout, concurrency cap");
    CodeLine (lit "src/utils/recurringEvents.ts             -> weekly recurrence expansion");
    CodeLine (lit "src/components/CalendarGrid.tsx          -> calendar render pipeline + drag/drop logic");
    CodeLine (lit "src/components/AddEventModal.tsx         -> booking and recurrence authoring UI");
    CodeLine (lit "src/components/SettingsPanel.tsx         -> behavior and color configuration UI");
    CodeLine (lit "server/googleCalendarProxy.mjs           -> OAuth flow, token storage, Google API proxy");
    Gap gap_default;
    SectionHead (lit "10. End-to-End Flow (Practical Sequence)");
    Bullet (lit "User adds bookings manually or imports via ICS/Google.") bullet_width;
    Bullet (lit "User defines goals with constraints and preferences.") bullet_width;
    Bullet (lit "Planner computes free slots, places sessions, and emits conflicts if needed.") bullet_width;
    Bullet (lit "Calendar shows schedule with overlap splitting and source-specific colors.") bullet_width;
    Bullet (lit "User drags blocks/events to adjust plan; validators enforce rules.") bullet_width;
    Bullet (lit "User tracks completion states and reviews weekly progress report.") bullet_width;
    Gap gap_default;
    SectionHead (lit "11. How to Run and Verify");
    Subsection (lit "Frontend");
    CodeLine (lit "npm install");
    CodeLine (lit "npm run dev");
    Subsection (lit "Google proxy (optional)");
    CodeLine (lit "cp .env.server.example .env.server");
    CodeLine (lit "npm run dev:server");
    Subsection (lit "Production build check");
    CodeLine (lit "npm run build");
    Gap gap_default;
    SectionHead (lit "12. Summary");
    Paragraph (lit "The implemented system is more than a static calendar UI: it is a constraint-aware planning engine with interactive schedule editing, recurrence management, overlap-safe layout, and secure Google synchronization. The architecture keeps planning logic isolated, state transitions explicit, and sensitive credentials off the client.") paragraph_width ].

Definition write_walkthrough {U : UnicodeDB} (head generated_at : str)
    (output_path : Path) : list IOAction * result unit :=
  write_walkthrough_from (walkthrough_calls head generated_at) output_path.

End Walkthrough.

(** ** Notions used to state the properties *)

(** What the escaper does to one character. *)
Definition escape_char (c : N) : str :=
  if (c =? BACKSLASH)%N then [BACKSLASH; BACKSLASH]
  else if (c =? LPAREN)%N then [BACKSLASH; LPAREN]
  else if (c =? RPAREN)%N then [BACKSLASH; RPAREN]
  else [c].

(** Reading a string literal back: a backslash makes the character after it
    literal.  [escaped] tells whether the previous character was such a
    backslash. *)
Fixpoint unescape_from (escaped : bool) (s : str) : str :=
  match s with
  | [] => []
  | c :: rest =>
      if escaped then c :: unescape_from false rest
      else if (c =? BACKSLASH)%N then unescape_from true rest
      else c :: unescape_from false rest
  end.

Definition unescape (s : str) : str := unescape_from false s.

(** Some parenthesis of [s] is not made literal by a backslash. *)
Fixpoint bare_paren_from (escaped : bool) (s : str) : bool :=
  match s with
  | [] => false
  | c :: rest =>
      if escaped then bare_paren_from false rest
      else if (c =? BACKSLASH)%N then bare_paren_from true rest
      else (c =? LPAREN)%N || (c =? RPAREN)%N || bare_paren_from false rest
  end.

Definition has_bare_paren (s : str) : bool := bare_paren_from false s.

(** Where [_handle_long_word] cuts the top chunk. *)
Definition cut_point (chunk : str) (space_left : Z) : Z :=
  if (space_left <? len chunk)%Z then
    let hyphen := rfind_hyphen chunk space_left in
    if (0 <? hyphen)%Z
       && existsb (fun c => negb (is_hyphen c)) (slice_to chunk hyphen)
    then (hyphen + 1)%Z else space_left
  else space_left.

(** ** The layouts line by line *)

(** Sum of a list of numbers. *)
Definition total (l : list Z) : Z := foldr Z.add 0%Z l.

(** What a call on the one-page layout does, one drawn line or one gap at a
    time.  [checked] tells whether the line is preceded by
    [_ensure_room(BOTTOM)]. *)
Inductive SStep : Type :=
  | SDraw (checked : bool) (x : num) (t font : str) (size advance : num)
  | SSkip (pts : num).

Definition summary_exec (l : Summary.Layout) (s : SStep)
  : result Summary.Layout :=
  match s with
  | SDraw checked x t font size advance =>
      let* _ := (if checked then Summary._ensure_room l Summary.BOTTOM
                 else Ok tt) in
      Ok {| Summary.builder :=
              Summary.text (Summary.builder l) x (Summary.y l) t font size;
            Summary.y := (Summary.y l - advance)%Z |}
  | SSkip pts => Ok (Summary.gap l pts)
  end.

Definition summary_steps {U : UnicodeDB} (c : Summary.Call)
  : result (list SStep) :=
  match c with
  | Summary.Title t =>
      Ok [SDraw false Summary.LEFT t (lit "F2") (pt 18) (pt 22)]
  | Summary.Subtitle t =>
      Ok [SDraw false Summary.LEFT t (lit "F3") (dec 9 50) (pt 16)]
  | Summary.SectionHead t =>
      Ok [SDraw false Summary.LEFT t (lit "F2") (dec 11 50) (pt 14)]
  | Summary.Paragraph t w =>
      let* lines := wrap t w in
      Ok (map (fun line =>
                 SDraw true Summary.LEFT line (lit "F1") (dec 9 50) (pt 12))
              lines)
  | Summary.Bullet t w =>
      let* wrapped := wrap t w in
      Ok match wrapped with
         | [] => []
         | first :: others =>
             SDraw true (Summary.LEFT + pt 2)%Z (lit "- " ++ first) (lit "F1")
               (dec 9 50) (pt 12)
             :: map (fun line =>
                       SDraw true (Summary.LEFT + pt 14)%Z line (lit "F1")
                         (dec 9 50) (pt 12))
                    others
         end
  | Summary.Gap pts => Ok [SSkip pts]
  end.

Fixpoint summary_script_steps {U : UnicodeDB} (script : list Summary.Call)
  : result (list SStep) :=
  match script with
  | [] => Ok []
  | c :: rest =>
      let* first := summary_steps c in
      let* others := summary_script_steps rest in
      Ok (first ++ others)
  end.

Definition sstep_advance (s : SStep) : num :=
  match s with
  | SDraw _ _ _ _ _ advance => advance
  | SSkip pts => pts
  end.

(** The vertical space a script asks for: the sum of the cursor advances of
    its lines and gaps.  It is defined when every text of the script can be
    wrapped. *)
Definition summary_required_space {U : UnicodeDB} (script : list Summary.Call)
  : option num :=
  match summary_script_steps script with
  | Ok steps => Some (total (map sstep_advance steps))
  | Raise _ => None
  end.

(** No gap of the script is negative. *)
Definition summary_gaps_nonneg (script : list Summary.Call) : Prop :=
  Forall (fun c => match c with
                   | Summary.Gap pts => (0 <= pts)%Z
                   | _ => True
                   end) script.

(** What a call on the multi-page layout does, one drawn line or one gap at
    a time.  [required] is the height passed to [_next_page_if_needed]. *)
Inductive WStep : Type :=
  | WDraw (required x : num) (t font : str) (size advance : num)
  | WSkip (pts : num).

Definition walk_exec (l : Walkthrough.Layout) (s : WStep)
  : result Walkthrough.Layout :=
  match s with
  | WDraw required x t font size advance =>
      let l := Walkthrough._next_page_if_needed l required in
      let* b := Walkthrough.text (Walkthrough.builder l) x (Walkthrough.y l)
                  t font size in
      Ok {| Walkthrough.builder := b;
            Walkthrough.y := (Walkthrough.y l - advance)%Z |}
  | WSkip pts => Ok (Walkthrough.gap l pts)
  end.

Definition walk_steps {U : UnicodeDB} (c : Walkthrough.Call)
  : result (list WStep) :=
  match c with
  | Walkthrough.Title t =>
      Ok [WDraw (pt 26) Walkthrough.LEFT t (lit "F2") (pt 19) (pt 24)]
  | Walkthrough.Subtitle t =>
      Ok [WDraw (pt 15) Walkthrough.LEFT t (lit "F3") (pt 10) (pt 15)]
  | Walkthrough.SectionHead t =>
      Ok [WDraw (pt 18) Walkthrough.LEFT t (lit "F2") (pt 13) (pt 16)]
  | Walkthrough.Subsection t =>
      Ok [WDraw (pt 15) Walkthrough.LEFT t (lit "F2") (pt 11) (pt 14)]
  | Walkthrough.Paragraph t w =>
      let* lines := wrap t w in
      Ok (map (fun line =>
                 WDraw (pt 12) Walkthrough.LEFT line (lit "F1") (pt 10) (pt 12))
              lines)
  | Walkthrough.Bullet t w =>
      let* wrapped := wrap t w in
      Ok match wrapped with
         | [] => []
         | first :: others =>
             WDraw (pt 12) (Walkthrough.LEFT + pt 2)%Z (lit "- " ++ first)
               (lit "F1") (pt 10) (pt 12)
             :: map (fun line =>
                       WDraw (pt 12) (Walkthrough.LEFT + pt 16)%Z line
                         (lit "F1") (pt 10) (pt 12))
                    others
         end
  | Walkthrough.CodeLine t =>
      Ok [WDraw (pt 12) (Walkthrough.LEFT + pt 8)%Z t (lit "F4") (dec 9 40)
            (pt 12)]
  | Walkthrough.Gap pts => Ok [WSkip pts]
  end.

Fixpoint walk_script_steps {U : UnicodeDB} (script : list Walkthrough.Call)
  : result (list WStep) :=
  match script with
  | [] => Ok []
  | c :: rest =>
      let* first := walk_steps c in
      let* others := walk_script_steps rest in
      Ok (first ++ others)
  end.

Definition wstep_advance (s : WStep) : num :=
  match s with
  | WDraw _ _ _ _ _ advance => advance
  | WSkip pts => pts
  end.

(** The vertical space a script asks for, as for the one-page layout. *)
Definition walk_required_space {U : UnicodeDB} (script : list Walkthrough.Call)
  : option num :=
  match walk_script_steps script with
  | Ok steps => Some (total (map wstep_advance steps))
  | Raise _ => None
  end.

Definition walk_gaps_nonneg (script : list Walkthrough.Call) : Prop :=
  Forall (fun c => match c with
                   | Walkthrough.Gap pts => (0 <= pts)%Z
                   | _ => True
                   end) script.

(** Every width given to the wrapper is above zero. *)
Definition walk_widths_positive (script : list Walkthrough.Call) : Prop :=
  Forall (fun c => match c with
                   | Walkthrough.Paragraph _ w | Walkthrough.Bullet _ w =>
                       (0 < w)%Z
                   | _ => True
                   end) script.

(** The call draws at least one line. *)
Definition walk_draws {U : UnicodeDB} (c : Walkthrough.Call) : Prop :=
  match walk_steps c with
  | Ok (WDraw _ _ _ _ _ _ :: _) => True
  | _ => False
  end.

(** The bounds that the lines of the [Layout] methods obey: the room asked
    for is between one text line and the title's 26 points, and the cursor
    advance is at most the room asked for. *)
Definition wstep_regular (s : WStep) : Prop :=
  match s with
  | WDraw required _ _ _ _ advance =>
      (pt 12 <= required <= pt 26)%Z /\ (0 <= advance <= required)%Z
  | WSkip _ => True
  end.

(** A recorded command is a text-show instruction with its baseline at
    height [y0], where [ok y0]. *)
Definition drawn_at (ok : Z -> Prop) (cmd : list N) : Prop :=
  exists font size x y0 t,
    cmd = show_text font size x y0 (pdf_escape t) /\ ok y0.

(** Invariant of the multi-page layout: there is a page, and every recorded
    command is a line drawn strictly above the bottom margin. *)
Definition walk_inv (l : Walkthrough.Layout) : Prop :=
  Walkthrough.pages (Walkthrough.builder l) <> []
  /\ Forall (Forall (drawn_at (fun y0 => (Walkthrough.BOTTOM < y0)%Z)))
       (Walkthrough.pages (Walkthrough.builder l)).

(** The least height a page has used up when the layout leaves it: a new
    page is started only when less than the room asked for, at most 26
    points, is left. *)
Definition page_floor : Z := (Walkthrough.TOP - Walkthrough.BOTTOM - pt 26)%Z.

(** Invariant when no advance is negative; [used] is the sum of the
    advances made so far. *)
Definition walk_inv_down (l : Walkthrough.Layout) (used : Z) : Prop :=
  Walkthrough.pages (Walkthrough.builder l) <> []
  /\ (Walkthrough.y l <= Walkthrough.TOP)%Z
  /\ Forall (Forall (drawn_at (fun y0 =>
                (Walkthrough.BOTTOM < y0 <= Walkthrough.TOP)%Z)))
       (Walkthrough.pages (Walkthrough.builder l))
  /\ (length (Walkthrough.pages (Walkthrough.builder l)) = 1%nat ->
      used = (Walkthrough.TOP - Walkthrough.y l)%Z)
  /\ ((Z.of_nat (length (Walkthrough.pages (Walkthrough.builder l))) - 1)
        * page_floor + (Walkthrough.TOP - Walkthrough.y l) <= used)%Z.

(** ** The emitted file *)

(** The bytes of an ASCII text. *)
Definition raw (s : list N) : list Byte.byte := map byte_of_cp s.

(** The leading token [k 0 obj] of object [k]. *)
Definition object_token (k : nat) : list Byte.byte :=
  raw (str_of_nat k ++ lit " 0 obj").

(** An in-use entry of the cross-reference table. *)
Definition xref_entry (off : nat) : list Byte.byte :=
  raw (fmt_010d off ++ lit " 00000 n " ++ nl).

(** The cross-reference table for the offsets of objects 1, 2, ... *)
Definition xref_table (offsets : list nat) : list Byte.byte :=
  raw (lit "xref" ++ nl ++ lit "0 " ++ str_of_nat (S (length offsets)) ++ nl)
    ++ free_entry ++ concat (map xref_entry offsets).

Definition trailer (size xref_start : nat) : list Byte.byte :=
  raw (lit "trailer << /Size " ++ str_of_nat size ++ lit " /Root 1 0 R >>"
         ++ nl ++ lit "startxref" ++ nl ++ str_of_nat xref_start ++ nl
         ++ lit "%%EOF" ++ nl).

(** Reading a decimal number back. *)
Fixpoint uint_of_digits (s : list N) : Decimal.uint :=
  match s with
  | [] => Nil
  | c :: rest =>
      let d := uint_of_digits rest in
      if (c =? 48)%N then D0 d else if (c =? 49)%N then D1 d
      else if (c =? 50)%N then D2 d else if (c =? 51)%N then D3 d
      else if (c =? 52)%N then D4 d else if (c =? 53)%N then D5 d
      else if (c =? 54)%N then D6 d else if (c =? 55)%N then D7 d
      else if (c =? 56)%N then D8 d else D9 d
  end.

Definition read_decimal (s : list N) : nat := N.to_nat (N.of_uint (uint_of_digits s)).

(** The file [pdf] holds objects 1 to [n]: it is a body followed by a
    cross-reference table with one in-use entry per object and by the
    trailer, the trailer gives [n + 1] as size and the start of the table,
    and at the offset printed for object [k] the file reads [k 0 obj]. *)
Definition file_layout (n : nat) (pdf : list Byte.byte) : Prop :=
  exists body offsets,
    length offsets = n
    /\ pdf = body ++ xref_table offsets ++ trailer (n + 1) (length body)
    /\ forall k off,
         offsets !! k = Some off ->
         read_decimal (fmt_010d off) = off
         /\ object_token (S k) `prefix_of` drop off pdf.

(** The offsets at which the objects of [objects] start when they follow
    one another from position [start]. *)
Fixpoint offsets_from (start : nat) (objects : list (list Byte.byte)) : list nat :=
  match objects with
  | [] => []
  | obj :: rest => start :: offsets_from (start + length obj) rest
  end.

(** The objects that [add_page] makes for one page. *)
Definition page_object (page_obj content_obj : nat) : list Byte.byte :=
  raw (str_of_nat page_obj ++ lit " 0 obj << /Type /Page /Parent 2 0 R "
         ++ lit "/MediaBox [0 0 " ++ str_of_int Walkthrough.PAGE_WIDTH ++ lit " "
         ++ str_of_int Walkthrough.PAGE_HEIGHT ++ lit "] "
         ++ lit "/Resources << /Font << /F1 3 0 R /F2 4 0 R /F3 5 0 R /F4 6 0 R >> >> "
         ++ lit "/Contents " ++ str_of_nat content_obj ++ lit " 0 R >> endobj" ++ nl).

Definition content_object (content_obj : nat) (stream : list Byte.byte)
  : list Byte.byte :=
  raw (str_of_nat content_obj ++ lit " 0 obj << /Length "
         ++ str_of_int (len stream) ++ lit " >> stream" ++ nl)
    ++ stream ++ bnl ++ blit "endstream endobj" ++ bnl.

(** The page and content objects of the pages, in the order of their
    numbers, the first page being number [idx] and its page object
    [next_obj]. *)
Fixpoint page_objects (n_pages idx next_obj : nat) (pages : list (list (list N)))
  : list (list Byte.byte) :=
  match pages with
  | [] => []
  | commands :: rest =>
      page_object next_obj (S next_obj)
      :: content_object (S next_obj)
           (Walkthrough.content_stream idx n_pages commands)
      :: page_objects n_pages (S idx) (S (S next_obj)) rest
  end.

(** The entries of [page_kids]. *)
Fixpoint page_kids (next_obj : nat) (pages : list (list (list N))) : list (list N) :=
  match pages with
  | [] => []
  | _ :: rest => (str_of_nat next_obj ++ lit " 0 R") :: page_kids (S (S next_obj)) rest
  end.

(** The page tree, object 2. *)
Definition pages_object (pages : list (list (list N))) : list Byte.byte :=
  raw (lit "2 0 obj << /Type /Pages /Count " ++ str_of_nat (length pages)
         ++ lit " /Kids [" ++ join (lit " ") (page_kids 7 pages)
         ++ lit "] >> endobj" ++ nl).

(** All the objects of the multi-page file in the order of their numbers. *)
Definition object_table (pages : list (list (list N))) : list (list Byte.byte) :=
  [ blit "1 0 obj << /Type /Catalog /Pages 2 0 R >> endobj" ++ bnl;
    pages_object pages;
    blit "3 0 obj << /Type /Font /Subtype /Type1 /BaseFont /Helvetica >> endobj" ++ bnl;
    blit "4 0 obj << /Type /Font /Subtype /Type1 /BaseFont /Helvetica-Bold >> endobj" ++ bnl;
    blit "5 0 obj << /Type /Font /Subtype /Type1 /BaseFont /Helvetica-Oblique >> endobj" ++ bnl;
    blit "6 0 obj << /Type /Font /Subtype /Type1 /BaseFont /Courier >> endobj" ++ bnl ]
  ++ page_objects (length pages) 1 7 pages.

(** The dictionary with [objs] stored under the keys [k], [k + 1], ... *)
Fixpoint insert_all (k : nat) (objs : list (list Byte.byte))
    (m : gmap nat (list Byte.byte)) : gmap nat (list Byte.byte) :=
  match objs with
  | [] => m
  | o :: rest => insert_all (S k) rest (<[k := o]> m)
  end.

Definition is_draw (s : WStep) : Prop :=
  match s with WDraw _ _ _ _ _ _ => True | WSkip _ => False end.

(** ** Reading a recorded command back *)

(** A backslash or a parenthesis: the characters [pdf_escape] treats. *)
Definition is_special (c : N) : bool :=
  ((c =? BACKSLASH) || (c =? LPAREN) || (c =? RPAREN))%N.

(** A literal string as a reader of the content stream takes it, from just
    after its opening parenthesis: a backslash makes the next character
    literal, bare parentheses nest, and the bare closing parenthesis at
    depth zero ends the string.  Gives the text of the string and what
    follows it. *)
Fixpoint read_literal_from (depth : nat) (escaped : bool) (s : str)
  : option (str * str) :=
  match s with
  | [] => None
  | c :: rest =>
      let keep (next : option (str * str)) :=
        match next with
        | Some (t, after) => Some (c :: t, after)
        | None => None
        end in
      if escaped then keep (read_literal_from depth false rest)
      else if (c =? BACKSLASH)%N then read_literal_from depth true rest
      else if (c =? LPAREN)%N then keep (read_literal_from (S depth) false rest)
      else if (c =? RPAREN)%N then
        match depth with
        | O => Some ([], rest)
        | S depth' => keep (read_literal_from depth' false rest)
        end
      else keep (read_literal_from depth false rest)
  end.

(** The operand of the first literal string of an instruction: the text
    between the first opening parenthesis and the parenthesis that closes
    it, and the rest of the instruction. *)
Fixpoint read_first_literal (s : str) : option (str * str) :=
  match s with
  | [] => None
  | c :: rest =>
      if (c =? LPAREN)%N then read_literal_from 0 false rest
      else read_first_literal rest
  end.

(** ** What the wrapper keeps *)

(** The characters of a text that are not white space in the sense of
    [str.isspace], in their order. *)
Definition visible (s : str) : str :=
  List.filter (fun c => negb (is_space c)) s.

(** A text cut into pieces of [w] characters, the last one holding what
    is left; [fuel] bounds the number of pieces. *)
Fixpoint chop (fuel w : nat) (s : str) : list str :=
  match fuel with
  | O => []
  | S fuel' =>
      if (length s <=? w)%nat then match s with [] => [] | _ => [s] end
      else take w s :: chop fuel' w (drop w s)
  end.

(** A character that is neither white space nor a hyphen. *)
Definition solid (c : N) : Prop := is_space c = false /\ c <> HYPHEN.

(** ** The lines of the multi-page layout *)

(** The line that a step draws: its font, size, indent and text. *)
Definition drawn_line (s : WStep) : list (list N * Z * Z * list N) :=
  match s with
  | WDraw _ x t font size _ => [(font, size, x, t)]
  | WSkip _ => []
  end.

Definition walk_lines (steps : list WStep) : list (list N * Z * Z * list N) :=
  flat_map drawn_line steps.

(** The command shows the line, at some height. *)
Definition shows (line : list N * Z * Z * list N) (cmd : list N) : Prop :=
  let '(font, size, x, t) := line in
  exists y0, cmd = show_text font size x y0 (pdf_escape t).

(** The pages [ps'] continue the pages [ps]: the pages before the last one
    of [ps] are the same, the last one has only got more commands at its
    end, and pages may follow it. *)
Definition continues (ps ps' : list (list (list N))) : Prop :=
  exists front page added rest,
    ps = front ++ [page] /\ ps' = front ++ (page ++ added) :: rest.

(** ** The character database on ASCII text *)

(** A database that classifies the ASCII characters as Python does: the
    letters and the digits are alphanumeric, the digits are decimal. *)
Definition ascii_faithful (U : UnicodeDB) : Prop :=
  forall c, (c < 128)%N ->
    @isalnum U c = ascii_isalnum c /\ @isdecimal U c = ascii_isdecimal c.

(** The texts that the call hands to the wrapper are ASCII. *)
Definition summary_wraps_ascii (c : Summary.Call) : bool :=
  match c with
  | Summary.Paragraph t _ | Summary.Bullet t _ => is_ascii t
  | _ => true
  end.

Definition walk_wraps_ascii (c : Walkthrough.Call) : bool :=
  match c with
  | Walkthrough.Paragraph t _ | Walkthrough.Bullet t _ => is_ascii t
  | _ => true
  end.

(** ** [git_head] *)

(** [s.lstrip()] and [s.strip()]: the white space of [str.isspace] is
    removed at the left end, and at both ends. *)
Fixpoint lstrip (s : str) : str :=
  match s with
  | [] => []
  | c :: rest => if is_space c then lstrip rest else s
  end.

Definition strip (s : str) : str := rev (lstrip (rev (lstrip s))).

(** How the call [subprocess.run(["git", "rev-parse", "--short", "HEAD"],
    check=True, capture_output=True, text=True)] ends: with the text of the
    standard output, or with an exception (git is missing, it exits with a
    status other than zero, its output cannot be decoded). *)
Inductive RunOutcome : Type :=
  | Completed (stdout : str)
  | Failed.

(** [git_head()], given how the subprocess ended: every [Exception] is
    caught. *)
Definition git_head (run : RunOutcome) : str :=
  match run with
  | Completed stdout => strip stdout
  | Failed => lit "unknown"
  end.

(** ** Reading a printed number and a recorded command back *)

(** The text before the first character [sep], and the text after it. *)
Fixpoint split_at (sep : N) (s : str) : str * str :=
  match s with
  | [] => ([], [])
  | c :: rest =>
      if (c =? sep)%N then ([], rest)
      else let '(a, b) := split_at sep rest in (c :: a, b)
  end.

(** The number, in hundredths, that a text of the form [-ddd.dd] stands
    for. *)
Definition read_2f (s : str) : Z :=
  let '(negative, body) :=
    match s with
    | c :: rest => if (c =? 45)%N then (true, rest) else (false, s)
    | [] => (false, s)
    end in
  let '(int_part, frac_part) := split_at 46 body in
  let v := (100 * Z.of_nat (read_decimal int_part)
            + Z.of_nat (read_decimal frac_part))%Z in
  if negative then (- v)%Z else v.

(** The operands of a text-show instruction
    [BT /font size Tf x y Td (text) Tj ET]: the words are taken one by one
    up to [Td], then the literal string. *)
Definition read_command (cmd : str) : option (str * Z * Z * Z * str) :=
  let '(_, after_bt) := split_at SPACE cmd in
  let '(font_name, after_font) := split_at SPACE after_bt in
  let '(size, after_size) := split_at SPACE after_font in
  let '(_, after_tf) := split_at SPACE after_size in
  let '(x, after_x) := split_at SPACE after_tf in
  let '(y, after_y) := split_at SPACE after_x in
  match read_first_literal after_y with
  | Some (t, _) =>
      Some (drop 1 font_name, read_2f size, read_2f x, read_2f y, t)
  | None => None
  end.

(** A decimal digit. *)
Definition is_digit (c : N) : Prop := (48 <= c <= 57)%N.

(** ** The lines of the one-page layout *)



(** ** How a build can fail *)

(** The exception is the one that the wrapper raises for a width of zero or
    less given in a paragraph or bullet of the script. *)
Definition summary_width_error (script : list Summary.Call) (e : exn) : Prop :=
  exists t w,
    (In (Summary.Paragraph t w) script \/ In (Summary.Bullet t w) script)
    /\ (w <= 0)%Z /\ e = ValueError (invalid_width w).

Definition walk_width_error (script : list Walkthrough.Call) (e : exn) : Prop :=
  exists t w,
    (In (Walkthrough.Paragraph t w) script \/ In (Walkthrough.Bullet t w) script)
    /\ (w <= 0)%Z /\ e = ValueError (invalid_width w).

(** ** The distance between lines *)

(** Heights going down by at least 12 points, the height of a text line,
    from each one to the next. *)
Fixpoint spaced (ys : list Z) : Prop :=
  match ys with
  | [] => True
  | y1 :: rest =>
      match rest with
      | y2 :: _ => (y2 + pt 12 <= y1)%Z
      | [] => True
      end /\ spaced rest
  end.

(** The commands are text-show instructions with their baselines at the
    heights [ys], in this order. *)
Definition heights_of (cmds : list (list N)) (ys : list Z) : Prop :=
  Forall2 (fun cmd y0 =>
             exists font size x t,
               cmd = show_text font size x y0 (pdf_escape t))
    cmds ys.

(** The lines of a page do not run into one another. *)
Definition lines_apart (cmds : list (list N)) : Prop :=
  exists ys, heights_of cmds ys /\ spaced ys.

(** The advance that follows a line is at least 12 points, and a gap is not
    negative. *)
Definition wstep_apart (s : WStep) : Prop :=
  match s with
  | WDraw _ _ _ _ _ advance => (pt 12 <= advance)%Z
  | WSkip pts => (0 <= pts)%Z
  end.

Definition sstep_apart (s : SStep) : Prop :=
  match s with
  | SDraw _ _ _ _ _ advance => (pt 12 <= advance)%Z
  | SSkip pts => (0 <= pts)%Z
  end.

(** ** Python's numbers

    The coordinates, sizes and gaps of the source are Python numbers: an
    [int] is exact and unbounded, a [float] is an IEEE 754 binary64 value,
    and an operation on an [int] and a [float] first converts the [int].
    The cursor [self.y] starts as the [int] [TOP] and stays an [int] until
    a [float] is subtracted from it. *)
Definition prec : Z := 53.
Definition emax : Z := 1024.

Inductive number : Type :=
  | Int (n : Z)
  | Float (f : spec_float).

(** [float(n)]: the nearest binary64 value, ties going to the even
    mantissa; [OverflowError] when [n] is too large. *)
Definition float_of_int (n : Z) : result spec_float :=
  match binary_normalize prec emax n 0 false with
  | S754_infinity _ => Raise OverflowError
  | f => Ok f
  end.

Definition to_float (a : number) : result spec_float :=
  match a with
  | Int n => float_of_int n
  | Float f => Ok f
  end.

(** [a - b] *)
Definition sub (a b : number) : result number :=
  match a, b with
  | Int m, Int n => Ok (Int (m - n))
  | _, _ =>
      let* x := to_float a in
      let* y := to_float b in
      Ok (Float (SFsub prec emax x y))
  end.

(** Python compares a [float] with an [int] by their exact values. *)
Definition float_compare_int (f : spec_float) (n : Z) : option comparison :=
  match f with
  | S754_nan => None
  | S754_infinity s => Some (if s then Lt else Gt)
  | S754_zero _ => Some (0 ?= n)%Z
  | S754_finite s m e =>
      let v := cond_Zopp s (Z.pos m) in
      Some (if (0 <=? e)%Z then (v * 2 ^ e ?= n)%Z
            else (v ?= n * 2 ^ (- e))%Z)
  end.

(** [a < b] *)
Definition lt (a b : number) : bool :=
  match a, b with
  | Int m, Int n => (m <? n)%Z
  | Float f, Float g => SFltb f g
  | Float f, Int n =>
      match float_compare_int f n with Some Lt => true | _ => false end
  | Int m, Float g =>
      match float_compare_int g m with Some Gt => true | _ => false end
  end.

(** The integer nearest to [a * 2 ^ e], a tie going to the even one. *)
Definition round_half_even (a e : Z) : Z :=
  if (0 <=? e)%Z then (a * 2 ^ e)%Z
  else
    let d := (2 ^ (- e))%Z in
    let q := (a / d)%Z in
    let r := (a mod d)%Z in
    match (2 * r ?= d)%Z with
    | Lt => q
    | Gt => (q + 1)%Z
    | Eq => if Z.even q then q else (q + 1)%Z
    end.

Definition minus_sign (s : bool) : str := if s then [45%N] else [].

(** [{f:.2f}] for a [float]: the decimal with two places nearest to the
    value, with the sign of the float, also for a zero. *)
Definition fmt_2f_float (f : spec_float) : str :=
  match f with
  | S754_nan => lit "nan"
  | S754_infinity s => minus_sign s ++ lit "inf"
  | S754_zero s => minus_sign s ++ fmt_2f 0
  | S754_finite s m e =>
      minus_sign s ++ fmt_2f (round_half_even (100 * Z.pos m) e)
  end.

(** [{v:.2f}]: an [int] is converted to a [float] first. *)
Definition fmt_2f_number (v : number) : result str :=
  let* f := to_float v in
  Ok (fmt_2f_float f).

(** A literal with two decimals as Python reads it: the binary64 value
    nearest to the decimal. *)
Definition float_literal (hundredths : Z) : spec_float :=
  SFdiv prec emax (binary_normalize prec emax hundredths 0 false)
    (binary_normalize prec emax 100 0 false).

(** The binary64 value nearest to [k / 4]; it is [k / 4] itself when [k]
    has at most 53 binary digits. *)
Definition quarter (k : Z) : spec_float :=
  binary_normalize prec emax k (-2) false.

(** The Python number [v] is exactly [z] hundredths: an [int], or a [float]
    that is a whole number of quarters. *)
Definition exact_number (z : Z) (v : number) : Prop :=
  (exists n, v = Int n /\ z = pt n)
  \/ (exists k, v = Float (quarter k) /\ z = (25 * k)%Z).

(** The same for a number that is subtracted, where the negative zero of
    the floats counts as zero. *)
Definition exact_operand (z : Z) (v : number) : Prop :=
  exact_number z v \/ (v = Float (S754_zero true) /\ z = 0%Z).

(** The text-show instruction with its three numbers given as printed. *)
Definition show_text_printed (font size x y safe : str) : str :=
  lit "BT /" ++ font ++ lit " " ++ size ++ lit " Tf " ++ x
    ++ lit " " ++ y ++ lit " Td (" ++ safe ++ lit ") Tj ET".

(** [f"BT /{font} {size:.2f} Tf {x:.2f} {y:.2f} Td ({safe}) Tj ET"] for
    Python numbers. *)
Definition show_text_numbers (font : str) (size x y : number) (safe : str)
  : result str :=
  let* size := fmt_2f_number size in
  let* x := fmt_2f_number x in
  let* y := fmt_2f_number y in
  Ok (show_text_printed font size x y safe).

(** ** generate_app_summary_pdf.py with Python's numbers

    [Layout] as in [Summary], with the cursor a Python number: the
    subtractions, the comparisons with [BOTTOM] and the printing with
    [:.2f] are those of [int] and [float]. *)
Module SummaryFloat.

Definition LEFT : Z := 50.
Definition TOP : Z := 760.
Definition BOTTOM : Z := 42.

Definition text (self : Summary.PDFBuilder) (x y : number) (text : str)
    (font : str) (size : number) : result Summary.PDFBuilder :=
  let safe := pdf_escape text in
  let* command := show_text_numbers font size x y safe in
  Ok {| Summary.commands := Summary.commands self ++ [command] |}.

Record Layout := { builder : Summary.PDFBuilder; y : number }.

Definition Layout_init (builder : Summary.PDFBuilder) : Layout :=
  {| builder := builder; y := Int TOP |}.

Definition _ensure_room (self : Layout) (min_y : number) : result unit :=
  if lt (y self) min_y then Raise (RuntimeError overflow_message)
  else Ok tt.

Definition title (self : Layout) (t : str) : result Layout :=
  let* b := text (builder self) (Int LEFT) (y self) t (lit "F2") (Int 18) in
  let* y' := sub (y self) (Int 22) in
  Ok {| builder := b; y := y' |}.

Definition subtitle (self : Layout) (t : str) : result Layout :=
  let* b := text (builder self) (Int LEFT) (y self) t (lit "F3")
              (Float (float_literal 950)) in
  let* y' := sub (y self) (Int 16) in
  Ok {| builder := b; y := y' |}.

Definition section (self : Layout) (heading : str) : result Layout :=
  let* b := text (builder self) (Int LEFT) (y self) heading (lit "F2")
              (Float (float_literal 1150)) in
  let* y' := sub (y self) (Int 14) in
  Ok {| builder := b; y := y' |}.

(** The body of the loop of [paragraph]. *)
Definition paragraph_line (self : Layout) (line : str) : result Layout :=
  let* _ := _ensure_room self (Int BOTTOM) in
  let* b := text (builder self) (Int LEFT) (y self) line (lit "F1")
              (Float (float_literal 950)) in
  let* y' := sub (y self) (Int 12) in
  Ok {| builder := b; y := y' |}.

Definition paragraph {U : UnicodeDB} (self : Layout) (t : str)
    (width_chars : Z) : result Layout :=
  let* lines := wrap t width_chars in
  for_each paragraph_line lines self.

(** The first line of [bullet] and the body of its loop. *)
Definition bullet_first (self : Layout) (line : str) : result Layout :=
  let* _ := _ensure_room self (Int BOTTOM) in
  let* b := text (builder self) (Int (LEFT + 2)) (y self) (lit "- " ++ line)
              (lit "F1") (Float (float_literal 950)) in
  let* y' := sub (y self) (Int 12) in
  Ok {| builder := b; y := y' |}.

Definition bullet_line (self : Layout) (line : str) : result Layout :=
  let* _ := _ensure_room self (Int BOTTOM) in
  let* b := text (builder self) (Int (LEFT + 14)) (y self) line (lit "F1")
              (Float (float_literal 950)) in
  let* y' := sub (y self) (Int 12) in
  Ok {| builder := b; y := y' |}.

Definition bullet {U : UnicodeDB} (self : Layout) (t : str)
    (width_chars : Z) : result Layout :=
  let* wrapped := wrap t width_chars in
  match wrapped with
  | [] => Ok self
  | first :: others =>
      let* self := bullet_first self first in
      for_each bullet_line others self
  end.

Definition gap (self : Layout) (pts : number) : result Layout :=
  let* y' := sub (y self) pts in
  Ok {| builder := builder self; y := y' |}.

Inductive Call : Type :=
  | Title (t : str)
  | Subtitle (t : str)
  | SectionHead (t : str)
  | Paragraph (t : str) (width_chars : Z)
  | Bullet (t : str) (width_chars : Z)
  | Gap (pts : number).

Definition perform {U : UnicodeDB} (l : Layout) (c : Call) : result Layout :=
  match c with
  | Title t => title l t
  | Subtitle t => subtitle l t
  | SectionHead t => section l t
  | Paragraph t w => paragraph l t w
  | Bullet t w => bullet l t w
  | Gap pts => gap l pts
  end.

(** [build_summary_pdf] with the calls between the creation of the layout
    and the final check given by [script]. *)
Definition build_summary_pdf_from {U : UnicodeDB} (script : list Call)
    (output_path : Path) : list IOAction * result unit :=
  let b := Summary.PDFBuilder_init in
  let l := Layout_init b in
  match for_each perform script l with
  | Raise e => ([], Raise e)
  | Ok l =>
      if lt (y l) (Int BOTTOM) then ([], Raise (RuntimeError overflow_message))
      else Summary.build (builder l) output_path
  end.

End SummaryFloat.

(** The call made with Python numbers and the call of [Summary] are the
    same call: a gap is the same number of hundredths, given as an [int]
    or as a [float] that is a whole number of quarter points. *)
Definition summary_same_call (c' : SummaryFloat.Call) (c : Summary.Call)
  : Prop :=
  match c', c with
  | SummaryFloat.Title t', Summary.Title t => t' = t
  | SummaryFloat.Subtitle t', Summary.Subtitle t => t' = t
  | SummaryFloat.SectionHead t', Summary.SectionHead t => t' = t
  | SummaryFloat.Paragraph t' w', Summary.Paragraph t w => t' = t /\ w' = w
  | SummaryFloat.Bullet t' w', Summary.Bullet t w => t' = t /\ w' = w
  | SummaryFloat.Gap pts', Summary.Gap pts => exact_operand pts pts'
  | _, _ => False
  end.

(** How far a call can move the cursor: the size of a gap, the advance of
    a heading, twelve points for each line of a paragraph or bullet. *)
Definition summary_call_span {U : UnicodeDB} (c : Summary.Call) : Z :=
  match c with
  | Summary.Title _ => pt 22
  | Summary.Subtitle _ => pt 16
  | Summary.SectionHead _ => pt 14
  | Summary.Paragraph t w | Summary.Bullet t w =>
      match wrap t w with
      | Ok lines => (pt 12 * len lines)%Z
      | Raise _ => 0%Z
      end
  | Summary.Gap pts => Z.abs pts
  end.

Definition summary_span {U : UnicodeDB} (script : list Summary.Call) : Z :=
  total (map summary_call_span script).

(** The scripts on which the arithmetic of the source is exact: every gap
    is a whole number of quarter points, and the script moves the cursor
    by at most [2 ^ 50] points in all. *)
Definition summary_exact {U : UnicodeDB} (script : list Summary.Call) : Prop :=
  Forall (fun c => match c with
                   | Summary.Gap pts => (pts mod 25 = 0)%Z
                   | _ => True
                   end) script
  /\ (summary_span script <= pt (2 ^ 50))%Z.
(** The layouts agree: the same commands, and the cursor of the one is the
    cursor of the other, at most [bound] from zero. *)
Definition summary_agree (bound : Z) (l' : SummaryFloat.Layout)
    (l : Summary.Layout) : Prop :=
  SummaryFloat.builder l' = Summary.builder l
  /\ exact_number (Summary.y l) (SummaryFloat.y l')
  /\ (Z.abs (Summary.y l) <= bound)%Z.

(** The two results agree. *)
Definition summary_agree_result (bound : Z)
    (r' : result SummaryFloat.Layout) (r : result Summary.Layout) : Prop :=
  match r with
  | Ok l => exists l', r' = Ok l' /\ summary_agree bound l' l
  | Raise e => r' = Raise e
  end.

(** Below this many hundredths a whole number of quarter points is a
    binary64 value, and so is what [float] makes of an [int]. *)
Definition limit : Z := (pt (2 ^ 51) - 1)%Z.

(** ** generate_technical_walkthrough_pdf.py with Python's numbers *)
Module WalkthroughFloat.

Definition LEFT : Z := 48.
Definition TOP : Z := 760.
Definition BOTTOM : Z := 46.

Definition text (self : Walkthrough.PDFBuilder) (x y : number) (text : str)
    (font : str) (size : number) : result Walkthrough.PDFBuilder :=
  let safe := pdf_escape text in
  match py_index (Walkthrough.pages self) (Walkthrough.page_index self) with
  | None => Raise IndexError
  | Some (i, page) =>
      let* command := show_text_numbers font size x y safe in
      Ok {| Walkthrough.pages :=
              <[i := page ++ [command]]> (Walkthrough.pages self) |}
  end.

Record Layout := { builder : Walkthrough.PDFBuilder; y : number }.

Definition Layout_init (builder : Walkthrough.PDFBuilder) : Layout :=
  {| builder := builder; y := Int TOP |}.

Definition _next_page_if_needed (self : Layout) (required_height : number)
  : result Layout :=
  let* room := sub (y self) required_height in
  if lt room (Int BOTTOM)
  then Ok {| builder := Walkthrough.new_page (builder self); y := Int TOP |}
  else Ok self.

Definition title (self : Layout) (t : str) : result Layout :=
  let* self := _next_page_if_needed self (Int 26) in
  let* b := text (builder self) (Int LEFT) (y self) t (lit "F2") (Int 19) in
  let* y' := sub (y self) (Int 24) in
  Ok {| builder := b; y := y' |}.

Definition subtitle (self : Layout) (t : str) : result Layout :=
  let* self := _next_page_if_needed self (Int 15) in
  let* b := text (builder self) (Int LEFT) (y self) t (lit "F3") (Int 10) in
  let* y' := sub (y self) (Int 15) in
  Ok {| builder := b; y := y' |}.

Definition section (self : Layout) (t : str) : result Layout :=
  let* self := _next_page_if_needed self (Int 18) in
  let* b := text (builder self) (Int LEFT) (y self) t (lit "F2") (Int 13) in
  let* y' := sub (y self) (Int 16) in
  Ok {| builder := b; y := y' |}.

Definition subsection (self : Layout) (t : str) : result Layout :=
  let* self := _next_page_if_needed self (Int 15) in
  let* b := text (builder self) (Int LEFT) (y self) t (lit "F2") (Int 11) in
  let* y' := sub (y self) (Int 14) in
  Ok {| builder := b; y := y' |}.

(** The body of the loop of [paragraph]. *)
Definition paragraph_line (self : Layout) (line : str) : result Layout :=
  let* self := _next_page_if_needed self (Int 12) in
  let* b := text (builder self) (Int LEFT) (y self) line (lit "F1") (Int 10) in
  let* y' := sub (y self) (Int 12) in
  Ok {| builder := b; y := y' |}.

Definition paragraph {U : UnicodeDB} (self : Layout) (t : str)
    (width_chars : Z) : result Layout :=
  let* lines := wrap t width_chars in
  for_each paragraph_line lines self.

(** The first line of [bullet] and the body of its loop. *)
Definition bullet_first (self : Layout) (line : str) : result Layout :=
  let* self := _next_page_if_needed self (Int 12) in
  let* b := text (builder self) (Int (LEFT + 2)) (y self) (lit "- " ++ line)
              (lit "F1") (Int 10) in
  let* y' := sub (y self) (Int 12) in
  Ok {| builder := b; y := y' |}.

Definition bullet_line (self : Layout) (line : str) : result Layout :=
  let* self := _next_page_if_needed self (Int 12) in
  let* b := text (builder self) (Int (LEFT + 16)) (y self) line (lit "F1")
              (Int 10) in
  let* y' := sub (y self) (Int 12) in
  Ok {| builder := b; y := y' |}.

Definition bullet {U : UnicodeDB} (self : Layout) (t : str)
    (width_chars : Z) : result Layout :=
  let* wrapped := wrap t width_chars in
  match wrapped with
  | [] => Ok self
  | first :: others =>
      let* self := bullet_first self first in
      for_each bullet_line others self
  end.

Definition code_line (self : Layout) (t : str) : result Layout :=
  let* self := _next_page_if_needed self (Int 12) in
  let* b := text (builder self) (Int (LEFT + 8)) (y self) t (lit "F4")
              (Float (float_literal 940)) in
  let* y' := sub (y self) (Int 12) in
  Ok {| builder := b; y := y' |}.

Definition gap (self : Layout) (pts : number) : result Layout :=
  let* y' := sub (y self) pts in
  Ok {| builder := builder self; y := y' |}.

Inductive Call : Type :=
  | Title (t : str)
  | Subtitle (t : str)
  | SectionHead (t : str)
  | Subsection (t : str)
  | Paragraph (t : str) (width_chars : Z)
  | Bullet (t : str) (width_chars : Z)
  | CodeLine (t : str)
  | Gap (pts : number).

Definition perform {U : UnicodeDB} (l : Layout) (c : Call) : result Layout :=
  match c with
  | Title t => title l t
  | Subtitle t => subtitle l t
  | SectionHead t => section l t
  | Subsection t => subsection l t
  | Paragraph t w => paragraph l t w
  | Bullet t w => bullet l t w
  | CodeLine t => code_line l t
  | Gap pts => gap l pts
  end.

(** The layout after the calls of [script] on a fresh builder. *)
Definition lay_out {U : UnicodeDB} (script : list Call) : result Layout :=
  for_each perform script (Layout_init Walkthrough.PDFBuilder_init).

(** [write_walkthrough] with the calls given by [script]. *)
Definition write_walkthrough_from {U : UnicodeDB} (script : list Call)
    (output_path : Path) : list IOAction * result unit :=
  match lay_out script with
  | Raise e => ([], Raise e)
  | Ok l => Walkthrough.build (builder l) output_path
  end.

End WalkthroughFloat.

Definition walk_same_call (c' : WalkthroughFloat.Call) (c : Walkthrough.Call)
  : Prop :=
  match c', c with
  | WalkthroughFloat.Title t', Walkthrough.Title t => t' = t
  | WalkthroughFloat.Subtitle t', Walkthrough.Subtitle t => t' = t
  | WalkthroughFloat.SectionHead t', Walkthrough.SectionHead t => t' = t
  | WalkthroughFloat.Subsection t', Walkthrough.Subsection t => t' = t
  | WalkthroughFloat.Paragraph t' w', Walkthrough.Paragraph t w =>
      t' = t /\ w' = w
  | WalkthroughFloat.Bullet t' w', Walkthrough.Bullet t w => t' = t /\ w' = w
  | WalkthroughFloat.CodeLine t', Walkthrough.CodeLine t => t' = t
  | WalkthroughFloat.Gap pts', Walkthrough.Gap pts => exact_operand pts pts'
  | _, _ => False
  end.

(** How far a call can move the cursor, or how much room it asks for. *)
Definition walk_call_span {U : UnicodeDB} (c : Walkthrough.Call) : Z :=
  match c with
  | Walkthrough.Title _ => pt 26
  | Walkthrough.Subtitle _ => pt 15
  | Walkthrough.SectionHead _ => pt 18
  | Walkthrough.Subsection _ => pt 15
  | Walkthrough.Paragraph t w | Walkthrough.Bullet t w =>
      match wrap t w with
      | Ok lines => (pt 12 * len lines)%Z
      | Raise _ => 0%Z
      end
  | Walkthrough.CodeLine _ => pt 12
  | Walkthrough.Gap pts => Z.abs pts
  end.

Definition walk_span {U : UnicodeDB} (script : list Walkthrough.Call) : Z :=
  total (map walk_call_span script).

Definition walk_exact {U : UnicodeDB} (script : list Walkthrough.Call) : Prop :=
  Forall (fun c => match c with
                   | Walkthrough.Gap pts => (pts mod 25 = 0)%Z
                   | _ => True
                   end) script
  /\ (walk_span script <= pt (2 ^ 50))%Z.

Definition walk_agree (bound : Z) (l' : WalkthroughFloat.Layout)
    (l : Walkthrough.Layout) : Prop :=
  WalkthroughFloat.builder l' = Walkthrough.builder l
  /\ exact_number (Walkthrough.y l) (WalkthroughFloat.y l')
  /\ (Z.abs (Walkthrough.y l) <= bound)%Z.

Definition walk_agree_result (bound : Z)
    (r' : result WalkthroughFloat.Layout) (r : result Walkthrough.Layout)
  : Prop :=
  match r with
  | Ok l => exists l', r' = Ok l' /\ walk_agree bound l' l
  | Raise e => r' = Raise e
  end.

(** ** The builders as objects of a process

    [build] is a method.  It is called on a builder object that was filled
    through another reference to it (the layout's), in a process that has a
    clock, can run the git command, and has made calls on the file system
    before.  A [World] holds what a call can reach and change: the builder
    objects by their address, what the clock and the git command answer,
    and the calls made on the file system so far. *)
Record World := {
  summary_objects : gmap nat Summary.PDFBuilder;
  walk_objects : gmap nat Walkthrough.PDFBuilder;
  today : str;                 (* date.today().isoformat() *)
  now : str;                   (* datetime.now().strftime("%Y-%m-%d %H:%M") *)
  git : RunOutcome;            (* subprocess.run(["git", ...]) *)
  storage : list IOAction
}.

(** A call: from the world it is made in to the world it leaves, with what
    it returns or raises. *)
Definition Program (A : Type) : Type := World -> World * result A.

(** The world after more calls on the file system; nothing else differs. *)
Definition stored (acts : list IOAction) (w : World) : World :=
  {| summary_objects := summary_objects w; walk_objects := walk_objects w;
     today := today w; now := now w; git := git w;
     storage := storage w ++ acts |}.

Definition set_summary_object (self : nat) (b : Summary.PDFBuilder)
    (w : World) : World :=
  {| summary_objects := <[self := b]> (summary_objects w);
     walk_objects := walk_objects w;
     today := today w; now := now w; git := git w; storage := storage w |}.

Definition set_walk_object (self : nat) (b : Walkthrough.PDFBuilder)
    (w : World) : World :=
  {| summary_objects := summary_objects w;
     walk_objects := <[self := b]> (walk_objects w);
     today := today w; now := now w; git := git w; storage := storage w |}.

(** The methods of the one-page [PDFBuilder] on an object given by
    reference. *)
Module SummaryObject.

(** [PDFBuilder()]: a new object at an address not in use. *)
Definition PDFBuilder_new : Program nat :=
  fun w =>
    let self := fresh (dom (summary_objects w)) in
    (set_summary_object self Summary.PDFBuilder_init w, Ok self).

(** [self.commands.append(...)] changes the object in place: every
    reference to it sees the command. *)
Definition text (self : nat) (x y : num) (t : str) (font : str) (size : num)
  : Program unit :=
  fun w =>
    match summary_objects w !! self with
    | Some b => (set_summary_object self (Summary.text b x y t font size) w, Ok tt)
    | None => (w, Raise Dangling)
    end.

(** [build] reads [self.commands] and calls the file system. *)
Definition build (self : nat) (output_path : Path) : Program unit :=
  fun w =>
    match summary_objects w !! self with
    | Some b =>
        let '(acts, r) := Summary.build b output_path in
        (stored acts w, r)
    | None => (w, Raise Dangling)
    end.

End SummaryObject.

(** The methods of the multi-page [PDFBuilder] on an object given by
    reference. *)
Module WalkthroughObject.

Definition PDFBuilder_new : Program nat :=
  fun w =>
    let self := fresh (dom (walk_objects w)) in
    (set_walk_object self Walkthrough.PDFBuilder_init w, Ok self).

Definition new_page (self : nat) : Program unit :=
  fun w =>
    match walk_objects w !! self with
    | Some b => (set_walk_object self (Walkthrough.new_page b) w, Ok tt)
    | None => (w, Raise Dangling)
    end.

Definition text (self : nat) (x y : num) (t : str) (font : str) (size : num)
  : Program unit :=
  fun w =>
    match walk_objects w !! self with
    | Some b =>
        match Walkthrough.text b x y t font size with
        | Ok b' => (set_walk_object self b' w, Ok tt)
        | Raise e => (w, Raise e)
        end
    | None => (w, Raise Dangling)
    end.

Definition build (self : nat) (output_path : Path) : Program unit :=
  fun w =>
    match walk_objects w !! self with
    | Some b =>
        let '(acts, r) := Walkthrough.build b output_path in
        (stored acts w, r)
    | None => (w, Raise Dangling)
    end.

End WalkthroughObject.

(** One call after another. *)
Definition and_then {A B} (m : Program A) (k : A -> Program B) : Program B :=
  fun w =>
    match m w with
    | (w', Ok a) => k a w'
    | (w', Raise e) => (w', Raise e)
    end.

(** A call that returns [a], one that raises [e], and one that computes
    without touching the world. *)
Definition ret {A} (a : A) : Program A := fun w => (w, Ok a).
Definition raise {A} (e : exn) : Program A := fun w => (w, Raise e).
Definition lift {A} (r : result A) : Program A := fun w => (w, r).

(** A [for] loop of calls. *)
Fixpoint for_each_call {A S} (body : S -> A -> Program S) (xs : list A) (s : S)
  : Program S :=
  match xs with
  | [] => ret s
  | x :: xs' => and_then (body s x) (for_each_call body xs')
  end.

(** [generate_app_summary_pdf.py] as it runs: the layout holds a reference
    to the builder, [build_summary_pdf] keeps another, and the date comes
    from the clock. *)
Module SummaryProcess.

Record Layout := { builder : nat; y : num }.

(** [Layout(builder)] *)
Definition Layout_new (builder : nat) : Layout :=
  {| builder := builder; y := Summary.TOP |}.

Definition _ensure_room (self : Layout) (min_y : num) : Program unit :=
  if (y self <? min_y)%Z then raise (RuntimeError overflow_message)
  else ret tt.

Definition title (self : Layout) (t : str) : Program Layout :=
  and_then (SummaryObject.text (builder self) Summary.LEFT (y self) t
              (lit "F2") (pt 18)) (fun _ =>
  ret {| builder := builder self; y := (y self - pt 22)%Z |}).

Definition subtitle (self : Layout) (t : str) : Program Layout :=
  and_then (SummaryObject.text (builder self) Summary.LEFT (y self) t
              (lit "F3") (dec 9 50)) (fun _ =>
  ret {| builder := builder self; y := (y self - pt 16)%Z |}).

Definition section (self : Layout) (heading : str) : Program Layout :=
  and_then (SummaryObject.text (builder self) Summary.LEFT (y self) heading
              (lit "F2") (dec 11 50)) (fun _ =>
  ret {| builder := builder self; y := (y self - pt 14)%Z |}).

Definition paragraph_line (self : Layout) (line : str) : Program Layout :=
  and_then (_ensure_room self Summary.BOTTOM) (fun _ =>
  and_then (SummaryObject.text (builder self) Summary.LEFT (y self) line
              (lit "F1") (dec 9 50)) (fun _ =>
  ret {| builder := builder self; y := (y self - pt 12)%Z |})).

Definition paragraph {U : UnicodeDB} (self : Layout) (t : str)
    (width_chars : Z) : Program Layout :=
  and_then (lift (wrap t width_chars)) (fun lines =>
  for_each_call paragraph_line lines self).

Definition bullet_first (self : Layout) (line : str) : Program Layout :=
  and_then (_ensure_room self Summary.BOTTOM) (fun _ =>
  and_then (SummaryObject.text (builder self) (Summary.LEFT + pt 2)%Z (y self)
              (lit "- " ++ line) (lit "F1") (dec 9 50)) (fun _ =>
  ret {| builder := builder self; y := (y self - pt 12)%Z |})).

Definition bullet_line (self : Layout) (line : str) : Program Layout :=
  and_then (_ensure_room self Summary.BOTTOM) (fun _ =>
  and_then (SummaryObject.text (builder self) (Summary.LEFT + pt 14)%Z (y self)
              line (lit "F1") (dec 9 50)) (fun _ =>
  ret {| builder := builder self; y := (y self - pt 12)%Z |})).

Definition bullet {U : UnicodeDB} (self : Layout) (t : str)
    (width_chars : Z) : Program Layout :=
  and_then (lift (wrap t width_chars)) (fun wrapped =>
  match wrapped with
  | [] => ret self
  | first :: others =>
      and_then (bullet_first self first) (for_each_call bullet_line others)
  end).

Definition gap (self : Layout) (pts : num) : Program Layout :=
  ret {| builder := builder self; y := (y self - pts)%Z |}.

Definition perform {U : UnicodeDB} (l : Layout) (c : Summary.Call)
  : Program Layout :=
  match c with
  | Summary.Title t => title l t
  | Summary.Subtitle t => subtitle l t
  | Summary.SectionHead t => section l t
  | Summary.Paragraph t w => paragraph l t w
  | Summary.Bullet t w => bullet l t w
  | Summary.Gap pts => gap l pts
  end.

(** [date.today().isoformat()] *)
Definition read_today : Program str := fun w => (w, Ok (today w)).

(** [build_summary_pdf]: the builder is made, the layout fills it through
    its reference, and [b.build] is called on the builder itself.  The
    date is read when the subtitle is made; the clock of a world gives one
    answer, so it is read here before the calls. *)
Definition build_summary_pdf {U : UnicodeDB} (output_path : Path)
  : Program unit :=
  and_then SummaryObject.PDFBuilder_new (fun b =>
  let l := Layout_new b in
  and_then read_today (fun today =>
  and_then (for_each_call perform (Summary.summary_calls today) l) (fun l =>
  if (y l <? Summary.BOTTOM)%Z then raise (RuntimeError overflow_message)
  else SummaryObject.build b output_path))).

End SummaryProcess.

(** [generate_technical_walkthrough_pdf.py] as it runs. *)
Module WalkthroughProcess.

Record Layout := { builder : nat; y : num }.

Definition Layout_new (builder : nat) : Layout :=
  {| builder := builder; y := Walkthrough.TOP |}.

Definition _next_page_if_needed (self : Layout) (required_height : num)
  : Program Layout :=
  if (y self - required_height <? Walkthrough.BOTTOM)%Z
  then and_then (WalkthroughObject.new_page (builder self)) (fun _ =>
       ret {| builder := builder self; y := Walkthrough.TOP |})
  else ret self.

Definition title (self : Layout) (t : str) : Program Layout :=
  and_then (_next_page_if_needed self (pt 26)) (fun self =>
  and_then (WalkthroughObject.text (builder self) Walkthrough.LEFT (y self)
              t (lit "F2") (pt 19)) (fun _ =>
  ret {| builder := builder self; y := (y self - pt 24)%Z |})).

Definition subtitle (self : Layout) (t : str) : Program Layout :=
  and_then (_next_page_if_needed self (pt 15)) (fun self =>
  and_then (WalkthroughObject.text (builder self) Walkthrough.LEFT (y self)
              t (lit "F3") (pt 10)) (fun _ =>
  ret {| builder := builder self; y := (y self - pt 15)%Z |})).

Definition section (self : Layout) (t : str) : Program Layout :=
  and_then (_next_page_if_needed self (pt 18)) (fun self =>
  and_then (WalkthroughObject.text (builder self) Walkthrough.LEFT (y self)
              t (lit "F2") (pt 13)) (fun _ =>
  ret {| builder := builder self; y := (y self - pt 16)%Z |})).

Definition subsection (self : Layout) (t : str) : Program Layout :=
  and_then (_next_page_if_needed self (pt 15)) (fun self =>
  and_then (WalkthroughObject.text (builder self) Walkthrough.LEFT (y self)
              t (lit "F2") (pt 11)) (fun _ =>
  ret {| builder := builder self; y := (y self - pt 14)%Z |})).

Definition paragraph_line (self : Layout) (line : str) : Program Layout :=
  and_then (_next_page_if_needed self (pt 12)) (fun self =>
  and_then (WalkthroughObject.text (builder self) Walkthrough.LEFT (y self)
              line (lit "F1") (pt 10)) (fun _ =>
  ret {| builder := builder self; y := (y self - pt 12)%Z |})).

Definition paragraph {U : UnicodeDB} (self : Layout) (t : str)
    (width_chars : Z) : Program Layout :=
  and_then (lift (wrap t width_chars)) (fun lines =>
  for_each_call paragraph_line lines self).

Definition bullet_first (self : Layout) (line : str) : Program Layout :=
  and_then (_next_page_if_needed self (pt 12)) (fun self =>
  and_then (WalkthroughObject.text (builder self) (Walkthrough.LEFT + pt 2)%Z (y self)
              (lit "- " ++ line) (lit "F1") (pt 10)) (fun _ =>
  ret {| builder := builder self; y := (y self - pt 12)%Z |})).

Definition bullet_line (self : Layout) (line : str) : Program Layout :=
  and_then (_next_page_if_needed self (pt 12)) (fun self =>
  and_then (WalkthroughObject.text (builder self) (Walkthrough.LEFT + pt 16)%Z (y self)
              line (lit "F1") (pt 10)) (fun _ =>
  ret {| builder := builder self; y := (y self - pt 12)%Z |})).

Definition bullet {U : UnicodeDB} (self : Layout) (t : str)
    (width_chars : Z) : Program Layout :=
  and_then (lift (wrap t width_chars)) (fun wrapped =>
  match wrapped with
  | [] => ret self
  | first :: others =>
      and_then (bullet_first self first) (for_each_call bullet_line others)
  end).

Definition code_line (self : Layout) (t : str) : Program Layout :=
  and_then (_next_page_if_needed self (pt 12)) (fun self =>
  and_then (WalkthroughObject.text (builder self) (Walkthrough.LEFT + pt 8)%Z (y self)
              t (lit "F4") (dec 9 40)) (fun _ =>
  ret {| builder := builder self; y := (y self - pt 12)%Z |})).

Definition gap (self : Layout) (pts : num) : Program Layout :=
  ret {| builder := builder self; y := (y self - pts)%Z |}.

Definition perform {U : UnicodeDB} (l : Layout) (c : Walkthrough.Call)
  : Program Layout :=
  match c with
  | Walkthrough.Title t => title l t
  | Walkthrough.Subtitle t => subtitle l t
  | Walkthrough.SectionHead t => section l t
  | Walkthrough.Subsection t => subsection l t
  | Walkthrough.Paragraph t w => paragraph l t w
  | Walkthrough.Bullet t w => bullet l t w
  | Walkthrough.CodeLine t => code_line l t
  | Walkthrough.Gap pts => gap l pts
  end.

(** [datetime.now().strftime("%Y-%m-%d %H:%M")] *)
Definition read_now : Program str := fun w => (w, Ok (now w)).

(** [git_head()] *)
Definition read_git_head : Program str := fun w => (w, Ok (git_head (git w))).

Definition write_walkthrough {U : UnicodeDB} (output_path : Path)
  : Program unit :=
  and_then WalkthroughObject.PDFBuilder_new (fun b =>
  let l := Layout_new b in
  and_then read_now (fun generated_at =>
  and_then read_git_head (fun head =>
  and_then (for_each_call perform
              (Walkthrough.walkthrough_calls head generated_at) l) (fun _ =>
  WalkthroughObject.build b output_path)))).

End WalkthroughProcess.

(** The run of a method through the reference [b] in the world [w] follows
    the method on the builder value: it leaves the object with some
    commands [st], those of the value when the method succeeds, and
    returns the layout with the same cursor or raises the same
    exception. *)
Definition summary_follows (w : World) (b : nat) (r : result Summary.Layout)
    (out : World * result SummaryProcess.Layout) : Prop :=
  exists st,
    fst out = set_summary_object b st w
    /\ match r with
       | Ok l =>
           st = Summary.builder l
           /\ snd out = Ok {| SummaryProcess.builder := b;
                              SummaryProcess.y := Summary.y l |}
       | Raise e => snd out = Raise e
       end.

Definition walk_follows (w : World) (b : nat) (r : result Walkthrough.Layout)
    (out : World * result WalkthroughProcess.Layout) : Prop :=
  exists st,
    fst out = set_walk_object b st w
    /\ match r with
       | Ok l =>
           st = Walkthrough.builder l
           /\ snd out = Ok {| WalkthroughProcess.builder := b;
                              WalkthroughProcess.y := Walkthrough.y l |}
       | Raise e => snd out = Raise e
       end.

(** * Properties *)

(** ** The text escaper *)

Lemma replace1_app old new s1 s2 :
  replace1 old new (s1 ++ s2) = replace1 old new s1 ++ replace1 old new s2.
Proof. unfold replace1. apply flat_map_app. Qed.

Lemma pdf_escape_cons c t : pdf_escape (c :: t) = escape_char c ++ pdf_escape t.
Proof.
  unfold pdf_escape, escape_char.
  change (c :: t) with ([c] ++ t).
  rewrite !replace1_app. f_equal.
  unfold replace1, BACKSLASH, LPAREN, RPAREN. simpl.
  destruct (N.eqb_spec c 92) as [->|H92]; [reflexivity|].
  simpl.
  destruct (N.eqb_spec c 40) as [->|H40]; [reflexivity|].
  simpl.
  destruct (N.eqb_spec c 41) as [->|H41]; reflexivity.
Qed.

Lemma pdf_escape_flat_map t : pdf_escape t = flat_map escape_char t.
Proof.
  induction t as [|c t IH]; [reflexivity|].
  rewrite pdf_escape_cons, IH. reflexivity.
Qed.

Lemma unescape_escape_char c s :
  unescape_from false (escape_char c ++ s) = c :: unescape_from false s.
Proof.
  unfold escape_char, BACKSLASH, LPAREN, RPAREN.
  destruct (N.eqb_spec c 92) as [->|H92]; [reflexivity|].
  destruct (N.eqb_spec c 40) as [->|H40]; [reflexivity|].
  destruct (N.eqb_spec c 41) as [->|H41]; [reflexivity|].
  simpl. unfold BACKSLASH.
  destruct (N.eqb_spec c 92); [contradiction|reflexivity].
Qed.

Lemma bare_paren_escape_char c s :
  bare_paren_from false (escape_char c ++ s) = bare_paren_from false s.
Proof.
  unfold escape_char, BACKSLASH, LPAREN, RPAREN.
  destruct (N.eqb_spec c 92) as [->|H92]; [reflexivity|].
  destruct (N.eqb_spec c 40) as [->|H40]; [reflexivity|].
  destruct (N.eqb_spec c 41) as [->|H41]; [reflexivity|].
  simpl. unfold BACKSLASH, LPAREN, RPAREN.
  destruct (N.eqb_spec c 92); [contradiction|].
  destruct (N.eqb_spec c 40); [contradiction|].
  destruct (N.eqb_spec c 41); [contradiction|reflexivity].
Qed.

Lemma unescape_pdf_escape t : unescape (pdf_escape t) = t.
Proof.
  unfold unescape. induction t as [|c t IH]; [reflexivity|].
  rewrite pdf_escape_cons, unescape_escape_char, IH. reflexivity.
Qed.

Lemma pdf_escape_no_bare_paren t : has_bare_paren (pdf_escape t) = false.
Proof.
  unfold has_bare_paren. induction t as [|c t IH]; [reflexivity|].
  rewrite pdf_escape_cons, bare_paren_escape_char. exact IH.
Qed.

(** C2. [pdf_escape] doubles every backslash and puts a backslash before
    every parenthesis, the backslashes being handled first so that the
    inserted ones are not doubled: the result is the character-by-character
    image under [escape_char].  It has no parenthesis left bare, reading it
    back gives the text again, and [A (test) \value] becomes
    [A \(test\) \\value]. *)
Theorem pdf_escape_contract :
  (forall t : str,
      pdf_escape t = flat_map escape_char t
      /\ has_bare_paren (pdf_escape t) = false
      /\ unescape (pdf_escape t) = t)
  /\ pdf_escape (lit "A (test) \value") = lit "A \(test\) \\value".
Proof.
  split; [|reflexivity].
  intros t. split; [apply pdf_escape_flat_map|].
  split; [apply pdf_escape_no_bare_paren|apply unescape_pdf_escape].
Qed.

(** ** The line wrapper *)

Lemma len_app {A} (l1 l2 : list A) : len (l1 ++ l2) = (len l1 + len l2)%Z.
Proof. unfold len. rewrite length_app. lia. Qed.

Lemma len_nonneg {A} (l : list A) : (0 <= len l)%Z.
Proof. unfold len. lia. Qed.

Lemma concat_snoc {A} (ls : list (list A)) (l : list A) :
  concat (ls ++ [l]) = concat ls ++ l.
Proof. rewrite concat_app. simpl. rewrite app_nil_r. reflexivity. Qed.

(** The inner loop moves a prefix [moved] of the stack to the line; the
    line stays within the width and the chunk left on top does not fit. *)
Lemma fill_line_spec chunks cur_line cur_len width :
  exists moved rest,
    chunks = moved ++ rest
    /\ fill_line chunks cur_line cur_len width
       = (rest, cur_line ++ moved, (cur_len + len (concat moved))%Z)
    /\ ((cur_len <= width)%Z -> (cur_len + len (concat moved) <= width)%Z)
    /\ match rest with
       | [] => True
       | top :: _ => (width < cur_len + len (concat moved) + len top)%Z
       end.
Proof.
  revert cur_line cur_len.
  induction chunks as [|chunk below IH]; intros cur_line cur_len.
  - exists [], []. cbn [fill_line concat app]. rewrite app_nil_r.
    change (len (@nil N)) with 0%Z. rewrite Z.add_0_r.
    split; [reflexivity|]. split; [reflexivity|]. split; [tauto|exact I].
  - cbn [fill_line].
    destruct (Z.leb_spec (cur_len + len chunk) width) as [Hfit|Hno].
    + destruct (IH (cur_line ++ [chunk]) (cur_len + len chunk)%Z)
        as (moved & rest & -> & Hrun & Hle & Htop).
      exists (chunk :: moved), rest.
      rewrite Hrun, <- app_assoc. cbn [concat app]. rewrite len_app.
      split; [reflexivity|]. split; [rewrite Z.add_assoc; reflexivity|].
      split; [intros _; specialize (Hle Hfit); lia|].
      destruct rest; [exact I|lia].
    + exists [], (chunk :: below). cbn [concat app]. rewrite app_nil_r.
      change (len (@nil N)) with 0%Z. rewrite Z.add_0_r.
      split; [reflexivity|]. split; [reflexivity|].
      split; [tauto|lia].
Qed.

(** The same from an empty line. *)
Lemma fill_line_start chunks width :
  (0 <= width)%Z ->
  exists moved rest,
    chunks = moved ++ rest
    /\ fill_line chunks [] 0 width = (rest, moved, len (concat moved))
    /\ (len (concat moved) <= width)%Z
    /\ match rest with
       | [] => True
       | top :: _ => (width < len (concat moved) + len top)%Z
       end.
Proof.
  intros Hw.
  destruct (fill_line_spec chunks [] 0 width)
    as (moved & rest & Hsplit & Hrun & Hle & Htop).
  exists moved, rest. rewrite Hrun. cbn [app]. rewrite !Z.add_0_l in *.
  split; [exact Hsplit|]. split; [reflexivity|]. split; [auto|exact Htop].
Qed.

Lemma slice_to_len (s : str) (stop : Z) :
  (0 <= stop)%Z -> (len (slice_to s stop) <= stop)%Z.
Proof.
  intros H. unfold slice_to, slice_index, len.
  destruct (Z.ltb_spec stop 0); [lia|].
  rewrite length_take. lia.
Qed.

Lemma slice_from_length (s : str) (stop : Z) :
  (0 <= stop)%Z ->
  length (slice_from s stop) = (length s - Z.to_nat stop)%nat.
Proof.
  intros H. unfold slice_from, slice_index.
  destruct (Z.ltb_spec stop 0); [lia|].
  apply length_drop.
Qed.

Lemma rfind_hyphen_bound (s : str) (stop : Z) :
  (0 <= stop)%Z -> (rfind_hyphen s stop < stop)%Z.
Proof.
  intros H. unfold rfind_hyphen.
  destruct (list_find is_hyphen (rev (take (Z.to_nat stop) s)))
    as [[i c]|]; [|lia].
  unfold len. rewrite length_take. lia.
Qed.


Lemma cut_point_bounds chunk space_left :
  (0 <= space_left)%Z ->
  (0 <= cut_point chunk space_left <= space_left)%Z
  /\ ((1 <= space_left)%Z -> (1 <= cut_point chunk space_left)%Z).
Proof.
  intros H. unfold cut_point.
  destruct (Z.ltb_spec space_left (len chunk)); [|lia].
  pose proof (rfind_hyphen_bound chunk space_left H).
  destruct (Z.ltb_spec 0 (rfind_hyphen chunk space_left)); simpl; [|lia].
  destruct (existsb _ _); lia.
Qed.

Lemma handle_long_word_eq chunk below cur_line cur_len width :
  (1 <= width)%Z ->
  _handle_long_word (chunk :: below) cur_line cur_len width
  = (slice_from chunk (cut_point chunk (width - cur_len)) :: below,
     cur_line ++ [slice_to chunk (cut_point chunk (width - cur_len))]).
Proof.
  intros Hw. unfold _handle_long_word, cut_point.
  destruct (Z.ltb_spec width 1); [lia|]. reflexivity.
Qed.

(** Dropping a trailing blank chunk does not lengthen the line. *)
Lemma drop_trailing_blank_len (cur_line : list str) :
  (len (concat (match last cur_line with
                | Some c => if strip_is_empty c then removelast cur_line
                            else cur_line
                | None => cur_line
                end)) <= len (concat cur_line))%Z.
Proof.
  destruct (last cur_line) as [c|] eqn:Hlast; [|lia].
  destruct (strip_is_empty c); [|lia].
  apply last_Some in Hlast as [front ->].
  rewrite removelast_last, concat_snoc, len_app.
  pose proof (len_nonneg c). lia.
Qed.

Lemma chunks_size_app (a b : list str) :
  chunks_size (a ++ b) = (chunks_size a + chunks_size b)%nat.
Proof. unfold chunks_size. rewrite concat_app, !length_app. lia. Qed.

Lemma chunks_size_cons (c : str) (b : list str) :
  chunks_size (c :: b) = (1 + length c + chunks_size b)%nat.
Proof. unfold chunks_size. simpl. rewrite length_app. lia. Qed.

(** One pass of the outer loop, for a width of at least one: at most one
    line is added, it is within the width, and the stack gets smaller. *)
Lemma wrap_line_spec chunks lines width :
  (1 <= width)%Z -> chunks <> [] ->
  exists chunks' lines',
    wrap_line chunks lines width = (chunks', lines')
    /\ (lines' = lines
        \/ exists line, lines' = lines ++ [line] /\ (len line <= width)%Z)
    /\ (chunks_size chunks' < chunks_size chunks)%nat.
Proof.
  intros Hw Hne. unfold wrap_line.
  set (chunks1 := match chunks, lines with
                  | top :: below, _ :: _ =>
                      if strip_is_empty top then below else chunks
                  | _, _ => chunks
                  end).
  assert (H1 : (chunks1 = chunks
                \/ (chunks_size chunks1 < chunks_size chunks)%nat)).
  { subst chunks1. destruct chunks as [|top below]; [auto|].
    destruct lines; [auto|]. destruct (strip_is_empty top); [|auto].
    right. rewrite chunks_size_cons. lia. }
  destruct (fill_line_start chunks1 width ltac:(lia))
    as (moved & rest & Hsplit & Hrun & Hle & Htop).
  rewrite Hrun. cbv beta iota zeta.
  assert (Hsz1 : chunks_size chunks1
                 = (chunks_size moved + chunks_size rest)%nat)
    by (rewrite Hsplit; apply chunks_size_app).
  (* the long-word step *)
  set (step := match rest with
               | top :: _ =>
                   if (width <? len top)%Z
                   then _handle_long_word rest moved
                          (len (concat moved)) width
                   else (rest, moved)
               | [] => (rest, moved)
               end).
  assert (Hstep : exists chunks2 cur2,
             step = (chunks2, cur2)
             /\ (len (concat cur2) <= width)%Z
             /\ (chunks_size chunks2 <= chunks_size rest)%nat
             /\ (moved = [] -> chunks1 <> [] ->
                 (chunks_size chunks2 < chunks_size rest)%nat)).
  { subst step. destruct rest as [|top below].
    - exists [], moved. repeat split; auto.
      intros -> Hc. rewrite app_nil_r in Hsplit. contradiction.
    - destruct (Z.ltb_spec width (len top)) as [Hlong|Hshort].
      + rewrite handle_long_word_eq by exact Hw.
        destruct (cut_point_bounds top (width - len (concat moved))
                    ltac:(lia)) as [[Hc0 Hc1] Hc2].
        eexists _, _. split; [reflexivity|].
        rewrite concat_snoc, len_app.
        pose proof (slice_to_len top _ Hc0).
        split; [lia|].
        rewrite !chunks_size_cons, slice_from_length by exact Hc0.
        split; [lia|].
        intros -> _. simpl in Hc2. unfold len in *. simpl in *.
        specialize (Hc2 ltac:(lia)). lia.
      + exists (top :: below), moved. split; [reflexivity|].
        split; [lia|]. split; [lia|].
        intros -> _. unfold len in *. simpl in *. lia. }
  destruct Hstep as (chunks2 & cur2 & -> & Hlen2 & Hsz2 & Hstrict).
  pose proof (drop_trailing_blank_len cur2) as Hdrop.
  set (cur3 := match last cur2 with
               | Some c => if strip_is_empty c then removelast cur2 else cur2
               | None => cur2
               end) in *.
  assert (Hsize : (chunks_size chunks2 < chunks_size chunks)%nat).
  { destruct moved as [|m moved'].
    - assert (Hcases : chunks1 = [] \/ chunks1 <> [])
        by (destruct chunks1; [left; reflexivity|right; discriminate]).
      destruct Hcases as [He|Hn].
      + destruct H1 as [H1|H1]; [congruence|].
        rewrite He in H1. unfold chunks_size in H1 at 1. simpl in H1.
        rewrite He in Hsz1. unfold chunks_size in Hsz1. simpl in Hsz1.
        unfold chunks_size in *. lia.
      + specialize (Hstrict eq_refl Hn).
        unfold chunks_size in Hsz1 at 2. simpl in Hsz1.
        destruct H1 as [H1|H1]; [rewrite <- H1|]; lia.
    - rewrite chunks_size_cons in Hsz1.
      destruct H1 as [H1|H1]; [rewrite <- H1|]; lia. }
  exists chunks2.
  destruct cur3 as [|c3 cur3'] eqn:E3.
  - exists lines. split; [reflexivity|]. split; [left; reflexivity|exact Hsize].
  - exists (lines ++ [concat (c3 :: cur3')]). split; [reflexivity|].
    split; [|exact Hsize]. right. eexists. split; [reflexivity|]. lia.
Qed.

(** With enough fuel the loop ends, and every line it adds is within the
    width. *)
Lemma wrap_loop_spec fuel chunks lines width :
  (1 <= width)%Z -> (chunks_size chunks < fuel)%nat ->
  Forall (fun line => (len line <= width)%Z) lines ->
  exists lines',
    wrap_loop fuel chunks lines width = Some lines'
    /\ Forall (fun line => (len line <= width)%Z) lines'.
Proof.
  intros Hw. revert chunks lines.
  induction fuel as [|fuel IH]; intros chunks lines Hfuel Hlines; [lia|].
  destruct chunks as [|top below]; [exists lines; split; [reflexivity|exact Hlines]|].
  destruct (wrap_line_spec (top :: below) lines width Hw ltac:(discriminate))
    as (chunks' & lines' & Hrun & Hl & Hsz).
  cbn [wrap_loop]. rewrite Hrun.
  apply IH; [lia|].
  destruct Hl as [->|(line & -> & Hline)]; [exact Hlines|].
  apply Forall_app. split; [exact Hlines|]. constructor; [exact Hline|constructor].
Qed.

Lemma wrap_chunks_spec chunks width :
  (0 < width)%Z ->
  exists lines,
    _wrap_chunks chunks width = Ok lines
    /\ Forall (fun line => (len line <= width)%Z) lines.
Proof.
  intros Hw. unfold _wrap_chunks.
  destruct (Z.leb_spec width 0); [lia|].
  destruct (wrap_loop_spec (S (chunks_size chunks)) chunks [] width
              ltac:(lia) ltac:(lia) ltac:(constructor))
    as (lines & -> & Hall).
  exists lines. split; [reflexivity|exact Hall].
Qed.

Lemma wrap_within_width {U : UnicodeDB} (text : str) (w : Z) :
  (0 < w)%Z ->
  exists lines,
    wrap text w = Ok lines /\ Forall (fun line => (len line <= w)%Z) lines.
Proof. intros Hw. unfold wrap. apply wrap_chunks_spec. exact Hw. Qed.

(** *** Blank text *)

Lemma expandtabs_from_blank tabsize col text :
  Forall (fun c => is_ws c = true) text ->
  Forall (fun c => is_ws c = true) (expandtabs_from tabsize col text).
Proof.
  intros H. revert col. induction H as [|c text Hc _ IH]; intros col.
  - constructor.
  - cbn [expandtabs_from]. destruct (c =? 9)%N.
    + destruct (0 <? tabsize)%nat; [|apply IH].
      apply Forall_app. split; [|apply IH].
      apply Forall_replicate. reflexivity.
    + constructor; [exact Hc|apply IH].
Qed.

Lemma munge_blank text :
  Forall (fun c => is_ws c = true) text ->
  exists n, _munge_whitespace text = replicate n SPACE.
Proof.
  intros H. unfold _munge_whitespace, expandtabs.
  pose proof (expandtabs_from_blank 8 0 text H) as H'.
  induction H' as [|c s Hc _ [n IH]].
  - exists 0%nat. reflexivity.
  - exists (S n). cbn [translate_whitespace map]. rewrite Hc.
    unfold translate_whitespace in IH. rewrite IH. reflexivity.
Qed.

Section BlankSplit.
Context {U : UnicodeDB}.

Lemma run_length_spaces n : run_length is_ws (replicate n SPACE) = n.
Proof. induction n as [|n IH]; [reflexivity|]. simpl. rewrite IH. reflexivity. Qed.

(** A match that still has the whole rest to take ends the text. *)
Lemma split_scan_to_end back rest cur :
  cur <> [] -> split_scan back rest cur (length rest) = [cur ++ rest].
Proof.
  revert back cur. induction rest as [|c rest IH]; intros back cur Hcur.
  - simpl. rewrite app_nil_r. destruct cur; [contradiction|reflexivity].
  - simpl. rewrite IH by (destruct cur; discriminate).
    rewrite <- app_assoc. reflexivity.
Qed.

Lemma split_spaces n :
  _split (replicate n SPACE)
  = match n with O => [] | S _ => [replicate n SPACE] end.
Proof.
  destruct n as [|n]; [reflexivity|].
  unfold _split. cbn [replicate split_scan app].
  unfold wordsep_match.
  change (is_ws SPACE) with true. cbv iota.
  change (SPACE :: replicate n SPACE) with (replicate (S n) SPACE).
  rewrite run_length_spaces.
  replace (S n - 1)%nat with (length (replicate n SPACE))
    by (rewrite length_replicate; lia).
  rewrite split_scan_to_end by discriminate. reflexivity.
Qed.
End BlankSplit.

Lemma strip_is_empty_take_drop (c : str) n :
  strip_is_empty c = true ->
  strip_is_empty (take n c) = true /\ strip_is_empty (drop n c) = true.
Proof.
  unfold strip_is_empty. intros H.
  rewrite <- (take_drop n c), forallb_app in H.
  apply andb_true_iff in H. exact H.
Qed.

Lemma strip_is_empty_take (c : str) n :
  strip_is_empty c = true -> strip_is_empty (take n c) = true.
Proof. intros H. apply strip_is_empty_take_drop, H. Qed.

Lemma strip_is_empty_drop (c : str) n :
  strip_is_empty c = true -> strip_is_empty (drop n c) = true.
Proof. intros H. apply (strip_is_empty_take_drop c n), H. Qed.

(** A pass over a single blank chunk adds no line and leaves at most a
    blank chunk. *)
Lemma wrap_line_blank (c : str) (width : Z) :
  (1 <= width)%Z -> strip_is_empty c = true ->
  exists chunks',
    wrap_line [c] [] width = (chunks', [])
    /\ (chunks' = [] \/ exists d, chunks' = [d] /\ strip_is_empty d = true).
Proof.
  intros Hw Hc. unfold wrap_line. cbn [fill_line].
  destruct (Z.leb_spec (0 + len c) width) as [Hfit|Hlong].
  - cbn [fill_line]. cbv beta iota zeta. cbn [app last]. rewrite Hc.
    cbn [removelast]. exists []. split; [reflexivity|left; reflexivity].
  - cbv beta iota zeta.
    destruct (Z.ltb_spec width (len c)); [|lia].
    rewrite handle_long_word_eq by exact Hw.
    cbn [app last].
    unfold slice_to at 1.
    rewrite strip_is_empty_take by exact Hc.
    cbn [removelast]. eexists. split; [reflexivity|].
    right. eexists. split; [reflexivity|].
    unfold slice_from. apply strip_is_empty_drop. exact Hc.
Qed.

Lemma wrap_loop_blank fuel (c : str) (width : Z) :
  (1 <= width)%Z -> strip_is_empty c = true ->
  (chunks_size [c] < fuel)%nat ->
  wrap_loop fuel [c] [] width = Some [].
Proof.
  intros Hw. revert c. induction fuel as [|fuel IH]; intros c Hc Hfuel; [lia|].
  destruct (wrap_line_blank c width Hw Hc) as (chunks' & Hrun & Hshape).
  destruct (wrap_line_spec [c] [] width Hw ltac:(discriminate))
    as (chunks2 & lines2 & Hrun2 & _ & Hsz).
  rewrite Hrun in Hrun2. injection Hrun2 as <- <-.
  cbn [wrap_loop]. rewrite Hrun.
  destruct Hshape as [->|(d & -> & Hd)].
  - destruct fuel; reflexivity.
  - apply IH; [exact Hd|lia].
Qed.

Lemma wrap_blank {U : UnicodeDB} (text : str) (w : Z) :
  Forall (fun c => is_ws c = true) text -> (0 < w)%Z ->
  wrap text w = Ok [].
Proof.
  intros Hblank Hw. unfold wrap, _split_chunks.
  destruct (munge_blank text Hblank) as [n ->].
  rewrite split_spaces. unfold _wrap_chunks.
  destruct (Z.leb_spec w 0); [lia|].
  destruct n as [|n]; [reflexivity|].
  rewrite wrap_loop_blank; [reflexivity|lia| |lia].
  unfold strip_is_empty. clear. induction n as [|n IH]; [reflexivity|].
  exact IH.
Qed.

(** C3, as the code has it.  For a width above zero the wrapper returns, and
    every line it returns has at most [w] characters: a word longer than
    [w] is broken into pieces instead of being kept on a line of its
    own. *)
Theorem wrap_lines_within_width :
  forall (U : UnicodeDB) (text : str) (w : Z),
    (0 < w)%Z ->
    exists lines,
      wrap text w = Ok lines
      /\ Forall (fun line => (len line <= w)%Z) lines.
Proof. intros U text w Hw. apply wrap_within_width. exact Hw. Qed.

Lemma wrap_lines_within_width_witness :
  (0 < 3)%Z
  /\ exists lines,
       @wrap ascii_tables (lit "aaaa") 3 = Ok lines
       /\ Forall (fun line => (len line <= 3)%Z) lines.
Proof.
  split; [reflexivity|].
  apply (wrap_lines_within_width ascii_tables (lit "aaaa") 3). reflexivity.
Defined.

(** The word [aaaa] does not fit a width of three; it is not kept whole on a
    line of four characters but broken after the third. *)
Lemma long_word_is_broken :
  @wrap ascii_tables (lit "aaaa") 3 = Ok [lit "aaa"; lit "a"]
  /\ ~ In (lit "aaaa") [lit "aaa"; lit "a"].
Proof.
  split; [vm_compute; reflexivity|].
  intros [H|[H|[]]]; vm_compute in H; discriminate H.
Qed.

Lemma wrap_invalid_width {U : UnicodeDB} (text : str) (w : Z) :
  (w <= 0)%Z -> wrap text w = Raise (ValueError (invalid_width w)).
Proof.
  intros Hw. unfold wrap, _wrap_chunks.
  destruct (Z.leb_spec w 0); [reflexivity|lia].
Qed.

(** C6, as the code has it.  The white space of the wrapper is
    [_whitespace]: tab, line feed, vertical tab, form feed, carriage return
    and space.  For a text made of these characters only (the empty text
    included) and a width above zero, the wrapper returns no line, and
    [paragraph] and [bullet] of either script return the layout they were
    given: no command is recorded and the cursor stays where it was.  A
    width of zero or less is refused by the wrapper with [ValueError]
    before anything is drawn. *)
Theorem blank_text_draws_nothing :
  forall (U : UnicodeDB) (text : str) (w : Z),
    Forall (fun c => is_ws c = true) text ->
    wrap text w
    = (if (0 <? w)%Z then Ok [] else Raise (ValueError (invalid_width w)))
    /\ (forall l : Summary.Layout,
           Summary.paragraph l text w
           = (if (0 <? w)%Z then Ok l else Raise (ValueError (invalid_width w)))
           /\ Summary.bullet l text w
              = (if (0 <? w)%Z then Ok l
                 else Raise (ValueError (invalid_width w))))
    /\ (forall l : Walkthrough.Layout,
           Walkthrough.paragraph l text w
           = (if (0 <? w)%Z then Ok l else Raise (ValueError (invalid_width w)))
           /\ Walkthrough.bullet l text w
              = (if (0 <? w)%Z then Ok l
                 else Raise (ValueError (invalid_width w)))).
Proof.
  intros U text w Hblank.
  assert (Hwrap : wrap text w
                  = (if (0 <? w)%Z then Ok []
                     else Raise (ValueError (invalid_width w)))).
  { destruct (Z.ltb_spec 0 w) as [Hw|Hw].
    - apply wrap_blank; assumption.
    - apply wrap_invalid_width. exact Hw. }
  split; [exact Hwrap|].
  split; intros l.
  - unfold Summary.paragraph, Summary.bullet. rewrite Hwrap.
    destruct (0 <? w)%Z; split; reflexivity.
  - unfold Walkthrough.paragraph, Walkthrough.bullet. rewrite Hwrap.
    destruct (0 <? w)%Z; split; reflexivity.
Qed.

Lemma blank_text_draws_nothing_witness :
  Forall (fun c => is_ws c = true) [32; 9; 10; 32]%N
  /\ @wrap ascii_tables [32; 9; 10; 32]%N 5 = Ok []
  /\ @Walkthrough.bullet ascii_tables
       (Walkthrough.Layout_init Walkthrough.PDFBuilder_init)
       [32; 9; 10; 32]%N 5
     = Ok (Walkthrough.Layout_init Walkthrough.PDFBuilder_init).
Proof.
  assert (Hb : Forall (fun c => is_ws c = true) [32; 9; 10; 32]%N)
    by (repeat constructor).
  destruct (blank_text_draws_nothing ascii_tables [32; 9; 10; 32]%N 5 Hb)
    as (Hwrap & _ & Hwalk).
  split; [exact Hb|]. split; [exact Hwrap|].
  apply Hwalk.
Defined.

(** White space that is not in [_whitespace] is text for the wrapper.  The
    no-break space is white space for [str.isspace], and the text made of a
    no-break space, a space and a no-break space is wrapped to one line:
    [paragraph] of the one-page layout and [bullet] of the multi-page layout
    record a command for it and move the cursor down by a line.  And for a
    width of zero the wrapper returns no lines even for the empty text: it
    raises. *)
Lemma nbsp_text_draws_a_line :
  forallb is_space [160; 32; 160]%N = true
  /\ @wrap ascii_tables [160; 32; 160]%N 5 = Ok [[160; 32]%N]
  /\ @Summary.paragraph ascii_tables
       (Summary.Layout_init Summary.PDFBuilder_init) [160; 32; 160]%N 5
     = Ok {| Summary.builder :=
               {| Summary.commands :=
                    [show_text (lit "F1") (dec 9 50) Summary.LEFT Summary.TOP
                       [160; 32]%N] |};
             Summary.y := (Summary.TOP - pt 12)%Z |}
  /\ @Walkthrough.bullet ascii_tables
       (Walkthrough.Layout_init Walkthrough.PDFBuilder_init)
       [160; 32; 160]%N 5
     = Ok {| Walkthrough.builder :=
               {| Walkthrough.pages :=
                    [[show_text (lit "F1") (pt 10) (Walkthrough.LEFT + pt 2)%Z
                        Walkthrough.TOP (lit "- " ++ [160; 32]%N)]] |};
             Walkthrough.y := (Walkthrough.TOP - pt 12)%Z |}
  /\ @wrap ascii_tables [] 0 = Raise (ValueError (invalid_width 0)).
Proof. repeat split; vm_compute; reflexivity. Qed.

(** ** Escaping and the recorded commands *)

(** The command recorded for the text [(] holds the escaped text [\(], not
    the text itself. *)
Lemma stored_command_is_escaped :
  Summary.commands
    (Summary.text Summary.PDFBuilder_init 0 0 (lit "(") (lit "F1") (pt 10))
  = [lit "BT /F1 10.00 Tf 0.00 0.00 Td (\() Tj ET"]
  /\ lit "BT /F1 10.00 Tf 0.00 0.00 Td (\() Tj ET"
     <> show_text (lit "F1") (pt 10) 0 0 (lit "(").
Proof.
  split; [vm_compute; reflexivity|].
  intros H. vm_compute in H. discriminate H.
Qed.

Lemma walkthrough_text_last (b : Walkthrough.PDFBuilder) front page x y t font size :
  Walkthrough.pages b = front ++ [page] ->
  Walkthrough.text b x y t font size
  = Ok {| Walkthrough.pages :=
            front ++ [page ++ [show_text font size x y (pdf_escape t)]] |}.
Proof.
  intros Hp. unfold Walkthrough.text, Walkthrough.page_index, py_index.
  rewrite Hp. unfold len. rewrite length_app. cbn [length].
  destruct (Z.ltb_spec (Z.of_nat (length front + 1) - 1) 0); [lia|].
  destruct (Z.ltb_spec (Z.of_nat (length front + 1) - 1) 0); [lia|].
  replace (Z.to_nat (Z.of_nat (length front + 1) - 1)) with (length front) by lia.
  rewrite list_lookup_middle by reflexivity.
  f_equal. f_equal.
  rewrite insert_app_r_alt by lia.
  rewrite Nat.sub_diag. reflexivity.
Qed.

(** ** The one-page layout *)

Lemma total_cons a l : total (a :: l) = (a + total l)%Z.
Proof. reflexivity. Qed.

Lemma total_app l1 l2 : total (l1 ++ l2) = (total l1 + total l2)%Z.
Proof.
  induction l1 as [|a l1 IH]; [reflexivity|].
  cbn [app]. rewrite !total_cons, IH. lia.
Qed.

Lemma for_each_app {A S} (body : S -> A -> result S) xs ys s :
  for_each body (xs ++ ys) s
  = let* s' := for_each body xs s in for_each body ys s'.
Proof.
  revert s. induction xs as [|x xs IH]; intros s; [reflexivity|].
  cbn [for_each app]. destruct (body s x); [apply IH|reflexivity].
Qed.

Lemma for_each_map {A B S} (body : S -> B -> result S) (g : A -> B) xs s :
  for_each body (map g xs) s = for_each (fun s x => body s (g x)) xs s.
Proof.
  revert s. induction xs as [|x xs IH]; intros s; [reflexivity|].
  cbn [for_each map]. destruct (body s (g x)); [apply IH|reflexivity].
Qed.

Section SummaryLayout.
Context {U : UnicodeDB}.
Import Summary.

Lemma summary_perform_steps l c steps :
  summary_steps c = Ok steps ->
  perform l c = for_each summary_exec steps l.
Proof.
  destruct c as [t|t|t|t w|t w|pts]; cbn [summary_steps perform].
  1-3: intros [= <-]; reflexivity.
  - unfold paragraph. destruct (wrap t w) as [lines|e]; [|discriminate].
    cbn [rbind]. intros [= <-]. rewrite for_each_map. reflexivity.
  - unfold bullet. destruct (wrap t w) as [[|first others]|e];
      cbn [rbind]; [intros [= <-]; reflexivity| |discriminate].
    intros [= <-]. cbn [for_each summary_exec]. unfold bullet_first.
    destruct (_ensure_room l BOTTOM); cbn [rbind]; [|reflexivity].
    rewrite for_each_map. reflexivity.
  - intros [= <-]. reflexivity.
Qed.

Lemma summary_run_steps script : forall l steps,
  summary_script_steps script = Ok steps ->
  for_each perform script l = for_each summary_exec steps l.
Proof.
  induction script as [|c rest IH]; intros l steps.
  - intros [= <-]. reflexivity.
  - cbn [summary_script_steps for_each].
    destruct (summary_steps c) as [first|e] eqn:Hc; [|discriminate].
    destruct (summary_script_steps rest) as [others|e] eqn:Hr; [|discriminate].
    cbn [rbind]. intros [= <-].
    rewrite for_each_app, (summary_perform_steps l c first Hc).
    destruct (for_each summary_exec first l) as [l'|e]; [|reflexivity].
    cbn [rbind]. apply IH. reflexivity.
Qed.

(** A run of lines and gaps either ends with the cursor lowered by the
    sum of the advances, or stops with the overflow error. *)
Lemma summary_exec_run steps : forall l,
  match for_each summary_exec steps l with
  | Ok l' => y l' = (y l - total (map sstep_advance steps))%Z
  | Raise e => e = RuntimeError overflow_message
  end.
Proof.
  induction steps as [|s steps IH]; intros l.
  - cbn [for_each map total foldr]. lia.
  - cbn [for_each].
    destruct s as [checked x t font size advance|pts]; cbn [summary_exec].
    + destruct checked; cbn [rbind].
      * unfold _ensure_room. destruct (y l <? BOTTOM)%Z; cbn [rbind]; [reflexivity|].
        specialize (IH {| builder := text (builder l) x (y l) t font size;
                          y := (y l - advance)%Z |}).
        destruct (for_each summary_exec steps _) as [l'|e]; [|exact IH].
        cbn [map sstep_advance y] in IH |- *. rewrite total_cons. lia.
      * specialize (IH {| builder := text (builder l) x (y l) t font size;
                          y := (y l - advance)%Z |}).
        destruct (for_each summary_exec steps _) as [l'|e]; [|exact IH].
        cbn [map sstep_advance y] in IH |- *. rewrite total_cons. lia.
    + cbn [rbind]. specialize (IH (gap l pts)).
      destruct (for_each summary_exec steps _) as [l'|e]; [|exact IH].
      cbn [map sstep_advance y gap] in IH |- *. rewrite total_cons. lia.
Qed.

Lemma summary_overflow script path space :
  summary_required_space script = Some space ->
  (TOP - BOTTOM < space)%Z ->
  build_summary_pdf_from script path = ([], Raise (RuntimeError overflow_message)).
Proof.
  unfold summary_required_space, build_summary_pdf_from.
  destruct (summary_script_steps script) as [steps|e] eqn:Hs; [|discriminate].
  intros [= <-] Hspace.
  rewrite (summary_run_steps script _ steps Hs).
  pose proof (summary_exec_run steps (Layout_init PDFBuilder_init)) as Hrun.
  destruct (for_each summary_exec steps _) as [l'|e].
  - cbn [Layout_init y] in Hrun.
    destruct (Z.ltb_spec (y l') BOTTOM); [reflexivity|lia].
  - rewrite Hrun. reflexivity.
Qed.
End SummaryLayout.

(** C4. In the one-page script, content whose required vertical space
    exceeds the height of the page body ([TOP - BOTTOM]) by at least one line
    (12 points) makes the build fail with the content-overflow error, and
    nothing is done on the file system: no directory is made and no file is
    written. *)
Theorem strict_overflow_fails :
  forall (U : UnicodeDB) (script : list Summary.Call) (path : Path) (space : Z),
    summary_required_space script = Some space ->
    (Summary.TOP - Summary.BOTTOM + pt 12 <= space)%Z ->
    Summary.build_summary_pdf_from script path
    = ([], Raise (RuntimeError overflow_message)).
Proof.
  intros U script path space Hspace Hle.
  apply (summary_overflow script path space Hspace).
  unfold pt in Hle. lia.
Qed.

Lemma strict_overflow_fails_witness :
  @summary_required_space ascii_tables
    [Summary.Title (lit "T"); Summary.Gap (pt 700);
     Summary.Paragraph (lit "a b") 102]
  = Some (pt 734)
  /\ (Summary.TOP - Summary.BOTTOM + pt 12 <= pt 734)%Z
  /\ @Summary.build_summary_pdf_from ascii_tables
       [Summary.Title (lit "T"); Summary.Gap (pt 700);
        Summary.Paragraph (lit "a b") 102]
       ["out"; "summary.pdf"]%string
     = ([], Raise (RuntimeError overflow_message)).
Proof.
  assert (H1 : @summary_required_space ascii_tables
                 [Summary.Title (lit "T"); Summary.Gap (pt 700);
                  Summary.Paragraph (lit "a b") 102]
               = Some (pt 734)) by (vm_compute; reflexivity).
  assert (H2 : (Summary.TOP - Summary.BOTTOM + pt 12 <= pt 734)%Z)
    by (vm_compute; discriminate).
  split; [exact H1|]. split; [exact H2|].
  exact (strict_overflow_fails ascii_tables _ _ _ H1 H2).
Defined.

(** ** The multi-page layout *)

Section WalkLayout.
Context {U : UnicodeDB}.
Import Walkthrough.

Lemma walk_perform_steps l c steps :
  walk_steps c = Ok steps ->
  perform l c = for_each walk_exec steps l.
Proof.
  destruct c as [t|t|t|t|t w|t w|t|pts]; cbn [walk_steps perform].
  1-4: intros [= <-]; cbn [for_each walk_exec];
       unfold title, subtitle, section, subsection;
       destruct (text _ _ _ _ _ _); reflexivity.
  - unfold paragraph. destruct (wrap t w) as [lines|e]; [|discriminate].
    cbn [rbind]. intros [= <-]. rewrite for_each_map. reflexivity.
  - unfold bullet. destruct (wrap t w) as [[|first others]|e];
      cbn [rbind]; [intros [= <-]; reflexivity| |discriminate].
    intros [= <-]. cbn [for_each walk_exec]. unfold bullet_first.
    destruct (text _ _ _ _ _ _); cbn [rbind]; [|reflexivity].
    rewrite for_each_map. reflexivity.
  - intros [= <-]. cbn [for_each walk_exec]. unfold code_line.
    destruct (text _ _ _ _ _ _); reflexivity.
  - intros [= <-]. reflexivity.
Qed.

Lemma walk_run_steps script : forall l steps,
  walk_script_steps script = Ok steps ->
  for_each perform script l = for_each walk_exec steps l.
Proof.
  induction script as [|c rest IH]; intros l steps.
  - intros [= <-]. reflexivity.
  - cbn [walk_script_steps for_each].
    destruct (walk_steps c) as [first|e] eqn:Hc; [|discriminate].
    destruct (walk_script_steps rest) as [others|e] eqn:Hr; [|discriminate].
    cbn [rbind]. intros [= <-].
    rewrite for_each_app, (walk_perform_steps l c first Hc).
    destruct (for_each walk_exec first l) as [l'|e]; [|reflexivity].
    cbn [rbind]. apply IH. reflexivity.
Qed.

Lemma walk_steps_regular c steps :
  walk_steps c = Ok steps -> Forall wstep_regular steps.
Proof.
  assert (Hline : forall x f (ls : list (list N)),
             Forall wstep_regular
               (map (fun line => WDraw (pt 12) x line f (pt 10) (pt 12)) ls)).
  { intros x f ls. apply Forall_map, Forall_forall. intros line _.
    cbn. unfold pt. lia. }
  destruct c as [t|t|t|t|t w|t w|t|pts]; cbn [walk_steps].
  1-4: intros [= <-]; repeat constructor; unfold pt; lia.
  - destruct (wrap t w); [|discriminate]. intros [= <-]. apply Hline.
  - destruct (wrap t w) as [[|first others]|]; [| |discriminate];
      intros [= <-]; [constructor|].
    constructor; [cbn; unfold pt; lia|apply Hline].
  - intros [= <-]; repeat constructor; unfold pt; lia.
  - intros [= <-]. repeat constructor.
Qed.

Lemma walk_script_steps_regular script : forall steps,
  walk_script_steps script = Ok steps -> Forall wstep_regular steps.
Proof.
  induction script as [|c rest IH]; intros steps.
  - intros [= <-]. constructor.
  - cbn [walk_script_steps].
    destruct (walk_steps c) as [first|e] eqn:Hc; [|discriminate].
    destruct (walk_script_steps rest) as [others|e] eqn:Hr; [|discriminate].
    cbn [rbind]. intros [= <-]. apply Forall_app. split.
    + eapply walk_steps_regular; eauto.
    + apply IH. reflexivity.
Qed.

(** With widths above zero every text can be wrapped. *)
Lemma walk_script_steps_total script :
  walk_widths_positive script ->
  exists steps, walk_script_steps script = Ok steps.
Proof.
  induction 1 as [|c rest Hc _ [others IH]].
  - exists []. reflexivity.
  - cbn [walk_script_steps]. rewrite IH.
    assert (Hs : exists first, walk_steps c = Ok first).
    { destruct c as [t|t|t|t|t w|t w|t|pts]; cbn [walk_steps]; eauto.
      - destruct (wrap_within_width t w Hc) as (lines & -> & _). eauto.
      - destruct (wrap_within_width t w Hc) as (lines & -> & _). eauto. }
    destruct Hs as [first ->]. eauto.
Qed.

(** What drawing a line does to a layout that has a page. *)
Lemma walk_draw_spec l required x t font size advance front page :
  pages (builder l) = front ++ [page] ->
  walk_exec l (WDraw required x t font size advance)
  = if (y l - required <? BOTTOM)%Z
    then Ok {| builder :=
                 {| pages := (front ++ [page])
                             ++ [[show_text font size x TOP (pdf_escape t)]] |};
               y := (TOP - advance)%Z |}
    else Ok {| builder :=
                 {| pages := front
                             ++ [page ++ [show_text font size x (y l)
                                            (pdf_escape t)]] |};
               y := (y l - advance)%Z |}.
Proof.
  intros Hp. cbn [walk_exec]. unfold _next_page_if_needed.
  destruct (y l - required <? BOTTOM)%Z.
  - cbn [builder y new_page].
    rewrite (walkthrough_text_last _ (front ++ [page]) [])
      by (cbn [pages builder new_page]; rewrite Hp; reflexivity).
    reflexivity.
  - rewrite (walkthrough_text_last _ front page) by exact Hp.
    reflexivity.
Qed.
End WalkLayout.

Lemma nonempty_snoc {A} (l : list A) : l <> [] -> exists front x, l = front ++ [x].
Proof.
  intros H. destruct (last l) as [x|] eqn:E.
  - apply last_Some in E as [front ->]. eauto.
  - apply last_None in E. contradiction.
Qed.

Section WalkInvariants.
Import Walkthrough.

Lemma Forall_pages_snoc (P : list N -> Prop) front page cmd :
  Forall (Forall P) (front ++ [page]) -> P cmd ->
  Forall (Forall P) (front ++ [page ++ [cmd]]).
Proof.
  intros H Hc. apply Forall_app in H as [Hf Hp].
  apply Forall_app. split; [exact Hf|].
  constructor; [|constructor].
  apply Forall_app. split; [|repeat constructor; exact Hc].
  inversion Hp; assumption.
Qed.

Lemma Forall_pages_new (P : list N -> Prop) (ps : list (list (list N))) cmd :
  Forall (Forall P) ps -> P cmd -> Forall (Forall P) (ps ++ [[cmd]]).
Proof.
  intros H Hc. apply Forall_app. split; [exact H|].
  repeat constructor. exact Hc.
Qed.

Lemma walk_step_inv l s :
  walk_inv l -> wstep_regular s ->
  exists l', walk_exec l s = Ok l' /\ walk_inv l'
             /\ match s with
                | WDraw _ _ _ _ _ _ => (BOTTOM <= y l')%Z
                | WSkip _ => builder l' = builder l
                end.
Proof.
  intros [Hne Hall] Hreg.
  destruct s as [required x t font size advance|pts].
  - destruct (nonempty_snoc _ Hne) as (front & page & Hp).
    rewrite (walk_draw_spec l _ _ _ _ _ _ front page Hp).
    destruct Hreg as [Hr Ha].
    destruct (Z.ltb_spec (y l - required) BOTTOM);
      unfold BOTTOM, TOP, pt in *.
    + eexists. split; [reflexivity|]. split; [split|].
      * cbn. destruct (front ++ [page]); discriminate.
      * cbn [builder pages]. apply Forall_pages_new; [rewrite <- Hp; exact Hall|].
        do 5 eexists. split; [reflexivity|]. cbv beta. unfold BOTTOM, TOP, pt. lia.
      * cbn. lia.
    + eexists. split; [reflexivity|]. split; [split|].
      * cbn. destruct front; discriminate.
      * cbn [builder pages]. apply Forall_pages_snoc; [rewrite <- Hp; exact Hall|].
        do 5 eexists. split; [reflexivity|]. cbv beta. unfold BOTTOM, TOP, pt. lia.
      * cbn. lia.
  - eexists. split; [reflexivity|]. split; [exact (conj Hne Hall)|reflexivity].
Qed.

Lemma walk_run_inv steps : forall l,
  walk_inv l -> Forall wstep_regular steps ->
  exists l', for_each walk_exec steps l = Ok l' /\ walk_inv l'.
Proof.
  induction steps as [|s steps IH]; intros l Hinv Hreg.
  - exists l. split; [reflexivity|exact Hinv].
  - inversion Hreg as [|? ? Hs Hrest]; subst.
    destruct (walk_step_inv l s Hinv Hs) as (l1 & Hrun & Hinv1 & _).
    cbn [for_each]. rewrite Hrun. cbn [rbind]. apply IH; assumption.
Qed.

Lemma walk_step_inv_down l used s :
  walk_inv_down l used -> wstep_regular s -> (0 <= wstep_advance s)%Z ->
  exists l', walk_exec l s = Ok l'
             /\ walk_inv_down l' (used + wstep_advance s).
Proof.
  intros (Hne & Hy & Hall & Hone & Hfloor) Hreg Hadv.
  destruct s as [required x t font size advance|pts].
  - destruct (nonempty_snoc _ Hne) as (front & page & Hp).
    rewrite (walk_draw_spec l _ _ _ _ _ _ front page Hp).
    destruct Hreg as [Hr Ha]. rewrite Hp in Hone, Hfloor.
    rewrite length_app in Hone, Hfloor. cbn [length] in Hone, Hfloor.
    cbn [wstep_advance] in *.
    destruct (Z.ltb_spec (y l - required) BOTTOM).
    + eexists. split; [reflexivity|]. unfold walk_inv_down.
      cbn [builder pages y]. rewrite !length_app. cbn [length].
      split; [destruct (front ++ [page]); discriminate|].
      split; [unfold TOP, pt; lia|].
      split; [apply Forall_pages_new; [rewrite <- Hp; exact Hall|];
              do 5 eexists; split; [reflexivity|];
              cbv beta; unfold BOTTOM, TOP, pt; lia|].
      unfold page_floor, BOTTOM, TOP, pt in *.
      split; [lia|]. nia.
    + eexists. split; [reflexivity|]. unfold walk_inv_down.
      cbn [builder pages y]. rewrite !length_app. cbn [length].
      split; [destruct front; discriminate|].
      split; [unfold TOP, pt in *; lia|].
      split; [apply Forall_pages_snoc; [rewrite <- Hp; exact Hall|];
              do 5 eexists; split; [reflexivity|];
              cbv beta; unfold BOTTOM, TOP, pt in *; lia|].
      unfold page_floor, BOTTOM, TOP, pt in *.
      split; [intros H1; specialize (Hone H1); lia|]. nia.
  - cbn [walk_exec wstep_advance] in *. eexists. split; [reflexivity|].
    unfold gap, walk_inv_down. cbn [builder y].
    split; [exact Hne|]. split; [lia|]. split; [exact Hall|].
    split; [intros H1; specialize (Hone H1); lia|lia].
Qed.

Lemma walk_run_inv_down steps : forall l used,
  walk_inv_down l used -> Forall wstep_regular steps ->
  Forall (fun s => (0 <= wstep_advance s)%Z) steps ->
  exists l', for_each walk_exec steps l = Ok l'
             /\ walk_inv_down l' (used + total (map wstep_advance steps)).
Proof.
  induction steps as [|s steps IH]; intros l used Hinv Hreg Hadv.
  - exists l. split; [reflexivity|].
    cbn [map]. unfold total. cbn [foldr]. rewrite Z.add_0_r. exact Hinv.
  - inversion Hreg as [|? ? Hs Hrest]; subst.
    inversion Hadv as [|? ? Ha Harest]; subst.
    destruct (walk_step_inv_down l used s Hinv Hs Ha) as (l1 & Hrun & Hinv1).
    cbn [for_each]. rewrite Hrun. cbn [rbind].
    destruct (IH l1 _ Hinv1 Hrest Harest) as (l' & Hrun' & Hinv').
    exists l'. split; [exact Hrun'|].
    cbn [map]. rewrite total_cons, Z.add_assoc. exact Hinv'.
Qed.

Lemma walk_inv_init : walk_inv (Layout_init PDFBuilder_init).
Proof. split; [discriminate|]. repeat constructor. Qed.

Lemma walk_inv_down_init : walk_inv_down (Layout_init PDFBuilder_init) 0.
Proof.
  split; [discriminate|]. split; [reflexivity|].
  split; [repeat constructor|]. split; [reflexivity|].
  cbn. unfold page_floor. lia.
Qed.
End WalkInvariants.

Section WalkTheorems.
Context {U : UnicodeDB}.
Import Walkthrough.

Lemma walk_steps_nonneg c steps :
  match c with Gap pts => (0 <= pts)%Z | _ => True end ->
  walk_steps c = Ok steps ->
  Forall (fun s => (0 <= wstep_advance s)%Z) steps.
Proof.
  assert (Hline : forall x f (ls : list (list N)),
             Forall (fun s => (0 <= wstep_advance s)%Z)
               (map (fun line => WDraw (pt 12) x line f (pt 10) (pt 12)) ls)).
  { intros x f ls. apply Forall_map, Forall_forall. intros line _.
    cbn. unfold pt. lia. }
  destruct c as [t|t|t|t|t w|t w|t|pts]; cbn [walk_steps]; intros Hc.
  1-4: intros [= <-]; repeat constructor; cbn; unfold pt; lia.
  - destruct (wrap t w); [|discriminate]. intros [= <-]. apply Hline.
  - destruct (wrap t w) as [[|first others]|]; [| |discriminate];
      intros [= <-]; [constructor|].
    constructor; [cbn; unfold pt; lia|apply Hline].
  - intros [= <-]; repeat constructor; cbn; unfold pt; lia.
  - intros [= <-]. repeat constructor. exact Hc.
Qed.

Lemma walk_script_steps_nonneg script : forall steps,
  walk_gaps_nonneg script ->
  walk_script_steps script = Ok steps ->
  Forall (fun s => (0 <= wstep_advance s)%Z) steps.
Proof.
  induction script as [|c rest IH]; intros steps Hg.
  - intros [= <-]. constructor.
  - inversion Hg as [|? ? Hc Hrest]; subst. cbn [walk_script_steps].
    destruct (walk_steps c) as [first|e] eqn:Hs; [|discriminate].
    destruct (walk_script_steps rest) as [others|e] eqn:Hr; [|discriminate].
    cbn [rbind]. intros [= <-]. apply Forall_app. split.
    + eapply walk_steps_nonneg; eauto.
    + apply IH; [exact Hrest|reflexivity].
Qed.

Lemma drawn_lines_above_bottom script :
  walk_widths_positive script ->
  exists l,
    lay_out script = Ok l
    /\ Forall (Forall (drawn_at (fun y0 => (BOTTOM < y0)%Z)))
         (pages (builder l))
    /\ (walk_gaps_nonneg script ->
        Forall (Forall (drawn_at (fun y0 => (BOTTOM < y0 <= TOP)%Z)))
          (pages (builder l))).
Proof.
  intros Hw. destruct (walk_script_steps_total script Hw) as [steps Hs].
  pose proof (walk_script_steps_regular script steps Hs) as Hreg.
  destruct (walk_run_inv steps _ walk_inv_init Hreg) as (l & Hrun & _ & Hall).
  exists l. unfold lay_out. rewrite (walk_run_steps script _ steps Hs).
  split; [exact Hrun|]. split; [exact Hall|].
  intros Hg.
  destruct (walk_run_inv_down steps _ 0 walk_inv_down_init Hreg
              (walk_script_steps_nonneg script steps Hg Hs))
    as (l2 & Hrun2 & _ & _ & Hall2 & _).
  rewrite Hrun in Hrun2. injection Hrun2 as <-. exact Hall2.
Qed.

(** The layout reached after some of the lines and gaps of a script has a
    page. *)
Lemma walk_prefix_inv steps before after l :
  Forall wstep_regular steps -> steps = before ++ after ->
  for_each walk_exec before (Layout_init PDFBuilder_init) = Ok l ->
  walk_inv l.
Proof.
  intros Hreg -> Hrun. apply Forall_app in Hreg as [Hb _].
  destruct (walk_run_inv before _ walk_inv_init Hb) as (l' & Hrun' & Hinv).
  rewrite Hrun in Hrun'. injection Hrun' as <-. exact Hinv.
Qed.

Lemma walk_line_by_line script steps before s after l :
  walk_script_steps script = Ok steps ->
  steps = before ++ s :: after ->
  for_each walk_exec before (Layout_init PDFBuilder_init) = Ok l ->
  exists l',
    walk_exec l s = Ok l'
    /\ match s with
       | WDraw required x t font size advance =>
           (BOTTOM <= y l')%Z
           /\ ((y l < BOTTOM)%Z ->
               pages (builder l')
               = pages (builder l)
                   ++ [[show_text font size x TOP (pdf_escape t)]]
               /\ y l' = (TOP - advance)%Z)
       | WSkip pts => builder l' = builder l /\ y l' = (y l - pts)%Z
       end.
Proof.
  intros Hs Hsplit Hrun.
  pose proof (walk_script_steps_regular script steps Hs) as Hreg.
  pose proof (walk_prefix_inv steps before (s :: after) l Hreg Hsplit Hrun)
    as Hinv.
  rewrite Hsplit in Hreg. apply Forall_app in Hreg as [_ Hreg].
  inversion Hreg as [|? ? Hsreg _]; subst.
  destruct (walk_step_inv l s Hinv Hsreg) as (l' & Hexec & _ & Hpost).
  exists l'. split; [exact Hexec|].
  destruct s as [required x t font size advance|pts].
  - split; [exact Hpost|]. intros Hlow.
    destruct Hinv as [Hne _].
    destruct (nonempty_snoc _ Hne) as (front & page & Hp).
    rewrite (walk_draw_spec l _ _ _ _ _ _ front page Hp) in Hexec.
    destruct Hsreg as [Hr _].
    destruct (Z.ltb_spec (y l - required) BOTTOM) as [_|Hno].
    + injection Hexec as <-. cbn [builder pages y]. rewrite Hp.
      split; reflexivity.
    + unfold pt in Hr. lia.
  - cbn [walk_exec] in Hexec. injection Hexec as <-.
    split; reflexivity.
Qed.
End WalkTheorems.

Section SummaryTheorems.
Context {U : UnicodeDB}.
Import Summary.

Lemma summary_steps_nonneg c steps :
  match c with Gap pts => (0 <= pts)%Z | _ => True end ->
  summary_steps c = Ok steps ->
  Forall (fun s => (0 <= sstep_advance s)%Z) steps.
Proof.
  assert (Hline : forall x f (ls : list (list N)),
             Forall (fun s => (0 <= sstep_advance s)%Z)
               (map (fun line => SDraw true x line f (dec 9 50) (pt 12)) ls)).
  { intros x f ls. apply Forall_map, Forall_forall. intros line _.
    cbn. unfold pt. lia. }
  destruct c as [t|t|t|t w|t w|pts]; cbn [summary_steps]; intros Hc.
  1-3: intros [= <-]; repeat constructor; cbn; unfold pt; lia.
  - destruct (wrap t w); [|discriminate]. intros [= <-]. apply Hline.
  - destruct (wrap t w) as [[|first others]|]; [| |discriminate];
      intros [= <-]; [constructor|].
    constructor; [cbn; unfold pt; lia|apply Hline].
  - intros [= <-]. repeat constructor. exact Hc.
Qed.

Lemma summary_script_steps_nonneg script : forall steps,
  summary_gaps_nonneg script ->
  summary_script_steps script = Ok steps ->
  Forall (fun s => (0 <= sstep_advance s)%Z) steps.
Proof.
  induction script as [|c rest IH]; intros steps Hg.
  - intros [= <-]. constructor.
  - inversion Hg as [|? ? Hc Hrest]; subst. cbn [summary_script_steps].
    destruct (summary_steps c) as [first|e] eqn:Hs; [|discriminate].
    destruct (summary_script_steps rest) as [others|e] eqn:Hr; [|discriminate].
    cbn [rbind]. intros [= <-]. apply Forall_app. split.
    + eapply summary_steps_nonneg; eauto.
    + apply IH; [exact Hrest|reflexivity].
Qed.

Lemma total_nonneg (l : list Z) : Forall (fun a => (0 <= a)%Z) l -> (0 <= total l)%Z.
Proof.
  induction 1 as [|a l Ha _ IH]; [unfold total; cbn; lia|].
  rewrite total_cons. lia.
Qed.

(** Once the cursor is below the bottom margin a script without negative
    gaps cannot recover: the build fails. *)
Lemma summary_below_bottom_fails script steps before after l path :
  summary_gaps_nonneg script ->
  summary_script_steps script = Ok steps ->
  steps = before ++ after ->
  for_each summary_exec before (Layout_init PDFBuilder_init) = Ok l ->
  (y l < BOTTOM)%Z ->
  build_summary_pdf_from script path = ([], Raise (RuntimeError overflow_message)).
Proof.
  intros Hg Hs -> Hrun Hlow. unfold build_summary_pdf_from.
  rewrite (summary_run_steps script _ _ Hs), for_each_app, Hrun.
  cbn [rbind].
  pose proof (summary_script_steps_nonneg script _ Hg Hs) as Hnn.
  apply Forall_app in Hnn as [_ Hafter].
  pose proof (summary_exec_run after l) as Hrest.
  destruct (for_each summary_exec after l) as [l'|e].
  - assert (0 <= total (map sstep_advance after))%Z.
    { apply total_nonneg, Forall_map. exact Hafter. }
    destruct (Z.ltb_spec (y l') BOTTOM); [reflexivity|lia].
  - rewrite Hrest. reflexivity.
Qed.
End SummaryTheorems.

(** C10, as the code has it.  In the multi-page script, when every wrapping
    width is above zero the calls are all carried out, and every command
    they record is a line with its baseline strictly above the bottom
    margin, whatever the gaps before it did to the cursor.  The baseline is
    also at most the top margin when no gap of the script is negative. *)
Theorem drawn_lines_inside_body :
  forall (U : UnicodeDB) (script : list Walkthrough.Call),
    walk_widths_positive script ->
    exists l,
      Walkthrough.lay_out script = Ok l
      /\ Forall (Forall (drawn_at (fun y0 => (Walkthrough.BOTTOM < y0)%Z)))
           (Walkthrough.pages (Walkthrough.builder l))
      /\ (walk_gaps_nonneg script ->
          Forall (Forall (drawn_at (fun y0 =>
                    (Walkthrough.BOTTOM < y0 <= Walkthrough.TOP)%Z)))
            (Walkthrough.pages (Walkthrough.builder l))).
Proof. intros U script Hw. apply drawn_lines_above_bottom. exact Hw. Qed.

Lemma drawn_lines_inside_body_witness :
  walk_widths_positive
    [Walkthrough.Title (lit "T"); Walkthrough.Gap (pt 700);
     Walkthrough.Paragraph (lit "a b") 104]
  /\ exists l,
       @Walkthrough.lay_out ascii_tables
         [Walkthrough.Title (lit "T"); Walkthrough.Gap (pt 700);
          Walkthrough.Paragraph (lit "a b") 104] = Ok l
       /\ Forall (Forall (drawn_at (fun y0 => (Walkthrough.BOTTOM < y0)%Z)))
            (Walkthrough.pages (Walkthrough.builder l))
       /\ (walk_gaps_nonneg
             [Walkthrough.Title (lit "T"); Walkthrough.Gap (pt 700);
              Walkthrough.Paragraph (lit "a b") 104] ->
           Forall (Forall (drawn_at (fun y0 =>
                     (Walkthrough.BOTTOM < y0 <= Walkthrough.TOP)%Z)))
             (Walkthrough.pages (Walkthrough.builder l))).
Proof.
  assert (Hw : walk_widths_positive
                 [Walkthrough.Title (lit "T"); Walkthrough.Gap (pt 700);
                  Walkthrough.Paragraph (lit "a b") 104]).
  { unfold walk_widths_positive. repeat constructor. }
  split; [exact Hw|].
  exact (drawn_lines_inside_body ascii_tables _ Hw).
Defined.

(** After a gap of -10 points the title is drawn at 770, above the top
    margin of 760. *)
Lemma negative_gap_draws_above_top :
  @Walkthrough.lay_out ascii_tables
    [Walkthrough.Gap (pt (-10)); Walkthrough.Title (lit "x")]
  = Ok {| Walkthrough.builder :=
            {| Walkthrough.pages :=
                 [[show_text (lit "F2") (pt 19) Walkthrough.LEFT (pt 770)
                     (pdf_escape (lit "x"))]] |};
          Walkthrough.y := pt 746 |}
  /\ (Walkthrough.TOP < pt 770)%Z.
Proof. split; vm_compute; reflexivity. Qed.

(** C7, as the code has it.
    One-page script: when no gap is negative and the texts can be wrapped,
    a cursor below the bottom margin after any number of the script's lines
    and gaps makes the whole build fail with the overflow error, and
    nothing is written.
    Multi-page script: a gap moves the cursor and nothing else, so it can
    take the cursor below the bottom margin; a drawn line leaves the cursor
    at or above the bottom margin, and a line drawn while the cursor is
    below it goes, alone, on a newly added page at the top margin. *)
Theorem cursor_below_bottom_margin :
  forall U : UnicodeDB,
    (forall (script : list Summary.Call) steps before after l path,
        summary_gaps_nonneg script ->
        summary_script_steps script = Ok steps ->
        steps = before ++ after ->
        for_each summary_exec before
          (Summary.Layout_init Summary.PDFBuilder_init) = Ok l ->
        (Summary.y l < Summary.BOTTOM)%Z ->
        for_each Summary.perform script
          (Summary.Layout_init Summary.PDFBuilder_init)
        = for_each summary_exec steps
            (Summary.Layout_init Summary.PDFBuilder_init)
        /\ Summary.build_summary_pdf_from script path
           = ([], Raise (RuntimeError overflow_message)))
    /\ (forall (script : list Walkthrough.Call) steps before s after l,
           walk_script_steps script = Ok steps ->
           steps = before ++ s :: after ->
           for_each walk_exec before
             (Walkthrough.Layout_init Walkthrough.PDFBuilder_init) = Ok l ->
           Walkthrough.lay_out script
           = for_each walk_exec steps
               (Walkthrough.Layout_init Walkthrough.PDFBuilder_init)
           /\ exists l',
               walk_exec l s = Ok l'
               /\ match s with
                  | WDraw required x t font size advance =>
                      (Walkthrough.BOTTOM <= Walkthrough.y l')%Z
                      /\ ((Walkthrough.y l < Walkthrough.BOTTOM)%Z ->
                          Walkthrough.pages (Walkthrough.builder l')
                          = Walkthrough.pages (Walkthrough.builder l)
                              ++ [[show_text font size x Walkthrough.TOP
                                     (pdf_escape t)]]
                          /\ Walkthrough.y l' = (Walkthrough.TOP - advance)%Z)
                  | WSkip pts =>
                      Walkthrough.builder l' = Walkthrough.builder l
                      /\ Walkthrough.y l' = (Walkthrough.y l - pts)%Z
                  end).
Proof.
  intros U. split.
  - intros script steps before after l path Hg Hs Hsplit Hrun Hlow.
    split; [apply summary_run_steps; exact Hs|].
    eapply summary_below_bottom_fails; eauto.
  - intros script steps before s after l Hs Hsplit Hrun.
    split; [apply walk_run_steps; exact Hs|].
    eapply walk_line_by_line; eauto.
Qed.

Lemma cursor_below_bottom_margin_witness :
  @Summary.build_summary_pdf_from ascii_tables
    [Summary.Gap (pt 730); Summary.Title (lit "x")] ["out.pdf"%string]
  = ([], Raise (RuntimeError overflow_message))
  /\ exists l',
       walk_exec {| Walkthrough.builder := Walkthrough.PDFBuilder_init;
                    Walkthrough.y := pt 30 |}
         (WDraw (pt 26) Walkthrough.LEFT (lit "x") (lit "F2") (pt 19) (pt 24))
       = Ok l'
       /\ (Walkthrough.BOTTOM <= Walkthrough.y l')%Z
       /\ ((pt 30 < Walkthrough.BOTTOM)%Z ->
           Walkthrough.pages (Walkthrough.builder l')
           = [[]] ++ [[show_text (lit "F2") (pt 19) Walkthrough.LEFT
                         Walkthrough.TOP (pdf_escape (lit "x"))]]
           /\ Walkthrough.y l' = (Walkthrough.TOP - pt 24)%Z).
Proof.
  destruct (cursor_below_bottom_margin ascii_tables) as [Hstrict Hpaged].
  split.
  - refine (proj2 (Hstrict [Summary.Gap (pt 730); Summary.Title (lit "x")]
             [SSkip (pt 730);
              SDraw false Summary.LEFT (lit "x") (lit "F2") (pt 18) (pt 22)]
             [SSkip (pt 730)]
             [SDraw false Summary.LEFT (lit "x") (lit "F2") (pt 18) (pt 22)]
             {| Summary.builder := Summary.PDFBuilder_init;
                Summary.y := pt 30 |} _ _ eq_refl eq_refl eq_refl eq_refl)).
    unfold summary_gaps_nonneg. repeat constructor. vm_compute. discriminate.
  - destruct (Hpaged [Walkthrough.Gap (pt 730); Walkthrough.Title (lit "x")]
                [WSkip (pt 730);
                 WDraw (pt 26) Walkthrough.LEFT (lit "x") (lit "F2") (pt 19)
                   (pt 24)]
                [WSkip (pt 730)]
                (WDraw (pt 26) Walkthrough.LEFT (lit "x") (lit "F2") (pt 19)
                   (pt 24))
                []
                {| Walkthrough.builder := Walkthrough.PDFBuilder_init;
                   Walkthrough.y := pt 30 |}
                eq_refl eq_refl eq_refl) as [_ Hline].
    exact Hline.
Defined.

(** A gap of 1000 points on the multi-page layout leaves the cursor at -240,
    below the bottom margin of 46; no page is added, and the build writes
    its file.  On the one-page layout a gap of 1000 points followed by a
    gap of -1000 takes the cursor below the bottom margin and back, and
    the build writes its file. *)
Lemma gap_takes_cursor_below_bottom :
  @Walkthrough.lay_out ascii_tables [Walkthrough.Gap (pt 1000)]
  = Ok {| Walkthrough.builder := Walkthrough.PDFBuilder_init;
          Walkthrough.y := pt (-240) |}
  /\ (pt (-240) < Walkthrough.BOTTOM)%Z
  /\ (exists pdf,
         @Walkthrough.write_walkthrough_from ascii_tables
           [Walkthrough.Gap (pt 1000)] ["out.pdf"%string]
         = ([Mkdir []; WriteBytes ["out.pdf"%string] pdf], Ok tt))
  /\ for_each summary_exec [SSkip (pt 1000)]
       (Summary.Layout_init Summary.PDFBuilder_init)
     = Ok {| Summary.builder := Summary.PDFBuilder_init;
             Summary.y := pt (-240) |}
  /\ (pt (-240) < Summary.BOTTOM)%Z
  /\ (exists pdf,
         @Summary.build_summary_pdf_from ascii_tables
           [Summary.Gap (pt 1000); Summary.Gap (pt (-1000))]
           ["out.pdf"%string]
         = ([Mkdir []; WriteBytes ["out.pdf"%string] pdf], Ok tt)).
Proof.
  split; [vm_compute; reflexivity|].
  split; [vm_compute; reflexivity|].
  split; [eexists; vm_compute; reflexivity|].
  split; [vm_compute; reflexivity|].
  split; [vm_compute; reflexivity|].
  eexists; vm_compute; reflexivity.
Qed.

(** ** The emitted file *)

Lemma is_ascii_app s1 s2 : is_ascii (s1 ++ s2) = is_ascii s1 && is_ascii s2.
Proof. unfold is_ascii. apply forallb_app. Qed.

Lemma is_ascii_digits d : is_ascii (digits_of_uint d) = true.
Proof. induction d; cbn; auto. Qed.

Lemma is_ascii_str_of_N n : is_ascii (str_of_N n) = true.
Proof. apply is_ascii_digits. Qed.

Lemma is_ascii_str_of_nat n : is_ascii (str_of_nat n) = true.
Proof. apply is_ascii_digits. Qed.

Lemma is_ascii_str_of_int n : is_ascii (str_of_int n) = true.
Proof.
  destruct n as [|p|p]; unfold str_of_int.
  - reflexivity.
  - apply is_ascii_str_of_N.
  - change (is_ascii (45%N :: str_of_N (N.pos p)))
      with (true && is_ascii (str_of_N (N.pos p))).
    apply is_ascii_str_of_N.
Qed.

Lemma is_ascii_replicate n c : (c <? 128)%N = true -> is_ascii (replicate n c) = true.
Proof. intros H. induction n as [|n IH]; [reflexivity|]. cbn. rewrite H. exact IH. Qed.

Lemma is_ascii_fmt_010d n : is_ascii (fmt_010d n) = true.
Proof.
  unfold fmt_010d. rewrite is_ascii_app, is_ascii_replicate by reflexivity.
  apply is_ascii_str_of_nat.
Qed.

Lemma encode_ascii_ok s : is_ascii s = true -> encode_ascii s = Ok (raw s).
Proof. intros H. unfold encode_ascii. rewrite H. reflexivity. Qed.

Lemma raw_app s1 s2 : raw (s1 ++ s2) = raw s1 ++ raw s2.
Proof. apply map_app. Qed.

(** Proves that a text built from literals and printed numbers is ASCII. *)
Ltac ascii_text :=
  repeat rewrite is_ascii_app;
  repeat rewrite is_ascii_str_of_nat;
  repeat rewrite is_ascii_str_of_int;
  repeat rewrite is_ascii_fmt_010d;
  reflexivity.

Lemma uint_of_digits_of_uint d : uint_of_digits (digits_of_uint d) = d.
Proof. induction d; cbn; congruence. Qed.

Lemma uint_of_digits_zeros n s :
  N.of_uint (uint_of_digits (replicate n 48%N ++ s)) = N.of_uint (uint_of_digits s).
Proof. induction n as [|n IH]; [reflexivity|]. cbn. exact IH. Qed.

Lemma read_decimal_fmt_010d n : read_decimal (fmt_010d n) = n.
Proof.
  unfold read_decimal, fmt_010d, str_of_nat, str_of_N.
  rewrite uint_of_digits_zeros, uint_of_digits_of_uint.
  rewrite DecimalN.Unsigned.of_to. apply Nat2N.id.
Qed.

Lemma read_decimal_str_of_nat n : read_decimal (str_of_nat n) = n.
Proof.
  unfold read_decimal, str_of_nat, str_of_N.
  rewrite uint_of_digits_of_uint, DecimalN.Unsigned.of_to. apply Nat2N.id.
Qed.

(** *** Objects placed one after the other *)

Lemma offsets_from_length start objects :
  length (offsets_from start objects) = length objects.
Proof.
  revert start. induction objects as [|o rest IH]; intros start; [reflexivity|].
  cbn. rewrite IH. reflexivity.
Qed.

Lemma offsets_from_app start objs1 objs2 :
  offsets_from start (objs1 ++ objs2)
  = offsets_from start objs1
      ++ offsets_from (start + length (concat objs1)) objs2.
Proof.
  revert start. induction objs1 as [|o rest IH]; intros start.
  - cbn. rewrite Nat.add_0_r. reflexivity.
  - cbn. rewrite IH, length_app. f_equal. f_equal. f_equal. lia.
Qed.

Lemma offsets_from_ge start objects off :
  off ∈ offsets_from start objects -> start <= off.
Proof.
  revert start. induction objects as [|o rest IH]; intros start H.
  - inversion H.
  - cbn in H. apply elem_of_cons in H as [->|H]; [lia|].
    apply IH in H. lia.
Qed.

(** The object at position [k] starts at the [k]-th offset. *)
Lemma offsets_from_lookup (before : list Byte.byte) objects after k obj :
  objects !! k = Some obj ->
  exists off,
    offsets_from (length before) objects !! k = Some off
    /\ obj `prefix_of` drop off (before ++ concat objects ++ after).
Proof.
  revert before k. induction objects as [|o rest IH]; intros before k Hk;
    [discriminate|].
  destruct k as [|k].
  - injection Hk as ->. exists (length before). split; [reflexivity|].
    rewrite drop_app_length. cbn [concat]. rewrite <- app_assoc.
    eexists. reflexivity.
  - cbn [lookup] in Hk. cbn in Hk.
    destruct (IH (before ++ o) k Hk) as (off & Hoff & Hpre).
    exists off. split.
    + cbn. rewrite length_app in Hoff. exact Hoff.
    + cbn [concat]. rewrite <- !app_assoc in Hpre |- *. exact Hpre.
Qed.
Lemma offsets_layout n (header : list Byte.byte) objects :
  length objects = n ->
  (forall k obj, objects !! k = Some obj -> object_token (S k) `prefix_of` obj) ->
  file_layout n
    ((header ++ concat objects)
       ++ xref_table (offsets_from (length header) objects)
       ++ trailer (n + 1) (length (header ++ concat objects))).
Proof.
  intros Hn Htok.
  exists (header ++ concat objects), (offsets_from (length header) objects).
  split; [rewrite offsets_from_length; exact Hn|].
  split; [reflexivity|].
  intros k off Hoff. split; [apply read_decimal_fmt_010d|].
  assert (Hlt : k < length objects).
  { rewrite <- (offsets_from_length (length header)).
    eapply lookup_lt_Some; eauto. }
  destruct (lookup_lt_is_Some_2 objects k Hlt) as [obj Hobj].
  destruct (offsets_from_lookup header objects
              (xref_table (offsets_from (length header) objects)
                 ++ trailer (n + 1) (length (header ++ concat objects)))
              k obj Hobj) as (off' & Hoff' & Hpre).
  rewrite Hoff in Hoff'. injection Hoff' as <-.
  rewrite <- app_assoc.
  transitivity obj; [apply (Htok k obj Hobj)|exact Hpre].
Qed.

(** The objects of a list start with the tokens for the numbers [k],
    [k + 1], ... *)
Lemma tokens_nil k : forall j (obj : list Byte.byte),
  @nil (list Byte.byte) !! j = Some obj -> object_token (k + j) `prefix_of` obj.
Proof. intros j obj H. destruct j; discriminate H. Qed.

Lemma tokens_cons k (o : list Byte.byte) rest :
  object_token k `prefix_of` o ->
  (forall j obj, rest !! j = Some obj -> object_token (S k + j) `prefix_of` obj) ->
  forall j obj, (o :: rest) !! j = Some obj -> object_token (k + j) `prefix_of` obj.
Proof.
  intros Ho Hrest j obj Hj. destruct j as [|j].
  - rewrite Nat.add_0_r. change (Some o = Some obj) in Hj.
    congruence.
  - replace (k + S j) with (S k + j) by lia. apply Hrest. exact Hj.
Qed.

Lemma token_of_literal k (s : string) (rest : list Byte.byte) :
  take (length (object_token k)) (blit s) = object_token k ->
  object_token k `prefix_of` (blit s ++ rest).
Proof.
  intros H. rewrite <- (take_drop (length (object_token k)) (blit s)), H.
  rewrite <- app_assoc. eexists. reflexivity.
Qed.


Section SummaryFile.
Import Summary.

Lemma summary_place_objects objects : forall pdf offs,
  fold_left place_object objects (pdf, offs)
  = (pdf ++ concat objects, offs ++ offsets_from (length pdf) objects).
Proof.
  induction objects as [|o rest IH]; intros pdf offs.
  - cbn. rewrite !app_nil_r. reflexivity.
  - cbn [fold_left place_object]. rewrite IH.
    cbn [concat offsets_from]. rewrite length_app, <- !app_assoc.
    reflexivity.
Qed.

Lemma summary_write_entries offs : forall pdf,
  for_each write_entry offs pdf = Ok (pdf ++ concat (map xref_entry offs)).
Proof.
  induction offs as [|off rest IH]; intros pdf.
  - cbn. rewrite app_nil_r. reflexivity.
  - cbn [for_each]. unfold write_entry at 1.
    rewrite encode_ascii_ok by ascii_text. cbn [rbind].
    rewrite IH. cbn [map concat]. rewrite <- app_assoc. reflexivity.
Qed.

Lemma summary_build_objects (b : PDFBuilder) :
  exists objects,
    build_objects b = Ok objects
    /\ length objects = 7
    /\ (forall k obj, objects !! k = Some obj ->
                      object_token (S k) `prefix_of` obj)
    /\ objects !! 6
       = Some (raw (lit "7 0 obj << /Length "
                      ++ str_of_int (len (content_stream b))
                      ++ lit " >> stream" ++ nl)
                 ++ content_stream b ++ bnl ++ blit "endstream endobj" ++ bnl).
Proof.
  unfold build_objects.
  rewrite !encode_ascii_ok by ascii_text. cbn [rbind app].
  eexists. split; [reflexivity|]. split; [reflexivity|]. split.
  - intros k obj. change (S k) with (1 + k).
    repeat (apply tokens_cons; [|clear k obj; intros k obj]);
      [..|apply tokens_nil].
    1,2,4,5,6: apply token_of_literal; vm_compute; reflexivity.
    + rewrite raw_app.
      change (raw (lit "3 0 obj << /Type /Page /Parent 2 0 R /MediaBox [0 0 "))
        with (object_token 3
                ++ raw (lit " << /Type /Page /Parent 2 0 R /MediaBox [0 0 ")).
      rewrite <- app_assoc. eexists. reflexivity.
    + change (blit "7 0 obj << /Length ")
        with (object_token 7 ++ raw (lit " << /Length ")).
      rewrite <- app_assoc. eexists. reflexivity.
  - cbn [lookup]. rewrite !raw_app. cbn. unfold blit. rewrite <- !app_assoc.
    reflexivity.
Qed.

Lemma summary_assemble (b : PDFBuilder) :
  exists objects,
    build_objects b = Ok objects
    /\ assemble b
       = Ok ((pdf_header ++ concat objects)
               ++ xref_table (offsets_from (length pdf_header) objects)
               ++ trailer 8 (length (pdf_header ++ concat objects)))
    /\ file_layout 7
         ((pdf_header ++ concat objects)
            ++ xref_table (offsets_from (length pdf_header) objects)
            ++ trailer 8 (length (pdf_header ++ concat objects))).
Proof.
  destruct (summary_build_objects b) as (objects & Hobj & Hlen & Htok & _).
  exists objects. split; [exact Hobj|].
  split; [|apply (offsets_layout 7); assumption].
  unfold assemble. rewrite Hobj. cbn [rbind].
  rewrite summary_place_objects. cbn [app tail].
  rewrite length_cons, offsets_from_length, Hlen.
  repeat (rewrite encode_ascii_ok by ascii_text; cbn [rbind]).
  rewrite summary_write_entries. cbn [rbind].
  repeat (rewrite encode_ascii_ok by ascii_text; cbn [rbind]).
  unfold xref_table, trailer. rewrite offsets_from_length, Hlen.
  rewrite <- !app_assoc. reflexivity.
Qed.
End SummaryFile.

Lemma lookup_insert_all objs : forall k (m : gmap nat (list Byte.byte)) j,
  insert_all k objs m !! j
  = if decide (k <= j < k + length objs) then objs !! (j - k) else m !! j.
Proof.
  induction objs as [|o rest IH]; intros k m j.
  - cbn. destruct (decide _); [lia|reflexivity].
  - cbn [insert_all length]. rewrite IH.
    destruct (decide (S k <= j < S k + length rest)) as [H1|H1].
    + destruct (decide (k <= j < k + S (length rest))); [|lia].
      replace (j - k) with (S (j - S k)) by lia. reflexivity.
    + destruct (decide (k <= j < k + S (length rest))) as [H2|H2].
      * assert (j = k) as -> by lia. rewrite lookup_insert_eq, Nat.sub_diag.
        reflexivity.
      * rewrite lookup_insert_ne by lia. reflexivity.
Qed.

Lemma page_objects_length n idx k pages :
  length (page_objects n idx k pages) = 2 * length pages.
Proof.
  revert idx k. induction pages as [|p rest IH]; intros idx k; [reflexivity|].
  cbn [page_objects length]. rewrite IH. lia.
Qed.

Lemma prefix_app2 {A} (a b r : list A) : (a ++ b) `prefix_of` (a ++ b ++ r).
Proof. exists r. rewrite app_assoc. reflexivity. Qed.

Lemma page_object_token k c : object_token k `prefix_of` page_object k c.
Proof.
  unfold page_object, object_token.
  change (lit " 0 obj << /Type /Page /Parent 2 0 R ")
    with (lit " 0 obj" ++ lit " << /Type /Page /Parent 2 0 R ").
  rewrite !raw_app, <- !app_assoc. apply prefix_app2.
Qed.

Lemma content_object_token k stream :
  object_token k `prefix_of` content_object k stream.
Proof.
  unfold content_object, object_token.
  change (lit " 0 obj << /Length ") with (lit " 0 obj" ++ lit " << /Length ").
  rewrite !raw_app, <- !app_assoc. apply prefix_app2.
Qed.

Lemma page_objects_token n pages : forall idx k j obj,
  page_objects n idx k pages !! j = Some obj ->
  object_token (k + j) `prefix_of` obj.
Proof.
  induction pages as [|p rest IH]; intros idx k; [apply tokens_nil|].
  cbn [page_objects].
  apply tokens_cons; [apply page_object_token|].
  apply tokens_cons; [apply content_object_token|].
  apply IH.
Qed.

Lemma object_table_length pages : length (object_table pages) = 6 + 2 * length pages.
Proof.
  unfold object_table. rewrite length_app, page_objects_length. reflexivity.
Qed.

Lemma object_table_token pages k obj :
  object_table pages !! k = Some obj -> object_token (S k) `prefix_of` obj.
Proof.
  unfold object_table. cbn [app]. revert k obj.
  intros k obj. change (S k) with (1 + k). revert k obj.
  apply tokens_cons; [apply token_of_literal; vm_compute; reflexivity|].
  apply tokens_cons.
  { unfold pages_object. rewrite raw_app.
    change (raw (lit "2 0 obj << /Type /Pages /Count "))
      with (object_token 2 ++ raw (lit " << /Type /Pages /Count ")).
    rewrite <- app_assoc. eexists. reflexivity. }
  do 4 (apply tokens_cons; [apply token_of_literal; vm_compute; reflexivity|]).
  apply page_objects_token.
Qed.

Lemma is_ascii_join_kids k pages : is_ascii (join (lit " ") (page_kids k pages)) = true.
Proof.
  revert k. induction pages as [|p rest IH]; intros k; [reflexivity|].
  cbn [page_kids join]. destruct rest as [|q rest'].
  - cbn [page_kids]. ascii_text.
  - specialize (IH (S (S k))). cbn [page_kids] in IH |- *.
    rewrite !is_ascii_app, is_ascii_str_of_nat, IH. reflexivity.
Qed.

Section WalkFile.
Import Walkthrough.

Lemma add_page_spec n objects kids k idx commands :
  add_page n (objects, kids, k) (idx, commands)
  = Ok (<[k + 1 := content_object (k + 1) (content_stream idx n commands)]>
          (<[k := page_object k (k + 1)]> objects),
        kids ++ [str_of_nat k ++ lit " 0 R"], k + 2).
Proof.
  unfold add_page. rewrite !encode_ascii_ok by ascii_text. cbn [rbind].
  reflexivity.
Qed.

Lemma add_page_loop n pages : forall objects kids k idx,
  for_each (add_page n) (enumerate idx pages) (objects, kids, k)
  = Ok (insert_all k (page_objects n idx k pages) objects,
        kids ++ page_kids k pages, k + 2 * length pages).
Proof.
  induction pages as [|p rest IH]; intros objects kids k idx.
  - cbn. rewrite app_nil_r, Nat.add_0_r. reflexivity.
  - cbn [enumerate for_each]. rewrite add_page_spec. cbn [rbind].
    rewrite IH. cbn [page_objects insert_all page_kids length].
    replace (k + 1) with (S k) by lia.
    replace (k + 2) with (S (S k)) by lia.
    rewrite <- app_assoc. f_equal. f_equal. lia.
Qed.

Lemma page_kids_length k pages : length (page_kids k pages) = length pages.
Proof.
  revert k. induction pages as [|p rest IH]; intros k; [reflexivity|].
  cbn. rewrite IH. reflexivity.
Qed.

(** The dictionary that [build] serialises holds the objects of
    [object_table] under the numbers 1, 2, ... and nothing else. *)
Lemma walk_build_objects (b : PDFBuilder) :
  exists objects,
    build_objects b = Ok objects
    /\ forall k,
         objects !! k
         = if decide (1 <= k <= 6 + 2 * length (pages b))
           then object_table (pages b) !! (k - 1) else None.
Proof.
  unfold build_objects. rewrite add_page_loop. cbn [rbind app].
  rewrite page_kids_length.
  rewrite encode_ascii_ok
    by (rewrite !is_ascii_app, is_ascii_str_of_nat, is_ascii_join_kids;
        reflexivity).
  cbn [rbind]. eexists. split; [reflexivity|].
  intros k.
  destruct (decide (k = 2)) as [->|Hk2].
  { rewrite lookup_insert_eq. destruct (decide _); [reflexivity|lia]. }
  rewrite lookup_insert_ne by congruence.
  rewrite lookup_insert_all, page_objects_length.
  destruct (decide (7 <= k < 7 + 2 * length (pages b))) as [H7|H7].
  - destruct (decide (1 <= k <= 6 + 2 * length (pages b))); [|lia].
    unfold object_table.
    rewrite lookup_app_r by (cbn; lia). cbn [length].
    f_equal. lia.
  - destruct (decide (1 <= k <= 6 + 2 * length (pages b))) as [H1|H1].
    + assert (Hk : k = 1 \/ k = 3 \/ k = 4 \/ k = 5 \/ k = 6) by lia.
      destruct Hk as [->|[->|[->|[->| ->]]]]; reflexivity.
    + assert (Hk : k = 0 \/ 7 <= k) by lia.
      destruct Hk as [->|Hk]; [reflexivity|].
      rewrite !lookup_insert_ne by lia. apply lookup_empty.
Qed.
End WalkFile.

Lemma max_list_le_bound (ns : list nat) n :
  (forall k, k ∈ ns -> k <= n) -> max_list ns <= n.
Proof.
  intros H. destruct ns as [|a ns]; [cbn; lia|].
  apply H. apply max_list_elem_of. discriminate.
Qed.

Section WalkSerialize.
Import Walkthrough.

Lemma max_key_spec (objects : gmap nat (list Byte.byte)) n :
  is_Some (objects !! n) ->
  (forall k, is_Some (objects !! k) -> k <= n) ->
  max_key objects = n.
Proof.
  intros [o Hn] Hle. unfold max_key. apply Nat.le_antisymm.
  - apply max_list_le_bound. intros k Hk.
    apply list_elem_of_In, in_map_iff in Hk as ([k' o'] & <- & Hin).
    apply list_elem_of_In, elem_of_map_to_list in Hin.
    apply Hle. eauto.
  - apply max_list_elem_of_le.
    apply list_elem_of_In, in_map_iff. exists (n, o). split; [reflexivity|].
    apply list_elem_of_In, elem_of_map_to_list. exact Hn.
Qed.

Lemma walk_place_objects (objects : gmap nat (list Byte.byte)) table header :
  (forall k, 1 <= k <= length table -> objects !! k = table !! (k - 1)) ->
  forall rest done,
    table = done ++ rest ->
    fold_left (place_object objects) (seq (1 + length done) (length rest))
      (header ++ concat done,
       (0 :: offsets_from (length header) done) ++ replicate (length rest) 0)
    = (header ++ concat table, 0 :: offsets_from (length header) table).
Proof.
  intros Hobj rest. induction rest as [|o rest IH]; intros done Htable.
  - rewrite app_nil_r in Htable. subst done. cbn [length seq fold_left replicate].
    rewrite app_nil_r. reflexivity.
  - cbn [length seq fold_left]. unfold place_object at 2.
    rewrite Hobj by (rewrite Htable, length_app; cbn [length]; lia).
    replace (1 + length done - 1) with (length done) by lia.
    rewrite Htable, list_lookup_middle by reflexivity.
    cbn [replicate].
    replace (1 + length done)
      with (length (0 :: offsets_from (length header) done) + 0)
      by (cbn [length]; rewrite offsets_from_length; lia).
    rewrite insert_app_r. cbn [insert list_insert].
    specialize (IH (done ++ [o])).
    rewrite length_app in IH. cbn [length] in IH.
    rewrite concat_snoc, offsets_from_app in IH. cbn [offsets_from] in IH.
    rewrite <- !app_assoc in IH. cbn [app] in IH.
    rewrite length_cons, offsets_from_length, Nat.add_0_r.
    replace (S (length done + 1)) with (S (S (length done))) in IH by lia.
    rewrite length_app. rewrite <- Htable.
    replace (1 + (length done + 1)) with (S (S (length done))) in IH by lia.
    rewrite <- IH by exact Htable.
    f_equal. f_equal; [rewrite <- app_assoc; reflexivity|].
    cbn [app]. rewrite <- app_assoc. reflexivity.
Qed.

Lemma walk_write_entries offs :
  Forall (fun off => off <> 0) offs ->
  forall rest done pdf,
    offs = done ++ rest ->
    for_each (write_entry (0 :: offs)) (seq (1 + length done) (length rest)) pdf
    = Ok (pdf ++ concat (map xref_entry rest)).
Proof.
  intros Hnz rest. induction rest as [|off rest IH]; intros done pdf Hoffs.
  - cbn. rewrite app_nil_r. reflexivity.
  - cbn [length seq for_each]. unfold write_entry at 1.
    assert (Hlook : (0 :: offs) !! (1 + length done) = Some off).
    { cbn. rewrite Hoffs. apply list_lookup_middle. reflexivity. }
    rewrite Hlook.
    assert (Hoff : off <> 0).
    { rewrite Forall_forall in Hnz. apply Hnz. rewrite Hoffs.
      apply elem_of_app. right. left. }
    destruct (Nat.eqb_spec off 0) as [?|_]; [contradiction|].
    rewrite encode_ascii_ok by ascii_text. cbn [rbind].
    change (raw (fmt_010d off ++ lit " 00000 n " ++ nl)) with (xref_entry off).
    specialize (IH (done ++ [off]) (pdf ++ xref_entry off)).
    rewrite length_app in IH. cbn [length] in IH.
    replace (S (1 + length done)) with (1 + (length done + 1)) by lia.
    rewrite IH by (rewrite Hoffs, <- app_assoc; reflexivity).
    cbn [map concat]. rewrite <- app_assoc. reflexivity.
Qed.

Lemma pdf_header_length : length pdf_header = 15.
Proof. reflexivity. Qed.

(** The bytes that the multi-page [build] writes. *)
Lemma walk_assemble (b : PDFBuilder) :
  let table := object_table (pages b) in
  let n := 6 + 2 * length (pages b) in
  assemble b
  = Ok ((pdf_header ++ concat table)
          ++ xref_table (offsets_from (length pdf_header) table)
          ++ trailer (n + 1) (length (pdf_header ++ concat table)))
  /\ file_layout n
       ((pdf_header ++ concat table)
          ++ xref_table (offsets_from (length pdf_header) table)
          ++ trailer (n + 1) (length (pdf_header ++ concat table))).
Proof.
  intros table n.
  assert (Hlen : length table = n) by apply object_table_length.
  split; [|apply (offsets_layout n); [exact Hlen|apply object_table_token]].
  destruct (walk_build_objects b) as (objects & Hbuild & Hlook).
  fold n in Hlook. fold table in Hlook.
  unfold assemble. rewrite Hbuild. cbn [rbind]. unfold serialize.
  assert (Hmax : max_key objects = n).
  { apply max_key_spec.
    - rewrite Hlook. destruct (decide (1 <= n <= n)); [|lia].
      apply lookup_lt_is_Some_2. lia.
    - intros k [o Hk]. rewrite Hlook in Hk.
      destruct (decide (1 <= k <= n)); [lia|discriminate]. }
  rewrite Hmax.
  pose proof (walk_place_objects objects table pdf_header) as Hplace.
  specialize (Hplace ltac:(intros k Hk; rewrite Hlook;
                           destruct (decide (1 <= k <= n)); [reflexivity|lia])
                table [] eq_refl).
  cbn [length concat offsets_from app] in Hplace.
  rewrite app_nil_r, Hlen, Nat.add_0_r in Hplace.
  replace (n + 1) with (S n) by lia. cbn [replicate].
  change (1 + 0) with 1 in Hplace. rewrite Hplace.
  repeat (rewrite encode_ascii_ok by ascii_text; cbn [rbind]).
  pose proof (walk_write_entries (offsets_from (length pdf_header) table))
    as Hwrite.
  specialize (Hwrite ltac:(apply Forall_forall; intros off Hoff;
                           apply offsets_from_ge in Hoff;
                           rewrite pdf_header_length in Hoff; lia)
                (offsets_from (length pdf_header) table) []
                ((pdf_header ++ concat table)
                   ++ raw (lit "xref" ++ nl ++ lit "0 " ++ str_of_nat (S n) ++ nl)
                   ++ free_entry) eq_refl).
  cbn [length] in Hwrite. rewrite offsets_from_length, Hlen in Hwrite.
  change (1 + 0) with 1 in Hwrite.
  rewrite <- !app_assoc in Hwrite |- *. rewrite Hwrite. cbn [rbind].
  repeat (rewrite encode_ascii_ok by ascii_text; cbn [rbind]).
  unfold xref_table, trailer. rewrite offsets_from_length, Hlen.
  rewrite <- !app_assoc. reflexivity.
Qed.
End WalkSerialize.

(** C1. Both builders always produce a file, and in it the offset printed
    in the cross-reference table for object [k] is the position at which
    the bytes [k 0 obj] begin, for every [k] from 1 to the number of
    objects [n]; the table has an in-use entry for each of them and the
    trailer gives [/Size n + 1].  The one-page file has 7 objects, the
    multi-page file 6 and two more for each page. *)
Theorem offsets_land_on_objects :
  (forall b : Summary.PDFBuilder,
      exists pdf, Summary.assemble b = Ok pdf /\ file_layout 7 pdf)
  /\ (forall b : Walkthrough.PDFBuilder,
         exists pdf,
           Walkthrough.assemble b = Ok pdf
           /\ file_layout (6 + 2 * length (Walkthrough.pages b)) pdf).
Proof.
  split; intros b.
  - destruct (summary_assemble b) as (objects & _ & Hpdf & Hlayout).
    eexists. split; [exact Hpdf|exact Hlayout].
  - destruct (walk_assemble b) as [Hpdf Hlayout].
    eexists. split; [exact Hpdf|exact Hlayout].
Qed.

(** ** Page count and footers *)

Section PageCount.
Context {U : UnicodeDB}.
Import Walkthrough.

Lemma walk_script_steps_app s1 : forall s2 steps,
  walk_script_steps (s1 ++ s2) = Ok steps ->
  exists a b, walk_script_steps s1 = Ok a /\ walk_script_steps s2 = Ok b
              /\ steps = a ++ b.
Proof.
  induction s1 as [|c rest IH]; intros s2 steps H.
  - exists [], steps. cbn in *. eauto.
  - cbn [app walk_script_steps] in *.
    destruct (walk_steps c) as [first|]; [|discriminate].
    destruct (walk_script_steps (rest ++ s2)) as [others|] eqn:Hr; [|discriminate].
    cbn [rbind] in *. injection H as <-.
    destruct (IH s2 others Hr) as (a & b & -> & -> & ->).
    cbn [rbind]. eexists _, _. split; [reflexivity|]. split; [reflexivity|].
    apply app_assoc.
Qed.

(** A call that draws a line only draws lines. *)
Lemma walk_draws_all c :
  walk_draws c ->
  exists s steps, walk_steps c = Ok (steps ++ [s]) /\ is_draw s.
Proof.
  assert (Hlast : forall (first : WStep) (others : list WStep),
             is_draw first -> Forall is_draw others ->
             exists s steps, first :: others = steps ++ [s] /\ is_draw s).
  { intros first others Hf Ho.
    destruct (nonempty_snoc (first :: others) ltac:(discriminate))
      as (steps & s & Heq).
    exists s, steps. split; [exact Heq|].
    assert (Hall : Forall is_draw (first :: others)) by (constructor; assumption).
    rewrite Heq in Hall. apply Forall_app in Hall as [_ Hs].
    inversion Hs. assumption. }
  assert (Hmap : forall f (ls : list (list N)),
             (forall x, is_draw (f x)) -> Forall is_draw (map f ls)).
  { intros f ls Hf. apply Forall_map, Forall_forall. intros x _. apply Hf. }
  unfold walk_draws.
  destruct c as [t|t|t|t|t w|t w|t|pts]; cbn [walk_steps].
  1-4,7: intros _; eexists _, []; split; [reflexivity|exact I].
  - destruct (wrap t w) as [[|first others]|]; cbn [rbind map];
      [contradiction| |contradiction].
    intros _.
    destruct (Hlast (WDraw (pt 12) LEFT first (lit "F1") (pt 10) (pt 12))
                (map (fun line => WDraw (pt 12) LEFT line (lit "F1") (pt 10) (pt 12))
                   others) I ltac:(apply Hmap; intros; exact I))
      as (s & steps & -> & Hs).
    eauto.
  - destruct (wrap t w) as [[|first others]|]; cbn [rbind];
      [contradiction| |contradiction].
    intros _.
    destruct (Hlast (WDraw (pt 12) (LEFT + pt 2)%Z (lit "- " ++ first)
                       (lit "F1") (pt 10) (pt 12))
                (map (fun line => WDraw (pt 12) (LEFT + pt 16)%Z line (lit "F1")
                                    (pt 10) (pt 12)) others)
                I ltac:(apply Hmap; intros; exact I))
      as (s & steps & -> & Hs).
    eauto.
  - contradiction.
Qed.

(** When the last call of a script draws, the cursor ends at or above the
    bottom margin. *)
Lemma walk_ends_above_bottom before last steps l :
  walk_draws last ->
  walk_script_steps (before ++ [last]) = Ok steps ->
  for_each walk_exec steps (Layout_init PDFBuilder_init) = Ok l ->
  (BOTTOM <= y l)%Z.
Proof.
  intros Hdraw Hs Hrun.
  pose proof (walk_script_steps_regular _ _ Hs) as Hreg.
  destruct (walk_script_steps_app before [last] steps Hs)
    as (a & b & Ha & Hb & ->).
  destruct (walk_draws_all last Hdraw) as (s & front & Hlast & Hs_draw).
  cbn [walk_script_steps] in Hb. rewrite Hlast in Hb. cbn [rbind] in Hb.
  injection Hb as <-. rewrite app_nil_r in *.
  rewrite app_assoc in Hrun, Hreg.
  rewrite for_each_app in Hrun.
  apply Forall_app in Hreg as [Hfront Hsreg].
  destruct (walk_run_inv (a ++ front) _ walk_inv_init Hfront)
    as (l1 & Hrun1 & Hinv1).
  rewrite Hrun1 in Hrun. cbn [rbind for_each] in Hrun.
  inversion Hsreg as [|? ? Hsr _]; subst.
  destruct (walk_step_inv l1 s Hinv1 Hsr) as (l2 & Hexec & _ & Hpost).
  rewrite Hexec in Hrun. cbn [rbind] in Hrun. injection Hrun as <-.
  destruct s; [exact Hpost|contradiction].
Qed.

Lemma two_pages script before last space :
  script = before ++ [last] ->
  walk_draws last ->
  walk_gaps_nonneg script ->
  walk_required_space script = Some space ->
  (10 * space = 14 * (TOP - BOTTOM))%Z ->
  exists l page1 page2,
    lay_out script = Ok l /\ pages (builder l) = [page1; page2].
Proof.
  intros Hscript Hdraw Hgaps Hspace Hexact.
  unfold walk_required_space in Hspace.
  destruct (walk_script_steps script) as [steps|] eqn:Hs; [|discriminate].
  injection Hspace as <-.
  pose proof (walk_script_steps_regular _ _ Hs) as Hreg.
  pose proof (walk_script_steps_nonneg _ _ Hgaps Hs) as Hnn.
  destruct (walk_run_inv_down steps _ 0 walk_inv_down_init Hreg Hnn)
    as (l & Hrun & Hne & Hy & _ & Hone & Hfloor).
  rewrite Hscript in Hs.
  pose proof (walk_ends_above_bottom before last steps l Hdraw Hs Hrun) as Hlow.
  exists l. unfold lay_out. rewrite Hscript, (walk_run_steps _ _ steps Hs).
  rewrite Z.add_0_l in *.
  unfold page_floor, TOP, BOTTOM, pt in *.
  destruct (pages (builder l)) as [|page1 [|page2 [|page3 more]]] eqn:Hp.
  - contradiction.
  - specialize (Hone eq_refl). lia.
  - eauto.
  - cbn [length] in Hfloor. lia.
Qed.
End PageCount.

Lemma page_objects_content n pages : forall idx k i commands,
  pages !! i = Some commands ->
  page_objects n idx k pages !! (2 * i + 1)
  = Some (content_object (k + 2 * i + 1)
            (Walkthrough.content_stream (idx + i) n commands)).
Proof.
  induction pages as [|p rest IH]; intros idx k i commands Hi; [discriminate|].
  destruct i as [|i].
  - injection Hi as ->. cbn [page_objects].
    rewrite !Nat.add_0_r. replace (k + 1) with (S k) by lia. reflexivity.
  - cbn [page_objects].
    replace (2 * S i + 1) with (S (S (2 * i + 1))) by lia.
    change ((?a :: ?b :: ?l) !! S (S ?j)) with (l !! j).
    rewrite (IH (S idx) (S (S k)) i commands Hi).
    f_equal. f_equal; [lia|f_equal; lia].
Qed.

(** The content stream of every page ends with the footer made by [build]. *)
Lemma walk_content_objects (b : Walkthrough.PDFBuilder) i commands :
  Walkthrough.pages b !! i = Some commands ->
  exists objects,
    Walkthrough.build_objects b = Ok objects
    /\ objects !! (8 + 2 * i)
       = Some (content_object (8 + 2 * i)
                 (encode_latin1_replace
                    (join nl (Walkthrough.prolog ++ commands
                                ++ Walkthrough.footer (i + 1)
                                     (length (Walkthrough.pages b)))))).
Proof.
  intros Hi. destruct (walk_build_objects b) as (objects & Hbuild & Hlook).
  exists objects. split; [exact Hbuild|].
  pose proof (lookup_lt_Some _ _ _ Hi) as Hlt.
  rewrite Hlook. destruct (decide _); [|lia].
  unfold object_table. rewrite lookup_app_r by (cbn [length]; lia).
  cbn [length].
  replace (8 + 2 * i - 1 - 6) with (2 * i + 1) by lia.
  rewrite (page_objects_content _ _ 1 7 i commands Hi).
  unfold Walkthrough.content_stream.
  f_equal. f_equal; [lia|]. f_equal. f_equal. f_equal. f_equal.
  f_equal. lia.
Qed.

(** ** Escaping and the emitted file *)

(** A part of one of the objects is a part of the file. *)
Lemma object_part_in_file {A} (objects : list (list A)) k h x t a z :
  objects !! k = Some (h ++ x ++ t) ->
  exists pre post, (a ++ concat objects) ++ z = pre ++ x ++ post.
Proof.
  intros H. rewrite <- (take_drop_middle objects k _ H).
  rewrite concat_app. cbn [concat].
  exists (a ++ concat (take k objects) ++ h).
  exists (t ++ concat (drop (S k) objects) ++ z).
  rewrite <- !app_assoc. reflexivity.
Qed.

(** The content stream of the one-page builder is part of the file as it
    is. *)
Lemma summary_stream_in_file (b : Summary.PDFBuilder) :
  exists pdf pre post,
    Summary.assemble b = Ok pdf
    /\ pdf = pre ++ Summary.content_stream b ++ post.
Proof.
  destruct (summary_build_objects b) as (objects & Hobj & _ & _ & H7).
  destruct (summary_assemble b) as (objects' & Hobj' & Hpdf & _).
  rewrite Hobj in Hobj'. injection Hobj' as <-.
  destruct (object_part_in_file objects 6 _ _ _ pdf_header
              (xref_table (offsets_from (length pdf_header) objects)
                 ++ trailer 8 (length (pdf_header ++ concat objects))) H7)
    as (pre & post & Hcat).
  exists ((pdf_header ++ concat objects)
            ++ xref_table (offsets_from (length pdf_header) objects)
            ++ trailer 8 (length (pdf_header ++ concat objects))), pre, post.
  split; [exact Hpdf|exact Hcat].
Qed.

(** So is the content stream of every page of the multi-page builder. *)
Lemma walk_stream_in_file (b : Walkthrough.PDFBuilder) i commands :
  Walkthrough.pages b !! i = Some commands ->
  exists pdf pre post,
    Walkthrough.assemble b = Ok pdf
    /\ pdf = pre
             ++ Walkthrough.content_stream (i + 1)
                  (length (Walkthrough.pages b)) commands
             ++ post.
Proof.
  intros Hi. destruct (walk_assemble b) as [Hpdf _].
  assert (Hobj : object_table (Walkthrough.pages b) !! (6 + (2 * i + 1))
                 = Some (content_object (7 + 2 * i + 1)
                           (Walkthrough.content_stream (1 + i)
                              (length (Walkthrough.pages b)) commands))).
  { unfold object_table. rewrite lookup_app_r by (cbn [length]; lia).
    cbn [length]. replace (6 + (2 * i + 1) - 6) with (2 * i + 1) by lia.
    apply page_objects_content. exact Hi. }
  replace (1 + i) with (i + 1) in Hobj by lia.
  unfold content_object in Hobj at 1.
  destruct (object_part_in_file _ _ _ _ _ pdf_header
              (xref_table (offsets_from (length pdf_header)
                             (object_table (Walkthrough.pages b)))
                 ++ trailer (6 + 2 * length (Walkthrough.pages b) + 1)
                      (length (pdf_header
                                 ++ concat (object_table (Walkthrough.pages b)))))
              Hobj)
    as (pre & post & Hcat).
  eexists; exists pre, post.
  split; [exact Hpdf|exact Hcat].
Qed.

(** C8, as the code has it.  Both builders escape the text once, when the
    command is recorded: the recorded command is the finished instruction
    and holds [pdf_escape t].  The file then holds the recorded commands
    as they are, joined with the prolog (and the footer), so the text that
    reaches the file has been escaped exactly once, and reading it back
    gives the text. *)
Theorem text_is_escaped_once_when_recorded :
  (forall (b : Summary.PDFBuilder) x y t font size,
      let command := show_text font size x y (pdf_escape t) in
      let b' := Summary.text b x y t font size in
      Summary.commands b' = Summary.commands b ++ [command]
      /\ exists pdf pre post,
           Summary.assemble b' = Ok pdf
           /\ pdf = pre
                    ++ encode_latin1_replace
                         (join nl (Summary.prolog ++ Summary.commands b
                                     ++ [command]))
                    ++ post)
  /\ (forall (b : Walkthrough.PDFBuilder) front page x y t font size,
         Walkthrough.pages b = front ++ [page] ->
         let command := show_text font size x y (pdf_escape t) in
         exists b' pdf pre post,
           Walkthrough.text b x y t font size = Ok b'
           /\ Walkthrough.pages b' = front ++ [page ++ [command]]
           /\ Walkthrough.assemble b' = Ok pdf
           /\ pdf = pre
                    ++ encode_latin1_replace
                         (join nl (Walkthrough.prolog ++ (page ++ [command])
                                     ++ Walkthrough.footer (length front + 1)
                                          (length front + 1)))
                    ++ post)
  /\ (forall t, unescape (pdf_escape t) = t).
Proof.
  split; [|split; [|apply unescape_pdf_escape]].
  - intros b x y t font size command b'. split; [reflexivity|].
    exact (summary_stream_in_file b').
  - intros b front page x y t font size Hp command.
    pose proof (walkthrough_text_last b front page x y t font size Hp) as Htext.
    fold command in Htext.
    set (b' := {| Walkthrough.pages := front ++ [page ++ [command]] |}) in *.
    assert (Hi : Walkthrough.pages b' !! length front
                 = Some (page ++ [command]))
      by (apply list_lookup_middle; reflexivity).
    destruct (walk_stream_in_file b' _ _ Hi) as (pdf & pre & post & Hpdf & Hcat).
    exists b', pdf, pre, post.
    split; [exact Htext|]. split; [reflexivity|]. split; [exact Hpdf|].
    rewrite Hcat. unfold Walkthrough.content_stream.
    cbn [Walkthrough.pages b']. rewrite length_app. reflexivity.
Qed.

Lemma text_is_escaped_once_when_recorded_witness :
  Walkthrough.pages Walkthrough.PDFBuilder_init = [] ++ [[]]
  /\ exists b' pdf pre post,
       Walkthrough.text Walkthrough.PDFBuilder_init (pt 48) (pt 760)
         (lit "f(x)") (lit "F1") (pt 10) = Ok b'
       /\ Walkthrough.pages b'
          = [[lit "BT /F1 10.00 Tf 48.00 760.00 Td (f\(x\)) Tj ET"]]
       /\ Walkthrough.assemble b' = Ok pdf
       /\ pdf = pre
                ++ raw (lit "q 1 1 1 rg 0 0 612 792 re f Q" ++ nl
                          ++ lit "0 0 0 rg" ++ nl
                          ++ lit "BT /F1 10.00 Tf 48.00 760.00 Td (f\(x\)) Tj ET"
                          ++ nl
                          ++ lit "BT /F1 9 Tf 48.00 26.00 Td (Page 1 of 1) Tj ET")
                ++ post.
Proof.
  split; [reflexivity|].
  destruct (proj1 (proj2 text_is_escaped_once_when_recorded)
              Walkthrough.PDFBuilder_init [] [] (pt 48) (pt 760)
              (lit "f(x)") (lit "F1") (pt 10) eq_refl)
    as (b' & pdf & pre & post & Htext & Hpages & Hpdf & Hfile).
  exists b', pdf, pre, post.
  split; [exact Htext|]. split; [exact Hpages|]. split; [exact Hpdf|].
  exact Hfile.
Defined.

(** C5, as the code has it.  In the multi-page script, content without
    negative gaps that asks for exactly 1.4 page bodies of space and whose
    last call draws a line is laid out on exactly two pages, and in the
    built dictionary the content stream of the first page (object 8) ends
    with the line [Page 1 of 2] and that of the second (object 10) with
    [Page 2 of 2].  For any builder, [build] appends to the commands of page
    [i + 1] the instruction that shows [Page i+1 of N] at (48.00, 26.00),
    [N] being the number of pages of the finished builder; the layout itself
    records no footer. *)
Theorem two_pages_and_footers :
  forall U : UnicodeDB,
    (forall (script before : list Walkthrough.Call) last space,
        script = before ++ [last] ->
        walk_draws last ->
        walk_gaps_nonneg script ->
        walk_required_space script = Some space ->
        (10 * space = 14 * (Walkthrough.TOP - Walkthrough.BOTTOM))%Z ->
        exists l page1 page2 objects,
          Walkthrough.lay_out script = Ok l
          /\ Walkthrough.pages (Walkthrough.builder l) = [page1; page2]
          /\ Walkthrough.build_objects (Walkthrough.builder l) = Ok objects
          /\ objects !! 8
             = Some (content_object 8
                       (encode_latin1_replace
                          (join nl (Walkthrough.prolog ++ page1
                             ++ [lit "BT /F1 9 Tf 48.00 26.00 Td (Page 1 of 2) Tj ET"]))))
          /\ objects !! 10
             = Some (content_object 10
                       (encode_latin1_replace
                          (join nl (Walkthrough.prolog ++ page2
                             ++ [lit "BT /F1 9 Tf 48.00 26.00 Td (Page 2 of 2) Tj ET"])))))
    /\ (forall (b : Walkthrough.PDFBuilder) i commands,
           Walkthrough.pages b !! i = Some commands ->
           exists objects,
             Walkthrough.build_objects b = Ok objects
             /\ objects !! (8 + 2 * i)
                = Some (content_object (8 + 2 * i)
                          (encode_latin1_replace
                             (join nl (Walkthrough.prolog ++ commands
                                ++ [lit "BT /F1 9 Tf 48.00 26.00 Td (Page "
                                      ++ str_of_nat (i + 1) ++ lit " of "
                                      ++ str_of_nat (length (Walkthrough.pages b))
                                      ++ lit ") Tj ET"])))))
    /\ (forall (script : list Walkthrough.Call) l,
           walk_widths_positive script ->
           Walkthrough.lay_out script = Ok l ->
           Forall (Forall (drawn_at (fun y0 => (Walkthrough.BOTTOM < y0)%Z)))
             (Walkthrough.pages (Walkthrough.builder l))).
Proof.
  intros U. split; [|split].
  - intros script before last space Hscript Hdraw Hgaps Hspace Hexact.
    destruct (two_pages script before last space Hscript Hdraw Hgaps Hspace Hexact)
      as (l & page1 & page2 & Hlay & Hpages).
    destruct (walk_content_objects (Walkthrough.builder l) 0 page1
                ltac:(rewrite Hpages; reflexivity)) as (objects & Hbuild & H8).
    destruct (walk_content_objects (Walkthrough.builder l) 1 page2
                ltac:(rewrite Hpages; reflexivity)) as (objects' & Hbuild' & H10).
    rewrite Hbuild in Hbuild'. injection Hbuild' as <-.
    rewrite Hpages in H8, H10.
    exists l, page1, page2, objects.
    split; [exact Hlay|]. split; [exact Hpages|]. split; [exact Hbuild|].
    split; [exact H8|exact H10].
  - intros b i commands Hi. apply walk_content_objects. exact Hi.
  - intros script l Hw Hlay.
    destruct (drawn_lines_above_bottom script Hw) as (l' & Hlay' & Hall & _).
    rewrite Hlay in Hlay'. injection Hlay' as <-. exact Hall.
Qed.

Lemma two_pages_and_footers_witness :
  exists l page1 page2 objects,
    @Walkthrough.lay_out ascii_tables
      [Walkthrough.Title (lit "A"); Walkthrough.Gap (dec 951 60);
       Walkthrough.Title (lit "B")] = Ok l
    /\ Walkthrough.pages (Walkthrough.builder l) = [page1; page2]
    /\ Walkthrough.build_objects (Walkthrough.builder l) = Ok objects
    /\ objects !! 8
       = Some (content_object 8
                 (encode_latin1_replace
                    (join nl (Walkthrough.prolog ++ page1
                       ++ [lit "BT /F1 9 Tf 48.00 26.00 Td (Page 1 of 2) Tj ET"]))))
    /\ objects !! 10
       = Some (content_object 10
                 (encode_latin1_replace
                    (join nl (Walkthrough.prolog ++ page2
                       ++ [lit "BT /F1 9 Tf 48.00 26.00 Td (Page 2 of 2) Tj ET"])))).
Proof.
  apply (proj1 (two_pages_and_footers ascii_tables)
           [Walkthrough.Title (lit "A"); Walkthrough.Gap (dec 951 60);
            Walkthrough.Title (lit "B")]
           [Walkthrough.Title (lit "A"); Walkthrough.Gap (dec 951 60)]
           (Walkthrough.Title (lit "B")) (dec 999 60)).
  - reflexivity.
  - exact I.
  - unfold walk_gaps_nonneg. repeat constructor. vm_compute. discriminate.
  - vm_compute. reflexivity.
  - vm_compute. reflexivity.
Defined.

(** A single gap of 999.60 points asks for exactly 1.4 page bodies of space
    (the body is 714 points high); the layout keeps its one page, whose
    footer reads [Page 1 of 1].  With a negative gap, content that asks for
    the same space and ends with a drawn line takes three pages. *)
Lemma one_gap_of_1_4_pages_makes_one_page :
  @walk_required_space ascii_tables [Walkthrough.Gap (dec 999 60)]
  = Some (dec 999 60)
  /\ (10 * dec 999 60 = 14 * (Walkthrough.TOP - Walkthrough.BOTTOM))%Z
  /\ @Walkthrough.lay_out ascii_tables [Walkthrough.Gap (dec 999 60)]
     = Ok {| Walkthrough.builder := {| Walkthrough.pages := [[]] |};
             Walkthrough.y := (- dec 239 60)%Z |}
  /\ (exists objects,
         Walkthrough.build_objects {| Walkthrough.pages := [[]] |} = Ok objects
         /\ objects !! 8
            = Some (content_object 8
                      (encode_latin1_replace
                         (join nl (Walkthrough.prolog
                            ++ [lit "BT /F1 9 Tf 48.00 26.00 Td (Page 1 of 1) Tj ET"])))))
  /\ @walk_required_space ascii_tables
       [Walkthrough.Gap (pt 800); Walkthrough.Title (lit "a");
        Walkthrough.Gap (pt 700); Walkthrough.Title (lit "b");
        Walkthrough.Gap (- dec 560 40); Walkthrough.Paragraph (lit "x") 104]
     = Some (dec 999 60)
  /\ exists l,
       @Walkthrough.lay_out ascii_tables
         [Walkthrough.Gap (pt 800); Walkthrough.Title (lit "a");
          Walkthrough.Gap (pt 700); Walkthrough.Title (lit "b");
          Walkthrough.Gap (- dec 560 40); Walkthrough.Paragraph (lit "x") 104]
       = Ok l
       /\ length (Walkthrough.pages (Walkthrough.builder l)) = 3.
Proof.
  split; [vm_compute; reflexivity|].
  split; [vm_compute; reflexivity|].
  split; [vm_compute; reflexivity|].
  split.
  { destruct (walk_content_objects {| Walkthrough.pages := [[]] |} 0 []
                eq_refl) as (objects & Hbuild & H8).
    exists objects. split; [exact Hbuild|exact H8]. }
  split; [vm_compute; reflexivity|].
  eexists. split; [vm_compute; reflexivity|reflexivity].
Qed.

(** ** The two documents of the repository *)

(** The summary fits its page: the cursor ends at 300 points and the file
    is written. *)
Example summary_document_fits :
  (exists b,
      for_each (@Summary.perform ascii_tables)
        (Summary.summary_calls (lit "2026-02-14"))
        (Summary.Layout_init Summary.PDFBuilder_init)
      = Ok {| Summary.builder := b; Summary.y := pt 300 |})
  /\ exists pdf,
       @Summary.build_summary_pdf ascii_tables (lit "2026-02-14")
         ["output"; "pdf"; "productivity-app-summary.pdf"]%string
       = ([Mkdir ["output"; "pdf"]%string;
           WriteBytes ["output"; "pdf"; "productivity-app-summary.pdf"]%string pdf],
          Ok tt).
Proof.
  split; eexists; vm_compute; reflexivity.
Qed.

(** The walkthrough takes three pages, and the cursor ends at 154 points on
    the third. *)
Example walkthrough_document_pages :
  exists l,
    @Walkthrough.lay_out ascii_tables
      (Walkthrough.walkthrough_calls (lit "abc1234") (lit "2026-02-14 10:30"))
    = Ok l
    /\ length (Walkthrough.pages (Walkthrough.builder l)) = 3
    /\ Walkthrough.y l = pt 154.
Proof.
  eexists. split; [vm_compute; reflexivity|].
  split; reflexivity.
Qed.

(** * Further properties *)

(** ** The escaper and the recorded commands *)

Lemma escape_char_clean c : is_special c = false -> escape_char c = [c].
Proof.
  unfold is_special, escape_char.
  destruct (c =? BACKSLASH)%N; [discriminate|].
  destruct (c =? LPAREN)%N; [discriminate|].
  destruct (c =? RPAREN)%N; [discriminate|reflexivity].
Qed.

Lemma escape_char_length c :
  length (escape_char c) = if is_special c then 2 else 1.
Proof.
  unfold is_special, escape_char.
  destruct (c =? BACKSLASH)%N; [reflexivity|].
  destruct (c =? LPAREN)%N; [reflexivity|].
  destruct (c =? RPAREN)%N; reflexivity.
Qed.

Lemma pdf_escape_app s t : pdf_escape (s ++ t) = pdf_escape s ++ pdf_escape t.
Proof. unfold pdf_escape. rewrite !replace1_app. reflexivity. Qed.

Lemma pdf_escape_clean t :
  forallb (fun c => negb (is_special c)) t = true -> pdf_escape t = t.
Proof.
  induction t as [|c t IH]; [reflexivity|].
  cbn [forallb]. intros [Hc Ht]%andb_true_iff.
  rewrite pdf_escape_cons, (IH Ht), escape_char_clean; [reflexivity|].
  destruct (is_special c); [discriminate|reflexivity].
Qed.

Lemma pdf_escape_length t :
  length (pdf_escape t) = length t + length (filter (fun c => is_special c = true) t).
Proof.
  induction t as [|c t IH]; [reflexivity|].
  rewrite pdf_escape_cons, length_app, IH, escape_char_length.
  rewrite filter_cons. cbn [length].
  destruct (decide (is_special c = true)) as [H|H].
  - rewrite H. cbn [length]. lia.
  - destruct (is_special c); [congruence|]. lia.
Qed.

(** X1. [pdf_escape] works character by character: it distributes over
    concatenation, it returns a text without backslash and parenthesis
    unchanged, and its result is longer than the text by one character for
    each backslash or parenthesis of the text. *)
Theorem pdf_escape_composes :
  (forall s t : str, pdf_escape (s ++ t) = pdf_escape s ++ pdf_escape t)
  /\ (forall t : str,
         forallb (fun c => negb (is_special c)) t = true -> pdf_escape t = t)
  /\ (forall t : str,
         length (pdf_escape t)
         = length t + length (filter (fun c => is_special c = true) t)).
Proof.
  split; [exact pdf_escape_app|].
  split; [exact pdf_escape_clean|exact pdf_escape_length].
Qed.

Lemma pdf_escape_composes_witness :
  forallb (fun c => negb (is_special c)) (lit "Page 1 of 2") = true
  /\ pdf_escape (lit "Page 1 of 2") = lit "Page 1 of 2".
Proof.
  split; [reflexivity|].
  apply (proj1 (proj2 pdf_escape_composes)). reflexivity.
Defined.

(** Reading an escaped text at any nesting depth: the text comes back, and
    the reading goes on behind it. *)
Lemma read_literal_escaped t : forall depth after,
  read_literal_from depth false (pdf_escape t ++ after)
  = match read_literal_from depth false after with
    | Some (t', rest) => Some (t ++ t', rest)
    | None => None
    end.
Proof.
  induction t as [|c t IH]; intros depth after.
  - cbn [pdf_escape app]. change (pdf_escape []) with (@nil N). cbn [app].
    destruct (read_literal_from depth false after) as [[t' rest]|]; reflexivity.
  - rewrite pdf_escape_cons, <- app_assoc.
    assert (Hc : forall s,
               read_literal_from depth false (escape_char c ++ s)
               = match read_literal_from depth false s with
                 | Some (t', rest) => Some (c :: t', rest)
                 | None => None
                 end).
    { intros s. unfold escape_char, BACKSLASH, LPAREN, RPAREN.
      destruct (N.eqb_spec c 92) as [->|H92]; [reflexivity|].
      destruct (N.eqb_spec c 40) as [->|H40]; [reflexivity|].
      destruct (N.eqb_spec c 41) as [->|H41]; [reflexivity|].
      cbn [app read_literal_from]. unfold BACKSLASH, LPAREN, RPAREN.
      destruct (N.eqb_spec c 92); [contradiction|].
      destruct (N.eqb_spec c 40); [contradiction|].
      destruct (N.eqb_spec c 41); [contradiction|reflexivity]. }
    rewrite Hc, IH.
    destruct (read_literal_from depth false after) as [[t' rest]|]; reflexivity.
Qed.

Lemma read_first_literal_skip s after :
  forallb (fun c => negb (c =? LPAREN)%N) s = true ->
  read_first_literal (s ++ after) = read_first_literal after.
Proof.
  induction s as [|c s IH]; [reflexivity|].
  cbn [forallb app read_first_literal]. intros [Hc Hs]%andb_true_iff.
  destruct (c =? LPAREN)%N; [discriminate|]. apply IH. exact Hs.
Qed.

Lemma forallb_replicate {A} (p : A -> bool) n c :
  p c = true -> forallb p (replicate n c) = true.
Proof. intros H. induction n as [|n IH]; cbn; [reflexivity|]. rewrite H, IH. reflexivity. Qed.

Lemma no_paren_digits d :
  forallb (fun c => negb (c =? LPAREN)%N) (digits_of_uint d) = true.
Proof. induction d; cbn; auto. Qed.

Lemma no_paren_str_of_int n :
  forallb (fun c => negb (c =? LPAREN)%N) (str_of_int n) = true.
Proof.
  destruct n; cbn [str_of_int]; unfold str_of_N;
    [apply no_paren_digits..|].
  cbn [forallb]. rewrite no_paren_digits. reflexivity.
Qed.

Lemma no_paren_fmt_2f v :
  forallb (fun c => negb (c =? LPAREN)%N) (fmt_2f v) = true.
Proof.
  unfold fmt_2f.
  rewrite !forallb_app, !no_paren_str_of_int, forallb_replicate by reflexivity.
  destruct (v <? 0)%Z; reflexivity.
Qed.

Lemma read_show_text font size x y t :
  forallb (fun c => negb (c =? LPAREN)%N) font = true ->
  read_first_literal (show_text font size x y (pdf_escape t))
  = Some (t, lit " Tj ET").
Proof.
  intros Hfont. unfold show_text.
  change (lit " Td (") with (lit " Td " ++ [LPAREN]).
  change (lit ") Tj ET") with ([RPAREN] ++ lit " Tj ET").
  set (before := lit "BT /" ++ font ++ lit " " ++ fmt_2f size ++ lit " Tf "
                   ++ fmt_2f x ++ lit " " ++ fmt_2f y ++ lit " Td ").
  assert (Hshape : lit "BT /" ++ font ++ lit " " ++ fmt_2f size ++ lit " Tf "
                     ++ fmt_2f x ++ lit " " ++ fmt_2f y
                     ++ (lit " Td " ++ [LPAREN]) ++ pdf_escape t
                     ++ [RPAREN] ++ lit " Tj ET"
                   = before ++ [LPAREN]
                       ++ (pdf_escape t ++ [RPAREN] ++ lit " Tj ET")).
  { subst before. rewrite <- !app_assoc. reflexivity. }
  rewrite Hshape, read_first_literal_skip.
  - change ([LPAREN] ++ ?s) with (LPAREN :: s).
    cbn [read_first_literal]. rewrite N.eqb_refl.
    rewrite read_literal_escaped. cbn. rewrite app_nil_r. reflexivity.
  - subst before. rewrite !forallb_app, !no_paren_fmt_2f, Hfont. reflexivity.
Qed.

(** X2. The text of a recorded command can be read back: in the
    instruction that [PDFBuilder.text] of either script records for a text
    [t] (with a font name that has no opening parenthesis), the literal
    string that opens at the first parenthesis closes just before
    [ Tj ET] and holds [t], whatever backslashes and parentheses [t]
    contains. *)
Theorem recorded_text_reads_back :
  forall (font : str) (size x y : Z) (t : str),
    forallb (fun c => negb (c =? LPAREN)%N) font = true ->
    read_first_literal (show_text font size x y (pdf_escape t))
    = Some (t, lit " Tj ET")
    /\ (forall b : Summary.PDFBuilder,
           exists cmd,
             Summary.commands (Summary.text b x y t font size)
             = Summary.commands b ++ [cmd]
             /\ read_first_literal cmd = Some (t, lit " Tj ET"))
    /\ (forall (b : Walkthrough.PDFBuilder) front page,
           Walkthrough.pages b = front ++ [page] ->
           exists cmd,
             Walkthrough.text b x y t font size
             = Ok {| Walkthrough.pages := front ++ [page ++ [cmd]] |}
             /\ read_first_literal cmd = Some (t, lit " Tj ET")).
Proof.
  intros font size x y t Hfont.
  pose proof (read_show_text font size x y t Hfont) as H.
  split; [exact H|]. split.
  - intros b. eexists. split; [reflexivity|exact H].
  - intros b front page Hp. eexists.
    split; [apply walkthrough_text_last; exact Hp|exact H].
Qed.

Lemma recorded_text_reads_back_witness :
  forallb (fun c => negb (c =? LPAREN)%N) (lit "F1") = true
  /\ read_first_literal
       (lit "BT /F1 10.00 Tf 48.00 760.00 Td (a\) Tj \(b\\) Tj ET")
     = Some (lit "a) Tj (b\", lit " Tj ET").
Proof.
  split; [reflexivity|].
  exact (proj1 (recorded_text_reads_back (lit "F1") (pt 10) (pt 48) (pt 760)
                  (lit "a) Tj (b\") eq_refl)).
Defined.

(** ** The wrapper: refused widths *)

Section RefusedWidth.
Context {U : UnicodeDB}.

Lemma summary_refused_width before text w after path l bullet :
  (w <= 0)%Z ->
  for_each Summary.perform before
    (Summary.Layout_init Summary.PDFBuilder_init) = Ok l ->
  Summary.build_summary_pdf_from
    (before ++ (if bullet : bool then Summary.Bullet text w
                else Summary.Paragraph text w) :: after) path
  = ([], Raise (ValueError (invalid_width w))).
Proof.
  intros Hw Hrun. unfold Summary.build_summary_pdf_from.
  rewrite for_each_app, Hrun. cbn [rbind for_each].
  destruct bullet; cbn [Summary.perform];
    unfold Summary.bullet, Summary.paragraph;
    rewrite (wrap_invalid_width text w Hw); reflexivity.
Qed.

Lemma walk_refused_width before text w after path l bullet :
  (w <= 0)%Z ->
  Walkthrough.lay_out before = Ok l ->
  Walkthrough.write_walkthrough_from
    (before ++ (if bullet : bool then Walkthrough.Bullet text w
                else Walkthrough.Paragraph text w) :: after) path
  = ([], Raise (ValueError (invalid_width w))).
Proof.
  intros Hw Hrun. unfold Walkthrough.write_walkthrough_from, Walkthrough.lay_out in *.
  rewrite for_each_app, Hrun. cbn [rbind for_each].
  destruct bullet; cbn [Walkthrough.perform];
    unfold Walkthrough.bullet, Walkthrough.paragraph;
    rewrite (wrap_invalid_width text w Hw); reflexivity.
Qed.
End RefusedWidth.

(** X3. A width of zero or less is refused: for every text the wrapper
    raises [ValueError] with the message [invalid width w (must be > 0)],
    and a script in which such a paragraph or bullet comes after calls that
    succeed stops with that error, in either script, before any directory
    is made or file written. *)
Theorem invalid_width_is_refused :
  forall (U : UnicodeDB) (text : str) (w : Z),
    (w <= 0)%Z ->
    wrap text w = Raise (ValueError (invalid_width w))
    /\ (forall before after path l (bullet : bool),
           for_each Summary.perform before
             (Summary.Layout_init Summary.PDFBuilder_init) = Ok l ->
           Summary.build_summary_pdf_from
             (before ++ (if bullet then Summary.Bullet text w
                         else Summary.Paragraph text w) :: after) path
           = ([], Raise (ValueError (invalid_width w))))
    /\ (forall before after path l (bullet : bool),
           Walkthrough.lay_out before = Ok l ->
           Walkthrough.write_walkthrough_from
             (before ++ (if bullet then Walkthrough.Bullet text w
                         else Walkthrough.Paragraph text w) :: after) path
           = ([], Raise (ValueError (invalid_width w)))).
Proof.
  intros U text w Hw.
  split; [apply wrap_invalid_width; exact Hw|]. split.
  - intros before after path l bullet Hrun.
    eapply summary_refused_width; eauto.
  - intros before after path l bullet Hrun.
    eapply walk_refused_width; eauto.
Qed.

Lemma invalid_width_is_refused_witness :
  (0 <= 0)%Z
  /\ @wrap ascii_tables (lit "some text") 0
     = Raise (ValueError (lit "invalid width 0 (must be > 0)"))
  /\ @Walkthrough.write_walkthrough_from ascii_tables
       ([Walkthrough.Title (lit "T")]
          ++ Walkthrough.Paragraph (lit "some text") 0
          :: [Walkthrough.Gap (pt 8)])
       ["out.pdf"%string]
     = ([], Raise (ValueError (lit "invalid width 0 (must be > 0)"))).
Proof.
  destruct (invalid_width_is_refused ascii_tables (lit "some text") 0
              ltac:(reflexivity)) as (Hwrap & _ & Hwalk).
  split; [reflexivity|]. split; [exact Hwrap|].
  exact (Hwalk [Walkthrough.Title (lit "T")] [Walkthrough.Gap (pt 8)]
           ["out.pdf"%string] _ false eq_refl).
Defined.

(** ** The wrapper: what the lines hold *)

Lemma visible_app s t : visible (s ++ t) = visible s ++ visible t.
Proof. unfold visible. apply List.filter_app. Qed.

Lemma visible_cons c s :
  visible (c :: s) = (if is_space c then [] else [c]) ++ visible s.
Proof. unfold visible. cbn [List.filter]. destruct (is_space c); reflexivity. Qed.

Lemma visible_blank s : strip_is_empty s = true -> visible s = [].
Proof.
  unfold strip_is_empty, visible. induction s as [|c s IH]; [reflexivity|].
  cbn [forallb List.filter]. intros [Hc Hs]%andb_true_iff.
  rewrite Hc. cbn [negb]. apply IH. exact Hs.
Qed.

Lemma is_ws_is_space c : is_ws c = true -> is_space c = true.
Proof.
  unfold is_ws, _whitespace. cbn [existsb]. rewrite orb_false_r.
  rewrite !orb_true_iff, !N.eqb_eq.
  intros [->|[->|[->|[->|[->| ->]]]]]; reflexivity.
Qed.

Lemma visible_replicate_space n : visible (replicate n SPACE) = [].
Proof. induction n as [|n IH]; [reflexivity|exact IH]. Qed.

Lemma visible_expandtabs tabsize text : forall col,
  (0 < tabsize)%nat ->
  visible (expandtabs_from tabsize col text) = visible text.
Proof.
  induction text as [|c text IH]; intros col Hts; [reflexivity|].
  cbn [expandtabs_from].
  destruct (N.eqb_spec c 9) as [->|Hc].
  - destruct (Nat.ltb_spec 0 tabsize); [|lia].
    rewrite visible_app, visible_replicate_space, IH by exact Hts.
    reflexivity.
  - rewrite !visible_cons, IH by exact Hts. reflexivity.
Qed.

Lemma visible_translate text :
  visible (translate_whitespace text) = visible text.
Proof.
  unfold translate_whitespace.
  induction text as [|c text IH]; [reflexivity|].
  cbn [map]. rewrite !visible_cons, IH.
  destruct (is_ws c) eqn:Hc; [|reflexivity].
  rewrite (is_ws_is_space c Hc). reflexivity.
Qed.

Lemma visible_munge text : visible (_munge_whitespace text) = visible text.
Proof.
  unfold _munge_whitespace, expandtabs.
  rewrite visible_translate. apply visible_expandtabs. lia.
Qed.

Section SplitKeeps.
Context {U : UnicodeDB}.

(** The chunks are the text cut into pieces. *)
Lemma split_scan_concat rest : forall back cur todo,
  concat (split_scan back rest cur todo) = cur ++ rest.
Proof.
  induction rest as [|c rest IH]; intros back cur todo.
  - cbn [split_scan]. rewrite app_nil_r.
    destruct cur; [reflexivity|]. cbn [concat]. apply app_nil_r.
  - cbn [split_scan]. destruct todo as [|todo].
    + rewrite concat_app, IH.
      destruct cur; [reflexivity|]. cbn [concat]. rewrite app_nil_r.
      reflexivity.
    + rewrite IH, <- app_assoc. reflexivity.
Qed.

Lemma split_concat text : concat (_split text) = text.
Proof. unfold _split. apply (split_scan_concat text [] [] 0). Qed.

(** No chunk is empty. *)
Lemma split_scan_nonempty rest : forall back cur todo,
  Forall (fun chunk => chunk <> []) (split_scan back rest cur todo).
Proof.
  induction rest as [|c rest IH]; intros back cur todo.
  - cbn [split_scan]. destruct cur; repeat constructor. discriminate.
  - cbn [split_scan]. destruct todo as [|todo]; [|apply IH].
    apply Forall_app. split; [|apply IH].
    destruct cur; repeat constructor. discriminate.
Qed.
End SplitKeeps.

Lemma slice_to_from (s : str) (stop : Z) :
  slice_to s stop ++ slice_from s stop = s.
Proof. unfold slice_to, slice_from. apply take_drop. Qed.

(** What [_handle_long_word] does to a stack that is not empty: the top
    chunk is cut in two. *)
Lemma handle_long_word_cut chunk below cur_line cur_len width :
  exists stop,
    _handle_long_word (chunk :: below) cur_line cur_len width
    = (slice_from chunk stop :: below, cur_line ++ [slice_to chunk stop]).
Proof. unfold _handle_long_word. eexists. reflexivity. Qed.

(** One pass keeps the visible characters: those of the lines followed by
    those still on the stack. *)
Lemma wrap_line_visible chunks lines width :
  visible (concat (snd (wrap_line chunks lines width)))
    ++ visible (concat (fst (wrap_line chunks lines width)))
  = visible (concat lines) ++ visible (concat chunks).
Proof.
  unfold wrap_line.
  set (chunks1 := match chunks, lines with
                  | top :: below, _ :: _ =>
                      if strip_is_empty top then below else chunks
                  | _, _ => chunks
                  end).
  assert (H1 : visible (concat chunks1) = visible (concat chunks)).
  { subst chunks1. destruct chunks as [|top below]; [reflexivity|].
    destruct lines; [reflexivity|].
    destruct (strip_is_empty top) eqn:Htop; [|reflexivity].
    cbn [concat]. rewrite visible_app, (visible_blank top Htop). reflexivity. }
  rewrite <- H1. clearbody chunks1. clear H1.
  destruct (fill_line_spec chunks1 [] 0 width)
    as (moved & rest & -> & Hrun & _ & _).
  rewrite Hrun. cbn [app]. cbv beta iota zeta.
  set (step := match rest with
               | top :: _ =>
                   if (width <? len top)%Z
                   then _handle_long_word rest moved
                          (0 + len (concat moved)) width
                   else (rest, moved)
               | [] => (rest, moved)
               end).
  assert (Hstep : concat (snd step) ++ concat (fst step)
                  = concat moved ++ concat rest).
  { subst step. destruct rest as [|top below]; [reflexivity|].
    destruct (width <? len top)%Z; [|reflexivity].
    destruct (handle_long_word_cut top below moved
                (0 + len (concat moved)) width) as [stop ->].
    cbn [fst snd concat]. rewrite concat_snoc, <- !app_assoc.
    rewrite (app_assoc (slice_to top stop)), slice_to_from. reflexivity. }
  destruct step as [chunks2 cur2]. cbn [fst snd] in Hstep.
  set (cur3 := match last cur2 with
               | Some c => if strip_is_empty c then removelast cur2 else cur2
               | None => cur2
               end).
  assert (H3 : visible (concat cur3) = visible (concat cur2)).
  { subst cur3. destruct (last cur2) as [c|] eqn:Hlast; [|reflexivity].
    destruct (strip_is_empty c) eqn:Hc; [|reflexivity].
    apply last_Some in Hlast as [front ->].
    rewrite removelast_last, concat_snoc, visible_app, (visible_blank c Hc).
    rewrite app_nil_r. reflexivity. }
  assert (Hgoal : visible (concat lines) ++ visible (concat cur3)
                    ++ visible (concat chunks2)
                  = visible (concat lines) ++ visible (concat (moved ++ rest))).
  { rewrite H3, <- visible_app, Hstep, concat_app. reflexivity. }
  rewrite <- Hgoal. clearbody cur3.
  destruct cur3 as [|c3 cur3']; cbn [fst snd].
  - reflexivity.
  - rewrite concat_snoc, visible_app, <- app_assoc. reflexivity.
Qed.

Lemma wrap_loop_visible fuel : forall chunks lines width lines',
  wrap_loop fuel chunks lines width = Some lines' ->
  visible (concat lines') = visible (concat lines) ++ visible (concat chunks).
Proof.
  induction fuel as [|fuel IH]; intros chunks lines width lines'.
  - destruct chunks; [|discriminate]. intros [= <-].
    cbn [concat]. rewrite app_nil_r. reflexivity.
  - destruct chunks as [|top below].
    + intros [= <-]. cbn [concat]. rewrite app_nil_r. reflexivity.
    + cbn [wrap_loop].
      pose proof (wrap_line_visible (top :: below) lines width) as Hline.
      destruct (wrap_line (top :: below) lines width) as [chunks' lines1].
      cbn [fst snd] in Hline. intros Hrun.
      rewrite (IH _ _ _ _ Hrun). exact Hline.
Qed.

Lemma wrap_visible {U : UnicodeDB} (text : str) (w : Z) lines :
  wrap text w = Ok lines -> visible (concat lines) = visible text.
Proof.
  unfold wrap, _wrap_chunks, _split_chunks.
  destruct (w <=? 0)%Z; [discriminate|].
  destruct (wrap_loop _ _ _ _) as [lines'|] eqn:Hrun; [|discriminate].
  intros [= <-]. rewrite (wrap_loop_visible _ _ _ _ _ Hrun).
  cbn [concat app]. unfold visible at 1. cbn [List.filter app].
  rewrite split_concat. apply visible_munge.
Qed.

(** X4. Wrapping loses no character that can be seen: for a width above
    zero the lines, read one after the other, hold exactly the characters
    of the text that are not white space, in the order of the text.  (Only
    white space is dropped, added or replaced: tabs are expanded, line
    breaks become spaces, and blanks at a line break are dropped.) *)
Theorem wrap_keeps_visible_characters :
  forall (U : UnicodeDB) (text : str) (w : Z),
    (0 < w)%Z ->
    exists lines,
      wrap text w = Ok lines
      /\ visible (concat lines) = visible text.
Proof.
  intros U text w Hw.
  destruct (wrap_within_width text w Hw) as (lines & Hwrap & _).
  exists lines. split; [exact Hwrap|].
  apply (wrap_visible text w). exact Hwrap.
Qed.

Lemma wrap_keeps_visible_characters_witness :
  (0 < 6)%Z
  /\ exists lines,
       @wrap ascii_tables (lit "  well-known   facts, unbreakable") 6 = Ok lines
       /\ visible (concat lines) = lit "well-knownfacts,unbreakable".
Proof.
  split; [reflexivity|].
  exact (wrap_keeps_visible_characters ascii_tables
           (lit "  well-known   facts, unbreakable") 6 eq_refl).
Defined.

(** *** No empty line *)

Lemma concat_nonempty (ls : list str) :
  ls <> [] -> Forall (fun l => l <> []) ls -> concat ls <> [].
Proof.
  destruct ls as [|l ls]; [contradiction|].
  intros _ H. inversion H as [|? ? Hl _]; subst.
  cbn [concat]. destruct l; [contradiction|discriminate].
Qed.

Lemma strip_is_empty_false_nonempty (c : str) :
  strip_is_empty c = false -> c <> [].
Proof. intros H ->. discriminate H. Qed.

(** The line that is left when a trailing blank chunk has been dropped is
    not empty, if only the last chunk could be empty before. *)
Lemma kept_line_nonempty (cur : list str) :
  Forall (fun c => c <> []) (removelast cur) ->
  let cur' := match last cur with
              | Some c => if strip_is_empty c then removelast cur else cur
              | None => cur
              end in
  cur' <> [] -> concat cur' <> [].
Proof.
  intros Hfront. destruct (last cur) as [c|] eqn:Hlast; cbv zeta.
  - apply last_Some in Hlast as [front ->].
    rewrite removelast_last in *.
    destruct (strip_is_empty c) eqn:Hc.
    + intros Hne. apply concat_nonempty; assumption.
    + intros _. rewrite concat_snoc.
      apply strip_is_empty_false_nonempty in Hc.
      destruct c; [contradiction|]. intros H.
      apply app_eq_nil in H as [_ H]. discriminate H.
  - apply last_None in Hlast as ->. intros H. contradiction.
Qed.

Lemma wrap_line_nonempty chunks lines width :
  (1 <= width)%Z ->
  Forall (fun c => c <> []) chunks ->
  Forall (fun l => l <> []) lines ->
  Forall (fun c => c <> []) (fst (wrap_line chunks lines width))
  /\ Forall (fun l => l <> []) (snd (wrap_line chunks lines width)).
Proof.
  intros Hw Hchunks Hlines. unfold wrap_line.
  set (chunks1 := match chunks, lines with
                  | top :: below, _ :: _ =>
                      if strip_is_empty top then below else chunks
                  | _, _ => chunks
                  end).
  assert (H1 : Forall (fun c => c <> []) chunks1).
  { subst chunks1. destruct chunks as [|top below]; [constructor|].
    destruct lines; [exact Hchunks|].
    destruct (strip_is_empty top); [|exact Hchunks].
    inversion Hchunks; assumption. }
  clearbody chunks1.
  destruct (fill_line_start chunks1 width ltac:(lia))
    as (moved & rest & -> & Hrun & Hle & Htop).
  rewrite Hrun. cbv beta iota zeta.
  apply Forall_app in H1 as [Hmoved Hrest].
  set (step := match rest with
               | top :: _ =>
                   if (width <? len top)%Z
                   then _handle_long_word rest moved
                          (len (concat moved)) width
                   else (rest, moved)
               | [] => (rest, moved)
               end).
  assert (Hstep : Forall (fun c => c <> []) (fst step)
                  /\ Forall (fun c => c <> []) (removelast (snd step))).
  { subst step. destruct rest as [|top below].
    - split; [constructor|]. cbn [snd].
      clear -Hmoved. induction Hmoved as [|m ms Hm Hms IH]; [constructor|].
      destruct ms; [constructor|]. cbn [removelast] in *.
      constructor; [exact Hm|exact IH].
    - destruct (Z.ltb_spec width (len top)) as [Hlong|Hshort].
      + rewrite handle_long_word_eq by exact Hw.
        destruct (cut_point_bounds top (width - len (concat moved))
                    ltac:(lia)) as [[Hc0 Hc1] _].
        cbn [fst snd]. rewrite removelast_last. split; [|exact Hmoved].
        inversion Hrest as [|? ? _ Hbelow]; subst.
        constructor; [|exact Hbelow].
        intros Hnil. apply (f_equal (@length N)) in Hnil.
        rewrite slice_from_length in Hnil by exact Hc0.
        pose proof (len_nonneg (concat moved)).
        unfold len in *. cbn [length] in Hnil. lia.
      + cbn [fst snd]. split; [exact Hrest|].
        clear -Hmoved. induction Hmoved as [|m ms Hm Hms IH]; [constructor|].
        destruct ms; [constructor|]. cbn [removelast] in *.
        constructor; [exact Hm|exact IH]. }
  destruct step as [chunks2 cur2]. cbn [fst snd] in Hstep.
  destruct Hstep as [H2 Hfront].
  pose proof (kept_line_nonempty cur2 Hfront) as Hkept. cbv zeta in Hkept.
  destruct (match last cur2 with
            | Some c => if strip_is_empty c then removelast cur2 else cur2
            | None => cur2
            end) as [|c3 cur3'] eqn:E3; cbn [fst snd].
  - split; assumption.
  - split; [exact H2|]. apply Forall_app. split; [exact Hlines|].
    constructor; [|constructor]. apply Hkept. discriminate.
Qed.

Lemma wrap_loop_nonempty fuel : forall chunks lines width lines',
  (1 <= width)%Z ->
  Forall (fun c => c <> []) chunks ->
  Forall (fun l => l <> []) lines ->
  wrap_loop fuel chunks lines width = Some lines' ->
  Forall (fun l => l <> []) lines'.
Proof.
  induction fuel as [|fuel IH]; intros chunks lines width lines' Hw Hc Hl.
  - destruct chunks; [|discriminate]. intros [= <-]. exact Hl.
  - destruct chunks as [|top below]; [intros [= <-]; exact Hl|].
    cbn [wrap_loop].
    destruct (wrap_line_nonempty (top :: below) lines width Hw Hc Hl)
      as [Hc' Hl'].
    destruct (wrap_line (top :: below) lines width) as [chunks' lines1].
    apply IH; assumption.
Qed.

(** X5. No line of the wrapper is empty: for a width above zero every
    line it returns has at least one character, so every line drawn for a
    paragraph or a bullet shows some text. *)
Theorem wrap_lines_are_not_empty :
  forall (U : UnicodeDB) (text : str) (w : Z),
    (0 < w)%Z ->
    exists lines,
      wrap text w = Ok lines
      /\ Forall (fun line => (1 <= len line)%Z) lines.
Proof.
  intros U text w Hw.
  destruct (wrap_within_width text w Hw) as (lines & Hwrap & _).
  exists lines. split; [exact Hwrap|].
  unfold wrap, _wrap_chunks in Hwrap.
  destruct (Z.leb_spec w 0); [lia|].
  destruct (wrap_loop _ _ _ _) as [lines'|] eqn:Hrun; [|discriminate].
  injection Hwrap as ->.
  apply wrap_loop_nonempty in Hrun;
    [|lia|apply split_scan_nonempty|constructor].
  eapply Forall_impl; [exact Hrun|]. intros line Hne.
  unfold len. destruct line; [contradiction|]. cbn [length]. lia.
Qed.

Lemma wrap_lines_are_not_empty_witness :
  (0 < 3)%Z
  /\ exists lines,
       @wrap ascii_tables (lit "   a    bcdefg   ") 3 = Ok lines
       /\ Forall (fun line => (1 <= len line)%Z) lines.
Proof.
  split; [reflexivity|].
  exact (wrap_lines_are_not_empty ascii_tables (lit "   a    bcdefg   ") 3
           eq_refl).
Defined.

(** *** A text that fits *)

Lemma expandtabs_plain tabsize text : forall col,
  Forall (fun c => is_ws c = true -> c = SPACE) text ->
  expandtabs_from tabsize col text = text.
Proof.
  induction text as [|c text IH]; intros col H; [reflexivity|].
  inversion H as [|? ? Hc Ht]; subst. cbn [expandtabs_from].
  destruct (N.eqb_spec c 9) as [->|_].
  - specialize (Hc eq_refl). discriminate Hc.
  - rewrite IH by exact Ht. reflexivity.
Qed.

Lemma munge_plain text :
  Forall (fun c => is_ws c = true -> c = SPACE) text ->
  _munge_whitespace text = text.
Proof.
  intros H. unfold _munge_whitespace, expandtabs.
  rewrite expandtabs_plain by exact H. unfold translate_whitespace.
  induction H as [|c text Hc _ IH]; [reflexivity|].
  cbn [map]. rewrite IH. destruct (is_ws c); [|reflexivity].
  rewrite Hc; reflexivity.
Qed.

Lemma fill_line_all chunks width : forall cur_line cur_len,
  (cur_len + len (concat chunks) <= width)%Z ->
  fill_line chunks cur_line cur_len width
  = ([], cur_line ++ chunks, (cur_len + len (concat chunks))%Z).
Proof.
  induction chunks as [|chunk below IH]; intros cur_line cur_len Hfit.
  - cbn [fill_line concat]. rewrite app_nil_r.
    change (len (@nil N)) with 0%Z. rewrite Z.add_0_r. reflexivity.
  - cbn [fill_line concat] in *. rewrite len_app in *.
    pose proof (len_nonneg (concat below)).
    destruct (Z.leb_spec (cur_len + len chunk) width); [|lia].
    rewrite IH by lia. rewrite <- app_assoc, Z.add_assoc. reflexivity.
Qed.

(** Chunks that fit together and do not end with a blank chunk make one
    line. *)
Lemma wrap_chunks_fit chunks front c w :
  chunks = front ++ [c] -> strip_is_empty c = false ->
  (len (concat chunks) <= w)%Z ->
  _wrap_chunks chunks w = Ok [concat chunks].
Proof.
  intros Hshape Hc Hfit.
  assert (Hcne : c <> []) by (apply strip_is_empty_false_nonempty; exact Hc).
  assert (Hw : (1 <= w)%Z).
  { rewrite Hshape, concat_snoc, len_app in Hfit.
    pose proof (len_nonneg (concat front)).
    unfold len in *. destruct c; [contradiction|]. cbn [length] in Hfit. lia. }
  unfold _wrap_chunks. destruct (Z.leb_spec w 0); [lia|].
  destruct chunks as [|top below] eqn:Hchunks;
    [destruct front; discriminate|].
  rewrite <- Hchunks in *. clear Hchunks.
  assert (Hline : wrap_line chunks [] w = ([], [concat chunks])).
  { unfold wrap_line.
    assert (H1 : match chunks, @nil (list N) with
                 | top :: below, _ :: _ =>
                     if strip_is_empty top then below else chunks
                 | _, _ => chunks
                 end = chunks) by (destruct chunks; reflexivity).
    rewrite H1, fill_line_all by lia. cbn [app]. cbv beta iota zeta.
    rewrite Hshape, last_snoc, Hc. destruct (front ++ [c]) eqn:E;
      [destruct front; discriminate|reflexivity]. }
  rewrite Hshape in *. destruct (front ++ [c]) as [|top' below'] eqn:E;
    [destruct front; discriminate|].
  cbn [wrap_loop]. rewrite Hline.
  destruct (chunks_size (top' :: below')); reflexivity.
Qed.

Lemma wrap_fitting_text {U : UnicodeDB} (text : str) (c : N) (w : Z) :
  last text = Some c -> is_space c = false ->
  Forall (fun c => is_ws c = true -> c = SPACE) text ->
  (len text <= w)%Z ->
  wrap text w = Ok [text].
Proof.
  intros Hlast Hc Hplain Hfit. unfold wrap, _split_chunks.
  rewrite munge_plain by exact Hplain.
  pose proof (split_concat text) as Hcat.
  pose proof (split_scan_nonempty text [] [] 0) as Hne. fold (_split text) in Hne.
  destruct (last (_split text)) as [chunk|] eqn:Hl.
  - apply last_Some in Hl as [front Hshape].
    rewrite <- Hcat at 2.
    apply (wrap_chunks_fit _ front chunk); [exact Hshape| |rewrite Hcat; exact Hfit].
    rewrite Hshape in Hne. apply Forall_app in Hne as [_ Hchunk].
    inversion Hchunk as [|? ? Hcne _]; subst.
    destruct (nonempty_snoc chunk Hcne) as (chunk' & x & ->).
    rewrite Hshape, concat_snoc, app_assoc in Hcat.
    rewrite <- Hcat, last_snoc in Hlast.
    injection Hlast as ->.
    unfold strip_is_empty. rewrite forallb_app. cbn [forallb].
    rewrite Hc, andb_false_r. reflexivity.
  - apply last_None in Hl. rewrite Hl in Hcat. cbn [concat] in Hcat.
    rewrite <- Hcat in Hlast. discriminate Hlast.
Qed.

(** X6. A text that fits is returned as it is: when the text has at most
    [w] characters, its only white space is the space character, and its
    last character is not white space, the wrapper returns the text as the
    single line, leading and inner spaces included. *)
Theorem wrap_returns_fitting_text :
  forall (U : UnicodeDB) (text : str) (c : N) (w : Z),
    last text = Some c -> is_space c = false ->
    Forall (fun c => is_ws c = true -> c = SPACE) text ->
    (len text <= w)%Z ->
    wrap text w = Ok [text].
Proof. intros U text c w. apply wrap_fitting_text. Qed.

Lemma wrap_returns_fitting_text_witness :
  last (lit " Drag-and-drop  editing (v2)") = Some 41%N
  /\ is_space 41 = false
  /\ (len (lit " Drag-and-drop  editing (v2)") <= 30)%Z
  /\ @wrap ascii_tables (lit " Drag-and-drop  editing (v2)") 30
     = Ok [lit " Drag-and-drop  editing (v2)"].
Proof.
  split; [reflexivity|]. split; [reflexivity|].
  split; [vm_compute; discriminate|].
  apply (wrap_returns_fitting_text ascii_tables _ 41%N).
  - reflexivity.
  - reflexivity.
  - repeat constructor; intros H; first [reflexivity|discriminate H].
  - vm_compute. discriminate.
Defined.

(** *** A word longer than the width *)

Section LongWord.
Context {U : UnicodeDB}.

Lemma solid_not_ws c : solid c -> is_ws c = false.
Proof.
  intros [Hs _]. destruct (is_ws c) eqn:Hw; [|reflexivity].
  apply is_ws_is_space in Hw. congruence.
Qed.

Lemma solid_not_hyphen c : solid c -> is_hyphen c = false.
Proof. intros [_ Hh]. unfold is_hyphen. apply N.eqb_neq. exact Hh. Qed.

Lemma match_word_tail_solid rest : forall back,
  Forall solid rest -> match_word_tail back rest = length rest.
Proof.
  induction rest as [|c rest IH]; intros back H; [reflexivity|].
  inversion H as [|? ? Hc Hrest]; subst.
  cbn [match_word_tail hyphen_break end_of_word].
  rewrite (solid_not_hyphen c Hc), (solid_not_ws c Hc). cbn [andb].
  unfold emdash_ahead. cbn [run_length].
  rewrite (solid_not_hyphen c Hc). cbn [Nat.leb andb].
  rewrite andb_false_r. rewrite IH by exact Hrest. reflexivity.
Qed.

Lemma split_solid word :
  word <> [] -> Forall solid word -> _split word = [word].
Proof.
  destruct word as [|c rest]; [contradiction|]. intros _ H.
  inversion H as [|? ? Hc Hrest]; subst.
  unfold _split. cbn [split_scan app]. unfold wordsep_match.
  rewrite (solid_not_ws c Hc). unfold match_emdash.
  cbn [behind_word_punct andb].
  rewrite match_word_tail_solid by exact Hrest.
  replace (S (length rest) - 1)%nat with (length rest) by lia.
  rewrite split_scan_to_end by discriminate. reflexivity.
Qed.
End LongWord.

Lemma solid_not_blank (s : str) :
  s <> [] -> Forall solid s -> strip_is_empty s = false.
Proof.
  destruct s as [|c s]; [contradiction|]. intros _ H.
  inversion H as [|? ? [Hc _] _]; subst.
  unfold strip_is_empty. cbn [forallb]. rewrite Hc. reflexivity.
Qed.

Lemma rfind_hyphen_solid (s : str) stop :
  Forall solid s -> rfind_hyphen s stop = (-1)%Z.
Proof.
  intros H. unfold rfind_hyphen.
  destruct (list_find is_hyphen (rev (take (Z.to_nat stop) s)))
    as [[i c]|] eqn:Hfind; [|reflexivity].
  apply list_find_Some in Hfind as (Hi & Hc & _).
  apply list_elem_of_lookup_2, list_elem_of_In, in_rev, list_elem_of_In in Hi.
  apply elem_of_take in Hi as (j & Hj & _).
  apply list_elem_of_lookup_2 in Hj.
  rewrite Forall_forall in H. apply H in Hj.
  rewrite (solid_not_hyphen c Hj) in Hc. contradiction.
Qed.

(** The passes of the outer loop over a single chunk without blank and
    hyphen. *)
Lemma wrap_loop_word (w : Z) : forall f s lines fuel,
  (1 <= w)%Z -> (length s <= f)%nat -> s <> [] -> Forall solid s ->
  (chunks_size [s] < fuel)%nat ->
  wrap_loop fuel [s] lines w = Some (lines ++ chop f (Z.to_nat w) s).
Proof.
  induction f as [|f IH]; intros s lines fuel Hw Hlen Hne Hsolid Hfuel.
  { destruct s; [contradiction|]. cbn [length] in Hlen. lia. }
  destruct fuel as [|fuel]; [lia|].
  pose proof (solid_not_blank s Hne Hsolid) as Hblank.
  cbn [wrap_loop chop]. unfold wrap_line.
  assert (H1 : match [s], lines with
               | top :: below, _ :: _ =>
                   if strip_is_empty top then below else [s]
               | _, _ => [s]
               end = [s]) by (destruct lines; [|rewrite Hblank]; reflexivity).
  rewrite H1. clear H1. cbn [fill_line].
  destruct (Nat.leb_spec (length s) (Z.to_nat w)) as [Hfit|Hlong].
  - destruct (Z.leb_spec (0 + len s) w) as [_|Hno];
      [|unfold len in Hno; lia].
    cbn [fill_line app]. cbv beta iota zeta. cbn [last]. rewrite Hblank.
    cbn [concat]. rewrite app_nil_r.
    destruct s; [contradiction|]. destruct fuel; reflexivity.
  - destruct (Z.leb_spec (0 + len s) w) as [Hyes|_];
      [unfold len in Hyes; lia|].
    cbv beta iota zeta.
    destruct (Z.ltb_spec w (len s)) as [_|Hno]; [|unfold len in Hno; lia].
    rewrite handle_long_word_eq by exact Hw.
    assert (Hcut : cut_point s (w - 0) = w).
    { unfold cut_point. rewrite Z.sub_0_r.
      destruct (Z.ltb_spec w (len s)) as [_|Hno]; [|unfold len in Hno; lia].
      rewrite rfind_hyphen_solid by exact Hsolid. reflexivity. }
    rewrite Hcut. cbn [app last].
    assert (Hto : slice_to s w = take (Z.to_nat w) s).
    { unfold slice_to, slice_index. destruct (Z.ltb_spec w 0); [lia|reflexivity]. }
    assert (Hfrom : slice_from s w = drop (Z.to_nat w) s).
    { unfold slice_from, slice_index. destruct (Z.ltb_spec w 0); [lia|reflexivity]. }
    rewrite Hto, Hfrom.
    assert (Hpiece : strip_is_empty (take (Z.to_nat w) s) = false).
    { apply solid_not_blank.
      - intros Hnil. apply (f_equal (@length N)) in Hnil.
        rewrite length_take in Hnil. cbn [length] in Hnil. lia.
      - apply Forall_take. exact Hsolid. }
    rewrite Hpiece. cbn [concat]. rewrite app_nil_r.
    rewrite (IH (drop (Z.to_nat w) s) (lines ++ [take (Z.to_nat w) s]) fuel).
    + rewrite <- app_assoc. reflexivity.
    + exact Hw.
    + rewrite length_drop. lia.
    + intros Hnil. apply (f_equal (@length N)) in Hnil.
      rewrite length_drop in Hnil. cbn [length] in Hnil. lia.
    + apply Forall_drop. exact Hsolid.
    + rewrite chunks_size_cons in *. rewrite length_drop.
      unfold chunks_size in *. cbn [length concat] in *. lia.
Qed.

Lemma wrap_word {U : UnicodeDB} (word : str) (w : Z) :
  (0 < w)%Z -> Forall solid word ->
  wrap word w = Ok (chop (length word) (Z.to_nat w) word).
Proof.
  intros Hw Hsolid. unfold wrap, _split_chunks.
  rewrite munge_plain.
  2:{ eapply Forall_impl; [exact Hsolid|]. intros c Hc Hws.
      rewrite (solid_not_ws c Hc) in Hws. discriminate Hws. }
  unfold _wrap_chunks. destruct (Z.leb_spec w 0); [lia|].
  destruct word as [|c rest] eqn:E; [reflexivity|]. rewrite <- E in *.
  assert (Hne : word <> []) by (rewrite E; discriminate).
  rewrite split_solid by assumption.
  rewrite (wrap_loop_word w (length word) word []); try assumption; try lia.
  reflexivity.
Qed.

(** X7. A word longer than the width is cut into pieces of the width: for
    a text without white space and hyphen and a width [w] above zero, the
    lines are the successive pieces of [w] characters of the text, the last
    line holding the characters that are left. *)
Theorem wrap_cuts_long_word :
  forall (U : UnicodeDB) (word : str) (w : Z),
    (0 < w)%Z ->
    Forall (fun c => is_space c = false /\ c <> HYPHEN) word ->
    wrap word w = Ok (chop (length word) (Z.to_nat w) word).
Proof. intros U word w. apply wrap_word. Qed.

Lemma wrap_cuts_long_word_witness :
  (0 < 5)%Z
  /\ @wrap ascii_tables (lit "src/utils/x.ts") 5
     = Ok [lit "src/u"; lit "tils/"; lit "x.ts"].
Proof.
  split; [reflexivity|].
  apply (wrap_cuts_long_word ascii_tables (lit "src/utils/x.ts") 5).
  - reflexivity.
  - repeat constructor; discriminate.
Defined.

(** ** The one-page layout: when the content fits *)

Section SummaryFits.
Context {U : UnicodeDB}.
Import Summary.

(** The lines of a run that ends at or above the bottom margin, with no
    negative advance, are all drawn between the margins. *)
Lemma summary_exec_inside steps : forall l l',
  Forall (fun s => (0 <= sstep_advance s)%Z) steps ->
  for_each summary_exec steps l = Ok l' ->
  (BOTTOM <= y l')%Z -> (y l <= TOP)%Z ->
  Forall (drawn_at (fun y0 => (BOTTOM <= y0 <= TOP)%Z)) (commands (builder l)) ->
  (y l' <= y l)%Z
  /\ Forall (drawn_at (fun y0 => (BOTTOM <= y0 <= TOP)%Z))
       (commands (builder l')).
Proof.
  induction steps as [|s steps IH]; intros l l' Hnn Hrun Hlow Htop Hall.
  - injection Hrun as <-. split; [lia|exact Hall].
  - inversion Hnn as [|? ? Hs Hrest]; subst.
    cbn [for_each] in Hrun.
    destruct (summary_exec l s) as [l1|e] eqn:Hstep; [|discriminate].
    cbn [rbind] in Hrun.
    assert (H1 : y l1 = (y l - sstep_advance s)%Z
                 /\ (commands (builder l1) = commands (builder l)
                     \/ exists x t font size,
                          commands (builder l1)
                          = commands (builder l)
                              ++ [show_text font size x (y l) (pdf_escape t)])).
    { destruct s as [checked x t font size advance|pts];
        cbn [summary_exec sstep_advance] in *.
      - destruct (if checked then _ensure_room l BOTTOM else Ok tt);
          [|discriminate].
        cbn [rbind] in Hstep. injection Hstep as <-.
        split; [reflexivity|]. right. exists x, t, font, size. reflexivity.
      - injection Hstep as <-. split; [reflexivity|]. left. reflexivity. }
    destruct H1 as [Hy1 Hcmd].
    assert (Hbelow : forall l2,
               for_each summary_exec steps l1 = Ok l2 -> (y l2 <= y l1)%Z).
    { intros l2 H2. pose proof (summary_exec_run steps l1) as Hr.
      rewrite H2 in Hr.
      assert (0 <= total (map sstep_advance steps))%Z
        by (apply total_nonneg, Forall_map; exact Hrest).
      lia. }
    specialize (Hbelow l' Hrun).
    destruct (IH l1 l' Hrest Hrun Hlow ltac:(lia)) as [Hle Hall'].
    + destruct Hcmd as [->|(x & t & font & size & ->)]; [exact Hall|].
      apply Forall_app. split; [exact Hall|].
      constructor; [|constructor].
      exists font, size, x, (y l), t. split; [reflexivity|]. lia.
    + split; [lia|exact Hall'].
Qed.

(** With no negative advance, a run whose advances leave the cursor at or
    above the bottom margin passes every check. *)
Lemma summary_exec_fits steps : forall l,
  Forall (fun s => (0 <= sstep_advance s)%Z) steps ->
  (BOTTOM <= y l - total (map sstep_advance steps))%Z ->
  exists l', for_each summary_exec steps l = Ok l'.
Proof.
  induction steps as [|s steps IH]; intros l Hnn Hfit.
  - exists l. reflexivity.
  - inversion Hnn as [|? ? Hs Hrest]; subst.
    cbn [map] in Hfit. rewrite total_cons in Hfit.
    assert (0 <= total (map sstep_advance steps))%Z
      by (apply total_nonneg, Forall_map; exact Hrest).
    cbn [for_each].
    destruct s as [checked x t font size advance|pts];
      cbn [summary_exec sstep_advance] in *.
    + assert (Hroom : (if checked then _ensure_room l BOTTOM else Ok tt)
                      = Ok tt).
      { destruct checked; [|reflexivity]. unfold _ensure_room.
        destruct (Z.ltb_spec (y l) BOTTOM); [lia|reflexivity]. }
      rewrite Hroom. cbn [rbind]. apply IH; [exact Hrest|]. cbn [y]. lia.
    + cbn [rbind]. apply IH; [exact Hrest|]. cbn [gap y]. lia.
Qed.

Lemma summary_fits script path space :
  summary_required_space script = Some space ->
  summary_gaps_nonneg script ->
  (space <= TOP - BOTTOM)%Z ->
  exists l pdf,
    for_each perform script (Layout_init PDFBuilder_init) = Ok l
    /\ y l = (TOP - space)%Z
    /\ assemble (builder l) = Ok pdf
    /\ file_layout 7 pdf
    /\ build_summary_pdf_from script path
       = ([Mkdir (parent path); WriteBytes path pdf], Ok tt).
Proof.
  unfold summary_required_space.
  destruct (summary_script_steps script) as [steps|e] eqn:Hs; [|discriminate].
  intros [= <-] Hg Hfit.
  pose proof (summary_script_steps_nonneg script steps Hg Hs) as Hnn.
  destruct (summary_exec_fits steps (Layout_init PDFBuilder_init) Hnn)
    as [l Hrun]; [cbn [Layout_init y]; lia|].
  pose proof (summary_exec_run steps (Layout_init PDFBuilder_init)) as Hy.
  rewrite Hrun in Hy. cbn [Layout_init y] in Hy.
  destruct (summary_assemble (builder l)) as (objects & _ & Hpdf & Hlayout).
  exists l. eexists. unfold build_summary_pdf_from.
  rewrite (summary_run_steps script _ steps Hs), Hrun.
  split; [reflexivity|]. split; [exact Hy|]. split; [exact Hpdf|].
  split; [exact Hlayout|].
  destruct (Z.ltb_spec (y l) BOTTOM); [lia|].
  unfold build. rewrite Hpdf. reflexivity.
Qed.

(** A script that is carried out has its lines and gaps. *)
Lemma summary_steps_of_run script : forall l l',
  for_each perform script l = Ok l' ->
  exists steps, summary_script_steps script = Ok steps.
Proof.
  induction script as [|c rest IH]; intros l l' Hrun.
  - exists []. reflexivity.
  - cbn [for_each] in Hrun.
    destruct (perform l c) as [l1|e] eqn:Hc; [|discriminate].
    cbn [rbind] in Hrun. destruct (IH l1 l' Hrun) as [others Hothers].
    cbn [summary_script_steps]. rewrite Hothers.
    assert (Hfirst : exists first, summary_steps c = Ok first).
    { destruct c as [t|t|t|t w|t w|pts]; cbn [summary_steps perform] in *;
        eauto.
      - unfold paragraph in Hc. destruct (wrap t w); [eauto|discriminate].
      - unfold bullet in Hc. destruct (wrap t w); [eauto|discriminate]. }
    destruct Hfirst as [first ->]. eauto.
Qed.

Lemma summary_success_inside script path :
  summary_gaps_nonneg script ->
  snd (build_summary_pdf_from script path) = Ok tt ->
  exists l,
    for_each perform script (Layout_init PDFBuilder_init) = Ok l
    /\ (BOTTOM <= y l <= TOP)%Z
    /\ Forall (drawn_at (fun y0 => (BOTTOM <= y0 <= TOP)%Z))
         (commands (builder l))
    /\ build_summary_pdf_from script path = build (builder l) path.
Proof.
  intros Hg. unfold build_summary_pdf_from.
  destruct (for_each perform script (Layout_init PDFBuilder_init))
    as [l|e] eqn:Hrun; [|discriminate].
  destruct (Z.ltb_spec (y l) BOTTOM) as [|Hlow]; [discriminate|].
  intros _. exists l. split; [reflexivity|].
  destruct (summary_steps_of_run script _ _ Hrun) as [steps Hs].
  rewrite (summary_run_steps script _ steps Hs) in Hrun.
  pose proof (summary_script_steps_nonneg script steps Hg Hs) as Hnn.
  destruct (summary_exec_inside steps _ l Hnn Hrun Hlow)
    as [Hle Hall]; [cbn; lia|constructor|].
  cbn [Layout_init y] in Hle.
  split; [lia|]. split; [exact Hall|reflexivity].
Qed.
End SummaryFits.

(** X8. The one-page build succeeds exactly when the content fits, where
    the arithmetic of the source is exact: for a script whose gaps are
    whole quarter points, none of them negative, and whose texts can be
    wrapped, required space of at most [TOP - BOTTOM] gives a build that
    leaves the cursor at [TOP] less that space and writes one well-formed
    file of seven objects, and any larger required space gives the
    overflow error with nothing written. *)
Theorem summary_fits_exactly :
  forall (U : UnicodeDB) (script : list Summary.Call) (path : Path) (space : Z),
    summary_required_space script = Some space ->
    summary_gaps_nonneg script ->
    summary_exact script ->
    ((space <= Summary.TOP - Summary.BOTTOM)%Z ->
     exists l pdf,
       for_each Summary.perform script
         (Summary.Layout_init Summary.PDFBuilder_init) = Ok l
       /\ Summary.y l = (Summary.TOP - space)%Z
       /\ Summary.assemble (Summary.builder l) = Ok pdf
       /\ file_layout 7 pdf
       /\ Summary.build_summary_pdf_from script path
          = ([Mkdir (parent path); WriteBytes path pdf], Ok tt))
    /\ ((Summary.TOP - Summary.BOTTOM < space)%Z ->
        Summary.build_summary_pdf_from script path
        = ([], Raise (RuntimeError overflow_message))).
Proof.
  intros U script path space Hspace Hg _. split.
  - intros Hfit. apply summary_fits; assumption.
  - intros Hover. eapply summary_overflow; eassumption.
Qed.

Lemma summary_fits_exactly_witness :
  @summary_required_space ascii_tables
    [Summary.Title (lit "T"); Summary.Gap (pt 672);
     Summary.Paragraph (lit "a b") 102; Summary.Bullet (lit "c") 96]
  = Some (pt 718)
  /\ exists l pdf,
       for_each (@Summary.perform ascii_tables)
         [Summary.Title (lit "T"); Summary.Gap (pt 672);
          Summary.Paragraph (lit "a b") 102; Summary.Bullet (lit "c") 96]
         (Summary.Layout_init Summary.PDFBuilder_init) = Ok l
       /\ Summary.y l = (Summary.TOP - pt 718)%Z
       /\ Summary.assemble (Summary.builder l) = Ok pdf
       /\ file_layout 7 pdf
       /\ @Summary.build_summary_pdf_from ascii_tables
            [Summary.Title (lit "T"); Summary.Gap (pt 672);
             Summary.Paragraph (lit "a b") 102; Summary.Bullet (lit "c") 96]
            ["out"; "summary.pdf"]%string
          = ([Mkdir ["out"%string];
              WriteBytes ["out"; "summary.pdf"]%string pdf], Ok tt).
Proof.
  assert (Hs : @summary_required_space ascii_tables
                 [Summary.Title (lit "T"); Summary.Gap (pt 672);
                  Summary.Paragraph (lit "a b") 102;
                  Summary.Bullet (lit "c") 96]
               = Some (pt 718)) by (vm_compute; reflexivity).
  split; [exact Hs|].
  refine (proj1 (summary_fits_exactly ascii_tables _
                   ["out"; "summary.pdf"]%string _ Hs _ _) _).
  - unfold summary_gaps_nonneg. repeat constructor. vm_compute. discriminate.
  - split; [repeat constructor|]. apply Z.leb_le. vm_compute. reflexivity.
  - vm_compute. discriminate.
Defined.

(** X9. When the one-page build succeeds and no gap of the script is
    negative, the cursor has stayed between the margins and every recorded
    command, headings included, is a line with its baseline at or above the
    bottom margin and at or below the top margin. *)
Theorem summary_lines_inside_page :
  forall (U : UnicodeDB) (script : list Summary.Call) (path : Path),
    summary_gaps_nonneg script ->
    snd (Summary.build_summary_pdf_from script path) = Ok tt ->
    exists l,
      for_each Summary.perform script
        (Summary.Layout_init Summary.PDFBuilder_init) = Ok l
      /\ (Summary.BOTTOM <= Summary.y l <= Summary.TOP)%Z
      /\ Forall (drawn_at (fun y0 =>
                   (Summary.BOTTOM <= y0 <= Summary.TOP)%Z))
           (Summary.commands (Summary.builder l))
      /\ Summary.build_summary_pdf_from script path
         = Summary.build (Summary.builder l) path.
Proof. intros U script path. apply summary_success_inside. Qed.

Lemma summary_lines_inside_page_witness :
  summary_gaps_nonneg [Summary.Gap (pt 704); Summary.SectionHead (lit "S")]
  /\ exists l,
       for_each (@Summary.perform ascii_tables)
         [Summary.Gap (pt 704); Summary.SectionHead (lit "S")]
         (Summary.Layout_init Summary.PDFBuilder_init) = Ok l
       /\ (Summary.BOTTOM <= Summary.y l <= Summary.TOP)%Z
       /\ Forall (drawn_at (fun y0 =>
                    (Summary.BOTTOM <= y0 <= Summary.TOP)%Z))
            (Summary.commands (Summary.builder l))
       /\ @Summary.build_summary_pdf_from ascii_tables
            [Summary.Gap (pt 704); Summary.SectionHead (lit "S")]
            ["s.pdf"%string]
          = Summary.build (Summary.builder l) ["s.pdf"%string].
Proof.
  assert (Hg : summary_gaps_nonneg
                 [Summary.Gap (pt 704); Summary.SectionHead (lit "S")]).
  { unfold summary_gaps_nonneg. repeat constructor. vm_compute. discriminate. }
  split; [exact Hg|].
  apply (summary_lines_inside_page ascii_tables _ ["s.pdf"%string] Hg).
  vm_compute. reflexivity.
Defined.

(** ** The multi-page layout: lines and pages *)

Section WalkPages.
Context {U : UnicodeDB}.
Import Walkthrough.

(** What a step does to the pages. *)
Lemma walk_exec_pages l s l' front page :
  pages (builder l) = front ++ [page] ->
  walk_exec l s = Ok l' ->
  match s with
  | WDraw _ x t font size _ =>
      exists y0,
        pages (builder l')
        = (front ++ [page]) ++ [[show_text font size x y0 (pdf_escape t)]]
        \/ pages (builder l')
           = front ++ [page ++ [show_text font size x y0 (pdf_escape t)]]
  | WSkip _ => pages (builder l') = front ++ [page]
  end.
Proof.
  intros Hp Hexec. destruct s as [required x t font size advance|pts].
  - rewrite (walk_draw_spec l _ _ _ _ _ _ front page Hp) in Hexec.
    destruct (y l - required <? BOTTOM)%Z; injection Hexec as <-;
      cbn [builder pages]; eexists; [left|right]; reflexivity.
  - cbn [walk_exec] in Hexec. injection Hexec as <-. exact Hp.
Qed.

(** A run of steps adds one command for each line drawn, in the order of
    the lines, and keeps every page but the first from being empty. *)
Lemma walk_run_pages steps : forall l l',
  pages (builder l) <> [] ->
  Forall (fun page => page <> []) (tail (pages (builder l))) ->
  for_each walk_exec steps l = Ok l' ->
  pages (builder l') <> []
  /\ Forall (fun page => page <> []) (tail (pages (builder l')))
  /\ continues (pages (builder l)) (pages (builder l'))
  /\ exists new,
       concat (pages (builder l')) = concat (pages (builder l)) ++ new
       /\ Forall2 shows (walk_lines steps) new.
Proof.
  induction steps as [|s steps IH]; intros l l' Hne Htail Hrun.
  - injection Hrun as <-. split; [exact Hne|]. split; [exact Htail|].
    split.
    + destruct (nonempty_snoc _ Hne) as (front & page & Hp).
      exists front, page, [], []. rewrite app_nil_r. split; exact Hp.
    + exists []. rewrite app_nil_r. split; [reflexivity|constructor].
  - cbn [for_each] in Hrun.
    destruct (walk_exec l s) as [l1|e] eqn:Hstep; [|discriminate].
    cbn [rbind] in Hrun.
    destruct (nonempty_snoc _ Hne) as (front & page & Hp).
    pose proof (walk_exec_pages l s l1 front page Hp Hstep) as H1.
    assert (Hone : pages (builder l1) <> []
                   /\ Forall (fun page => page <> [])
                        (tail (pages (builder l1)))
                   /\ continues (pages (builder l)) (pages (builder l1))
                   /\ exists new,
                        concat (pages (builder l1))
                        = concat (pages (builder l)) ++ new
                        /\ Forall2 shows (drawn_line s) new).
    { rewrite Hp in Htail |- *.
      destruct s as [required x t font size advance|pts].
      - destruct H1 as [y0 [-> | ->]].
        + split; [destruct (front ++ [page]); discriminate|]. split.
          * destruct front as [|p0 front']; cbn [app tail] in *.
            -- repeat constructor. discriminate.
            -- apply Forall_app. split; [exact Htail|].
               repeat constructor. discriminate.
          * split.
            -- exists front, page, [], [[show_text font size x y0 (pdf_escape t)]].
               rewrite app_nil_r, <- app_assoc. split; reflexivity.
            -- eexists. rewrite concat_app. split; [reflexivity|].
               cbn [concat drawn_line app]. repeat constructor.
               exists y0. reflexivity.
        + split; [destruct front; discriminate|]. split.
          * destruct front as [|p0 front']; cbn [app tail] in *;
              [constructor|].
            apply Forall_app in Htail as [Hf _].
            apply Forall_app. split; [exact Hf|].
            repeat constructor. destruct page; discriminate.
          * split.
            -- exists front, page, [show_text font size x y0 (pdf_escape t)], [].
               split; reflexivity.
            -- eexists. rewrite !concat_snoc, <- app_assoc.
               split; [reflexivity|].
               cbn [drawn_line]. repeat constructor. exists y0. reflexivity.
      - rewrite H1. split; [destruct front; discriminate|].
        split; [exact Htail|]. split.
        + exists front, page, [], []. rewrite app_nil_r. split; reflexivity.
        + exists []. rewrite app_nil_r. split; [reflexivity|constructor]. }
    destruct Hone as (Hne1 & Htail1 & Hcont1 & new1 & Hcat1 & Hshow1).
    destruct (IH l1 l' Hne1 Htail1 Hrun)
      as (Hne' & Htail' & Hcont' & new' & Hcat' & Hshow').
    split; [exact Hne'|]. split; [exact Htail'|]. split.
    + destruct Hcont1 as (f1 & p1 & a1 & r1 & E1 & E1').
      destruct Hcont' as (f2 & p2 & a2 & r2 & E2 & E2').
      rewrite E1', E2' in *. rewrite E1. clear E1' E2' E1.
      destruct (nonempty_snoc ((p1 ++ a1) :: r1) ltac:(discriminate))
        as (mid & lastp & Hmid).
      rewrite Hmid, app_assoc in E2.
      apply app_inj_tail in E2 as [<- <-].
      destruct mid as [|m mid'].
      * injection Hmid as <- ->.
        exists f1, p1, (a1 ++ a2), r2.
        rewrite app_nil_r, <- app_assoc. split; reflexivity.
      * injection Hmid as <- ->.
        exists f1, p1, a1, (mid' ++ (lastp ++ a2) :: r2).
        rewrite <- app_assoc. split; reflexivity.
    + exists (new1 ++ new'). rewrite Hcat', Hcat1, <- app_assoc.
      split; [reflexivity|].
      cbn [walk_lines flat_map]. apply Forall2_app; assumption.
Qed.

(** A script that is carried out has its lines and gaps. *)
Lemma walk_steps_of_run script : forall l l',
  for_each perform script l = Ok l' ->
  exists steps, walk_script_steps script = Ok steps.
Proof.
  induction script as [|c rest IH]; intros l l' Hrun.
  - exists []. reflexivity.
  - cbn [for_each] in Hrun.
    destruct (perform l c) as [l1|e] eqn:Hc; [|discriminate].
    cbn [rbind] in Hrun. destruct (IH l1 l' Hrun) as [others Hothers].
    cbn [walk_script_steps]. rewrite Hothers.
    assert (Hfirst : exists first, walk_steps c = Ok first).
    { destruct c as [t|t|t|t|t w|t w|t|pts]; cbn [walk_steps perform] in *;
        eauto.
      - unfold paragraph in Hc. destruct (wrap t w); [eauto|discriminate].
      - unfold bullet in Hc. destruct (wrap t w); [eauto|discriminate]. }
    destruct Hfirst as [first ->]. eauto.
Qed.

Lemma walk_init_pages :
  pages (builder (Layout_init PDFBuilder_init)) <> []
  /\ Forall (fun page : list (list N) => page <> [])
       (tail (pages (builder (Layout_init PDFBuilder_init)))).
Proof. split; [discriminate|constructor]. Qed.

Lemma walk_lines_in_order script :
  walk_widths_positive script ->
  exists steps l,
    walk_script_steps script = Ok steps
    /\ lay_out script = Ok l
    /\ Forall2 shows (walk_lines steps) (concat (pages (builder l))).
Proof.
  intros Hw. destruct (walk_script_steps_total script Hw) as [steps Hs].
  destruct (drawn_lines_above_bottom script Hw) as (l & Hrun & _).
  exists steps, l. split; [exact Hs|]. split; [exact Hrun|].
  unfold lay_out in Hrun. rewrite (walk_run_steps script _ steps Hs) in Hrun.
  destruct walk_init_pages as [Hne Htail].
  destruct (walk_run_pages steps _ l Hne Htail Hrun)
    as (_ & _ & _ & new & Hcat & Hshow).
  rewrite Hcat. exact Hshow.
Qed.

Lemma length_le_concat {A} (ls : list (list A)) :
  Forall (fun l => l <> []) ls -> length ls <= length (concat ls).
Proof.
  induction 1 as [|l ls Hl _ IH]; [reflexivity|].
  cbn [length concat]. rewrite length_app.
  destruct l; [contradiction|]. cbn [length]. lia.
Qed.

Lemma walk_page_count script :
  walk_widths_positive script ->
  exists l,
    lay_out script = Ok l
    /\ Forall (fun page => page <> []) (tail (pages (builder l)))
    /\ length (pages (builder l)) <= 1 + length (concat (pages (builder l)))
    /\ forall space,
         walk_gaps_nonneg script ->
         walk_required_space script = Some space ->
         ((Z.of_nat (length (pages (builder l))) - 1)
            * (TOP - BOTTOM - pt 26) <= space)%Z.
Proof.
  intros Hw. destruct (walk_script_steps_total script Hw) as [steps Hs].
  destruct (drawn_lines_above_bottom script Hw) as (l & Hrun & _).
  exists l. split; [exact Hrun|].
  unfold lay_out in Hrun. rewrite (walk_run_steps script _ steps Hs) in Hrun.
  destruct walk_init_pages as [Hne Htail].
  destruct (walk_run_pages steps _ l Hne Htail Hrun) as (Hne' & Htail' & _).
  split; [exact Htail'|]. split.
  - destruct (pages (builder l)) as [|p ps]; [contradiction|].
    cbn [tail length concat] in *. rewrite length_app.
    pose proof (length_le_concat ps Htail'). lia.
  - intros space Hg Hspace. unfold walk_required_space in Hspace.
    rewrite Hs in Hspace. injection Hspace as <-.
    pose proof (walk_script_steps_regular _ _ Hs) as Hreg.
    pose proof (walk_script_steps_nonneg _ _ Hg Hs) as Hnn.
    destruct (walk_run_inv_down steps _ 0 walk_inv_down_init Hreg Hnn)
      as (l2 & Hrun2 & _ & Hy & _ & _ & Hfloor).
    rewrite Hrun in Hrun2. injection Hrun2 as <-.
    unfold page_floor in Hfloor. lia.
Qed.

Lemma walk_continues before after l l' :
  lay_out before = Ok l ->
  lay_out (before ++ after) = Ok l' ->
  continues (pages (builder l)) (pages (builder l')).
Proof.
  unfold lay_out. intros Hb Hba. rewrite for_each_app, Hb in Hba.
  cbn [rbind] in Hba.
  destruct (walk_steps_of_run before _ _ Hb) as [sb Hsb].
  destruct (walk_steps_of_run after _ _ Hba) as [sa Hsa].
  rewrite (walk_run_steps before _ sb Hsb) in Hb.
  rewrite (walk_run_steps after _ sa Hsa) in Hba.
  destruct walk_init_pages as [Hne Htail].
  destruct (walk_run_pages sb _ l Hne Htail Hb) as (Hne1 & Htail1 & _).
  destruct (walk_run_pages sa l l' Hne1 Htail1 Hba) as (_ & _ & Hcont & _).
  exact Hcont.
Qed.
End WalkPages.

(** X10. Pagination keeps the lines and their order: when every wrapping
    width is above zero, the commands of the pages, read page after page,
    are one for each line that the script draws, in the order of the
    script, and each shows its line's text with the line's font, size and
    indent.  No line is lost, repeated or moved at a page break. *)
Theorem pagination_keeps_lines :
  forall (U : UnicodeDB) (script : list Walkthrough.Call),
    walk_widths_positive script ->
    exists steps l,
      walk_script_steps script = Ok steps
      /\ Walkthrough.lay_out script = Ok l
      /\ Forall2 shows (walk_lines steps)
           (concat (Walkthrough.pages (Walkthrough.builder l))).
Proof. intros U script. apply walk_lines_in_order. Qed.

Lemma pagination_keeps_lines_witness :
  walk_widths_positive
    [Walkthrough.Gap (pt 700); Walkthrough.Paragraph (lit "aa bb cc") 2]
  /\ exists steps l,
       @walk_script_steps ascii_tables
         [Walkthrough.Gap (pt 700); Walkthrough.Paragraph (lit "aa bb cc") 2]
       = Ok steps
       /\ @Walkthrough.lay_out ascii_tables
            [Walkthrough.Gap (pt 700); Walkthrough.Paragraph (lit "aa bb cc") 2]
          = Ok l
       /\ Forall2 shows (walk_lines steps)
            (concat (Walkthrough.pages (Walkthrough.builder l))).
Proof.
  assert (Hw : walk_widths_positive
                 [Walkthrough.Gap (pt 700);
                  Walkthrough.Paragraph (lit "aa bb cc") 2]).
  { unfold walk_widths_positive. repeat constructor. }
  split; [exact Hw|].
  exact (pagination_keeps_lines ascii_tables _ Hw).
Defined.

(** X11. Only the first page can be blank: when every wrapping width is
    above zero, every page after the first holds at least one line, so
    there are at most as many pages as lines plus one; and when no gap is
    negative, each page before the last accounts for at least
    [TOP - BOTTOM - 26] points of the required space. *)
Theorem later_pages_are_not_blank :
  forall (U : UnicodeDB) (script : list Walkthrough.Call),
    walk_widths_positive script ->
    exists l,
      Walkthrough.lay_out script = Ok l
      /\ Forall (fun page => page <> [])
           (tail (Walkthrough.pages (Walkthrough.builder l)))
      /\ length (Walkthrough.pages (Walkthrough.builder l))
         <= 1 + length (concat (Walkthrough.pages (Walkthrough.builder l)))
      /\ forall space,
           walk_gaps_nonneg script ->
           walk_required_space script = Some space ->
           ((Z.of_nat (length (Walkthrough.pages (Walkthrough.builder l))) - 1)
              * (Walkthrough.TOP - Walkthrough.BOTTOM - pt 26) <= space)%Z.
Proof. intros U script. apply walk_page_count. Qed.

Lemma later_pages_are_not_blank_witness :
  walk_widths_positive [Walkthrough.Gap (pt 800); Walkthrough.Title (lit "T")]
  /\ @Walkthrough.lay_out ascii_tables
       [Walkthrough.Gap (pt 800); Walkthrough.Title (lit "T")]
     = Ok {| Walkthrough.builder :=
               {| Walkthrough.pages :=
                    [[]; [lit "BT /F2 19.00 Tf 48.00 760.00 Td (T) Tj ET"]] |};
             Walkthrough.y := pt 736 |}
  /\ exists l,
       @Walkthrough.lay_out ascii_tables
         [Walkthrough.Gap (pt 800); Walkthrough.Title (lit "T")] = Ok l
       /\ Forall (fun page => page <> [])
            (tail (Walkthrough.pages (Walkthrough.builder l)))
       /\ length (Walkthrough.pages (Walkthrough.builder l))
          <= 1 + length (concat (Walkthrough.pages (Walkthrough.builder l)))
       /\ forall space,
            walk_gaps_nonneg
              [Walkthrough.Gap (pt 800); Walkthrough.Title (lit "T")] ->
            @walk_required_space ascii_tables
              [Walkthrough.Gap (pt 800); Walkthrough.Title (lit "T")]
            = Some space ->
            ((Z.of_nat (length (Walkthrough.pages (Walkthrough.builder l))) - 1)
               * (Walkthrough.TOP - Walkthrough.BOTTOM - pt 26) <= space)%Z.
Proof.
  assert (Hw : walk_widths_positive
                 [Walkthrough.Gap (pt 800); Walkthrough.Title (lit "T")]).
  { unfold walk_widths_positive. repeat constructor. }
  split; [exact Hw|]. split; [vm_compute; reflexivity|].
  exact (later_pages_are_not_blank ascii_tables _ Hw).
Defined.

(** X12. What has been laid out is not revised: if the calls of [before]
    succeed and the calls of [before ++ after] succeed, the pages after the
    longer run are the pages after [before] with commands added at the end
    of the last of them and pages added behind it; every earlier page is
    the same, command for command. *)
Theorem closed_pages_are_final :
  forall (U : UnicodeDB) (before after : list Walkthrough.Call) l l',
    Walkthrough.lay_out before = Ok l ->
    Walkthrough.lay_out (before ++ after) = Ok l' ->
    continues (Walkthrough.pages (Walkthrough.builder l))
      (Walkthrough.pages (Walkthrough.builder l')).
Proof. intros U before after l l'. apply walk_continues. Qed.

Lemma closed_pages_are_final_witness :
  exists l l',
    @Walkthrough.lay_out ascii_tables [Walkthrough.Title (lit "T")] = Ok l
    /\ @Walkthrough.lay_out ascii_tables
         ([Walkthrough.Title (lit "T")]
            ++ [Walkthrough.Gap (pt 700); Walkthrough.CodeLine (lit "x")])
       = Ok l'
    /\ continues (Walkthrough.pages (Walkthrough.builder l))
         (Walkthrough.pages (Walkthrough.builder l')).
Proof.
  eexists _, _.
  assert (H1 : @Walkthrough.lay_out ascii_tables [Walkthrough.Title (lit "T")]
               = Ok _) by (vm_compute; reflexivity).
  assert (H2 : @Walkthrough.lay_out ascii_tables
                 ([Walkthrough.Title (lit "T")]
                    ++ [Walkthrough.Gap (pt 700);
                        Walkthrough.CodeLine (lit "x")])
               = Ok _) by (vm_compute; reflexivity).
  split; [exact H1|]. split; [exact H2|].
  exact (closed_pages_are_final ascii_tables _ _ _ _ H1 H2).
Defined.

(** ** Wrapping ASCII text *)

Section AsciiText.
Context {U : UnicodeDB}.
Hypothesis faithful : ascii_faithful U.

Let asc (c : N) : Prop := (c < 128)%N.

Lemma re_word_ascii c : asc c -> @re_word U c = @re_word ascii_tables c.
Proof. intros Hc. unfold re_word. destruct (faithful c Hc) as [-> _]. reflexivity. Qed.

Lemma re_letter_ascii c : asc c -> @re_letter U c = @re_letter ascii_tables c.
Proof.
  intros Hc. unfold re_letter. rewrite (re_word_ascii c Hc).
  destruct (faithful c Hc) as [_ ->]. reflexivity.
Qed.

Lemma re_word_punct_ascii c :
  asc c -> @re_word_punct U c = @re_word_punct ascii_tables c.
Proof. intros Hc. unfold re_word_punct. rewrite (re_word_ascii c Hc). reflexivity. Qed.

Lemma emdash_ahead_ascii rest :
  Forall asc rest -> @emdash_ahead U rest = @emdash_ahead ascii_tables rest.
Proof.
  intros H. unfold emdash_ahead.
  pose proof (Forall_drop asc (run_length is_hyphen rest) rest H) as Hd.
  destruct (drop (run_length is_hyphen rest) rest) as [|c tl]; [reflexivity|].
  inversion Hd; subst. rewrite re_word_ascii by assumption. reflexivity.
Qed.

Lemma behind_word_punct_ascii back :
  Forall asc back ->
  @behind_word_punct U back = @behind_word_punct ascii_tables back.
Proof.
  intros H. destruct back as [|c tl]; [reflexivity|].
  inversion H; subst. cbn. apply re_word_punct_ascii. assumption.
Qed.

Lemma letters_ahead_ascii rest :
  Forall asc rest -> @letters_ahead U rest = @letters_ahead ascii_tables rest.
Proof.
  intros H. destruct rest as [|a [|h [|b tl]]]; cbn [letters_ahead];
    repeat match goal with
           | H : Forall asc (_ :: _) |- _ => inversion H; clear H; subst
           end;
    rewrite ?re_letter_ascii by assumption; reflexivity.
Qed.

Lemma hyphen_break_ascii back rest :
  Forall asc back -> Forall asc rest ->
  @hyphen_break U back rest = @hyphen_break ascii_tables back rest.
Proof.
  intros Hb Hr. destruct rest as [|h rest']; [reflexivity|].
  inversion Hr as [|? ? _ Hr']; subst. cbn [hyphen_break].
  rewrite (letters_ahead_ascii rest' Hr'). f_equal. f_equal.
  destruct back as [|a [|b [|c tl]]];
    repeat match goal with
           | H : Forall asc (_ :: _) |- _ => inversion H; clear H; subst
           end;
    rewrite ?re_letter_ascii by assumption; reflexivity.
Qed.

Lemma match_word_tail_ascii rest : forall back,
  Forall asc back -> Forall asc rest ->
  @match_word_tail U back rest = @match_word_tail ascii_tables back rest.
Proof.
  induction rest as [|c rest IH]; intros back Hb Hr.
  - cbn [match_word_tail]. rewrite hyphen_break_ascii by assumption.
    reflexivity.
  - cbn [match_word_tail].
    rewrite hyphen_break_ascii, behind_word_punct_ascii, emdash_ahead_ascii
      by assumption.
    inversion Hr; subst. rewrite IH; [reflexivity| |assumption].
    constructor; assumption.
Qed.

Lemma wordsep_match_ascii back rest :
  Forall asc back -> Forall asc rest ->
  @wordsep_match U back rest = @wordsep_match ascii_tables back rest.
Proof.
  intros Hb Hr. destruct rest as [|c rest']; [reflexivity|].
  unfold wordsep_match, match_emdash.
  rewrite behind_word_punct_ascii, emdash_ahead_ascii by assumption.
  inversion Hr; subst.
  rewrite match_word_tail_ascii; [reflexivity| |assumption].
  constructor; assumption.
Qed.

Lemma split_scan_ascii rest : forall back cur todo,
  Forall asc back -> Forall asc rest ->
  @split_scan U back rest cur todo = @split_scan ascii_tables back rest cur todo.
Proof.
  induction rest as [|c rest IH]; intros back cur todo Hb Hr; [reflexivity|].
  cbn [split_scan]. inversion Hr; subst.
  assert (Hcb : Forall asc (c :: back)) by (constructor; assumption).
  destruct todo as [|todo].
  - rewrite wordsep_match_ascii by assumption.
    rewrite IH by assumption. reflexivity.
  - apply IH; assumption.
Qed.

Lemma expandtabs_ascii tabsize text : forall col,
  Forall asc text -> Forall asc (expandtabs_from tabsize col text).
Proof.
  induction text as [|c text IH]; intros col H; [constructor|].
  inversion H; subst. cbn [expandtabs_from].
  destruct (c =? 9)%N.
  - destruct (0 <? tabsize)%nat; [|apply IH; assumption].
    apply Forall_app. split; [|apply IH; assumption].
    apply Forall_replicate. reflexivity.
  - constructor; [assumption|apply IH; assumption].
Qed.

Lemma munge_ascii text : Forall asc text -> Forall asc (_munge_whitespace text).
Proof.
  intros H. unfold _munge_whitespace, expandtabs, translate_whitespace.
  apply Forall_map.
  eapply Forall_impl; [apply expandtabs_ascii; exact H|].
  intros c Hc. cbv beta. destruct (is_ws c); [reflexivity|exact Hc].
Qed.

Lemma is_ascii_Forall text : is_ascii text = true -> Forall asc text.
Proof.
  unfold is_ascii. intros H. apply Forall_forall. intros c Hc.
  apply list_elem_of_In in Hc.
  rewrite forallb_forall in H. apply H in Hc. apply N.ltb_lt. exact Hc.
Qed.

(** On ASCII text the wrapper does not depend on the rest of the
    database. *)
Lemma wrap_ascii text w :
  is_ascii text = true -> @wrap U text w = @wrap ascii_tables text w.
Proof.
  intros H. unfold wrap, _split_chunks, _split.
  rewrite split_scan_ascii; [reflexivity|constructor|].
  apply munge_ascii, is_ascii_Forall. exact H.
Qed.

Lemma summary_steps_ascii c :
  summary_wraps_ascii c = true ->
  @summary_steps U c = @summary_steps ascii_tables c.
Proof.
  destruct c as [t|t|t|t w|t w|pts]; cbn [summary_wraps_ascii summary_steps];
    intros H; rewrite ?wrap_ascii by exact H; reflexivity.
Qed.

Lemma summary_script_steps_ascii script :
  forallb summary_wraps_ascii script = true ->
  @summary_script_steps U script = @summary_script_steps ascii_tables script.
Proof.
  induction script as [|c rest IH]; [reflexivity|].
  cbn [forallb summary_script_steps]. intros [Hc Hr]%andb_true_iff.
  rewrite summary_steps_ascii, IH by assumption. reflexivity.
Qed.

Lemma walk_steps_ascii c :
  walk_wraps_ascii c = true ->
  @walk_steps U c = @walk_steps ascii_tables c.
Proof.
  destruct c as [t|t|t|t|t w|t w|t|pts]; cbn [walk_wraps_ascii walk_steps];
    intros H; rewrite ?wrap_ascii by exact H; reflexivity.
Qed.

Lemma walk_script_steps_ascii script :
  forallb walk_wraps_ascii script = true ->
  @walk_script_steps U script = @walk_script_steps ascii_tables script.
Proof.
  induction script as [|c rest IH]; [reflexivity|].
  cbn [forallb walk_script_steps]. intros [Hc Hr]%andb_true_iff.
  rewrite walk_steps_ascii, IH by assumption. reflexivity.
Qed.
End AsciiText.

Lemma ascii_tables_faithful : ascii_faithful ascii_tables.
Proof. intros c _. split; reflexivity. Qed.

(** ** The summary of the repository *)

Lemma summary_calls_space (U : UnicodeDB) today :
  ascii_faithful U ->
  @summary_required_space U (Summary.summary_calls today) = Some (pt 460).
Proof.
  intros HU. unfold summary_required_space.
  rewrite (summary_script_steps_ascii HU) by (vm_compute; reflexivity).
  vm_compute. reflexivity.
Qed.

Lemma summary_calls_gaps today :
  summary_gaps_nonneg (Summary.summary_calls today).
Proof.
  unfold summary_gaps_nonneg, Summary.summary_calls.
  repeat constructor; vm_compute; discriminate.
Qed.

(** X13. [build_summary_pdf] never overflows: whatever text the date has,
    and for every character database that classifies ASCII as Python does,
    the calls of the function are all carried out, the cursor ends at 300
    points, above the bottom margin of 42, and the function makes the
    parent directory and writes one well-formed file of seven objects to
    the given path. *)
Theorem summary_document_always_fits :
  forall (U : UnicodeDB) (today : str) (path : Path),
    ascii_faithful U ->
    exists l pdf,
      for_each Summary.perform (Summary.summary_calls today)
        (Summary.Layout_init Summary.PDFBuilder_init) = Ok l
      /\ Summary.y l = pt 300
      /\ Summary.assemble (Summary.builder l) = Ok pdf
      /\ file_layout 7 pdf
      /\ Summary.build_summary_pdf today path
         = ([Mkdir (parent path); WriteBytes path pdf], Ok tt).
Proof.
  intros U today path HU.
  destruct (summary_fits (Summary.summary_calls today) path (pt 460)
              (summary_calls_space U today HU) (summary_calls_gaps today))
    as (l & pdf & Hrun & Hy & Hpdf & Hlayout & Hbuild);
    [vm_compute; discriminate|].
  exists l, pdf. split; [exact Hrun|]. split; [rewrite Hy; reflexivity|].
  split; [exact Hpdf|]. split; [exact Hlayout|exact Hbuild].
Qed.

Lemma summary_document_always_fits_witness :
  ascii_faithful ascii_tables
  /\ exists l pdf,
       for_each (@Summary.perform ascii_tables)
         (Summary.summary_calls (lit "2026-02-14"))
         (Summary.Layout_init Summary.PDFBuilder_init) = Ok l
       /\ Summary.y l = pt 300
       /\ Summary.assemble (Summary.builder l) = Ok pdf
       /\ file_layout 7 pdf
       /\ @Summary.build_summary_pdf ascii_tables (lit "2026-02-14")
            ["output"; "pdf"; "productivity-app-summary.pdf"]%string
          = ([Mkdir ["output"; "pdf"]%string;
              WriteBytes ["output"; "pdf"; "productivity-app-summary.pdf"]%string
                pdf], Ok tt).
Proof.
  split; [exact ascii_tables_faithful|].
  exact (summary_document_always_fits ascii_tables (lit "2026-02-14")
           ["output"; "pdf"; "productivity-app-summary.pdf"]%string
           ascii_tables_faithful).
Defined.

(** ** [git_head] and the walkthrough of the repository *)

Lemma lstrip_spec s :
  exists blank,
    s = blank ++ lstrip s
    /\ strip_is_empty blank = true
    /\ match lstrip s with
       | c :: _ => is_space c = false
       | [] => True
       end.
Proof.
  induction s as [|c s (blank & Hs & Hb & Hhead)].
  - exists []. repeat split.
  - cbn [lstrip]. destruct (is_space c) eqn:Hc.
    + exists (c :: blank). cbn [app]. rewrite <- Hs.
      split; [reflexivity|]. split; [|exact Hhead].
      unfold strip_is_empty in *. cbn [forallb]. rewrite Hc, Hb. reflexivity.
    + exists []. repeat split. exact Hc.
Qed.

Lemma lstrip_fixed s :
  match s with c :: _ => is_space c = false | [] => True end ->
  lstrip s = s.
Proof. destruct s as [|c s]; [reflexivity|]. cbn [lstrip]. intros ->. reflexivity. Qed.

Lemma strip_is_empty_rev s : strip_is_empty (rev s) = strip_is_empty s.
Proof.
  unfold strip_is_empty. induction s as [|c s IH]; [reflexivity|].
  cbn [rev forallb]. rewrite forallb_app, IH. cbn [forallb].
  rewrite andb_true_r. apply andb_comm.
Qed.

(** [strip] cuts a blank part off each end, and what is left neither
    starts nor ends with white space. *)
Lemma strip_spec s :
  exists left right,
    s = left ++ strip s ++ right
    /\ strip_is_empty left = true /\ strip_is_empty right = true
    /\ match strip s with
       | c :: _ => is_space c = false
       | [] => True
       end
    /\ match last (strip s) with
       | Some c => is_space c = false
       | None => True
       end.
Proof.
  unfold strip.
  destruct (lstrip_spec s) as (left & Hs & Hleft & Hhead).
  destruct (lstrip_spec (rev (lstrip s))) as (right & Hr & Hright & Hlast).
  set (core := lstrip (rev (lstrip s))) in *.
  exists left, (rev right).
  assert (Hmid : lstrip s = rev core ++ rev right).
  { rewrite <- rev_app_distr, <- Hr, rev_involutive. reflexivity. }
  split; [rewrite <- Hmid; exact Hs|].
  split; [exact Hleft|]. split; [rewrite strip_is_empty_rev; exact Hright|].
  split.
  - destruct (rev core) as [|c tl] eqn:Hc; [exact I|].
    rewrite Hmid in Hhead. exact Hhead.
  - destruct core as [|c tl]; [exact I|].
    cbn [rev]. rewrite last_snoc. exact Hlast.
Qed.

Lemma strip_fixed s :
  match s with c :: _ => is_space c = false | [] => True end ->
  match last s with Some c => is_space c = false | None => True end ->
  strip s = s.
Proof.
  intros Hhead Hlast. unfold strip. rewrite (lstrip_fixed s Hhead).
  rewrite lstrip_fixed; [apply rev_involutive|].
  destruct (nil_or_length_pos s) as [->|Hpos]; [exact I|].
  destruct (nonempty_snoc s) as (front & c & ->);
    [intros ->; cbn in Hpos; lia|].
  rewrite last_snoc in Hlast. rewrite rev_app_distr. exact Hlast.
Qed.

Lemma git_head_trimmed run :
  strip (git_head run) = git_head run
  /\ match run with
     | Completed stdout =>
         exists left right,
           stdout = left ++ git_head run ++ right
           /\ strip_is_empty left = true /\ strip_is_empty right = true
     | Failed => git_head run = lit "unknown"
     end.
Proof.
  destruct run as [stdout|]; cbn [git_head]; [|split; reflexivity].
  destruct (strip_spec stdout) as (left & right & Hs & Hl & Hr & Hhead & Hlast).
  split; [apply strip_fixed; assumption|].
  exists left, right. split; [exact Hs|]. split; assumption.
Qed.

(** X14. [git_head] never raises: when the git command fails in any way
    the result is the text [unknown], and otherwise it is the standard
    output of the command with the white space at its two ends cut off (the
    line feed that git prints after the hash, for one).  The result
    neither starts nor ends with white space: stripping it again changes
    nothing. *)
Theorem git_head_is_trimmed_or_unknown :
  forall run : RunOutcome,
    strip (git_head run) = git_head run
    /\ match run with
       | Completed stdout =>
           exists left right,
             stdout = left ++ git_head run ++ right
             /\ strip_is_empty left = true /\ strip_is_empty right = true
       | Failed => git_head run = lit "unknown"
       end.
Proof. exact git_head_trimmed. Qed.

Lemma walkthrough_calls_steps (U : UnicodeDB) head generated_at :
  ascii_faithful U ->
  @walk_script_steps U (Walkthrough.walkthrough_calls head generated_at)
  = @walk_script_steps ascii_tables
      (Walkthrough.walkthrough_calls head generated_at).
Proof.
  intros HU. apply (walk_script_steps_ascii HU). vm_compute. reflexivity.
Qed.

Lemma walkthrough_calls_widths head generated_at :
  walk_widths_positive (Walkthrough.walkthrough_calls head generated_at).
Proof.
  unfold walk_widths_positive, Walkthrough.walkthrough_calls.
  repeat constructor.
Qed.

Lemma walkthrough_calls_gaps head generated_at :
  walk_gaps_nonneg (Walkthrough.walkthrough_calls head generated_at).
Proof.
  unfold walk_gaps_nonneg, Walkthrough.walkthrough_calls.
  repeat constructor; vm_compute; discriminate.
Qed.

Lemma walkthrough_calls_run (U : UnicodeDB) head generated_at :
  ascii_faithful U ->
  exists l,
    @Walkthrough.lay_out U (Walkthrough.walkthrough_calls head generated_at)
    = Ok l
    /\ length (Walkthrough.pages (Walkthrough.builder l)) = 3
    /\ Walkthrough.y l = pt 154.
Proof.
  intros HU.
  destruct (walk_script_steps_total
              (Walkthrough.walkthrough_calls head generated_at)
              (walkthrough_calls_widths head generated_at)) as [steps Hs].
  unfold Walkthrough.lay_out.
  rewrite (walk_run_steps _ _ steps Hs).
  rewrite (walkthrough_calls_steps U head generated_at HU) in Hs.
  vm_compute in Hs. injection Hs as <-.
  eexists. split; [vm_compute; reflexivity|].
  split; reflexivity.
Qed.

(** X15. [write_walkthrough] always makes three pages: whatever the git
    command does and whatever text the clock gives, and for every
    character database that classifies ASCII as Python does, the calls of
    the function are all carried out, they fill three pages and leave the
    cursor at 154 points on the third, and the function makes the parent
    directory and writes one well-formed file of twelve objects to the
    given path. *)
Theorem walkthrough_document_has_three_pages :
  forall (U : UnicodeDB) (run : RunOutcome) (generated_at : str) (path : Path),
    ascii_faithful U ->
    exists l pdf,
      Walkthrough.lay_out
        (Walkthrough.walkthrough_calls (git_head run) generated_at) = Ok l
      /\ length (Walkthrough.pages (Walkthrough.builder l)) = 3
      /\ Walkthrough.y l = pt 154
      /\ Walkthrough.assemble (Walkthrough.builder l) = Ok pdf
      /\ file_layout 12 pdf
      /\ Walkthrough.write_walkthrough (git_head run) generated_at path
         = ([Mkdir (parent path); WriteBytes path pdf], Ok tt).
Proof.
  intros U run generated_at path HU.
  destruct (walkthrough_calls_run U (git_head run) generated_at HU)
    as (l & Hrun & Hpages & Hy).
  destruct (walk_assemble (Walkthrough.builder l)) as [Hpdf Hlayout].
  cbv zeta in Hpdf, Hlayout. rewrite Hpages in Hpdf, Hlayout.
  exists l. eexists.
  split; [exact Hrun|]. split; [exact Hpages|]. split; [exact Hy|].
  split; [exact Hpdf|]. split; [exact Hlayout|].
  unfold Walkthrough.write_walkthrough, Walkthrough.write_walkthrough_from.
  rewrite Hrun. unfold Walkthrough.build. rewrite Hpdf. reflexivity.
Qed.

Lemma walkthrough_document_has_three_pages_witness :
  ascii_faithful ascii_tables
  /\ exists l pdf,
       @Walkthrough.lay_out ascii_tables
         (Walkthrough.walkthrough_calls
            (git_head (Completed (lit "abc1234" ++ nl)))
            (lit "2026-02-14 10:30")) = Ok l
       /\ length (Walkthrough.pages (Walkthrough.builder l)) = 3
       /\ Walkthrough.y l = pt 154
       /\ Walkthrough.assemble (Walkthrough.builder l) = Ok pdf
       /\ file_layout 12 pdf
       /\ @Walkthrough.write_walkthrough ascii_tables
            (git_head (Completed (lit "abc1234" ++ nl)))
            (lit "2026-02-14 10:30")
            ["output"; "pdf"; "productivity-app-technical-walkthrough.pdf"]%string
          = ([Mkdir ["output"; "pdf"]%string;
              WriteBytes
                ["output"; "pdf";
                 "productivity-app-technical-walkthrough.pdf"]%string pdf],
             Ok tt).
Proof.
  split; [exact ascii_tables_faithful|].
  exact (walkthrough_document_has_three_pages ascii_tables
           (Completed (lit "abc1234" ++ nl)) (lit "2026-02-14 10:30")
           ["output"; "pdf"; "productivity-app-technical-walkthrough.pdf"]%string
           ascii_tables_faithful).
Defined.

(** ** Numbers in the commands *)

Lemma digits_of_uint_digits d : Forall is_digit (digits_of_uint d).
Proof.
  induction d; cbn [digits_of_uint]; constructor;
    solve [unfold is_digit; lia | assumption].
Qed.

Lemma str_of_N_digits n : Forall is_digit (str_of_N n).
Proof. apply digits_of_uint_digits. Qed.

Lemma str_of_N_nonempty n : str_of_N n <> [].
Proof.
  unfold str_of_N. destruct n as [|p]; [discriminate|].
  cbn [N.to_uint].
  pose proof (DecimalPos.Unsigned.to_uint_nonnil p) as H.
  destruct (Pos.to_uint p); [contradiction|discriminate..].
Qed.

Lemma split_at_first sep s rest :
  Forall (fun c => c <> sep) s -> split_at sep (s ++ sep :: rest) = (s, rest).
Proof.
  induction 1 as [|c s Hc _ IH].
  - cbn [app split_at]. rewrite N.eqb_refl. reflexivity.
  - cbn [app split_at]. rewrite IH.
    destruct (N.eqb_spec c sep); [contradiction|reflexivity].
Qed.

Lemma split_at_dot_digits ds rest :
  Forall is_digit ds -> split_at 46 (ds ++ 46%N :: rest) = (ds, rest).
Proof.
  intros H. apply split_at_first.
  eapply Forall_impl; [exact H|]. unfold is_digit. intros c Hc. lia.
Qed.

Lemma read_decimal_str_of_N n : read_decimal (str_of_N n) = N.to_nat n.
Proof.
  unfold read_decimal, str_of_N.
  rewrite uint_of_digits_of_uint, DecimalN.Unsigned.of_to. reflexivity.
Qed.

Lemma read_decimal_padded k n :
  read_decimal (replicate k 48%N ++ str_of_N n) = N.to_nat n.
Proof.
  unfold read_decimal, str_of_N.
  rewrite uint_of_digits_zeros, uint_of_digits_of_uint,
    DecimalN.Unsigned.of_to.
  reflexivity.
Qed.

Lemma str_of_int_nonneg n : (0 <= n)%Z -> str_of_int n = str_of_N (Z.to_N n).
Proof. destruct n; [reflexivity|reflexivity|lia]. Qed.

Lemma read_2f_negative body :
  read_2f (45%N :: body)
  = (- (100 * Z.of_nat (read_decimal (fst (split_at 46 body)))
        + Z.of_nat (read_decimal (snd (split_at 46 body)))))%Z.
Proof.
  unfold read_2f. change (45 =? 45)%N with true. cbv iota.
  destruct (split_at 46 body). reflexivity.
Qed.

Lemma read_2f_positive c body :
  c <> 45%N ->
  read_2f (c :: body)
  = (100 * Z.of_nat (read_decimal (fst (split_at 46 (c :: body))))
     + Z.of_nat (read_decimal (snd (split_at 46 (c :: body)))))%Z.
Proof.
  intros Hc. unfold read_2f.
  destruct (N.eqb_spec c 45) as [|_]; [contradiction|].
  destruct (split_at 46 (c :: body)). reflexivity.
Qed.

Lemma read_2f_fmt_2f v : read_2f (fmt_2f v) = v.
Proof.
  unfold fmt_2f.
  assert (Hq : (0 <= Z.abs v / 100)%Z) by (apply Z.div_pos; lia).
  assert (Hr : (0 <= Z.abs v mod 100 < 100)%Z) by (apply Z.mod_pos_bound; lia).
  rewrite (str_of_int_nonneg _ Hq), (str_of_int_nonneg _ (proj1 Hr)).
  set (q := Z.to_N (Z.abs v / 100)). set (r := Z.to_N (Z.abs v mod 100)).
  set (pad := replicate (2 - length (str_of_N r)) 48%N).
  assert (Hsplit : split_at 46 (str_of_N q ++ [46%N] ++ pad ++ str_of_N r)
                   = (str_of_N q, pad ++ str_of_N r)).
  { cbn [app]. apply split_at_dot_digits, str_of_N_digits. }
  assert (Hvalue : (100 * Z.of_nat (read_decimal (str_of_N q))
                    + Z.of_nat (read_decimal (pad ++ str_of_N r)))%Z
                   = Z.abs v).
  { subst pad. rewrite read_decimal_str_of_N, read_decimal_padded.
    subst q r. rewrite !Z_N_nat, !Z2Nat.id by lia.
    rewrite <- (Z.div_mod (Z.abs v) 100) by lia. reflexivity. }
  destruct (Z.ltb_spec v 0) as [Hneg|Hpos].
  - change ([45%N] ++ ?s) with (45%N :: s).
    rewrite read_2f_negative, Hsplit. cbn [fst snd]. rewrite Hvalue. lia.
  - cbn [app] in Hsplit |- *.
    pose proof (str_of_N_nonempty q) as Hne.
    pose proof (str_of_N_digits q) as Hdig.
    destruct (str_of_N q) as [|c ds] eqn:E; [contradiction|].
    inversion Hdig as [|? ? Hc _]; subst.
    cbn [app] in Hsplit |- *.
    rewrite read_2f_positive by (unfold is_digit in Hc; lia).
    rewrite Hsplit. cbn [fst snd]. rewrite Hvalue. lia.
Qed.

Lemma fmt_2f_no_space v : Forall (fun c => c <> SPACE) (fmt_2f v).
Proof.
  assert (Hd : forall n, Forall (fun c => c <> SPACE) (str_of_int n)).
  { intros n. unfold SPACE.
    destruct n; cbn [str_of_int]; [| |constructor; [discriminate|]];
      (eapply Forall_impl; [apply str_of_N_digits|]);
      unfold is_digit; intros c Hc; lia. }
  unfold fmt_2f. repeat apply Forall_app_2; try apply Hd.
  - destruct (v <? 0)%Z; repeat constructor. discriminate.
  - repeat constructor. discriminate.
  - apply Forall_replicate. discriminate.
Qed.

Lemma read_command_show_text font size x y t :
  Forall (fun c => c <> SPACE) font ->
  forallb (fun c => negb (c =? LPAREN)%N) font = true ->
  read_command (show_text font size x y (pdf_escape t))
  = Some (font, size, x, y, t).
Proof.
  intros Hspace Hparen. unfold read_command, show_text.
  change (lit "BT /") with (lit "BT" ++ [SPACE] ++ [47%N]).
  change (lit " ") with [SPACE].
  change (lit " Tf ") with ([SPACE] ++ lit "Tf" ++ [SPACE]).
  change (lit " Td (") with ([SPACE] ++ lit "Td (").
  rewrite <- !app_assoc. cbn [app].
  rewrite split_at_first by (repeat constructor; discriminate).
  change (47%N :: font ++ ?s) with ((47%N :: font) ++ s).
  rewrite split_at_first by (constructor; [discriminate|exact Hspace]).
  rewrite split_at_first by apply fmt_2f_no_space.
  rewrite split_at_first by (repeat constructor; discriminate).
  rewrite split_at_first by apply fmt_2f_no_space.
  rewrite split_at_first by apply fmt_2f_no_space.
  change (lit "Td (" ++ pdf_escape t ++ lit ") Tj ET")
    with (lit "Td " ++ [LPAREN] ++ pdf_escape t ++ [RPAREN] ++ lit " Tj ET").
  rewrite read_first_literal_skip by reflexivity.
  change ([LPAREN] ++ ?s) with (LPAREN :: s).
  cbn [read_first_literal]. rewrite N.eqb_refl.
  rewrite read_literal_escaped. cbn [app read_literal_from].
  change (RPAREN =? BACKSLASH)%N with false.
  change (RPAREN =? LPAREN)%N with false.
  rewrite N.eqb_refl. cbv iota. rewrite app_nil_r.
  rewrite !read_2f_fmt_2f. reflexivity.
Qed.

(** X16. A recorded command reads back whole: the text that [:.2f] prints
    for a number of hundredths, read as an optional minus sign, an integer
    part and two decimals, is that number again; and taking the words of
    the instruction that [PDFBuilder.text] records one by one gives back
    the font, the size, the two coordinates and the text that were passed
    (for a font name without space and opening parenthesis). *)
Theorem recorded_command_reads_back :
  (forall v : Z, read_2f (fmt_2f v) = v)
  /\ (forall (font : str) (size x y : Z) (t : str),
         Forall (fun c => c <> SPACE) font ->
         forallb (fun c => negb (c =? LPAREN)%N) font = true ->
         read_command (show_text font size x y (pdf_escape t))
         = Some (font, size, x, y, t)).
Proof.
  split; [exact read_2f_fmt_2f|].
  intros font size x y t. apply read_command_show_text.
Qed.

Lemma recorded_command_reads_back_witness :
  Forall (fun c => c <> SPACE) (lit "F4")
  /\ read_command (lit "BT /F4 9.40 Tf 56.00 -12.50 Td (npm run \(dev\)) Tj ET")
     = Some (lit "F4", dec 9 40, pt 56, (- dec 12 50)%Z, lit "npm run (dev)").
Proof.
  assert (Hfont : Forall (fun c => c <> SPACE) (lit "F4"))
    by (repeat constructor; discriminate).
  split; [exact Hfont|].
  exact (proj2 recorded_command_reads_back (lit "F4") (dec 9 40) (pt 56)
           (- dec 12 50)%Z (lit "npm run (dev)") Hfont eq_refl).
Defined.

(** ** The content streams in the file *)








(** ** The width of the cross-reference entries *)

Lemma digits_of_uint_length d : length (digits_of_uint d) = nb_digits d.
Proof. induction d; cbn [digits_of_uint nb_digits length]; congruence. Qed.

Lemma of_uint_acc_lower d : forall acc,
  (N.pos acc * 10 ^ N.of_nat (nb_digits d) <= N.pos (Pos.of_uint_acc d acc))%N.
Proof.
  induction d; intros acc; cbn [Pos.of_uint_acc nb_digits];
    [rewrite N.pow_0_r; lia|..];
    (etransitivity; [|apply IHd]);
    rewrite Nat2N.inj_succ, N.pow_succ_r';
    set (e := (10 ^ N.of_nat (nb_digits d))%N); nia.
Qed.

Lemma unorm_fixed_head d :
  unorm d = d -> d <> zero ->
  match d with D0 _ => False | _ => True end.
Proof.
  destruct d; try (intros; exact I).
  unfold unorm. cbn [nzhead]. intros H Hz.
  pose proof (nb_digits_nzhead d) as Hle.
  destruct (nzhead d) eqn:E.
  - injection H as <-. apply Hz. reflexivity.
  - rewrite H in Hle. cbn [nb_digits] in Hle. lia.
  - discriminate H.
  - discriminate H.
  - discriminate H.
  - discriminate H.
  - discriminate H.
  - discriminate H.
  - discriminate H.
  - discriminate H.
  - discriminate H.
Qed.

Lemma pos_digits_bound p k :
  (N.pos p < 10 ^ N.of_nat k)%N -> nb_digits (Pos.to_uint p) <= k.
Proof.
  intros Hlt.
  pose proof (DecimalPos.Unsigned.of_to p) as Hof.
  pose proof (DecimalPos.Unsigned.to_of (Pos.to_uint p)) as Hto.
  rewrite Hof in Hto. cbn [N.to_uint] in Hto. symmetry in Hto.
  pose proof (unorm_fixed_head _ Hto (DecimalPos.Unsigned.to_uint_nonzero p))
    as Hhead.
  assert (Hbound : forall l acc,
             N.pos (Pos.of_uint_acc l acc) = N.pos p -> nb_digits l < k).
  { intros l acc Hv. pose proof (of_uint_acc_lower l acc) as Hlow.
    rewrite Hv in Hlow.
    assert (Hpow : (10 ^ N.of_nat (nb_digits l) < 10 ^ N.of_nat k)%N).
    { eapply N.le_lt_trans; [|exact Hlt].
      eapply N.le_trans; [|exact Hlow].
      set (e := (10 ^ N.of_nat (nb_digits l))%N). nia. }
    apply N.pow_lt_mono_r_iff in Hpow; lia. }
  destruct (Pos.to_uint p) as [|l|l|l|l|l|l|l|l|l|l] eqn:E;
    cbn [nb_digits]; [lia|contradiction|..];
    cbn [Pos.of_uint] in Hof; apply Hbound in Hof; lia.
Qed.

Lemma str_of_nat_length n :
  (Z.of_nat n < 10 ^ 10)%Z -> length (str_of_nat n) <= 10.
Proof.
  intros Hlt. unfold str_of_nat, str_of_N. rewrite digits_of_uint_length.
  destruct (N.of_nat n) as [|p] eqn:E; [cbn; lia|].
  cbn [N.to_uint]. apply pos_digits_bound.
  change (10 ^ N.of_nat 10)%N with (Z.to_N (10 ^ 10)). lia.
Qed.

Lemma fmt_010d_length n :
  (Z.of_nat n < 10 ^ 10)%Z -> length (fmt_010d n) = 10.
Proof.
  intros Hlt. unfold fmt_010d. rewrite length_app, length_replicate.
  pose proof (str_of_nat_length n Hlt). lia.
Qed.

Lemma xref_entry_length off :
  (Z.of_nat off < 10 ^ 10)%Z -> length (xref_entry off) = 20.
Proof.
  intros Hlt. unfold xref_entry, raw.
  rewrite length_map, length_app, fmt_010d_length by exact Hlt. reflexivity.
Qed.

(** Entry number [k] of a run of entries starts [20 * k] bytes into it. *)
Lemma xref_entries_at offsets : forall k off rest,
  Forall (fun off => (Z.of_nat off < 10 ^ 10)%Z) offsets ->
  offsets !! k = Some off ->
  take 20 (drop (20 * k) (concat (map xref_entry offsets) ++ rest))
  = xref_entry off.
Proof.
  induction offsets as [|o offsets IH]; intros k off rest Hall Hk;
    [discriminate|].
  inversion Hall as [|? ? Ho Hrest]; subst.
  cbn [map concat]. rewrite <- app_assoc.
  destruct k as [|k].
  - injection Hk as ->. rewrite Nat.mul_0_r, drop_0.
    rewrite take_app_length' by (symmetry; apply xref_entry_length; exact Ho).
    reflexivity.
  - cbn [lookup] in Hk.
    replace (20 * S k) with (length (xref_entry o) + 20 * k)
      by (rewrite xref_entry_length by exact Ho; lia).
    rewrite drop_app_add'; [|reflexivity].
    apply IH; assumption.
Qed.

Lemma offsets_from_bound objects : forall start off,
  off ∈ offsets_from start objects ->
  off <= start + length (concat objects).
Proof.
  induction objects as [|obj rest IH]; intros start off Hin.
  - cbn in Hin. apply elem_of_nil in Hin. contradiction.
  - cbn [offsets_from concat] in *. rewrite length_app.
    apply elem_of_cons in Hin as [->|Hin]; [lia|].
    apply IH in Hin. lia.
Qed.

(** In a file made of a body, the table for [offsets] and a trailer, the
    entry of object [k + 1] starts [20 * (k + 1)] bytes after the head of
    the table. *)
Lemma xref_entry_in_file (body tr : list Byte.byte) offsets k off :
  Forall (fun off => (Z.of_nat off < 10 ^ 10)%Z) offsets ->
  offsets !! k = Some off ->
  take 20
    (drop (length body
           + length (raw (lit "xref" ++ nl ++ lit "0 "
                            ++ str_of_nat (S (length offsets)) ++ nl))
           + 20 * (k + 1))
       (body ++ xref_table offsets ++ tr))
  = xref_entry off.
Proof.
  intros Hall Hk. unfold xref_table.
  set (head := raw (lit "xref" ++ nl ++ lit "0 "
                      ++ str_of_nat (S (length offsets)) ++ nl)).
  rewrite <- !app_assoc.
  rewrite <- Nat.add_assoc, drop_app_add' by reflexivity.
  rewrite drop_app_add' by reflexivity.
  replace (20 * (k + 1)) with (length free_entry + 20 * k)
    by (change (length free_entry) with 20; lia).
  rewrite drop_app_add' by reflexivity.
  apply xref_entries_at; assumption.
Qed.

Lemma offsets_in_file (header : list Byte.byte) objects rest :
  (Z.of_nat (length ((header ++ concat objects) ++ rest)) < 10 ^ 10)%Z ->
  Forall (fun off => (Z.of_nat off < 10 ^ 10)%Z)
    (offsets_from (length header) objects).
Proof.
  intros Hsize. apply Forall_forall. intros off Hin.
  apply offsets_from_bound in Hin.
  rewrite !length_app in Hsize. lia.
Qed.

(** A file made of a header, objects, their table and the trailer: every
    object is where its entry says, and every entry is where its number
    says. *)
Lemma entries_and_objects n (header : list Byte.byte) objects :
  length objects = n ->
  (forall k obj, objects !! k = Some obj -> object_token (S k) `prefix_of` obj) ->
  let body := header ++ concat objects in
  let offsets := offsets_from (length header) objects in
  let pdf := body ++ xref_table offsets ++ trailer (n + 1) (length body) in
  length offsets = n
  /\ ((Z.of_nat (length pdf) < 10 ^ 10)%Z ->
      forall k off,
        offsets !! k = Some off ->
        object_token (S k) `prefix_of` drop off pdf
        /\ take 20
             (drop (length body
                    + length (raw (lit "xref" ++ nl ++ lit "0 "
                                     ++ str_of_nat (S n) ++ nl))
                    + 20 * (k + 1)) pdf)
           = xref_entry off).
Proof.
  intros Hn Htok body offsets pdf.
  assert (Hlen : length offsets = n)
    by (subst offsets; rewrite offsets_from_length; exact Hn).
  split; [exact Hlen|]. intros Hsize k off Hk.
  assert (Hall : Forall (fun off => (Z.of_nat off < 10 ^ 10)%Z) offsets).
  { apply (offsets_in_file header objects
             (xref_table offsets ++ trailer (n + 1) (length body))).
    subst pdf body. rewrite <- app_assoc in Hsize |- *. exact Hsize. }
  split.
  - destruct (offsets_layout n header objects Hn Htok)
      as (body' & offs' & _ & _ & _).
    assert (Hlt : k < length objects)
      by (rewrite Hn, <- Hlen; eapply lookup_lt_Some; exact Hk).
    destruct (lookup_lt_is_Some_2 objects k Hlt) as [obj Hobj].
    destruct (offsets_from_lookup header objects
                (xref_table offsets ++ trailer (n + 1) (length body))
                k obj Hobj) as (off' & Hoff' & Hpre).
    fold offsets in Hoff'. rewrite Hk in Hoff'. injection Hoff' as <-.
    subst pdf body. rewrite <- app_assoc.
    transitivity obj; [apply (Htok k obj Hobj)|exact Hpre].
  - pose proof (xref_entry_in_file body (trailer (n + 1) (length body))
                  offsets k off Hall Hk) as Hentry.
    rewrite Hlen in Hentry. exact Hentry.
Qed.

(** X18. The cross-reference table can be read by position: in a file of
    less than [10^10] bytes every entry has exactly 20 bytes, so in the
    file of either builder the entry of object [k] starts [20 * k] bytes
    after the head of the table (which starts at the offset that the
    trailer gives), and the object starts at the offset printed in that
    entry. *)
Theorem xref_entries_have_fixed_width :
  (forall off, (Z.of_nat off < 10 ^ 10)%Z -> length (xref_entry off) = 20)
  /\ length free_entry = 20
  /\ (forall b : Summary.PDFBuilder,
         exists body offsets,
           let pdf := body ++ xref_table offsets ++ trailer 8 (length body) in
           Summary.assemble b = Ok pdf
           /\ length offsets = 7
           /\ ((Z.of_nat (length pdf) < 10 ^ 10)%Z ->
               forall k off,
                 offsets !! k = Some off ->
                 object_token (S k) `prefix_of` drop off pdf
                 /\ take 20 (drop (length body + 9 + 20 * (k + 1)) pdf)
                    = xref_entry off))
  /\ (forall b : Walkthrough.PDFBuilder,
         let n := 6 + 2 * length (Walkthrough.pages b) in
         exists body offsets,
           let pdf := body ++ xref_table offsets
                        ++ trailer (n + 1) (length body) in
           Walkthrough.assemble b = Ok pdf
           /\ length offsets = n
           /\ ((Z.of_nat (length pdf) < 10 ^ 10)%Z ->
               forall k off,
                 offsets !! k = Some off ->
                 object_token (S k) `prefix_of` drop off pdf
                 /\ take 20
                      (drop (length body
                             + length (raw (lit "xref" ++ nl ++ lit "0 "
                                              ++ str_of_nat (S n) ++ nl))
                             + 20 * (k + 1)) pdf)
                    = xref_entry off)).
Proof.
  split; [exact xref_entry_length|]. split; [reflexivity|]. split.
  - intros b.
    destruct (summary_build_objects b) as (objects & Hobj & Hlen & Htok & _).
    destruct (summary_assemble b) as (objects' & Hobj' & Hpdf & _).
    rewrite Hobj in Hobj'. injection Hobj' as <-.
    destruct (entries_and_objects 7 pdf_header objects Hlen Htok)
      as [Hoffs Hentries].
    exists (pdf_header ++ concat objects),
      (offsets_from (length pdf_header) objects).
    cbv zeta. split; [exact Hpdf|]. split; [exact Hoffs|exact Hentries].
  - intros b n.
    destruct (walk_assemble b) as [Hpdf _]. cbv zeta in Hpdf. fold n in Hpdf.
    destruct (entries_and_objects n pdf_header
                (object_table (Walkthrough.pages b))
                (object_table_length _) (object_table_token _))
      as [Hoffs Hentries].
    exists (pdf_header ++ concat (object_table (Walkthrough.pages b))),
      (offsets_from (length pdf_header) (object_table (Walkthrough.pages b))).
    cbv zeta. split; [exact Hpdf|]. split; [exact Hoffs|].
    exact Hentries.
Qed.

Lemma xref_entries_have_fixed_width_witness :
  (Z.of_nat 15 < 10 ^ 10)%Z
  /\ length (xref_entry 15) = 20
  /\ xref_entry 15 = blit "0000000015 00000 n " ++ bnl.
Proof.
  split; [reflexivity|].
  split; [apply (proj1 xref_entries_have_fixed_width); reflexivity|].
  reflexivity.
Defined.

(** ** The page tree *)

Lemma page_kids_numbers pages : forall k,
  page_kids k pages
  = map (fun i => str_of_nat (k + 2 * i) ++ lit " 0 R") (seq 0 (length pages)).
Proof.
  induction pages as [|p rest IH]; intros k; [reflexivity|].
  cbn [page_kids length seq map]. rewrite Nat.mul_0_r, Nat.add_0_r.
  f_equal. rewrite IH, <- seq_shift, map_map.
  apply map_ext. intros i. do 2 f_equal. lia.
Qed.

Lemma page_objects_page n pages : forall idx k i commands,
  pages !! i = Some commands ->
  page_objects n idx k pages !! (2 * i)
  = Some (page_object (k + 2 * i) (S (k + 2 * i))).
Proof.
  induction pages as [|p rest IH]; intros idx k i commands Hi; [discriminate|].
  destruct i as [|i].
  - cbn [page_objects]. rewrite Nat.mul_0_r, Nat.add_0_r. reflexivity.
  - cbn [page_objects].
    replace (2 * S i) with (S (S (2 * i))) by lia.
    change ((?a :: ?b :: ?l) !! S (S ?j)) with (l !! j).
    rewrite (IH (S idx) (S (S k)) i commands Hi).
    do 2 f_equal; lia.
Qed.

Lemma walk_page_tree (b : Walkthrough.PDFBuilder) :
  let n := length (Walkthrough.pages b) in
  exists objects,
    Walkthrough.build_objects b = Ok objects
    /\ (forall k, is_Some (objects !! k) <-> 1 <= k <= 6 + 2 * n)
    /\ objects !! 2
       = Some (raw (lit "2 0 obj << /Type /Pages /Count " ++ str_of_nat n
                      ++ lit " /Kids ["
                      ++ join (lit " ")
                           (map (fun i => str_of_nat (7 + 2 * i) ++ lit " 0 R")
                              (seq 0 n))
                      ++ lit "] >> endobj" ++ nl))
    /\ forall i commands,
         Walkthrough.pages b !! i = Some commands ->
         objects !! (7 + 2 * i) = Some (page_object (7 + 2 * i) (8 + 2 * i))
         /\ objects !! (8 + 2 * i)
            = Some (content_object (8 + 2 * i)
                      (Walkthrough.content_stream (i + 1) n commands)).
Proof.
  intros n. destruct (walk_build_objects b) as (objects & Hbuild & Hlook).
  fold n in Hlook. exists objects. split; [exact Hbuild|]. split; [|split].
  - intros k. rewrite Hlook. destruct (decide (1 <= k <= 6 + 2 * n)) as [Hk|Hk].
    + split; [intros _; exact Hk|]. intros _.
      apply lookup_lt_is_Some_2. rewrite object_table_length. fold n. lia.
    + split; [intros [x Hx]; discriminate|intros; contradiction].
  - rewrite Hlook. destruct (decide _); [|lia].
    unfold object_table. cbn [app lookup Nat.sub]. unfold pages_object.
    rewrite page_kids_numbers. reflexivity.
  - intros i commands Hi. pose proof (lookup_lt_Some _ _ _ Hi) as Hlt.
    fold n in Hlt. split.
    + rewrite Hlook. destruct (decide _); [|lia].
      unfold object_table. rewrite lookup_app_r by (cbn [length]; lia).
      cbn [length]. replace (7 + 2 * i - 1 - 6) with (2 * i) by lia.
      rewrite (page_objects_page _ _ 1 7 i commands Hi).
      do 2 f_equal.
    + rewrite Hlook. destruct (decide _); [|lia].
      unfold object_table. rewrite lookup_app_r by (cbn [length]; lia).
      cbn [length]. replace (8 + 2 * i - 1 - 6) with (2 * i + 1) by lia.
      rewrite (page_objects_content _ _ 1 7 i commands Hi).
      do 2 f_equal; [lia|f_equal; lia].
Qed.

(** X19. The objects of the multi-page file refer to one another
    consistently: for [n] pages the dictionary of [build] holds exactly the
    objects 1 to [6 + 2 * n]; object 2, the page tree, gives [n] as
    [/Count] and lists [7 0 R], [9 0 R], ... as [/Kids]; and for the page
    at position [i] object [7 + 2 * i] is the page object, whose
    [/Contents] names object [8 + 2 * i], and that object holds the stream
    of the page with the footer [Page i+1 of n]. *)
Theorem page_tree_is_consistent :
  forall b : Walkthrough.PDFBuilder,
    let n := length (Walkthrough.pages b) in
    exists objects,
      Walkthrough.build_objects b = Ok objects
      /\ (forall k, is_Some (objects !! k) <-> 1 <= k <= 6 + 2 * n)
      /\ objects !! 2
         = Some (raw (lit "2 0 obj << /Type /Pages /Count " ++ str_of_nat n
                        ++ lit " /Kids ["
                        ++ join (lit " ")
                             (map (fun i => str_of_nat (7 + 2 * i) ++ lit " 0 R")
                                (seq 0 n))
                        ++ lit "] >> endobj" ++ nl))
      /\ forall i commands,
           Walkthrough.pages b !! i = Some commands ->
           objects !! (7 + 2 * i) = Some (page_object (7 + 2 * i) (8 + 2 * i))
           /\ objects !! (8 + 2 * i)
              = Some (content_object (8 + 2 * i)
                        (Walkthrough.content_stream (i + 1) n commands)).
Proof. exact walk_page_tree. Qed.

Lemma page_tree_is_consistent_witness :
  exists objects,
    Walkthrough.build_objects {| Walkthrough.pages := [[]; []] |} = Ok objects
    /\ objects !! 2
       = Some (blit "2 0 obj << /Type /Pages /Count 2 /Kids [7 0 R 9 0 R] >> endobj"
                 ++ bnl)
    /\ objects !! 9
       = Some (blit "9 0 obj << /Type /Page /Parent 2 0 R /MediaBox [0 0 612 792] /Resources << /Font << /F1 3 0 R /F2 4 0 R /F3 5 0 R /F4 6 0 R >> >> /Contents 10 0 R >> endobj"
                 ++ bnl).
Proof.
  destruct (page_tree_is_consistent {| Walkthrough.pages := [[]; []] |})
    as (objects & Hbuild & _ & Htree & Hpages).
  exists objects. split; [exact Hbuild|]. split; [exact Htree|].
  exact (proj1 (Hpages 1 [] eq_refl)).
Defined.

(** ** The footer *)

Lemma digits_clean d :
  forallb (fun c => negb (is_special c)) (digits_of_uint d) = true.
Proof. induction d; cbn; auto. Qed.

Lemma footer_reads_back i n :
  exists cmd,
    Walkthrough.footer i n = [cmd]
    /\ read_command cmd
       = Some (lit "F1", pt 9, Walkthrough.LEFT, pt 26,
               lit "Page " ++ str_of_nat i ++ lit " of " ++ str_of_nat n).
Proof.
  eexists. split; [reflexivity|].
  set (text := lit "Page " ++ str_of_nat i ++ lit " of " ++ str_of_nat n).
  assert (Hclean : pdf_escape text = text).
  { apply pdf_escape_clean. subst text. unfold str_of_nat, str_of_N.
    rewrite !forallb_app, !digits_clean. reflexivity. }
  change (fmt_2f Walkthrough.LEFT) with (lit "48.00").
  assert (Hshape : lit "BT /F1 9 Tf " ++ lit "48.00" ++ lit " 26.00 Td (Page "
                     ++ str_of_nat i ++ lit " of " ++ str_of_nat n
                     ++ lit ") Tj ET"
                   = lit "BT" ++ SPACE :: lit "/F1" ++ SPACE :: lit "9"
                       ++ SPACE :: lit "Tf" ++ SPACE :: lit "48.00"
                       ++ SPACE :: lit "26.00" ++ SPACE :: lit "Td "
                       ++ LPAREN :: pdf_escape text ++ RPAREN :: lit " Tj ET").
  { rewrite Hclean. subst text. rewrite <- !app_assoc. reflexivity. }
  rewrite Hshape. unfold read_command.
  rewrite !split_at_first by (repeat constructor; discriminate).
  rewrite read_first_literal_skip by reflexivity.
  cbn [read_first_literal]. rewrite N.eqb_refl.
  rewrite read_literal_escaped. cbn [read_literal_from].
  change (RPAREN =? BACKSLASH)%N with false.
  change (RPAREN =? LPAREN)%N with false.
  rewrite N.eqb_refl. cbv iota. rewrite app_nil_r. reflexivity.
Qed.

(** X20. The footer is a well-formed instruction below the body: for every
    page number and page count the command that [build] adds reads back as
    font F1, size 9, position (48, 26) and text [Page i of n], the text
    needing no escape; 26 is below the bottom margin of 46, above which
    every line of the body is drawn. *)
Theorem footer_is_below_the_body :
  forall i n : nat,
    (exists cmd,
        Walkthrough.footer i n = [cmd]
        /\ read_command cmd
           = Some (lit "F1", pt 9, Walkthrough.LEFT, pt 26,
                   lit "Page " ++ str_of_nat i ++ lit " of " ++ str_of_nat n))
    /\ (pt 26 < Walkthrough.BOTTOM)%Z.
Proof. intros i n. split; [apply footer_reads_back|reflexivity]. Qed.

(** ** The lines of the one-page layout *)

Section SummaryLines.
Context {U : UnicodeDB}.
Import Summary.


End SummaryLines.



(** ** How a build can fail *)

Lemma wrap_error {U : UnicodeDB} t w e :
  wrap t w = Raise e -> (w <= 0)%Z /\ e = ValueError (invalid_width w).
Proof.
  intros H. destruct (Z.lt_ge_cases 0 w) as [Hpos|Hneg].
  - destruct (wrap_within_width t w Hpos) as (lines & Hok & _).
    rewrite Hok in H. discriminate H.
  - rewrite (wrap_invalid_width t w) in H by lia.
    injection H as <-. split; [lia|reflexivity].
Qed.

Section Failures.
Context {U : UnicodeDB}.

Lemma summary_perform_error l c e :
  Summary.perform l c = Raise e ->
  e = RuntimeError overflow_message \/ summary_width_error [c] e.
Proof.
  intros H. destruct (summary_steps c) as [steps|e'] eqn:Hs.
  - left. rewrite (summary_perform_steps l c steps Hs) in H.
    pose proof (summary_exec_run steps l) as Hrun. rewrite H in Hrun.
    exact Hrun.
  - right. destruct c as [t|t|t|t w|t w|pts];
      cbn [summary_steps Summary.perform] in *; try discriminate.
    + unfold Summary.paragraph in H.
      destruct (wrap t w) as [lines|e2] eqn:Hw; [discriminate|].
      cbn [rbind] in H. injection H as <-.
      destruct (wrap_error t w e2 Hw) as [Hle ->].
      exists t, w. split; [left; left; reflexivity|]. split; [exact Hle|reflexivity].
    + unfold Summary.bullet in H.
      destruct (wrap t w) as [lines|e2] eqn:Hw; [discriminate|].
      cbn [rbind] in H. injection H as <-.
      destruct (wrap_error t w e2 Hw) as [Hle ->].
      exists t, w. split; [right; left; reflexivity|]. split; [exact Hle|reflexivity].
Qed.

Lemma summary_run_error script : forall l e,
  for_each Summary.perform script l = Raise e ->
  e = RuntimeError overflow_message \/ summary_width_error script e.
Proof.
  induction script as [|c rest IH]; intros l e H; [discriminate|].
  cbn [for_each] in H.
  destruct (Summary.perform l c) as [l1|e1] eqn:Hc; cbn [rbind] in H.
  - destruct (IH l1 e H) as [->|(t & w & Hin & Hle & ->)]; [left; reflexivity|].
    right. exists t, w. split; [|split; [exact Hle|reflexivity]].
    destruct Hin; [left|right]; right; assumption.
  - injection H as <-.
    destruct (summary_perform_error l c e1 Hc)
      as [->|(t & w & Hin & Hle & ->)]; [left; reflexivity|].
    right. exists t, w. split; [|split; [exact Hle|reflexivity]].
    destruct Hin as [[<-|[]]|[<-|[]]]; [left|right]; left; reflexivity.
Qed.

Lemma summary_all_or_nothing script path :
  match Summary.build_summary_pdf_from script path with
  | (io, Ok _) => exists pdf, io = [Mkdir (parent path); WriteBytes path pdf]
  | (io, Raise e) =>
      io = []
      /\ (e = RuntimeError overflow_message \/ summary_width_error script e)
  end.
Proof.
  unfold Summary.build_summary_pdf_from.
  destruct (for_each Summary.perform script _) as [l|e] eqn:Hrun.
  - destruct (Summary.y l <? Summary.BOTTOM)%Z.
    + split; [reflexivity|left; reflexivity].
    + destruct (summary_assemble (Summary.builder l)) as (objects & _ & Hpdf & _).
      unfold Summary.build. rewrite Hpdf. eexists. reflexivity.
  - split; [reflexivity|]. eapply summary_run_error. exact Hrun.
Qed.

(** A layout with a page carries out every line and gap. *)
Lemma walk_run_total steps : forall l,
  Walkthrough.pages (Walkthrough.builder l) <> [] ->
  exists l',
    for_each walk_exec steps l = Ok l'
    /\ Walkthrough.pages (Walkthrough.builder l') <> [].
Proof.
  induction steps as [|s steps IH]; intros l Hne.
  - exists l. split; [reflexivity|exact Hne].
  - cbn [for_each].
    assert (H1 : exists l1, walk_exec l s = Ok l1
                            /\ Walkthrough.pages (Walkthrough.builder l1) <> []).
    { destruct s as [required x t font size advance|pts].
      - destruct (nonempty_snoc _ Hne) as (front & page & Hp).
        rewrite (walk_draw_spec l _ _ _ _ _ _ front page Hp).
        destruct (Walkthrough.y l - required <? Walkthrough.BOTTOM)%Z;
          eexists; (split; [reflexivity|]); cbn [Walkthrough.builder Walkthrough.pages].
        + destruct (front ++ [page]); discriminate.
        + destruct front; discriminate.
      - eexists. split; [reflexivity|exact Hne]. }
    destruct H1 as (l1 & -> & Hne1). cbn [rbind]. apply IH. exact Hne1.
Qed.

Lemma walk_perform_cases l c :
  Walkthrough.pages (Walkthrough.builder l) <> [] ->
  match Walkthrough.perform l c with
  | Ok l' => Walkthrough.pages (Walkthrough.builder l') <> []
  | Raise e => walk_width_error [c] e
  end.
Proof.
  intros Hne. destruct (walk_steps c) as [steps|e'] eqn:Hs.
  - rewrite (walk_perform_steps l c steps Hs).
    destruct (walk_run_total steps l Hne) as (l' & -> & Hne'). exact Hne'.
  - destruct c as [t|t|t|t|t w|t w|t|pts];
      cbn [walk_steps Walkthrough.perform] in *; try discriminate.
    + unfold Walkthrough.paragraph.
      destruct (wrap t w) as [lines|e2] eqn:Hw; [discriminate|].
      cbn [rbind].
      destruct (wrap_error t w e2 Hw) as [Hle ->].
      exists t, w. split; [left; left; reflexivity|]. split; [exact Hle|reflexivity].
    + unfold Walkthrough.bullet.
      destruct (wrap t w) as [lines|e2] eqn:Hw; [discriminate|].
      cbn [rbind].
      destruct (wrap_error t w e2 Hw) as [Hle ->].
      exists t, w. split; [right; left; reflexivity|]. split; [exact Hle|reflexivity].
Qed.

Lemma walk_run_cases script : forall l,
  Walkthrough.pages (Walkthrough.builder l) <> [] ->
  match for_each Walkthrough.perform script l with
  | Ok l' => Walkthrough.pages (Walkthrough.builder l') <> []
  | Raise e => walk_width_error script e
  end.
Proof.
  induction script as [|c rest IH]; intros l Hne; [exact Hne|].
  cbn [for_each]. pose proof (walk_perform_cases l c Hne) as Hc.
  destruct (Walkthrough.perform l c) as [l1|e1]; cbn [rbind].
  - specialize (IH l1 Hc).
    destruct (for_each Walkthrough.perform rest l1) as [l'|e]; [exact IH|].
    destruct IH as (t & w & Hin & Hle & ->).
    exists t, w. split; [|split; [exact Hle|reflexivity]].
    destruct Hin; [left|right]; right; assumption.
  - destruct Hc as (t & w & Hin & Hle & ->).
    exists t, w. split; [|split; [exact Hle|reflexivity]].
    destruct Hin as [[<-|[]]|[<-|[]]]; [left|right]; left; reflexivity.
Qed.

Lemma walk_all_or_nothing script path :
  match Walkthrough.write_walkthrough_from script path with
  | (io, Ok _) => exists pdf, io = [Mkdir (parent path); WriteBytes path pdf]
  | (io, Raise e) => io = [] /\ walk_width_error script e
  end.
Proof.
  unfold Walkthrough.write_walkthrough_from, Walkthrough.lay_out.
  pose proof (walk_run_cases script
                (Walkthrough.Layout_init Walkthrough.PDFBuilder_init)
                ltac:(discriminate)) as Hrun.
  destruct (for_each Walkthrough.perform script _) as [l|e].
  - destruct (walk_assemble (Walkthrough.builder l)) as [Hpdf _].
    unfold Walkthrough.build. rewrite Hpdf. eexists. reflexivity.
  - split; [reflexivity|exact Hrun].
Qed.
End Failures.

(** X22. A build writes its file or does nothing, and fails only in the
    ways its calls allow.  For every script, the one-page function either
    makes the directory and writes the file, or does nothing on the file
    system and raises the overflow error or the wrapper's [ValueError] for
    a width of zero or less that the script gives; the multi-page function
    either makes the directory and writes the file, or does nothing and
    raises that [ValueError].  No other exception (an index or an encoding
    error) can come out of either. *)
Theorem builds_are_all_or_nothing :
  forall (U : UnicodeDB) (path : Path),
    (forall script : list Summary.Call,
        match Summary.build_summary_pdf_from script path with
        | (io, Ok _) =>
            exists pdf, io = [Mkdir (parent path); WriteBytes path pdf]
        | (io, Raise e) =>
            io = []
            /\ (e = RuntimeError overflow_message
                \/ summary_width_error script e)
        end)
    /\ (forall script : list Walkthrough.Call,
           match Walkthrough.write_walkthrough_from script path with
           | (io, Ok _) =>
               exists pdf, io = [Mkdir (parent path); WriteBytes path pdf]
           | (io, Raise e) => io = [] /\ walk_width_error script e
           end).
Proof.
  intros U path. split; intros script.
  - apply summary_all_or_nothing.
  - apply walk_all_or_nothing.
Qed.

(** ** The distance between lines *)

Lemma spaced_snoc ys y0 :
  spaced ys -> Forall (fun y1 => (y0 + pt 12 <= y1)%Z) ys ->
  spaced (ys ++ [y0]).
Proof.
  induction ys as [|y1 rest IH]; intros Hs Hall; [cbn; auto|].
  destruct Hs as [Hnext Hrest]. inversion Hall as [|? ? H1 Hall']; subst.
  cbn [app spaced]. split; [|apply IH; assumption].
  destruct rest as [|y2 rest']; [exact H1|exact Hnext].
Qed.

(** Drawing one more line, at [y0], under lines that are all at least 12
    points above [y0]. *)
Lemma lines_apart_snoc cmds ys font size x y0 t cursor :
  heights_of cmds ys -> spaced ys ->
  Forall (fun y1 => (y0 + pt 12 <= y1)%Z) ys ->
  (cursor + pt 12 <= y0)%Z ->
  exists ys',
    heights_of (cmds ++ [show_text font size x y0 (pdf_escape t)]) ys'
    /\ spaced ys'
    /\ Forall (fun y1 => (cursor + pt 12 <= y1)%Z) ys'.
Proof.
  intros Hh Hs Hall Hc. exists (ys ++ [y0]).
  split; [|split].
  - apply Forall2_app; [exact Hh|]. repeat constructor.
    exists font, size, x, t. reflexivity.
  - apply spaced_snoc; assumption.
  - apply Forall_app. split; [|repeat constructor; exact Hc].
    eapply Forall_impl; [exact Hall|]. intros y1 H1. cbv beta in *.
    unfold pt in *. lia.
Qed.

Section LinesApart.
Context {U : UnicodeDB}.

Lemma summary_steps_apart c steps :
  match c with Summary.Gap pts => (0 <= pts)%Z | _ => True end ->
  summary_steps c = Ok steps -> Forall sstep_apart steps.
Proof.
  assert (Hline : forall x f (ls : list (list N)),
             Forall sstep_apart
               (map (fun line => SDraw true x line f (dec 9 50) (pt 12)) ls)).
  { intros x f ls. apply Forall_map, Forall_forall. intros line _.
    cbn. lia. }
  destruct c as [t|t|t|t w|t w|pts]; cbn [summary_steps]; intros Hc.
  1-3: intros [= <-]; repeat constructor; cbn; unfold pt; lia.
  - destruct (wrap t w); [|discriminate]. intros [= <-]. apply Hline.
  - destruct (wrap t w) as [[|first others]|]; [| |discriminate];
      intros [= <-]; [constructor|].
    constructor; [cbn; lia|apply Hline].
  - intros [= <-]. repeat constructor. exact Hc.
Qed.

Lemma summary_script_steps_apart script : forall steps,
  summary_gaps_nonneg script ->
  summary_script_steps script = Ok steps -> Forall sstep_apart steps.
Proof.
  induction script as [|c rest IH]; intros steps Hg.
  - intros [= <-]. constructor.
  - inversion Hg as [|? ? Hc Hrest]; subst. cbn [summary_script_steps].
    destruct (summary_steps c) as [first|e] eqn:Hs; [|discriminate].
    destruct (summary_script_steps rest) as [others|e] eqn:Hr; [|discriminate].
    cbn [rbind]. intros [= <-]. apply Forall_app. split.
    + eapply summary_steps_apart; eauto.
    + apply IH; [exact Hrest|reflexivity].
Qed.

Lemma summary_run_apart steps : forall l l' ys,
  Forall sstep_apart steps ->
  for_each summary_exec steps l = Ok l' ->
  heights_of (Summary.commands (Summary.builder l)) ys -> spaced ys ->
  Forall (fun y1 => (Summary.y l + pt 12 <= y1)%Z) ys ->
  lines_apart (Summary.commands (Summary.builder l')).
Proof.
  induction steps as [|s steps IH]; intros l l' ys Hap Hrun Hh Hs Hall.
  - injection Hrun as <-. exists ys. split; assumption.
  - inversion Hap as [|? ? Hs1 Hrest]; subst. cbn [for_each] in Hrun.
    destruct (summary_exec l s) as [l1|e] eqn:Hstep; [|discriminate].
    cbn [rbind] in Hrun.
    destruct s as [checked x t font size advance|pts];
      cbn [summary_exec sstep_apart] in *.
    + destruct (if checked then Summary._ensure_room l Summary.BOTTOM
                else Ok tt); [|discriminate].
      cbn [rbind] in Hstep. injection Hstep as <-.
      destruct (lines_apart_snoc _ ys font size x (Summary.y l) t
                  (Summary.y l - advance) Hh Hs Hall ltac:(lia))
        as (ys' & Hh' & Hs' & Hall').
      apply (IH _ l' ys' Hrest Hrun Hh' Hs' Hall').
    + injection Hstep as <-.
      apply (IH _ l' ys Hrest Hrun Hh Hs).
      eapply Forall_impl; [exact Hall|]. intros y1 H1.
      cbn [Summary.gap Summary.y]. cbv beta in *. lia.
Qed.

Lemma summary_lines_apart script l :
  summary_gaps_nonneg script ->
  for_each Summary.perform script
    (Summary.Layout_init Summary.PDFBuilder_init) = Ok l ->
  lines_apart (Summary.commands (Summary.builder l)).
Proof.
  intros Hg Hrun.
  destruct (summary_steps_of_run script _ _ Hrun) as [steps Hs].
  rewrite (summary_run_steps script _ steps Hs) in Hrun.
  apply (summary_run_apart steps _ l []
           (summary_script_steps_apart script steps Hg Hs) Hrun);
    constructor.
Qed.

Lemma walk_steps_apart c steps :
  match c with Walkthrough.Gap pts => (0 <= pts)%Z | _ => True end ->
  walk_steps c = Ok steps -> Forall wstep_apart steps.
Proof.
  assert (Hline : forall x f (ls : list (list N)),
             Forall wstep_apart
               (map (fun line => WDraw (pt 12) x line f (pt 10) (pt 12)) ls)).
  { intros x f ls. apply Forall_map, Forall_forall. intros line _.
    cbn. lia. }
  destruct c as [t|t|t|t|t w|t w|t|pts]; cbn [walk_steps]; intros Hc.
  1-4: intros [= <-]; repeat constructor; cbn; unfold pt; lia.
  - destruct (wrap t w); [|discriminate]. intros [= <-]. apply Hline.
  - destruct (wrap t w) as [[|first others]|]; [| |discriminate];
      intros [= <-]; [constructor|].
    constructor; [cbn; lia|apply Hline].
  - intros [= <-]; repeat constructor; cbn; lia.
  - intros [= <-]. repeat constructor. exact Hc.
Qed.

Lemma walk_script_steps_apart script : forall steps,
  walk_gaps_nonneg script ->
  walk_script_steps script = Ok steps -> Forall wstep_apart steps.
Proof.
  induction script as [|c rest IH]; intros steps Hg.
  - intros [= <-]. constructor.
  - inversion Hg as [|? ? Hc Hrest]; subst. cbn [walk_script_steps].
    destruct (walk_steps c) as [first|e] eqn:Hs; [|discriminate].
    destruct (walk_script_steps rest) as [others|e] eqn:Hr; [|discriminate].
    cbn [rbind]. intros [= <-]. apply Forall_app. split.
    + eapply walk_steps_apart; eauto.
    + apply IH; [exact Hrest|reflexivity].
Qed.

Lemma walk_run_apart steps : forall l l' front page ys,
  Forall wstep_apart steps ->
  for_each walk_exec steps l = Ok l' ->
  Walkthrough.pages (Walkthrough.builder l) = front ++ [page] ->
  Forall lines_apart front ->
  heights_of page ys -> spaced ys ->
  Forall (fun y1 => (Walkthrough.y l + pt 12 <= y1)%Z) ys ->
  Forall lines_apart (Walkthrough.pages (Walkthrough.builder l')).
Proof.
  induction steps as [|s steps IH];
    intros l l' front page ys Hap Hrun Hp Hfront Hh Hs Hall.
  - injection Hrun as <-. rewrite Hp. apply Forall_app. split; [exact Hfront|].
    repeat constructor. exists ys. split; assumption.
  - inversion Hap as [|? ? Hs1 Hrest]; subst. cbn [for_each] in Hrun.
    destruct (walk_exec l s) as [l1|e] eqn:Hstep; [|discriminate].
    cbn [rbind] in Hrun.
    destruct s as [required x t font size advance|pts];
      cbn [wstep_apart] in Hs1.
    + rewrite (walk_draw_spec l _ _ _ _ _ _ front page Hp) in Hstep.
      destruct (Walkthrough.y l - required <? Walkthrough.BOTTOM)%Z;
        injection Hstep as <-.
      * destruct (lines_apart_snoc [] [] font size x Walkthrough.TOP t
                    (Walkthrough.TOP - advance)
                    ltac:(constructor) I ltac:(constructor) ltac:(lia))
          as (ys' & Hh' & Hs' & Hall').
        apply (IH _ l' (front ++ [page]) _ ys' Hrest Hrun eq_refl);
          [|exact Hh'|exact Hs'|exact Hall'].
        apply Forall_app. split; [exact Hfront|].
        repeat constructor. exists ys. split; assumption.
      * destruct (lines_apart_snoc page ys font size x (Walkthrough.y l) t
                    (Walkthrough.y l - advance) Hh Hs Hall ltac:(lia))
          as (ys' & Hh' & Hs' & Hall').
        apply (IH _ l' front _ ys' Hrest Hrun eq_refl Hfront Hh' Hs' Hall').
    + cbn [walk_exec] in Hstep. injection Hstep as <-.
      apply (IH _ l' front page ys Hrest Hrun Hp Hfront Hh Hs).
      eapply Forall_impl; [exact Hall|]. intros y1 H1.
      cbn [Walkthrough.gap Walkthrough.y]. cbv beta in *. lia.
Qed.

Lemma walk_lines_apart script :
  walk_widths_positive script -> walk_gaps_nonneg script ->
  exists l,
    Walkthrough.lay_out script = Ok l
    /\ Forall lines_apart (Walkthrough.pages (Walkthrough.builder l)).
Proof.
  intros Hw Hg. destruct (walk_script_steps_total script Hw) as [steps Hs].
  destruct (drawn_lines_above_bottom script Hw) as (l & Hrun & _).
  exists l. split; [exact Hrun|].
  unfold Walkthrough.lay_out in Hrun.
  rewrite (walk_run_steps script _ steps Hs) in Hrun.
  apply (walk_run_apart steps _ l [] [] []
           (walk_script_steps_apart script steps Hg Hs) Hrun eq_refl);
    constructor.
Qed.
End LinesApart.

(** X23. Lines do not run into one another: when no gap of the script is
    negative, the lines of a page are drawn from the top down, each
    baseline at least 12 points (the height of a text line) below the one
    before it, on every page of the multi-page layout and, for gaps that
    are whole quarter points, on the single page of the one-page layout
    (whose unchecked headings can be drawn at any height). *)
Theorem lines_do_not_overlap :
  forall U : UnicodeDB,
    (forall (script : list Summary.Call) (l : Summary.Layout),
        summary_gaps_nonneg script ->
        summary_exact script ->
        for_each Summary.perform script
          (Summary.Layout_init Summary.PDFBuilder_init) = Ok l ->
        lines_apart (Summary.commands (Summary.builder l)))
    /\ (forall script : list Walkthrough.Call,
           walk_widths_positive script -> walk_gaps_nonneg script ->
           exists l,
             Walkthrough.lay_out script = Ok l
             /\ Forall lines_apart
                  (Walkthrough.pages (Walkthrough.builder l))).
Proof.
  intros U. split.
  - intros script l Hg _. apply summary_lines_apart. exact Hg.
  - intros script. apply walk_lines_apart.
Qed.

Lemma lines_do_not_overlap_witness :
  walk_widths_positive
    [Walkthrough.Title (lit "T"); Walkthrough.Gap (pt 4);
     Walkthrough.Bullet (lit "aa bb") 2]
  /\ walk_gaps_nonneg
       [Walkthrough.Title (lit "T"); Walkthrough.Gap (pt 4);
        Walkthrough.Bullet (lit "aa bb") 2]
  /\ (exists l,
        @Walkthrough.lay_out ascii_tables
          [Walkthrough.Title (lit "T"); Walkthrough.Gap (pt 4);
           Walkthrough.Bullet (lit "aa bb") 2] = Ok l
        /\ Forall lines_apart (Walkthrough.pages (Walkthrough.builder l)))
  /\ lines_apart
       [show_text (lit "F2") (pt 18) Summary.LEFT Summary.TOP (lit "T");
        show_text (lit "F2") (dec 11 50) Summary.LEFT (dec 731 75) (lit "S")].
Proof.
  assert (Hsum : lines_apart
                   [show_text (lit "F2") (pt 18) Summary.LEFT Summary.TOP
                      (lit "T");
                    show_text (lit "F2") (dec 11 50) Summary.LEFT (dec 731 75)
                      (lit "S")]).
  { apply (proj1 (lines_do_not_overlap ascii_tables)
             [Summary.Title (lit "T"); Summary.Gap (dec 6 25);
              Summary.SectionHead (lit "S")]
             {| Summary.builder :=
                  {| Summary.commands :=
                       [show_text (lit "F2") (pt 18) Summary.LEFT Summary.TOP
                          (lit "T");
                        show_text (lit "F2") (dec 11 50) Summary.LEFT
                          (dec 731 75) (lit "S")] |};
                Summary.y := dec 717 75 |}).
    - unfold summary_gaps_nonneg. repeat constructor. vm_compute. discriminate.
    - split; [repeat constructor|]. apply Z.leb_le. vm_compute. reflexivity.
    - vm_compute. reflexivity. }
  assert (Hw : walk_widths_positive
                 [Walkthrough.Title (lit "T"); Walkthrough.Gap (pt 4);
                  Walkthrough.Bullet (lit "aa bb") 2]).
  { unfold walk_widths_positive. repeat constructor. }
  assert (Hg : walk_gaps_nonneg
                 [Walkthrough.Title (lit "T"); Walkthrough.Gap (pt 4);
                  Walkthrough.Bullet (lit "aa bb") 2]).
  { unfold walk_gaps_nonneg. repeat constructor. vm_compute. discriminate. }
  split; [exact Hw|]. split; [exact Hg|].
  split; [exact (proj2 (lines_do_not_overlap ascii_tables) _ Hw Hg)|exact Hsum].
Defined.

(** * Python's numbers *)

(** ** Floats that are whole quarters *)

Section Quarters.
Local Open Scope Z_scope.

Lemma digits2_size (p : positive) : digits2_pos p = Pos.size p.
Proof. induction p as [p IH|p IH|]; cbn; rewrite ?IH; reflexivity. Qed.

Lemma iter_xO_spec (p n : positive) :
  Z.pos (Pos.iter xO p n) = (Z.pos p * 2 ^ Z.pos n)%Z.
Proof.
  induction n as [|n IH] using Pos.peano_ind.
  - cbn. lia.
  - rewrite Pos.iter_succ, Pos2Z.inj_xO, IH, Pos2Z.inj_succ, Z.pow_succ_r by lia.
    lia.
Qed.

Lemma digits2_iter_xO (p n : positive) :
  digits2_pos (Pos.iter xO p n) = (digits2_pos p + n)%positive.
Proof.
  induction n as [|n IH] using Pos.peano_ind.
  - cbn. lia.
  - rewrite Pos.iter_succ. cbn [digits2_pos]. rewrite IH. lia.
Qed.

(** [2 ^ (d - 1) <= p < 2 ^ d] for [d] the number of binary digits of [p]. *)
Lemma digits2_bounds (p : positive) :
  (2 ^ (Z.pos (digits2_pos p) - 1) <= Z.pos p < 2 ^ Z.pos (digits2_pos p))%Z.
Proof.
  induction p as [p IH|p IH|].
  - cbn [digits2_pos]. rewrite Pos2Z.inj_succ.
    replace (Z.succ (Z.pos (digits2_pos p)) - 1)%Z
      with (Z.succ (Z.pos (digits2_pos p) - 1))%Z by lia.
    rewrite !Z.pow_succ_r by lia. lia.
  - cbn [digits2_pos]. rewrite Pos2Z.inj_succ.
    replace (Z.succ (Z.pos (digits2_pos p)) - 1)%Z
      with (Z.succ (Z.pos (digits2_pos p) - 1))%Z by lia.
    rewrite !Z.pow_succ_r by lia. lia.
  - cbn. lia.
Qed.

(** Shifting right by [n] a mantissa whose last [n] bits are zero loses
    nothing. *)
Lemma shr_exact (q n : positive) :
  SpecFloat.iter_pos shr_1 n
    {| shr_m := Z.pos (Pos.iter xO q n); shr_r := false; shr_s := false |}
  = {| shr_m := Z.pos q; shr_r := false; shr_s := false |}.
Proof.
  revert q. induction n as [n IH|n IH|]; intros q.
  - cbn [SpecFloat.iter_pos Pos.iter shr_1 orb]. rewrite IH, IH. reflexivity.
  - cbn [SpecFloat.iter_pos Pos.iter]. rewrite IH, IH. reflexivity.
  - reflexivity.
Qed.

Lemma pos_of_shift (P q : positive) (n : positive) :
  Z.pos P = (Z.pos q * 2 ^ Z.pos n)%Z -> P = Pos.iter xO q n.
Proof. intros H. rewrite <- iter_xO_spec in H. congruence. Qed.

(** A mantissa of 53 digits with an exponent in range is the float it
    denotes. *)
Lemma round_canonical (s : bool) (q : positive) (j : Z) :
  Z.pos (digits2_pos q) = 53%Z -> (-1074 <= j <= 971)%Z ->
  binary_round_aux prec emax s (Z.pos q) j loc_Exact = S754_finite s q j.
Proof.
  intros Hd Hj. unfold binary_round_aux, shr_fexp, Zdigits2, fexp, emin, prec, emax.
  rewrite Hd.
  replace (Z.max (53 + j - 53) (3 - 1024 - 53) - j)%Z with 0%Z by lia.
  cbn [shr shr_record_of_loc shr_m loc_of_shr_record round_nearest_even].
  rewrite Hd.
  replace (Z.max (53 + j - 53) (3 - 1024 - 53) - j)%Z with 0%Z by lia.
  cbn [shr shr_record_of_loc shr_m].
  destruct (Z.leb_spec j (1024 - 53)); [reflexivity|lia].
Qed.

(** Rounding returns a value that is a binary64 number as it is: if
    [P * 2 ^ e] is [q * 2 ^ j] for a mantissa [q] of 53 digits and [j] in
    range, the result is the float [(q, j)]. *)
Lemma round_exact (s : bool) (P q : positive) (e j : Z) :
  Z.pos (digits2_pos q) = 53%Z -> (-1074 <= j <= 971)%Z ->
  ((e <= j)%Z /\ Z.pos P = (Z.pos q * 2 ^ (j - e))%Z
   \/ (j <= e)%Z /\ Z.pos q = (Z.pos P * 2 ^ (e - j))%Z) ->
  binary_round prec emax s P e = S754_finite s q j.
Proof.
  intros Hd Hj Hv.
  assert (Hfexp : fexp prec emax (Z.pos (digits2_pos P) + e) = j).
  { unfold fexp, emin, prec, emax.
    destruct Hv as [[Hle HP]|[Hle Hq]].
    - destruct (Z.eq_dec e j) as [->|Hne].
      + rewrite Z.sub_diag in HP. cbn in HP.
        assert (P = q) by lia. subst P. lia.
      + destruct (j - e)%Z as [|n|n] eqn:Hn; try lia.
        apply pos_of_shift in HP. subst P.
        rewrite digits2_iter_xO, Pos2Z.inj_add. lia.
    - destruct (Z.eq_dec e j) as [->|Hne].
      + rewrite Z.sub_diag in Hq. cbn in Hq.
        assert (P = q) by lia. subst P. lia.
      + destruct (e - j)%Z as [|n|n] eqn:Hn; try lia.
        apply pos_of_shift in Hq. subst q.
        rewrite digits2_iter_xO, Pos2Z.inj_add in Hd. lia. }
  unfold binary_round. rewrite Hfexp. unfold shl_align.
  destruct Hv as [[Hle HP]|[Hle Hq]].
  - destruct (j - e)%Z as [|n|n] eqn:Hn; try lia.
    + cbn in HP. assert (P = q) by lia. subst P.
      assert (e = j) by lia. subst e. apply round_canonical; assumption.
    + apply pos_of_shift in HP. subst P.
      unfold binary_round_aux, shr_fexp, Zdigits2.
      rewrite Hfexp, Hn. cbn [shr shr_record_of_loc].
      rewrite shr_exact.
      cbn [shr_m loc_of_shr_record round_nearest_even].
      replace (e + Z.pos n)%Z with j by lia.
      unfold fexp, emin, prec, emax. rewrite Hd.
      replace (Z.max (53 + j - 53) (3 - 1024 - 53) - j)%Z with 0%Z by lia.
      cbn [shr shr_record_of_loc shr_m].
      destruct (Z.leb_spec j (1024 - 53)); [reflexivity|lia].
  - destruct (j - e)%Z as [|n|n] eqn:Hn; try lia.
    + assert (e = j) by lia. subst e. rewrite Z.sub_diag in Hq. cbn in Hq.
      assert (P = q) by lia. subst P. apply round_canonical; assumption.
    + replace (e - j)%Z with (Z.pos n) in Hq by lia.
      apply pos_of_shift in Hq. subst q.
      apply round_canonical; assumption.
Qed.

(** The mantissa and exponent of the float [k / 4], for [k] of at most 53
    digits. *)
Lemma normal_form (k : positive) :
  (Z.pos k < 2 ^ 53)%Z ->
  exists q j,
    Z.pos (digits2_pos q) = 53%Z /\ (-54 <= j <= -2)%Z
    /\ Z.pos q = (Z.pos k * 2 ^ (- 2 - j))%Z.
Proof.
  intros Hk. pose proof (digits2_bounds k) as [Hlo Hhi].
  assert (Hd : (Z.pos (digits2_pos k) <= 53)%Z).
  { destruct (Z.leb_spec (Z.pos (digits2_pos k)) 53) as [H|H]; [exact H|].
    assert (2 ^ 53 <= 2 ^ (Z.pos (digits2_pos k) - 1))%Z
      by (apply Z.pow_le_mono_r; lia). lia. }
  destruct (Z.eq_dec (Z.pos (digits2_pos k)) 53) as [Heq|Hne].
  - exists k, (-2)%Z. split; [exact Heq|]. split; [lia|]. cbn. lia.
  - exists (Pos.iter xO k (Z.to_pos (53 - Z.pos (digits2_pos k)))),
      (Z.pos (digits2_pos k) - 55)%Z.
    split; [|split].
    + rewrite digits2_iter_xO, Pos2Z.inj_add, Z2Pos.id by lia. lia.
    + lia.
    + rewrite iter_xO_spec, Z2Pos.id by lia. f_equal. f_equal. lia.
Qed.

(** Two ways of writing [k / 4] round to the same float. *)
Lemma round_quarter (s : bool) (P k : positive) (e : Z) :
  (Z.pos k < 2 ^ 53)%Z ->
  ((e <= -2)%Z /\ Z.pos P = (Z.pos k * 2 ^ (- 2 - e))%Z
   \/ (-2 <= e)%Z /\ Z.pos k = (Z.pos P * 2 ^ (e + 2))%Z) ->
  binary_round prec emax s P e = binary_round prec emax s k (-2).
Proof.
  intros Hk Hv. destruct (normal_form k Hk) as (q & j & Hd & Hj & Hq).
  transitivity (S754_finite s q j); [|symmetry].
  - apply round_exact; [exact Hd|lia|].
    destruct Hv as [[He HP]|[He HP]].
    + destruct (Z.le_ge_cases e j) as [Hle|Hle].
      * left. split; [exact Hle|].
        rewrite Hq, HP, <- Z.mul_assoc, <- Z.pow_add_r by lia.
        f_equal. f_equal. lia.
      * right. split; [exact Hle|].
        rewrite Hq, HP, <- Z.mul_assoc, <- Z.pow_add_r by lia.
        f_equal. f_equal. lia.
    + right. split; [lia|].
      rewrite Hq, HP, <- Z.mul_assoc, <- Z.pow_add_r by lia.
      f_equal. f_equal. lia.
  - apply round_exact; [exact Hd|lia|].
    right. split; [lia|]. exact Hq.
Qed.

Lemma quarter_zero : quarter 0 = S754_zero false.
Proof. reflexivity. Qed.

(** The float [quarter k] by its sign, mantissa and exponent. *)
Lemma quarter_finite (k : Z) :
  k <> 0%Z -> (Z.abs k < 2 ^ 53)%Z ->
  exists q j,
    quarter k = S754_finite (k <? 0)%Z q j
    /\ Z.pos (digits2_pos q) = 53%Z /\ (-54 <= j <= -2)%Z
    /\ Z.pos q = (Z.abs k * 2 ^ (- 2 - j))%Z.
Proof.
  intros Hne Hk. unfold quarter, binary_normalize.
  destruct k as [|p|p]; [congruence| |];
    destruct (normal_form p Hk) as (q & j & Hd & Hj & Hq);
    exists q, j; (split; [|auto]);
    (apply round_exact; [exact Hd|lia|]);
    right; (split; [lia|]); exact Hq.
Qed.

(** Normalising an integer multiple of a power of two that is [k / 4]. *)
Lemma normalize_quarter (M k e : Z) :
  (Z.abs k < 2 ^ 53)%Z ->
  ((e <= -2)%Z /\ M = (k * 2 ^ (- 2 - e))%Z
   \/ (-2 <= e)%Z /\ k = (M * 2 ^ (e + 2))%Z) ->
  binary_normalize prec emax M e false = quarter k.
Proof.
  intros Hk Hv.
  assert (Hpow : forall x, (0 <= x)%Z -> (0 < 2 ^ x)%Z)
    by (intros x Hx; apply Z.pow_pos_nonneg; lia).
  assert (Hsign : (0 < M /\ 0 < k) \/ (M = 0 /\ k = 0) \/ (M < 0 /\ k < 0)).
  { destruct Hv as [[He H]|[He H]].
    - specialize (Hpow (- 2 - e)%Z ltac:(lia)). nia.
    - specialize (Hpow (e + 2)%Z ltac:(lia)). nia. }
  unfold quarter, binary_normalize.
  destruct M as [|P|P], k as [|kp|kp]; try lia; try reflexivity.
  - apply round_quarter; [exact Hk|exact Hv].
  - apply round_quarter; [exact Hk|].
    assert (HP : Z.neg P = - Z.pos P) by reflexivity.
    assert (Hkp : Z.neg kp = - Z.pos kp) by reflexivity.
    destruct Hv as [[He H]|[He H]]; [left|right]; (split; [exact He|]); lia.
Qed.
Lemma quarter_not_infinite (k : Z) :
  Z.abs k < 2 ^ 53 ->
  match quarter k with S754_infinity _ => False | _ => True end.
Proof.
  intros Hk. destruct (Z.eq_dec k 0) as [->|Hne]; [exact I|].
  destruct (quarter_finite k Hne Hk) as (q & j & -> & _). exact I.
Qed.

(** [float(n)] is exact below [2 ^ 51]. *)
Lemma float_of_int_quarter (n : Z) :
  Z.abs n < 2 ^ 51 -> float_of_int n = Ok (quarter (4 * n)).
Proof.
  intros Hn. unfold float_of_int.
  assert (Hk : Z.abs (4 * n) < 2 ^ 53).
  { change (2 ^ 53) with (4 * 2 ^ 51). lia. }
  rewrite (normalize_quarter n (4 * n) 0 Hk)
    by (right; split; [lia|change (2 ^ (0 + 2)) with 4; lia]).
  pose proof (quarter_not_infinite (4 * n) Hk) as Hfin.
  destruct (quarter (4 * n)); try reflexivity. destruct Hfin.
Qed.

Lemma shl_align_fst (m : positive) (e e' : Z) :
  e' <= e -> Z.pos (fst (shl_align m e e')) = Z.pos m * 2 ^ (e - e').
Proof.
  intros He. unfold shl_align.
  destruct (e' - e) as [|d|d] eqn:Hd; try lia.
  - replace (e - e') with 0 by lia. cbn [fst]. lia.
  - cbn [fst]. rewrite iter_xO_spec. f_equal. f_equal. lia.
Qed.

Lemma cond_Zopp_quarter (k : Z) (q : positive) (c : Z) :
  Z.pos q = Z.abs k * c -> cond_Zopp (k <? 0) (Z.pos q) = k * c.
Proof.
  intros Hq. unfold cond_Zopp. destruct (Z.ltb_spec k 0); lia.
Qed.

(** The difference of two quarters is computed exactly. *)
Lemma quarter_sub (a b : Z) :
  Z.abs a < 2 ^ 53 -> Z.abs b < 2 ^ 53 -> Z.abs (a - b) < 2 ^ 53 ->
  SFsub prec emax (quarter a) (quarter b) = quarter (a - b).
Proof.
  intros Ha Hb Hab.
  destruct (Z.eq_dec b 0) as [->|Hbne].
  - rewrite Z.sub_0_r, quarter_zero.
    destruct (Z.eq_dec a 0) as [->|Hane]; [reflexivity|].
    destruct (quarter_finite a Hane Ha) as (q & j & -> & _). reflexivity.
  - destruct (quarter_finite b Hbne Hb) as (qb & jb & Hqb & Hdb & Hjb & Hmb).
    destruct (Z.eq_dec a 0) as [->|Hane].
    + rewrite quarter_zero, Hqb. cbn [SFsub].
      assert (Hnb : (0 - b) <> 0) by lia.
      destruct (quarter_finite (0 - b) Hnb Hab) as (q & j & Hq & Hd & Hj & Hm).
      rewrite Hq.
      assert (Hsign : (0 - b <? 0) = negb (b <? 0))
        by (destruct (Z.ltb_spec (0 - b) 0), (Z.ltb_spec b 0); cbn; lia).
      rewrite Hsign.
      replace (Z.abs (0 - b)) with (Z.abs b) in Hm by lia.
      assert (j = jb).
      { pose proof (digits2_bounds q) as Hx. pose proof (digits2_bounds qb) as Hy.
        rewrite Hd in Hx. rewrite Hdb in Hy. cbn in Hx, Hy.
        destruct (Z.lt_trichotomy j jb) as [H|[H|H]]; [|exact H|]; exfalso.
        - assert (Hs : - 2 - j = (- 2 - jb) + (jb - j)) by lia.
          rewrite Hs, Z.pow_add_r, Z.mul_assoc, <- Hmb in Hm by lia.
          assert (2 <= 2 ^ (jb - j))
            by (change 2 with (2 ^ 1) at 1; apply Z.pow_le_mono_r; lia).
          nia.
        - assert (Hs : - 2 - jb = (- 2 - j) + (j - jb)) by lia.
          rewrite Hs, Z.pow_add_r, Z.mul_assoc, <- Hm in Hmb by lia.
          assert (2 <= 2 ^ (j - jb))
            by (change 2 with (2 ^ 1) at 1; apply Z.pow_le_mono_r; lia).
          nia. }
      subst j. assert (q = qb) by lia. subst q. reflexivity.
    + destruct (quarter_finite a Hane Ha) as (qa & ja & Hqa & Hda & Hja & Hma).
      rewrite Hqa, Hqb. cbn [SFsub].
      apply normalize_quarter; [exact Hab|].
      left. split; [lia|].
      rewrite !shl_align_fst by lia.
      assert (Hpa : Z.pos qa * 2 ^ (ja - Z.min ja jb)
                    = Z.abs a * 2 ^ (- 2 - Z.min ja jb)).
      { rewrite Hma, <- Z.mul_assoc, <- Z.pow_add_r by lia.
        f_equal. f_equal. lia. }
      assert (Hpb : Z.pos qb * 2 ^ (jb - Z.min ja jb)
                    = Z.abs b * 2 ^ (- 2 - Z.min ja jb)).
      { rewrite Hmb, <- Z.mul_assoc, <- Z.pow_add_r by lia.
        f_equal. f_equal. lia. }
      unfold cond_Zopp.
      destruct (Z.ltb_spec a 0), (Z.ltb_spec b 0); nia.
Qed.

(** Subtracting a zero of either sign from a quarter. *)
Lemma quarter_sub_zero (a : Z) (s : bool) :
  Z.abs a < 2 ^ 53 -> SFsub prec emax (quarter a) (S754_zero s) = quarter a.
Proof.
  intros Ha. destruct (Z.eq_dec a 0) as [->|Hane].
  - rewrite quarter_zero. destruct s; reflexivity.
  - destruct (quarter_finite a Hane Ha) as (q & j & -> & _). reflexivity.
Qed.

Lemma exact_number_float (z : Z) (v : number) :
  exact_number z v -> Z.abs z < pt (2 ^ 51) ->
  exists k, to_float v = Ok (quarter k) /\ z = 25 * k /\ Z.abs k < 2 ^ 53.
Proof.
  unfold pt. change (2 ^ 51) with 2251799813685248.
  change (2 ^ 53) with 9007199254740992.
  intros [(n & -> & ->)|(k & -> & ->)] Hz.
  - exists (4 * n). unfold pt in *. cbn [to_float].
    rewrite float_of_int_quarter
      by (change (2 ^ 51) with 2251799813685248; lia).
    split; [reflexivity|]. lia.
  - exists k. cbn [to_float]. split; [reflexivity|]. lia.
Qed.

(** Where the numbers are exact, so is their difference. *)
Lemma sub_exact (za zb : Z) (a b : number) :
  exact_number za a -> exact_operand zb b ->
  Z.abs za < pt (2 ^ 51) -> Z.abs zb < pt (2 ^ 51) ->
  Z.abs (za - zb) < pt (2 ^ 51) ->
  exists c, sub a b = Ok c /\ exact_number (za - zb) c.
Proof.
  intros Ha Hb Hza Hzb Hz.
  destruct (exact_number_float za a Ha Hza) as (ka & Hfa & Hka & Hba).
  destruct Hb as [Hb|[-> ->]].
  - destruct (exact_number_float zb b Hb Hzb) as (kb & Hfb & Hkb & Hbb).
    destruct Ha as [(m & -> & Hm)|(ka' & -> & Hka')],
             Hb as [(n & -> & Hn)|(kb' & -> & Hkb')].
    + exists (Int (m - n)). split; [reflexivity|].
      left. exists (m - n). split; [reflexivity|]. unfold pt in *. lia.
    + exists (Float (quarter (ka - kb))). split.
      * unfold sub. rewrite Hfa, Hfb. cbn [rbind].
        rewrite quarter_sub; [reflexivity|assumption|assumption|].
        revert Hz. unfold pt. change (2 ^ 51) with 2251799813685248.
        change (2 ^ 53) with 9007199254740992. lia.
      * right. exists (ka - kb). split; [reflexivity|]. lia.
    + exists (Float (quarter (ka - kb))). split.
      * unfold sub. rewrite Hfa, Hfb. cbn [rbind].
        rewrite quarter_sub; [reflexivity|assumption|assumption|].
        revert Hz. unfold pt. change (2 ^ 51) with 2251799813685248.
        change (2 ^ 53) with 9007199254740992. lia.
      * right. exists (ka - kb). split; [reflexivity|]. lia.
    + exists (Float (quarter (ka - kb))). split.
      * unfold sub. rewrite Hfa, Hfb. cbn [rbind].
        rewrite quarter_sub; [reflexivity|assumption|assumption|].
        revert Hz. unfold pt. change (2 ^ 51) with 2251799813685248.
        change (2 ^ 53) with 9007199254740992. lia.
      * right. exists (ka - kb). split; [reflexivity|]. lia.
  - exists (Float (quarter ka)). split.
    + assert (Hs : sub a (Float (S754_zero true))
                   = let* x := to_float a in
                     Ok (Float (SFsub prec emax x (S754_zero true))))
        by (destruct a; reflexivity).
      rewrite Hs, Hfa. cbn [rbind]. rewrite quarter_sub_zero by assumption.
      reflexivity.
    + right. exists ka. split; [reflexivity|]. lia.
Qed.

(** The comparison with an [int] is the comparison of the values. *)
Lemma lt_exact (z : Z) (v : number) (n : Z) :
  exact_number z v -> Z.abs z < pt (2 ^ 51) ->
  lt v (Int n) = (z <? pt n).
Proof.
  intros Hv Hz.
  destruct Hv as [(m & -> & ->)|(k & -> & ->)].
  - cbn [lt]. unfold pt.
    destruct (Z.ltb_spec m n), (Z.ltb_spec (100 * m) (100 * n)); lia.
  - assert (Hk : Z.abs k < 2 ^ 53).
    { revert Hz. unfold pt. change (2 ^ 51) with 2251799813685248.
      change (2 ^ 53) with 9007199254740992. lia. }
    cbn [lt]. unfold pt.
    destruct (Z.eq_dec k 0) as [->|Hne].
    + rewrite quarter_zero. cbn [float_compare_int].
      destruct (Z.compare_spec 0 n), (Z.ltb_spec (25 * 0) (100 * n)); lia.
    + destruct (quarter_finite k Hne Hk) as (q & j & -> & Hd & Hj & Hm).
      cbn [float_compare_int].
      destruct (Z.leb_spec 0 j) as [?|_]; [lia|].
      rewrite (cond_Zopp_quarter k q _ Hm).
      replace (n * 2 ^ (- j)) with ((4 * n) * 2 ^ (- 2 - j)).
      2:{ replace (- j) with (2 + (- 2 - j)) by lia.
          rewrite Z.pow_add_r by lia. change (2 ^ 2) with 4. lia. }
      assert (Hc : 0 < 2 ^ (- 2 - j)) by (apply Z.pow_pos_nonneg; lia).
      destruct (Z.compare_spec (k * 2 ^ (- 2 - j)) (4 * n * 2 ^ (- 2 - j))),
        (Z.ltb_spec (25 * k) (100 * n)); try reflexivity; nia.
Qed.

Lemma fmt_2f_sign (k : Z) :
  minus_sign (k <? 0) ++ fmt_2f (25 * Z.abs k) = fmt_2f (25 * k).
Proof.
  unfold fmt_2f, minus_sign.
  replace (Z.abs (25 * Z.abs k)) with (Z.abs (25 * k)) by lia.
  destruct (Z.ltb_spec k 0), (Z.ltb_spec (25 * Z.abs k) 0),
    (Z.ltb_spec (25 * k) 0); try lia; reflexivity.
Qed.

(** A quarter is printed with its two decimals. *)
Lemma fmt_2f_quarter (k : Z) :
  Z.abs k < 2 ^ 53 -> fmt_2f_float (quarter k) = fmt_2f (25 * k).
Proof.
  intros Hk. destruct (Z.eq_dec k 0) as [->|Hne]; [reflexivity|].
  destruct (quarter_finite k Hne Hk) as (q & j & -> & Hd & Hj & Hm).
  cbn [fmt_2f_float]. rewrite <- fmt_2f_sign. f_equal. f_equal.
  unfold round_half_even.
  destruct (Z.leb_spec 0 j) as [?|_]; [lia|].
  assert (Hpos : 0 < 2 ^ (- j)) by (apply Z.pow_pos_nonneg; lia).
  assert (Hq : 100 * Z.pos q = (25 * Z.abs k) * 2 ^ (- j)).
  { rewrite Hm. replace (- j) with (2 + (- 2 - j)) by lia.
    rewrite Z.pow_add_r by lia. change (2 ^ 2) with 4. lia. }
  rewrite Hq, Z.div_mul, Z.mod_mul by lia.
  destruct (Z.compare_spec (2 * 0) (2 ^ (- j))); [lia|reflexivity|lia].
Qed.

Lemma fmt_2f_exact (z : Z) (v : number) :
  exact_number z v -> Z.abs z < pt (2 ^ 51) ->
  fmt_2f_number v = Ok (fmt_2f z).
Proof.
  intros Hv Hz.
  destruct (exact_number_float z v Hv Hz) as (k & Hf & -> & Hk).
  unfold fmt_2f_number. rewrite Hf. cbn [rbind].
  rewrite fmt_2f_quarter by exact Hk. reflexivity.
Qed.
End Quarters.

(** ** The one-page layout on Python's numbers *)

Section SummarySimulation.
Context {U : UnicodeDB}.
Local Open Scope Z_scope.

Lemma text_agrees b x' y' size' x y size t font :
  fmt_2f_number size' = Ok (fmt_2f size) ->
  fmt_2f_number x' = Ok (fmt_2f x) ->
  fmt_2f_number y' = Ok (fmt_2f y) ->
  SummaryFloat.text b x' y' t font size'
  = Ok (Summary.text b x y t font size).
Proof.
  intros Hs Hx Hy. unfold SummaryFloat.text, show_text_numbers.
  rewrite Hs, Hx, Hy. reflexivity.
Qed.

(** A line, checked or not: the shape of every drawing method. *)
Lemma summary_draw_agrees bound l' l x' x size' size advance
    (checked : bool) t font :
  summary_agree bound l' l ->
  fmt_2f_number size' = Ok (fmt_2f size) ->
  fmt_2f_number x' = Ok (fmt_2f x) ->
  0 <= advance -> bound + pt advance <= limit ->
  summary_agree_result (bound + pt advance)
    (let* _ := (if checked
                then SummaryFloat._ensure_room l' (Int SummaryFloat.BOTTOM)
                else Ok tt) in
     let* b := SummaryFloat.text (SummaryFloat.builder l') x'
                 (SummaryFloat.y l') t font size' in
     let* y' := sub (SummaryFloat.y l') (Int advance) in
     Ok {| SummaryFloat.builder := b; SummaryFloat.y := y' |})
    (let* _ := (if checked then Summary._ensure_room l Summary.BOTTOM
                else Ok tt) in
     Ok {| Summary.builder :=
             Summary.text (Summary.builder l) x (Summary.y l) t font size;
           Summary.y := Summary.y l - pt advance |}).
Proof.
  intros (Hb & Hy & Hbound) Hsize Hx Hadv Hlim.
  unfold limit in Hlim.
  assert (Hlt : Z.abs (Summary.y l) < pt (2 ^ 51)) by (unfold pt in *; lia).
  assert (Hroom : (if checked
                   then SummaryFloat._ensure_room l' (Int SummaryFloat.BOTTOM)
                   else Ok tt)
                  = (if checked then Summary._ensure_room l Summary.BOTTOM
                     else Ok tt)).
  { destruct checked; [|reflexivity].
    unfold SummaryFloat._ensure_room, Summary._ensure_room.
    rewrite (lt_exact _ _ SummaryFloat.BOTTOM Hy Hlt). reflexivity. }
  rewrite Hroom.
  destruct (if checked then Summary._ensure_room l Summary.BOTTOM else Ok tt)
    as [[]|e]; cbn [rbind summary_agree_result]; [|reflexivity].
  rewrite Hb.
  rewrite (text_agrees _ x' _ size' x (Summary.y l) size)
    by (try assumption; apply fmt_2f_exact; assumption).
  cbn [rbind].
  destruct (sub_exact (Summary.y l) (pt advance) (SummaryFloat.y l')
              (Int advance) Hy) as (c & Hc & Hexact).
  { left. left. exists advance. split; reflexivity. }
  { exact Hlt. }
  { unfold pt in *. lia. }
  { unfold pt in *. lia. }
  rewrite Hc. cbn [rbind]. eexists. split; [reflexivity|].
  split; [reflexivity|]. split; [exact Hexact|].
  cbn [Summary.y]. unfold pt in *. lia.
Qed.

Lemma summary_agree_weaken b1 b2 l' l :
  b1 <= b2 -> summary_agree b1 l' l -> summary_agree b2 l' l.
Proof. intros Hle (Hb & Hy & Hbound). repeat split; [assumption..|lia]. Qed.

(** A loop over lines of twelve points each. *)
Lemma summary_lines_agree (body' : SummaryFloat.Layout -> str -> result SummaryFloat.Layout)
    (body : Summary.Layout -> str -> result Summary.Layout) :
  (forall bound l' l line,
      summary_agree bound l' l -> bound + pt 12 <= limit ->
      summary_agree_result (bound + pt 12) (body' l' line) (body l line)) ->
  forall lines bound l' l,
    summary_agree bound l' l ->
    bound + pt 12 * len lines <= limit ->
    summary_agree_result (bound + pt 12 * len lines)
      (for_each body' lines l') (for_each body lines l).
Proof.
  intros Hbody lines. induction lines as [|line lines IH];
    intros bound l' l Hagree Hlim.
  - cbn [for_each summary_agree_result]. exists l'. split; [reflexivity|].
    eapply summary_agree_weaken; [|exact Hagree]. unfold len. cbn. lia.
  - assert (Hlen : len (line :: lines) = 1 + len lines)
      by (unfold len; cbn [length]; lia).
    rewrite Hlen in *.
    assert (Hpos : 0 <= len lines) by (unfold len; lia).
    cbn [for_each].
    pose proof (Hbody bound l' l line Hagree ltac:(unfold pt in *; lia)) as Hstep.
    destruct (body l line) as [l1|e]; cbn [summary_agree_result] in Hstep.
    + destruct Hstep as (l1' & -> & Hagree1). cbn [rbind].
      replace (bound + pt 12 * (1 + len lines))
        with ((bound + pt 12) + pt 12 * len lines) by (unfold pt; lia).
      apply IH; [exact Hagree1|unfold pt in *; lia].
    + rewrite Hstep. reflexivity.
Qed.

Lemma fmt_2f_int (n : Z) :
  Z.abs n < 2 ^ 51 -> fmt_2f_number (Int n) = Ok (fmt_2f (pt n)).
Proof.
  intros Hn. apply fmt_2f_exact.
  - left. exists n. split; reflexivity.
  - unfold pt. lia.
Qed.

Lemma summary_perform_agrees bound l' l c' c :
  summary_agree bound l' l -> summary_same_call c' c ->
  bound + summary_call_span c <= limit ->
  summary_agree_result (bound + summary_call_span c)
    (SummaryFloat.perform l' c') (Summary.perform l c).
Proof.
  intros Hagree Hsame Hlim.
  destruct c' as [t'|t'|t'|t' w'|t' w'|pts'], c as [t|t|t|t w|t w|pts];
    cbn [summary_same_call] in Hsame; try contradiction;
    cbn [summary_call_span] in *.
  - subst t'.
    apply (summary_draw_agrees bound l' l (Int 50) (pt 50) (Int 18) (pt 18) 22
             false t (lit "F2") Hagree); [reflexivity|reflexivity|lia|exact Hlim].
  - subst t'.
    apply (summary_draw_agrees bound l' l (Int 50) (pt 50)
             (Float (float_literal 950)) (dec 9 50) 16
             false t (lit "F3") Hagree); [reflexivity|reflexivity|lia|exact Hlim].
  - subst t'.
    apply (summary_draw_agrees bound l' l (Int 50) (pt 50)
             (Float (float_literal 1150)) (dec 11 50) 14
             false t (lit "F2") Hagree); [reflexivity|reflexivity|lia|exact Hlim].
  - destruct Hsame as [-> ->].
    cbn [SummaryFloat.perform Summary.perform].
    unfold SummaryFloat.paragraph, Summary.paragraph.
    destruct (wrap t w) as [lines|e]; cbn [rbind].
    + apply summary_lines_agree; [|exact Hagree|exact Hlim].
      intros b m' m line Hm Hb.
      apply (summary_draw_agrees b m' m (Int 50) (pt 50)
               (Float (float_literal 950)) (dec 9 50) 12
               true line (lit "F1") Hm); [reflexivity|reflexivity|lia|exact Hb].
    + reflexivity.
  - destruct Hsame as [-> ->].
    cbn [SummaryFloat.perform Summary.perform].
    unfold SummaryFloat.bullet, Summary.bullet.
    destruct (wrap t w) as [[|first others]|e]; cbn [rbind].
    + exists l'. split; [reflexivity|].
      eapply summary_agree_weaken; [|exact Hagree]. unfold len. cbn. lia.
    + assert (Hlen : len (first :: others) = 1 + len others)
        by (unfold len; cbn [length]; lia).
      rewrite Hlen in *.
      assert (Hpos : 0 <= len others) by (unfold len; lia).
      pose proof (summary_draw_agrees bound l' l (Int 52) (pt 50 + pt 2)
                    (Float (float_literal 950)) (dec 9 50) 12
                    true (lit "- " ++ first) (lit "F1") Hagree
                    eq_refl eq_refl ltac:(lia) ltac:(unfold pt in *; lia))
        as Hfirst.
      change (SummaryFloat.bullet_first l' first) with
        (let* _ := SummaryFloat._ensure_room l' (Int SummaryFloat.BOTTOM) in
         let* b := SummaryFloat.text (SummaryFloat.builder l') (Int 52)
                     (SummaryFloat.y l') (lit "- " ++ first) (lit "F1")
                     (Float (float_literal 950)) in
         let* y' := sub (SummaryFloat.y l') (Int 12) in
         Ok {| SummaryFloat.builder := b; SummaryFloat.y := y' |}).
      change (Summary.bullet_first l first) with
        (let* _ := Summary._ensure_room l Summary.BOTTOM in
         Ok {| Summary.builder :=
                 Summary.text (Summary.builder l) (pt 50 + pt 2) (Summary.y l)
                   (lit "- " ++ first) (lit "F1") (dec 9 50);
               Summary.y := Summary.y l - pt 12 |}).
      cbn beta iota in Hfirst.
      destruct (let* _ := Summary._ensure_room l Summary.BOTTOM in
                Ok {| Summary.builder :=
                        Summary.text (Summary.builder l) (pt 50 + pt 2)
                          (Summary.y l) (lit "- " ++ first) (lit "F1") (dec 9 50);
                      Summary.y := Summary.y l - pt 12 |}) as [l1|e];
        cbn [summary_agree_result] in Hfirst.
      * destruct Hfirst as (l1' & -> & Hagree1). cbn [rbind].
        replace (bound + pt 12 * (1 + len others))
          with ((bound + pt 12) + pt 12 * len others) by (unfold pt; lia).
        apply summary_lines_agree; [|exact Hagree1|unfold pt in *; lia].
        intros b m' m line Hm Hb.
        apply (summary_draw_agrees b m' m (Int 64) (pt 50 + pt 14)
                 (Float (float_literal 950)) (dec 9 50) 12
                 true line (lit "F1") Hm); [reflexivity|reflexivity|lia|exact Hb].
      * rewrite Hfirst. reflexivity.
    + reflexivity.
  - cbn [SummaryFloat.perform Summary.perform summary_agree_result].
    destruct Hagree as (Hb & Hy & Hbound). unfold limit in Hlim.
    destruct (sub_exact (Summary.y l) pts (SummaryFloat.y l') pts' Hy Hsame)
      as (c & Hc & Hexact); [unfold pt in *; lia..|].
    unfold SummaryFloat.gap. rewrite Hc. cbn [rbind].
    eexists. split; [reflexivity|].
    split; [exact Hb|]. split; [exact Hexact|].
    cbn [Summary.gap Summary.y]. lia.
Qed.

Lemma summary_span_nonneg script : 0 <= summary_span script.
Proof.
  unfold summary_span. induction script as [|c rest IH]; [cbn; lia|].
  cbn [map]. rewrite total_cons.
  assert (0 <= summary_call_span c); [|lia].
  destruct c; cbn [summary_call_span]; try (unfold pt; lia).
  - destruct (wrap t width_chars); [unfold pt, len; lia|lia].
  - destruct (wrap t width_chars); [unfold pt, len; lia|lia].
Qed.

Lemma summary_run_agrees script' : forall script bound l' l,
  Forall2 summary_same_call script' script ->
  summary_agree bound l' l ->
  bound + summary_span script <= limit ->
  summary_agree_result (bound + summary_span script)
    (for_each SummaryFloat.perform script' l')
    (for_each Summary.perform script l).
Proof.
  induction script' as [|c' rest' IH]; intros script bound l' l Hsame Hagree Hlim.
  - inversion Hsame; subst. cbn [for_each summary_agree_result].
    exists l'. split; [reflexivity|].
    eapply summary_agree_weaken; [|exact Hagree]. unfold summary_span. cbn. lia.
  - inversion Hsame as [|? c ? rest Hc Hrest]; subst.
    unfold summary_span in *. cbn [map] in *. rewrite total_cons in *.
    pose proof (summary_span_nonneg rest) as Hnn. unfold summary_span in Hnn.
    cbn [for_each].
    pose proof (summary_perform_agrees bound l' l c' c Hagree Hc ltac:(lia))
      as Hstep.
    destruct (Summary.perform l c) as [l1|e]; cbn [summary_agree_result] in Hstep.
    + destruct Hstep as (l1' & -> & Hagree1). cbn [rbind].
      rewrite Z.add_assoc. apply IH; [exact Hrest|exact Hagree1|lia].
    + rewrite Hstep. reflexivity.
Qed.

(** On the scripts where the arithmetic is exact, the function run on
    Python's numbers and the function run on hundredths do the same. *)
Lemma summary_build_agrees script' script path :
  Forall2 summary_same_call script' script ->
  summary_span script <= pt (2 ^ 50) ->
  SummaryFloat.build_summary_pdf_from script' path
  = Summary.build_summary_pdf_from script path
  /\ match for_each Summary.perform script
             (Summary.Layout_init Summary.PDFBuilder_init) with
     | Ok l =>
         exists l',
           for_each SummaryFloat.perform script'
             (SummaryFloat.Layout_init Summary.PDFBuilder_init) = Ok l'
           /\ SummaryFloat.builder l' = Summary.builder l
           /\ exact_number (Summary.y l) (SummaryFloat.y l')
     | Raise e =>
         for_each SummaryFloat.perform script'
           (SummaryFloat.Layout_init Summary.PDFBuilder_init) = Raise e
     end.
Proof.
  intros Hsame Hspan.
  unfold SummaryFloat.build_summary_pdf_from, Summary.build_summary_pdf_from.
  assert (Hinit : summary_agree (pt 760)
                    (SummaryFloat.Layout_init Summary.PDFBuilder_init)
                    (Summary.Layout_init Summary.PDFBuilder_init)).
  { split; [reflexivity|].
    split; [|cbn [Summary.y Summary.Layout_init]; unfold Summary.TOP, pt; lia].
    left. exists 760. split; reflexivity. }
  assert (Hlim : pt 760 + summary_span script <= limit).
  { unfold limit. revert Hspan. unfold pt.
    change (2 ^ 50) with 1125899906842624.
    change (2 ^ 51) with 2251799813685248. lia. }
  pose proof (summary_run_agrees script' script _ _ _ Hsame Hinit Hlim) as Hrun.
  destruct (for_each Summary.perform script _) as [l|e];
    cbn [summary_agree_result] in Hrun.
  - destruct Hrun as (l' & -> & Hb & Hy & Hbound).
    rewrite (lt_exact _ _ SummaryFloat.BOTTOM Hy)
      by (unfold limit in Hlim; unfold pt in *; lia).
    rewrite Hb. split; [reflexivity|]. exists l'. auto.
  - rewrite Hrun. split; reflexivity.
Qed.
End SummarySimulation.

(** ** The multi-page layout on Python's numbers *)

Section WalkSimulation.
Context {U : UnicodeDB}.
Local Open Scope Z_scope.

Lemma walk_text_agrees b x' y' size' x y size t font :
  fmt_2f_number size' = Ok (fmt_2f size) ->
  fmt_2f_number x' = Ok (fmt_2f x) ->
  fmt_2f_number y' = Ok (fmt_2f y) ->
  WalkthroughFloat.text b x' y' t font size'
  = Walkthrough.text b x y t font size.
Proof.
  intros Hs Hx Hy. unfold WalkthroughFloat.text, Walkthrough.text.
  destruct (py_index _ _) as [[i page]|]; [|reflexivity].
  unfold show_text_numbers. rewrite Hs, Hx, Hy. reflexivity.
Qed.

Lemma walk_agree_weaken b1 b2 l' l :
  b1 <= b2 -> walk_agree b1 l' l -> walk_agree b2 l' l.
Proof. intros Hle (Hb & Hy & Hbound). repeat split; [assumption..|lia]. Qed.

Lemma walk_next_page_agrees bound l' l required :
  walk_agree bound l' l -> 0 <= required -> pt 760 <= bound ->
  bound + pt required <= limit ->
  exists m',
    WalkthroughFloat._next_page_if_needed l' (Int required) = Ok m'
    /\ walk_agree bound m' (Walkthrough._next_page_if_needed l (pt required)).
Proof.
  intros (Hb & Hy & Hbound) Hreq Htop Hlim. unfold limit in Hlim.
  unfold WalkthroughFloat._next_page_if_needed, Walkthrough._next_page_if_needed.
  destruct (sub_exact (Walkthrough.y l) (pt required) (WalkthroughFloat.y l')
              (Int required) Hy) as (c & Hc & Hexact);
    [left; left; exists required; split; reflexivity
    |unfold pt in *; lia..|].
  rewrite Hc. cbn [rbind].
  rewrite (lt_exact _ _ WalkthroughFloat.BOTTOM Hexact)
    by (unfold pt in *; lia).
  change (pt WalkthroughFloat.BOTTOM) with Walkthrough.BOTTOM.
  destruct (Walkthrough.y l - pt required <? Walkthrough.BOTTOM).
  - eexists. split; [reflexivity|]. split; [cbn; rewrite Hb; reflexivity|].
    split; [left; exists 760; split; reflexivity|].
    cbn [Walkthrough.y]. unfold Walkthrough.TOP, pt in *. lia.
  - exists l'. split; [reflexivity|]. repeat split; assumption.
Qed.

(** A line: the shape of every drawing method. *)
Lemma walk_draw_agrees bound l' l x' x size' size required advance t font :
  walk_agree bound l' l ->
  fmt_2f_number size' = Ok (fmt_2f size) ->
  fmt_2f_number x' = Ok (fmt_2f x) ->
  0 <= advance <= required -> pt 760 <= bound ->
  bound + pt required <= limit ->
  walk_agree_result (bound + pt required)
    (let* self := WalkthroughFloat._next_page_if_needed l' (Int required) in
     let* b := WalkthroughFloat.text (WalkthroughFloat.builder self) x'
                 (WalkthroughFloat.y self) t font size' in
     let* y' := sub (WalkthroughFloat.y self) (Int advance) in
     Ok {| WalkthroughFloat.builder := b; WalkthroughFloat.y := y' |})
    (let self := Walkthrough._next_page_if_needed l (pt required) in
     let* b := Walkthrough.text (Walkthrough.builder self) x
                 (Walkthrough.y self) t font size in
     Ok {| Walkthrough.builder := b;
           Walkthrough.y := Walkthrough.y self - pt advance |}).
Proof.
  intros Hagree Hsize Hx Hadv Htop Hlim.
  destruct (walk_next_page_agrees bound l' l required Hagree
              ltac:(lia) Htop Hlim) as (m' & -> & Hb & Hy & Hbound).
  cbn [rbind]. cbv zeta.
  set (m := Walkthrough._next_page_if_needed l (pt required)) in *.
  unfold limit in Hlim.
  assert (Hlt : Z.abs (Walkthrough.y m) < pt (2 ^ 51)) by (unfold pt in *; lia).
  rewrite Hb.
  rewrite (walk_text_agrees _ x' _ size' x (Walkthrough.y m) size)
    by (try assumption; apply fmt_2f_exact; assumption).
  destruct (Walkthrough.text _ _ _ _ _ _) as [b|e];
    cbn [rbind walk_agree_result]; [|reflexivity].
  destruct (sub_exact (Walkthrough.y m) (pt advance) (WalkthroughFloat.y m')
              (Int advance) Hy) as (c & Hc & Hexact);
    [left; left; exists advance; split; reflexivity
    |unfold pt in *; lia..|].
  rewrite Hc. cbn [rbind]. eexists. split; [reflexivity|].
  split; [reflexivity|]. split; [exact Hexact|].
  cbn [Walkthrough.y]. unfold pt in *. lia.
Qed.

Lemma walk_lines_agree
    (body' : WalkthroughFloat.Layout -> str -> result WalkthroughFloat.Layout)
    (body : Walkthrough.Layout -> str -> result Walkthrough.Layout) :
  (forall bound l' l line,
      walk_agree bound l' l -> pt 760 <= bound -> bound + pt 12 <= limit ->
      walk_agree_result (bound + pt 12) (body' l' line) (body l line)) ->
  forall lines bound l' l,
    walk_agree bound l' l -> pt 760 <= bound ->
    bound + pt 12 * len lines <= limit ->
    walk_agree_result (bound + pt 12 * len lines)
      (for_each body' lines l') (for_each body lines l).
Proof.
  intros Hbody lines. induction lines as [|line lines IH];
    intros bound l' l Hagree Htop Hlim.
  - cbn [for_each walk_agree_result]. exists l'. split; [reflexivity|].
    eapply walk_agree_weaken; [|exact Hagree]. unfold len. cbn. lia.
  - assert (Hlen : len (line :: lines) = 1 + len lines)
      by (unfold len; cbn [length]; lia).
    rewrite Hlen in *.
    assert (Hpos : 0 <= len lines) by (unfold len; lia).
    cbn [for_each].
    pose proof (Hbody bound l' l line Hagree Htop ltac:(unfold pt in *; lia))
      as Hstep.
    destruct (body l line) as [l1|e]; cbn [walk_agree_result] in Hstep.
    + destruct Hstep as (l1' & -> & Hagree1). cbn [rbind].
      replace (bound + pt 12 * (1 + len lines))
        with ((bound + pt 12) + pt 12 * len lines) by (unfold pt; lia).
      apply IH; [exact Hagree1|unfold pt in *; lia|unfold pt in *; lia].
    + rewrite Hstep. reflexivity.
Qed.

Lemma walk_perform_agrees bound l' l c' c :
  walk_agree bound l' l -> walk_same_call c' c -> pt 760 <= bound ->
  bound + walk_call_span c <= limit ->
  walk_agree_result (bound + walk_call_span c)
    (WalkthroughFloat.perform l' c') (Walkthrough.perform l c).
Proof.
  intros Hagree Hsame Htop Hlim.
  destruct c' as [t'|t'|t'|t'|t' w'|t' w'|t'|pts'],
           c as [t|t|t|t|t w|t w|t|pts];
    cbn [walk_same_call] in Hsame; try contradiction;
    cbn [walk_call_span] in *.
  - subst t'.
    apply (walk_draw_agrees bound l' l (Int 48) (pt 48) (Int 19) (pt 19) 26 24
             t (lit "F2") Hagree);
      [reflexivity|reflexivity|lia|exact Htop|exact Hlim].
  - subst t'.
    apply (walk_draw_agrees bound l' l (Int 48) (pt 48) (Int 10) (pt 10) 15 15
             t (lit "F3") Hagree);
      [reflexivity|reflexivity|lia|exact Htop|exact Hlim].
  - subst t'.
    apply (walk_draw_agrees bound l' l (Int 48) (pt 48) (Int 13) (pt 13) 18 16
             t (lit "F2") Hagree);
      [reflexivity|reflexivity|lia|exact Htop|exact Hlim].
  - subst t'.
    apply (walk_draw_agrees bound l' l (Int 48) (pt 48) (Int 11) (pt 11) 15 14
             t (lit "F2") Hagree);
      [reflexivity|reflexivity|lia|exact Htop|exact Hlim].
  - destruct Hsame as [-> ->].
    cbn [WalkthroughFloat.perform Walkthrough.perform].
    unfold WalkthroughFloat.paragraph, Walkthrough.paragraph.
    destruct (wrap t w) as [lines|e]; cbn [rbind].
    + apply walk_lines_agree; [|exact Hagree|exact Htop|exact Hlim].
      intros b m' m line Hm Hb1 Hb2.
      apply (walk_draw_agrees b m' m (Int 48) (pt 48) (Int 10) (pt 10) 12 12
               line (lit "F1") Hm);
        [reflexivity|reflexivity|lia|exact Hb1|exact Hb2].
    + reflexivity.
  - destruct Hsame as [-> ->].
    cbn [WalkthroughFloat.perform Walkthrough.perform].
    unfold WalkthroughFloat.bullet, Walkthrough.bullet.
    destruct (wrap t w) as [[|first others]|e]; cbn [rbind].
    + exists l'. split; [reflexivity|].
      eapply walk_agree_weaken; [|exact Hagree]. unfold len. cbn. lia.
    + assert (Hlen : len (first :: others) = 1 + len others)
        by (unfold len; cbn [length]; lia).
      rewrite Hlen in *.
      assert (Hpos : 0 <= len others) by (unfold len; lia).
      pose proof (walk_draw_agrees bound l' l (Int 50) (pt 48 + pt 2)
                    (Int 10) (pt 10) 12 12
                    (lit "- " ++ first) (lit "F1") Hagree
                    eq_refl eq_refl ltac:(lia) Htop ltac:(unfold pt in *; lia))
        as Hfirst.
      change (WalkthroughFloat.bullet_first l' first) with
        (let* self := WalkthroughFloat._next_page_if_needed l' (Int 12) in
         let* b := WalkthroughFloat.text (WalkthroughFloat.builder self)
                     (Int 50) (WalkthroughFloat.y self) (lit "- " ++ first)
                     (lit "F1") (Int 10) in
         let* y' := sub (WalkthroughFloat.y self) (Int 12) in
         Ok {| WalkthroughFloat.builder := b; WalkthroughFloat.y := y' |}).
      change (Walkthrough.bullet_first l first) with
        (let self := Walkthrough._next_page_if_needed l (pt 12) in
         let* b := Walkthrough.text (Walkthrough.builder self) (pt 48 + pt 2)
                     (Walkthrough.y self) (lit "- " ++ first) (lit "F1")
                     (pt 10) in
         Ok {| Walkthrough.builder := b;
               Walkthrough.y := Walkthrough.y self - pt 12 |}).
      destruct (let self := Walkthrough._next_page_if_needed l (pt 12) in
                let* b := Walkthrough.text (Walkthrough.builder self)
                            (pt 48 + pt 2) (Walkthrough.y self)
                            (lit "- " ++ first) (lit "F1") (pt 10) in
                Ok {| Walkthrough.builder := b;
                      Walkthrough.y := Walkthrough.y self - pt 12 |})
        as [l1|e]; cbn [walk_agree_result] in Hfirst.
      * destruct Hfirst as (l1' & -> & Hagree1). cbn [rbind].
        replace (bound + pt 12 * (1 + len others))
          with ((bound + pt 12) + pt 12 * len others) by (unfold pt; lia).
        apply walk_lines_agree;
          [|exact Hagree1|unfold pt in *; lia|unfold pt in *; lia].
        intros b m' m line Hm Hb1 Hb2.
        apply (walk_draw_agrees b m' m (Int 64) (pt 48 + pt 16)
                 (Int 10) (pt 10) 12 12 line (lit "F1") Hm);
          [reflexivity|reflexivity|lia|exact Hb1|exact Hb2].
      * rewrite Hfirst. reflexivity.
    + reflexivity.
  - subst t'.
    apply (walk_draw_agrees bound l' l (Int 56) (pt 48 + pt 8)
             (Float (float_literal 940)) (dec 9 40) 12 12
             t (lit "F4") Hagree);
      [reflexivity|reflexivity|lia|exact Htop|exact Hlim].
  - cbn [WalkthroughFloat.perform Walkthrough.perform walk_agree_result].
    destruct Hagree as (Hb & Hy & Hbound). unfold limit in Hlim.
    destruct (sub_exact (Walkthrough.y l) pts (WalkthroughFloat.y l') pts' Hy Hsame)
      as (c & Hc & Hexact); [unfold pt in *; lia..|].
    unfold WalkthroughFloat.gap. rewrite Hc. cbn [rbind].
    eexists. split; [reflexivity|].
    split; [exact Hb|]. split; [exact Hexact|].
    cbn [Walkthrough.gap Walkthrough.y]. lia.
Qed.

Lemma walk_span_nonneg script : 0 <= walk_span script.
Proof.
  unfold walk_span. induction script as [|c rest IH]; [cbn; lia|].
  cbn [map]. rewrite total_cons.
  assert (0 <= walk_call_span c); [|lia].
  destruct c; cbn [walk_call_span]; try (unfold pt; lia).
  - destruct (wrap t width_chars); [unfold pt, len; lia|lia].
  - destruct (wrap t width_chars); [unfold pt, len; lia|lia].
Qed.

Lemma walk_run_agrees script' : forall script bound l' l,
  Forall2 walk_same_call script' script ->
  walk_agree bound l' l -> pt 760 <= bound ->
  bound + walk_span script <= limit ->
  walk_agree_result (bound + walk_span script)
    (for_each WalkthroughFloat.perform script' l')
    (for_each Walkthrough.perform script l).
Proof.
  induction script' as [|c' rest' IH];
    intros script bound l' l Hsame Hagree Htop Hlim.
  - inversion Hsame; subst. cbn [for_each walk_agree_result].
    exists l'. split; [reflexivity|].
    eapply walk_agree_weaken; [|exact Hagree]. unfold walk_span. cbn. lia.
  - inversion Hsame as [|? c ? rest Hc Hrest]; subst.
    unfold walk_span in *. cbn [map] in *. rewrite total_cons in *.
    pose proof (walk_span_nonneg rest) as Hnn. unfold walk_span in Hnn.
    pose proof (walk_span_nonneg [c]) as Hnc. unfold walk_span in Hnc.
    cbn [map] in Hnc. rewrite total_cons in Hnc. cbn [total foldr] in Hnc.
    cbn [for_each].
    pose proof (walk_perform_agrees bound l' l c' c Hagree Hc Htop ltac:(lia))
      as Hstep.
    destruct (Walkthrough.perform l c) as [l1|e]; cbn [walk_agree_result] in Hstep.
    + destruct Hstep as (l1' & -> & Hagree1). cbn [rbind].
      rewrite Z.add_assoc. apply IH; [exact Hrest|exact Hagree1|lia|lia].
    + rewrite Hstep. reflexivity.
Qed.

(** On the scripts where the arithmetic is exact, the function run on
    Python's numbers and the function run on hundredths do the same. *)
Lemma walk_build_agrees script' script path :
  Forall2 walk_same_call script' script ->
  walk_span script <= pt (2 ^ 50) ->
  WalkthroughFloat.write_walkthrough_from script' path
  = Walkthrough.write_walkthrough_from script path
  /\ match Walkthrough.lay_out script with
     | Ok l => exists l', WalkthroughFloat.lay_out script' = Ok l'
                          /\ WalkthroughFloat.builder l' = Walkthrough.builder l
                          /\ exact_number (Walkthrough.y l) (WalkthroughFloat.y l')
     | Raise e => WalkthroughFloat.lay_out script' = Raise e
     end.
Proof.
  intros Hsame Hspan.
  unfold WalkthroughFloat.write_walkthrough_from, Walkthrough.write_walkthrough_from,
    WalkthroughFloat.lay_out, Walkthrough.lay_out.
  assert (Hinit : walk_agree (pt 760)
                    (WalkthroughFloat.Layout_init Walkthrough.PDFBuilder_init)
                    (Walkthrough.Layout_init Walkthrough.PDFBuilder_init)).
  { split; [reflexivity|].
    split; [|cbn [Walkthrough.y Walkthrough.Layout_init];
             unfold Walkthrough.TOP, pt; lia].
    left. exists 760. split; reflexivity. }
  assert (Hlim : pt 760 + walk_span script <= limit).
  { unfold limit. revert Hspan. unfold pt.
    change (2 ^ 50) with 1125899906842624.
    change (2 ^ 51) with 2251799813685248. lia. }
  pose proof (walk_run_agrees script' script _ _ _ Hsame Hinit ltac:(lia) Hlim)
    as Hrun.
  destruct (for_each Walkthrough.perform script _) as [l|e];
    cbn [walk_agree_result] in Hrun.
  - destruct Hrun as (l' & -> & Hb & Hy & Hbound).
    rewrite Hb. split; [reflexivity|]. exists l'. auto.
  - rewrite Hrun. split; reflexivity.
Qed.
End WalkSimulation.

(** ** Where exact arithmetic and Python's agree *)

(** X24. The arithmetic of the one-page layout is exact on whole quarter
    points.  When every gap is given as an [int] or as a [float] that is a
    whole number of quarter points, and the script moves the cursor by at
    most [2 ^ 50] points in all, [build_summary_pdf] run with Python's
    [int] and binary64 [float] does what it does with exact hundredths: the
    calls succeed or fail alike, they record the same commands, the cursor
    holds the same value, and the same file is written or the same error
    raised. *)
Theorem summary_floats_exact_on_quarter_points :
  forall (U : UnicodeDB) (script' : list SummaryFloat.Call)
         (script : list Summary.Call) (path : Path),
    Forall2 summary_same_call script' script ->
    (summary_span script <= pt (2 ^ 50))%Z ->
    SummaryFloat.build_summary_pdf_from script' path
    = Summary.build_summary_pdf_from script path
    /\ match for_each Summary.perform script
               (Summary.Layout_init Summary.PDFBuilder_init) with
       | Ok l =>
           exists l',
             for_each SummaryFloat.perform script'
               (SummaryFloat.Layout_init Summary.PDFBuilder_init) = Ok l'
             /\ SummaryFloat.builder l' = Summary.builder l
             /\ exact_number (Summary.y l) (SummaryFloat.y l')
       | Raise e =>
           for_each SummaryFloat.perform script'
             (SummaryFloat.Layout_init Summary.PDFBuilder_init) = Raise e
       end.
Proof. intros U script' script path. apply summary_build_agrees. Qed.

Lemma summary_floats_exact_on_quarter_points_witness :
  @SummaryFloat.build_summary_pdf_from ascii_tables
    [SummaryFloat.Gap (Float (float_literal 20625));
     SummaryFloat.Title (lit "T");
     SummaryFloat.Gap (Int 500);
     SummaryFloat.Bullet (lit "aa bb") 2]
    ["out.pdf"%string]
  = @Summary.build_summary_pdf_from ascii_tables
      [Summary.Gap (dec 206 25); Summary.Title (lit "T");
       Summary.Gap (pt 500); Summary.Bullet (lit "aa bb") 2]
      ["out.pdf"%string].
Proof.
  refine (proj1 (summary_floats_exact_on_quarter_points ascii_tables
                   [SummaryFloat.Gap (Float (float_literal 20625));
                    SummaryFloat.Title (lit "T");
                    SummaryFloat.Gap (Int 500);
                    SummaryFloat.Bullet (lit "aa bb") 2]
                   [Summary.Gap (dec 206 25); Summary.Title (lit "T");
                    Summary.Gap (pt 500); Summary.Bullet (lit "aa bb") 2]
                   ["out.pdf"%string] _ _)).
  - constructor; [|constructor; [|constructor; [|constructor; [|constructor]]]].
    + left. right. exists 825%Z. split; [vm_compute; reflexivity|reflexivity].
    + reflexivity.
    + left. left. exists 500%Z. split; reflexivity.
    + split; reflexivity.
  - apply Z.leb_le. vm_compute. reflexivity.
Defined.

(** X25. The same for the multi-page layout: on whole quarter points
    [write_walkthrough] run with Python's numbers breaks the pages where
    the run on exact hundredths does, records the same commands on the
    same pages and writes the same file. *)
Theorem walkthrough_floats_exact_on_quarter_points :
  forall (U : UnicodeDB) (script' : list WalkthroughFloat.Call)
         (script : list Walkthrough.Call) (path : Path),
    Forall2 walk_same_call script' script ->
    (walk_span script <= pt (2 ^ 50))%Z ->
    WalkthroughFloat.write_walkthrough_from script' path
    = Walkthrough.write_walkthrough_from script path
    /\ match Walkthrough.lay_out script with
       | Ok l =>
           exists l',
             WalkthroughFloat.lay_out script' = Ok l'
             /\ WalkthroughFloat.builder l' = Walkthrough.builder l
             /\ exact_number (Walkthrough.y l) (WalkthroughFloat.y l')
       | Raise e => WalkthroughFloat.lay_out script' = Raise e
       end.
Proof. intros U script' script path. apply walk_build_agrees. Qed.

Lemma walkthrough_floats_exact_on_quarter_points_witness :
  @WalkthroughFloat.write_walkthrough_from ascii_tables
    [WalkthroughFloat.Gap (Float (float_literal 19025));
     WalkthroughFloat.Gap (Float (float_literal 51175));
     WalkthroughFloat.Paragraph (lit "a") 104;
     WalkthroughFloat.Gap (Int (-3));
     WalkthroughFloat.CodeLine (lit "b")]
    ["out.pdf"%string]
  = @Walkthrough.write_walkthrough_from ascii_tables
      [Walkthrough.Gap (dec 190 25); Walkthrough.Gap (dec 511 75);
       Walkthrough.Paragraph (lit "a") 104; Walkthrough.Gap (pt (-3));
       Walkthrough.CodeLine (lit "b")]
      ["out.pdf"%string].
Proof.
  refine (proj1 (walkthrough_floats_exact_on_quarter_points ascii_tables
                   [WalkthroughFloat.Gap (Float (float_literal 19025));
                    WalkthroughFloat.Gap (Float (float_literal 51175));
                    WalkthroughFloat.Paragraph (lit "a") 104;
                    WalkthroughFloat.Gap (Int (-3));
                    WalkthroughFloat.CodeLine (lit "b")]
                   [Walkthrough.Gap (dec 190 25); Walkthrough.Gap (dec 511 75);
                    Walkthrough.Paragraph (lit "a") 104; Walkthrough.Gap (pt (-3));
                    Walkthrough.CodeLine (lit "b")]
                   ["out.pdf"%string] _ _)).
  - constructor;
      [|constructor; [|constructor; [|constructor; [|constructor; [|constructor]]]]].
    + left. right. exists 761%Z. split; [vm_compute; reflexivity|reflexivity].
    + left. right. exists 2047%Z. split; [vm_compute; reflexivity|reflexivity].
    + split; reflexivity.
    + left. left. exists (-3)%Z. split; reflexivity.
    + reflexivity.
  - apply Z.leb_le. vm_compute. reflexivity.
Defined.

(** X26. Beyond whole quarter points the rounding of the floats shows.
    The gaps 206.2 and 511.8 add up to the 718 points between [TOP] and
    [BOTTOM], but the cursor ends below 42 and the one-page build raises
    the overflow error where exact arithmetic writes the file; after the
    gaps 504.1 and 255.9 a title is recorded at the height [-0.00]; and in
    the multi-page layout the gaps 190.2 and 511.8 leave less than the 58
    points a line needs, so that the line starts a second page where exact
    arithmetic keeps it on the first. *)
Theorem rounding_shows_beyond_quarter_points :
  @SummaryFloat.build_summary_pdf_from ascii_tables
    [SummaryFloat.Gap (Float (float_literal 20620));
     SummaryFloat.Gap (Float (float_literal 51180))] ["out.pdf"%string]
  = ([], Raise (RuntimeError overflow_message))
  /\ (exists pdf,
        @Summary.build_summary_pdf_from ascii_tables
          [Summary.Gap (dec 206 20); Summary.Gap (dec 511 80)] ["out.pdf"%string]
        = ([Mkdir []; WriteBytes ["out.pdf"%string] pdf], Ok tt))
  /\ (exists l,
        for_each (@SummaryFloat.perform ascii_tables)
          [SummaryFloat.Gap (Float (float_literal 50410));
           SummaryFloat.Gap (Float (float_literal 25590));
           SummaryFloat.Title (lit "x")]
          (SummaryFloat.Layout_init Summary.PDFBuilder_init) = Ok l
        /\ Summary.commands (SummaryFloat.builder l)
           = [lit "BT /F2 18.00 Tf 50.00 -0.00 Td (x) Tj ET"])
  /\ (exists l,
        @WalkthroughFloat.lay_out ascii_tables
          [WalkthroughFloat.Gap (Float (float_literal 19020));
           WalkthroughFloat.Gap (Float (float_literal 51180));
           WalkthroughFloat.Paragraph (lit "a") 104] = Ok l
        /\ Walkthrough.pages (WalkthroughFloat.builder l)
           = [[]; [lit "BT /F1 10.00 Tf 48.00 760.00 Td (a) Tj ET"]])
  /\ (exists l,
        @Walkthrough.lay_out ascii_tables
          [Walkthrough.Gap (dec 190 20); Walkthrough.Gap (dec 511 80);
           Walkthrough.Paragraph (lit "a") 104] = Ok l
        /\ Walkthrough.pages (Walkthrough.builder l)
           = [[lit "BT /F1 10.00 Tf 48.00 58.00 Td (a) Tj ET"]]).
Proof.
  split; [vm_compute; reflexivity|].
  split; [eexists; vm_compute; reflexivity|].
  split; [eexists; split; vm_compute; reflexivity|].
  split; eexists; split; vm_compute; reflexivity.
Qed.

(** * The builders as objects *)

(** ** Building an object twice *)

Lemma Ok_injective {A} (a b : A) : Ok a = Ok b -> a = b.
Proof. intros [= ->]. reflexivity. Qed.

Lemma summary_build_writes (b : Summary.PDFBuilder) (path : Path) :
  exists pdf pre post,
    file_layout 7 pdf
    /\ pdf = pre ++ Summary.content_stream b ++ post
    /\ Summary.build b path = ([Mkdir (parent path); WriteBytes path pdf], Ok tt).
Proof.
  destruct (summary_stream_in_file b) as (pdf & pre & post & Hpdf & Hcat).
  destruct (summary_assemble b) as (objects & _ & Hpdf' & Hlayout).
  rewrite Hpdf in Hpdf'. apply Ok_injective in Hpdf'.
  exists pdf, pre, post. split; [rewrite Hpdf'; exact Hlayout|].
  split; [exact Hcat|]. unfold Summary.build. rewrite Hpdf. reflexivity.
Qed.

Lemma walk_build_writes (b : Walkthrough.PDFBuilder) (path : Path) :
  exists pdf,
    file_layout (6 + 2 * length (Walkthrough.pages b)) pdf
    /\ (forall i commands,
           Walkthrough.pages b !! i = Some commands ->
           exists pre post,
             pdf = pre
                   ++ Walkthrough.content_stream (i + 1)
                        (length (Walkthrough.pages b)) commands
                   ++ post)
    /\ Walkthrough.build b path
       = ([Mkdir (parent path); WriteBytes path pdf], Ok tt).
Proof.
  destruct (walk_assemble b) as [Hpdf Hlayout].
  eexists. split; [exact Hlayout|]. split.
  - intros i commands Hi.
    destruct (walk_stream_in_file b i commands Hi)
      as (pdf & pre & post & Hpdf' & Hcat).
    rewrite Hpdf in Hpdf'. apply Ok_injective in Hpdf'.
    exists pre, post. rewrite Hpdf'. exact Hcat.
  - unfold Walkthrough.build. rewrite Hpdf. reflexivity.
Qed.

(** C9. Building twice from the same builder state writes the same bytes.
    [build] leaves the world as it found it but for its two calls on the
    file system: the builder objects, the clock and the git command are as
    they were, so that a second build of the object writes the same bytes
    again; and the bytes are the same in every other world in which the
    object holds the same commands, whatever its clock shows, whatever
    other objects it has and whatever was written before.  The bytes are a
    well-formed file that holds the content stream of each page. *)
Theorem assembly_is_repeatable :
  (forall (w w' : World) (self : nat) (b : Summary.PDFBuilder)
          (path1 path2 : Path),
      summary_objects w !! self = Some b ->
      summary_objects w' !! self = Some b ->
      exists pdf pre post,
        file_layout 7 pdf
        /\ pdf = pre ++ Summary.content_stream b ++ post
        /\ SummaryObject.build self path1 w
           = (stored [Mkdir (parent path1); WriteBytes path1 pdf] w, Ok tt)
        /\ and_then (SummaryObject.build self path1)
             (fun _ => SummaryObject.build self path2) w
           = (stored [Mkdir (parent path2); WriteBytes path2 pdf]
                (stored [Mkdir (parent path1); WriteBytes path1 pdf] w), Ok tt)
        /\ SummaryObject.build self path2 w'
           = (stored [Mkdir (parent path2); WriteBytes path2 pdf] w', Ok tt))
  /\ (forall (w w' : World) (self : nat) (b : Walkthrough.PDFBuilder)
             (path1 path2 : Path),
         walk_objects w !! self = Some b ->
         walk_objects w' !! self = Some b ->
         exists pdf,
           file_layout (6 + 2 * length (Walkthrough.pages b)) pdf
           /\ (forall i commands,
                  Walkthrough.pages b !! i = Some commands ->
                  exists pre post,
                    pdf = pre
                          ++ Walkthrough.content_stream (i + 1)
                               (length (Walkthrough.pages b)) commands
                          ++ post)
           /\ WalkthroughObject.build self path1 w
              = (stored [Mkdir (parent path1); WriteBytes path1 pdf] w, Ok tt)
           /\ and_then (WalkthroughObject.build self path1)
                (fun _ => WalkthroughObject.build self path2) w
              = (stored [Mkdir (parent path2); WriteBytes path2 pdf]
                   (stored [Mkdir (parent path1); WriteBytes path1 pdf] w),
                 Ok tt)
           /\ WalkthroughObject.build self path2 w'
              = (stored [Mkdir (parent path2); WriteBytes path2 pdf] w', Ok tt)).
Proof.
  split; intros w w' self b path1 path2 Hw Hw'.
  - destruct (summary_build_writes b path1) as (pdf & pre & post & Hlayout & Hcat & H1).
    destruct (summary_build_writes b path2) as (pdf2 & pre2 & post2 & _ & _ & H2).
    assert (Hsame : pdf2 = pdf).
    { unfold Summary.build in H1, H2.
      destruct (Summary.assemble b) as [p|e]; [|discriminate H1].
      apply (f_equal fst) in H1, H2. cbn [fst] in H1, H2. congruence. }
    subst pdf2.
    exists pdf, pre, post. split; [exact Hlayout|]. split; [exact Hcat|].
    assert (Hb1 : SummaryObject.build self path1 w
                  = (stored [Mkdir (parent path1); WriteBytes path1 pdf] w, Ok tt))
      by (unfold SummaryObject.build; rewrite Hw, H1; reflexivity).
    split; [exact Hb1|]. split.
    + unfold and_then. rewrite Hb1.
      unfold SummaryObject.build. cbn [stored summary_objects].
      rewrite Hw, H2. reflexivity.
    + unfold SummaryObject.build. rewrite Hw', H2. reflexivity.
  - destruct (walk_build_writes b path1) as (pdf & Hlayout & Hcat & H1).
    destruct (walk_build_writes b path2) as (pdf2 & _ & _ & H2).
    assert (Hsame : pdf2 = pdf).
    { unfold Walkthrough.build in H1, H2.
      destruct (Walkthrough.assemble b) as [p|e]; [|discriminate H1].
      apply (f_equal fst) in H1, H2. cbn [fst] in H1, H2. congruence. }
    subst pdf2.
    exists pdf. split; [exact Hlayout|]. split; [exact Hcat|].
    assert (Hb1 : WalkthroughObject.build self path1 w
                  = (stored [Mkdir (parent path1); WriteBytes path1 pdf] w, Ok tt))
      by (unfold WalkthroughObject.build; rewrite Hw, H1; reflexivity).
    split; [exact Hb1|]. split.
    + unfold and_then. rewrite Hb1.
      unfold WalkthroughObject.build. cbn [stored walk_objects].
      rewrite Hw, H2. reflexivity.
    + unfold WalkthroughObject.build. rewrite Hw', H2. reflexivity.
Qed.

Lemma assembly_is_repeatable_witness :
  exists pdf,
    SummaryObject.build 0 ["out"; "a.pdf"]%string
      {| summary_objects :=
           {[ 0%nat := Summary.text Summary.PDFBuilder_init (pt 50) (pt 760)
                         (lit "Hi") (lit "F1") (pt 10) ]};
         walk_objects := ∅;
         today := lit "2024-01-01"; now := lit "2024-01-01 09:00";
         git := Failed; storage := [] |}
    = (stored [Mkdir ["out"%string]; WriteBytes ["out"; "a.pdf"]%string pdf]
         {| summary_objects :=
              {[ 0%nat := Summary.text Summary.PDFBuilder_init (pt 50) (pt 760)
                            (lit "Hi") (lit "F1") (pt 10) ]};
            walk_objects := ∅;
            today := lit "2024-01-01"; now := lit "2024-01-01 09:00";
            git := Failed; storage := [] |}, Ok tt)
    /\ SummaryObject.build 0 ["b.pdf"%string]
         {| summary_objects :=
              <[ 1%nat := Summary.PDFBuilder_init ]>
                {[ 0%nat := Summary.text Summary.PDFBuilder_init (pt 50)
                              (pt 760) (lit "Hi") (lit "F1") (pt 10) ]};
            walk_objects := {[ 0%nat := Walkthrough.PDFBuilder_init ]};
            today := lit "2031-12-31"; now := lit "2031-12-31 23:59";
            git := Completed (lit "abc1234");
            storage := [Mkdir ["tmp"%string]] |}
       = (stored [Mkdir []; WriteBytes ["b.pdf"%string] pdf]
            {| summary_objects :=
                 <[ 1%nat := Summary.PDFBuilder_init ]>
                   {[ 0%nat := Summary.text Summary.PDFBuilder_init (pt 50)
                                 (pt 760) (lit "Hi") (lit "F1") (pt 10) ]};
               walk_objects := {[ 0%nat := Walkthrough.PDFBuilder_init ]};
               today := lit "2031-12-31"; now := lit "2031-12-31 23:59";
               git := Completed (lit "abc1234");
               storage := [Mkdir ["tmp"%string]] |}, Ok tt).
Proof.
  destruct (proj1 assembly_is_repeatable
              {| summary_objects :=
                   {[ 0%nat := Summary.text Summary.PDFBuilder_init (pt 50)
                                 (pt 760) (lit "Hi") (lit "F1") (pt 10) ]};
                 walk_objects := ∅;
                 today := lit "2024-01-01"; now := lit "2024-01-01 09:00";
                 git := Failed; storage := [] |}
              {| summary_objects :=
                   <[ 1%nat := Summary.PDFBuilder_init ]>
                     {[ 0%nat := Summary.text Summary.PDFBuilder_init (pt 50)
                                   (pt 760) (lit "Hi") (lit "F1") (pt 10) ]};
                 walk_objects := {[ 0%nat := Walkthrough.PDFBuilder_init ]};
                 today := lit "2031-12-31"; now := lit "2031-12-31 23:59";
                 git := Completed (lit "abc1234");
                 storage := [Mkdir ["tmp"%string]] |}
              0%nat
              (Summary.text Summary.PDFBuilder_init (pt 50) (pt 760)
                 (lit "Hi") (lit "F1") (pt 10))
              ["out"; "a.pdf"]%string ["b.pdf"%string])
    as (pdf & pre & post & _ & _ & H1 & _ & H2).
  - reflexivity.
  - reflexivity.
  - exists pdf. split; [exact H1|exact H2].
Defined.

(** * The scripts as processes *)

Lemma set_summary_object_twice b st st' w :
  set_summary_object b st (set_summary_object b st' w)
  = set_summary_object b st w.
Proof.
  unfold set_summary_object. cbn. rewrite insert_insert_eq. reflexivity.
Qed.

Lemma set_walk_object_twice b st st' w :
  set_walk_object b st (set_walk_object b st' w) = set_walk_object b st w.
Proof.
  unfold set_walk_object. cbn. rewrite insert_insert_eq. reflexivity.
Qed.

Lemma stored_nothing w : stored [] w = w.
Proof. destruct w. unfold stored. cbn. rewrite app_nil_r. reflexivity. Qed.

Section SummaryProcessFollows.
Context {U : UnicodeDB}.
Variable w0 : World.
Variable b : nat.

Lemma summary_text_in_place st x y t font size :
  SummaryObject.text b x y t font size (set_summary_object b st w0)
  = (set_summary_object b (Summary.text st x y t font size) w0, Ok tt).
Proof.
  unfold SummaryObject.text. cbn [summary_objects set_summary_object].
  rewrite lookup_insert_eq.
  change {| summary_objects := <[b:=st]> (summary_objects w0);
            walk_objects := walk_objects w0; today := today w0;
            now := now w0; git := git w0; storage := storage w0 |}
    with (set_summary_object b st w0).
  rewrite set_summary_object_twice. reflexivity.
Qed.

(** A line, checked or not. *)
Lemma summary_draw_follows l (checked : bool) x t font size advance :
  summary_follows w0 b
    (summary_exec l (SDraw checked x t font size advance))
    (and_then
       (if checked
        then SummaryProcess._ensure_room
               {| SummaryProcess.builder := b;
                  SummaryProcess.y := Summary.y l |} Summary.BOTTOM
        else ret tt)
       (fun _ =>
        and_then (SummaryObject.text b x (Summary.y l) t font size) (fun _ =>
        ret {| SummaryProcess.builder := b;
               SummaryProcess.y := (Summary.y l - advance)%Z |}))
       (set_summary_object b (Summary.builder l) w0)).
Proof.
  unfold summary_follows, summary_exec, and_then.
  destruct checked.
  - unfold SummaryProcess._ensure_room, Summary._ensure_room.
    cbn [SummaryProcess.y].
    destruct (Summary.y l <? Summary.BOTTOM)%Z; cbn [rbind raise ret].
    + exists (Summary.builder l). split; reflexivity.
    + rewrite summary_text_in_place. eexists. split; [reflexivity|].
      split; reflexivity.
  - cbn [rbind ret]. rewrite summary_text_in_place.
    eexists. split; [reflexivity|]. split; reflexivity.
Qed.

Lemma summary_loop_follows {A}
    (body : Summary.Layout -> A -> result Summary.Layout)
    (body' : SummaryProcess.Layout -> A -> Program SummaryProcess.Layout) :
  (forall l x,
      summary_follows w0 b (body l x)
        (body' {| SummaryProcess.builder := b;
                  SummaryProcess.y := Summary.y l |} x
           (set_summary_object b (Summary.builder l) w0))) ->
  forall xs l,
    summary_follows w0 b (for_each body xs l)
      (for_each_call body' xs
         {| SummaryProcess.builder := b; SummaryProcess.y := Summary.y l |}
         (set_summary_object b (Summary.builder l) w0)).
Proof.
  intros Hbody xs. induction xs as [|x xs IH]; intros l.
  - cbn [for_each for_each_call]. exists (Summary.builder l).
    split; [reflexivity|]. split; reflexivity.
  - cbn [for_each for_each_call]. unfold and_then.
    destruct (Hbody l x) as (st & Hw & Hr).
    destruct (body' _ x _) as [w1 r1]. cbn [fst snd] in Hw, Hr. subst w1.
    destruct (body l x) as [l1|e]; cbn [rbind].
    + destruct Hr as [-> ->]. apply IH.
    + rewrite Hr. exists st. split; reflexivity.
Qed.

Lemma summary_perform_follows l c :
  summary_follows w0 b (Summary.perform l c)
    (SummaryProcess.perform
       {| SummaryProcess.builder := b; SummaryProcess.y := Summary.y l |} c
       (set_summary_object b (Summary.builder l) w0)).
Proof.
  destruct c as [t|t|t|t w|t w|pts];
    cbn [Summary.perform SummaryProcess.perform].
  - apply (summary_draw_follows l false Summary.LEFT t (lit "F2") (pt 18) (pt 22)).
  - apply (summary_draw_follows l false Summary.LEFT t (lit "F3") (dec 9 50) (pt 16)).
  - apply (summary_draw_follows l false Summary.LEFT t (lit "F2") (dec 11 50) (pt 14)).
  - unfold Summary.paragraph, SummaryProcess.paragraph, and_then, lift.
    destruct (wrap t w) as [lines|e]; cbn [rbind].
    + apply summary_loop_follows. intros m line.
      apply (summary_draw_follows m true Summary.LEFT line (lit "F1")
               (dec 9 50) (pt 12)).
    + exists (Summary.builder l). split; reflexivity.
  - unfold Summary.bullet, SummaryProcess.bullet, and_then, lift.
    destruct (wrap t w) as [[|first others]|e]; cbn [rbind].
    + exists (Summary.builder l). split; [reflexivity|]. split; reflexivity.
    + pose proof (summary_draw_follows l true (Summary.LEFT + pt 2)%Z
                    (lit "- " ++ first) (lit "F1") (dec 9 50) (pt 12))
        as (st & Hw & Hr).
      change (SummaryProcess.bullet_first
                {| SummaryProcess.builder := b;
                   SummaryProcess.y := Summary.y l |} first
                (set_summary_object b (Summary.builder l) w0))
        with (and_then
                (SummaryProcess._ensure_room
                   {| SummaryProcess.builder := b;
                      SummaryProcess.y := Summary.y l |} Summary.BOTTOM)
                (fun _ =>
                 and_then (SummaryObject.text b (Summary.LEFT + pt 2)%Z
                             (Summary.y l) (lit "- " ++ first) (lit "F1")
                             (dec 9 50)) (fun _ =>
                 ret {| SummaryProcess.builder := b;
                        SummaryProcess.y := (Summary.y l - pt 12)%Z |}))
                (set_summary_object b (Summary.builder l) w0)).
      destruct (and_then _ _ _) as [w1 r1]. cbn [fst snd] in Hw, Hr. subst w1.
      change (Summary.bullet_first l first)
        with (summary_exec l (SDraw true (Summary.LEFT + pt 2)%Z
                                (lit "- " ++ first) (lit "F1") (dec 9 50)
                                (pt 12))).
      destruct (summary_exec l _) as [l1|e]; cbn [rbind].
      * destruct Hr as [-> ->]. apply summary_loop_follows. intros m line.
        apply (summary_draw_follows m true (Summary.LEFT + pt 14)%Z line
                 (lit "F1") (dec 9 50) (pt 12)).
      * rewrite Hr. exists st. split; reflexivity.
    + exists (Summary.builder l). split; reflexivity.
  - exists (Summary.builder l). split; [reflexivity|]. split; reflexivity.
Qed.

End SummaryProcessFollows.

Lemma summary_process_follows {U : UnicodeDB} (w : World) (path : Path) :
  exists st,
    SummaryProcess.build_summary_pdf path w
    = (stored (fst (Summary.build_summary_pdf (today w) path))
         (set_summary_object (fresh (dom (summary_objects w))) st w),
       snd (Summary.build_summary_pdf (today w) path)).
Proof.
  set (b := fresh (dom (summary_objects w))).
  unfold SummaryProcess.build_summary_pdf, Summary.build_summary_pdf,
    Summary.build_summary_pdf_from.
  unfold and_then at 1. unfold SummaryObject.PDFBuilder_new. fold b.
  unfold and_then at 1. unfold SummaryProcess.read_today.
  cbn [today set_summary_object].
  change {| summary_objects := <[b:=Summary.PDFBuilder_init]> (summary_objects w);
            walk_objects := walk_objects w; today := today w;
            now := now w; git := git w; storage := storage w |}
    with (set_summary_object b
            (Summary.builder (Summary.Layout_init Summary.PDFBuilder_init)) w).
  unfold and_then.
  destruct (summary_loop_follows w b Summary.perform SummaryProcess.perform
              (summary_perform_follows w b) (Summary.summary_calls (today w))
              (Summary.Layout_init Summary.PDFBuilder_init))
    as (st & Hw & Hr).
  change (SummaryProcess.Layout_new b)
    with {| SummaryProcess.builder := b;
            SummaryProcess.y :=
              Summary.y (Summary.Layout_init Summary.PDFBuilder_init) |}.
  destruct (for_each_call SummaryProcess.perform _ _ _) as [w1 r1].
  cbn [fst snd] in Hw, Hr. subst w1.
  destruct (for_each Summary.perform _ _) as [l|e].
  - destruct Hr as [-> ->]. cbn [SummaryProcess.y].
    destruct (Summary.y l <? Summary.BOTTOM)%Z.
    + exists (Summary.builder l). cbn [fst snd raise]. rewrite stored_nothing.
      reflexivity.
    + exists (Summary.builder l). unfold SummaryObject.build.
      cbn [summary_objects set_summary_object]. rewrite lookup_insert_eq.
      destruct (Summary.build (Summary.builder l) path) as [acts r].
      reflexivity.
  - rewrite Hr. exists st. cbn [fst snd]. rewrite stored_nothing. reflexivity.
Qed.

Section WalkProcessFollows.
Context {U : UnicodeDB}.
Variable w0 : World.
Variable b : nat.

Lemma walk_text_in_place st x y t font size :
  WalkthroughObject.text b x y t font size (set_walk_object b st w0)
  = match Walkthrough.text st x y t font size with
    | Ok st' => (set_walk_object b st' w0, Ok tt)
    | Raise e => (set_walk_object b st w0, Raise e)
    end.
Proof.
  unfold WalkthroughObject.text. cbn [walk_objects set_walk_object].
  rewrite lookup_insert_eq.
  change {| summary_objects := summary_objects w0;
            walk_objects := <[b:=st]> (walk_objects w0); today := today w0;
            now := now w0; git := git w0; storage := storage w0 |}
    with (set_walk_object b st w0).
  destruct (Walkthrough.text st x y t font size); [|reflexivity].
  rewrite set_walk_object_twice. reflexivity.
Qed.

Lemma walk_next_page_in_place l required :
  WalkthroughProcess._next_page_if_needed
    {| WalkthroughProcess.builder := b;
       WalkthroughProcess.y := Walkthrough.y l |} required
    (set_walk_object b (Walkthrough.builder l) w0)
  = (set_walk_object b
       (Walkthrough.builder (Walkthrough._next_page_if_needed l required)) w0,
     Ok {| WalkthroughProcess.builder := b;
           WalkthroughProcess.y :=
             Walkthrough.y (Walkthrough._next_page_if_needed l required) |}).
Proof.
  unfold WalkthroughProcess._next_page_if_needed,
    Walkthrough._next_page_if_needed. cbn [WalkthroughProcess.y].
  destruct (Walkthrough.y l - required <? Walkthrough.BOTTOM)%Z;
    [|reflexivity].
  unfold and_then, WalkthroughObject.new_page.
  cbn [walk_objects set_walk_object]. rewrite lookup_insert_eq.
  change {| summary_objects := summary_objects w0;
            walk_objects := <[b:=Walkthrough.builder l]> (walk_objects w0);
            today := today w0; now := now w0; git := git w0;
            storage := storage w0 |}
    with (set_walk_object b (Walkthrough.builder l) w0).
  rewrite set_walk_object_twice. reflexivity.
Qed.

(** A line: room is made, the line is drawn, the cursor moves. *)
Lemma walk_draw_follows l required x t font size advance :
  walk_follows w0 b
    (walk_exec l (WDraw required x t font size advance))
    (and_then
       (WalkthroughProcess._next_page_if_needed
          {| WalkthroughProcess.builder := b;
             WalkthroughProcess.y := Walkthrough.y l |} required)
       (fun self =>
        and_then (WalkthroughObject.text (WalkthroughProcess.builder self) x
                    (WalkthroughProcess.y self) t font size) (fun _ =>
        ret {| WalkthroughProcess.builder := WalkthroughProcess.builder self;
               WalkthroughProcess.y :=
                 (WalkthroughProcess.y self - advance)%Z |}))
       (set_walk_object b (Walkthrough.builder l) w0)).
Proof.
  unfold walk_follows, walk_exec, and_then.
  rewrite walk_next_page_in_place. cbv zeta.
  set (m := Walkthrough._next_page_if_needed l required).
  cbn [WalkthroughProcess.builder WalkthroughProcess.y].
  rewrite walk_text_in_place.
  destruct (Walkthrough.text (Walkthrough.builder m) x (Walkthrough.y m) t
              font size) as [st'|e]; cbn [rbind ret].
  - exists st'. split; [reflexivity|]. split; reflexivity.
  - exists (Walkthrough.builder m). split; reflexivity.
Qed.

Lemma walk_loop_follows {A}
    (body : Walkthrough.Layout -> A -> result Walkthrough.Layout)
    (body' : WalkthroughProcess.Layout -> A -> Program WalkthroughProcess.Layout) :
  (forall l x,
      walk_follows w0 b (body l x)
        (body' {| WalkthroughProcess.builder := b;
                  WalkthroughProcess.y := Walkthrough.y l |} x
           (set_walk_object b (Walkthrough.builder l) w0))) ->
  forall xs l,
    walk_follows w0 b (for_each body xs l)
      (for_each_call body' xs
         {| WalkthroughProcess.builder := b;
            WalkthroughProcess.y := Walkthrough.y l |}
         (set_walk_object b (Walkthrough.builder l) w0)).
Proof.
  intros Hbody xs. induction xs as [|x xs IH]; intros l.
  - cbn [for_each for_each_call]. exists (Walkthrough.builder l).
    split; [reflexivity|]. split; reflexivity.
  - cbn [for_each for_each_call]. unfold and_then.
    destruct (Hbody l x) as (st & Hw & Hr).
    destruct (body' _ x _) as [w1 r1]. cbn [fst snd] in Hw, Hr. subst w1.
    destruct (body l x) as [l1|e]; cbn [rbind].
    + destruct Hr as [-> ->]. apply IH.
    + rewrite Hr. exists st. split; reflexivity.
Qed.

Lemma walk_perform_follows l c :
  walk_follows w0 b (Walkthrough.perform l c)
    (WalkthroughProcess.perform
       {| WalkthroughProcess.builder := b;
          WalkthroughProcess.y := Walkthrough.y l |} c
       (set_walk_object b (Walkthrough.builder l) w0)).
Proof.
  destruct c as [t|t|t|t|t w|t w|t|pts];
    cbn [Walkthrough.perform WalkthroughProcess.perform].
  - apply (walk_draw_follows l (pt 26) Walkthrough.LEFT t (lit "F2") (pt 19) (pt 24)).
  - apply (walk_draw_follows l (pt 15) Walkthrough.LEFT t (lit "F3") (pt 10) (pt 15)).
  - apply (walk_draw_follows l (pt 18) Walkthrough.LEFT t (lit "F2") (pt 13) (pt 16)).
  - apply (walk_draw_follows l (pt 15) Walkthrough.LEFT t (lit "F2") (pt 11) (pt 14)).
  - unfold Walkthrough.paragraph, WalkthroughProcess.paragraph, and_then, lift.
    destruct (wrap t w) as [lines|e]; cbn [rbind].
    + apply walk_loop_follows. intros m line.
      apply (walk_draw_follows m (pt 12) Walkthrough.LEFT line (lit "F1")
               (pt 10) (pt 12)).
    + exists (Walkthrough.builder l). split; reflexivity.
  - unfold Walkthrough.bullet, WalkthroughProcess.bullet, and_then, lift.
    destruct (wrap t w) as [[|first others]|e]; cbn [rbind].
    + exists (Walkthrough.builder l). split; [reflexivity|]. split; reflexivity.
    + pose proof (walk_draw_follows l (pt 12) (Walkthrough.LEFT + pt 2)%Z
                    (lit "- " ++ first) (lit "F1") (pt 10) (pt 12))
        as (st & Hw & Hr).
      change (WalkthroughProcess.bullet_first
                {| WalkthroughProcess.builder := b;
                   WalkthroughProcess.y := Walkthrough.y l |} first
                (set_walk_object b (Walkthrough.builder l) w0))
        with (and_then
                (WalkthroughProcess._next_page_if_needed
                   {| WalkthroughProcess.builder := b;
                      WalkthroughProcess.y := Walkthrough.y l |} (pt 12))
                (fun self =>
                 and_then (WalkthroughObject.text
                             (WalkthroughProcess.builder self)
                             (Walkthrough.LEFT + pt 2)%Z
                             (WalkthroughProcess.y self) (lit "- " ++ first)
                             (lit "F1") (pt 10)) (fun _ =>
                 ret {| WalkthroughProcess.builder :=
                          WalkthroughProcess.builder self;
                        WalkthroughProcess.y :=
                          (WalkthroughProcess.y self - pt 12)%Z |}))
                (set_walk_object b (Walkthrough.builder l) w0)).
      destruct (and_then _ _ _) as [w1 r1]. cbn [fst snd] in Hw, Hr. subst w1.
      change (Walkthrough.bullet_first l first)
        with (walk_exec l (WDraw (pt 12) (Walkthrough.LEFT + pt 2)%Z
                             (lit "- " ++ first) (lit "F1") (pt 10) (pt 12))).
      destruct (walk_exec l _) as [l1|e]; cbn [rbind].
      * destruct Hr as [-> ->]. apply walk_loop_follows. intros m line.
        apply (walk_draw_follows m (pt 12) (Walkthrough.LEFT + pt 16)%Z line
                 (lit "F1") (pt 10) (pt 12)).
      * rewrite Hr. exists st. split; reflexivity.
    + exists (Walkthrough.builder l). split; reflexivity.
  - apply (walk_draw_follows l (pt 12) (Walkthrough.LEFT + pt 8)%Z t (lit "F4")
             (dec 9 40) (pt 12)).
  - exists (Walkthrough.builder l). split; [reflexivity|]. split; reflexivity.
Qed.

End WalkProcessFollows.

Lemma walk_process_follows {U : UnicodeDB} (w : World) (path : Path) :
  exists st,
    WalkthroughProcess.write_walkthrough path w
    = (stored (fst (Walkthrough.write_walkthrough (git_head (git w)) (now w)
                      path))
         (set_walk_object (fresh (dom (walk_objects w))) st w),
       snd (Walkthrough.write_walkthrough (git_head (git w)) (now w) path)).
Proof.
  set (b := fresh (dom (walk_objects w))).
  unfold WalkthroughProcess.write_walkthrough, Walkthrough.write_walkthrough,
    Walkthrough.write_walkthrough_from, Walkthrough.lay_out.
  unfold and_then at 1. unfold WalkthroughObject.PDFBuilder_new. fold b.
  unfold and_then at 1. unfold WalkthroughProcess.read_now.
  unfold and_then at 1. unfold WalkthroughProcess.read_git_head.
  cbn [now git set_walk_object].
  change {| summary_objects := summary_objects w;
            walk_objects := <[b:=Walkthrough.PDFBuilder_init]> (walk_objects w);
            today := today w; now := now w; git := git w;
            storage := storage w |}
    with (set_walk_object b
            (Walkthrough.builder
               (Walkthrough.Layout_init Walkthrough.PDFBuilder_init)) w).
  unfold and_then.
  destruct (walk_loop_follows w b Walkthrough.perform WalkthroughProcess.perform
              (walk_perform_follows w b)
              (Walkthrough.walkthrough_calls (git_head (git w)) (now w))
              (Walkthrough.Layout_init Walkthrough.PDFBuilder_init))
    as (st & Hw & Hr).
  change (WalkthroughProcess.Layout_new b)
    with {| WalkthroughProcess.builder := b;
            WalkthroughProcess.y :=
              Walkthrough.y
                (Walkthrough.Layout_init Walkthrough.PDFBuilder_init) |}.
  destruct (for_each_call WalkthroughProcess.perform _ _ _) as [w1 r1].
  cbn [fst snd] in Hw, Hr. subst w1.
  destruct (for_each Walkthrough.perform _ _) as [l|e].
  - destruct Hr as [-> ->].
    exists (Walkthrough.builder l). unfold WalkthroughObject.build.
    cbn [walk_objects set_walk_object]. rewrite lookup_insert_eq.
    destruct (Walkthrough.build (Walkthrough.builder l) path) as [acts r].
    reflexivity.
  - rewrite Hr. exists st. cbn [fst snd]. rewrite stored_nothing. reflexivity.
Qed.

(** X27. The two scripts as they run.  The builder is a new object, the
    layout fills it through its own reference to it, the date or time is
    read from the clock and the commit from the git command, and [build]
    is called on the builder.  What the process does to the file system
    and what it returns or raises is what the function of these texts
    does; nothing else in the world changes but the new builder object:
    the other objects, the clock and the git command are as before. *)
Theorem processes_follow_the_functions :
  forall (U : UnicodeDB) (w : World) (path : Path),
    (exists st,
       SummaryProcess.build_summary_pdf path w
       = (stored (fst (Summary.build_summary_pdf (today w) path))
            (set_summary_object (fresh (dom (summary_objects w))) st w),
          snd (Summary.build_summary_pdf (today w) path)))
    /\ (exists st,
          WalkthroughProcess.write_walkthrough path w
          = (stored (fst (Walkthrough.write_walkthrough (git_head (git w))
                            (now w) path))
               (set_walk_object (fresh (dom (walk_objects w))) st w),
             snd (Walkthrough.write_walkthrough (git_head (git w)) (now w)
                    path))).
Proof.
  intros U w path. split.
  - apply summary_process_follows.
  - apply walk_process_follows.
Qed.
